(** * Plan execution engine of ui-state-capture: a shallow embedding

    The development follows [src/core/executor.ts].  The browser page, the
    DOM-snapshot collaborator and the planner are external: they are an
    interface ([Browser]) over an abstract world, every awaited call being a
    transition of that world.  The Node file system is a log of writes, the
    variable [lastSelectorUsed] is passed explicitly. *)

From Stdlib Require Import String Ascii List ZArith Lia Bool Arith.
From Stdlib Require Import DecimalString.
Import ListNotations.
Local Open Scope string_scope.
Local Open Scope Z_scope.

Set Implicit Arguments.
Set Warnings "-register-all".

(* ===================================================================== *)
(** ** JavaScript values used by the executor *)
(* ===================================================================== *)

Module Js.

(** A string is the UTF-8 text of a JavaScript string.  The white space
    of [String.prototype.trim] and of the pattern [\s] is the same set of
    characters.  Six of them are one byte long: tab, line feed, vertical
    tab, form feed, carriage return and space. *)
Definition isWhite (c : ascii) : bool :=
  let n := nat_of_ascii c in
  (Nat.eqb n 32 || (Nat.leb 9 n && Nat.leb n 13))%bool.

(** One is two bytes long: U+00A0. *)
Definition white2 (a b : ascii) : bool :=
  (Nat.eqb (nat_of_ascii a) 194 && Nat.eqb (nat_of_ascii b) 160)%bool.

(** The others are three bytes long: U+1680, U+2000 to U+200A, U+2028,
    U+2029, U+202F, U+205F, U+3000 and U+FEFF. *)
Definition white3 (a b c : ascii) : bool :=
  let a := nat_of_ascii a in
  let b := nat_of_ascii b in
  let c := nat_of_ascii c in
  ((Nat.eqb a 225 && Nat.eqb b 154 && Nat.eqb c 128)
   || (Nat.eqb a 226 && Nat.eqb b 128
       && ((Nat.leb 128 c && Nat.leb c 138) || Nat.eqb c 168
           || Nat.eqb c 169 || Nat.eqb c 175))
   || (Nat.eqb a 226 && Nat.eqb b 129 && Nat.eqb c 159)
   || (Nat.eqb a 227 && Nat.eqb b 128 && Nat.eqb c 128)
   || (Nat.eqb a 239 && Nat.eqb b 187 && Nat.eqb c 191))%bool.

(** What follows the white-space character a string begins with, if it
    begins with one. *)
Definition afterWhite (s : string) : option string :=
  match s with
  | String a r1 =>
      if isWhite a then Some r1
      else
        match r1 with
        | String b r2 =>
            if white2 a b then Some r2
            else
              match r2 with
              | String c r3 => if white3 a b c then Some r3 else None
              | EmptyString => None
              end
        | EmptyString => None
        end
  | EmptyString => None
  end.

Fixpoint trimStart (s : string) : string :=
  match s with
  | String a r1 =>
      if isWhite a then trimStart r1
      else
        match r1 with
        | String b r2 =>
            if white2 a b then trimStart r2
            else
              match r2 with
              | String c r3 => if white3 a b c then trimStart r3 else s
              | EmptyString => s
              end
        | EmptyString => s
        end
  | EmptyString => EmptyString
  end.

Fixpoint rev_onto (s acc : string) : string :=
  match s with
  | String c r => rev_onto r (String c acc)
  | EmptyString => acc
  end.

(** The bytes of a string in the opposite order. *)
Definition rev (s : string) : string := rev_onto s EmptyString.

(** The same on the bytes in the opposite order: what precedes the
    white-space character a string ends with. *)
Definition afterWhiteRev (s : string) : option string :=
  match s with
  | String a r1 =>
      if isWhite a then Some r1
      else
        match r1 with
        | String b r2 =>
            if white2 b a then Some r2
            else
              match r2 with
              | String c r3 => if white3 c b a then Some r3 else None
              | EmptyString => None
              end
        | EmptyString => None
        end
  | EmptyString => None
  end.

Fixpoint trimStartRev (s : string) : string :=
  match s with
  | String a r1 =>
      if isWhite a then trimStartRev r1
      else
        match r1 with
        | String b r2 =>
            if white2 b a then trimStartRev r2
            else
              match r2 with
              | String c r3 => if white3 c b a then trimStartRev r3 else s
              | EmptyString => s
              end
        | EmptyString => s
        end
  | EmptyString => EmptyString
  end.

Definition trimEnd (s : string) : string := rev (trimStartRev (rev s)).

Definition trim (s : string) : string := trimEnd (trimStart s).

(** [s.length]: the number of UTF-16 code units of the text.  A character
    of four bytes is two units long, any other character one. *)
Fixpoint utf16Length (s : string) : nat :=
  match s with
  | String c r =>
      let n := nat_of_ascii c in
      ((if (Nat.leb 128 n && Nat.leb n 191)%bool then 0
        else if Nat.leb 240 n then 2 else 1) + utf16Length r)%nat
  | EmptyString => 0%nat
  end.

(** In a condition a string counts as true when it is not empty. *)
Definition truthy (s : string) : bool :=
  match s with EmptyString => false | String _ _ => true end.

(** The test [x.trim().length > 0] of a string [x]. *)
Definition nonBlank (s : string) : bool := truthy (trim s).

Definition lowerChar (c : ascii) : ascii :=
  let n := nat_of_ascii c in
  if (Nat.leb 65 n && Nat.leb n 90)%bool then ascii_of_nat (n + 32) else c.

(** The letters of ASCII made small, every other byte kept: the folding
    of a pattern with the flag [i] and without the flag [u], which never
    lets a character outside ASCII match a letter of ASCII. *)
Fixpoint lowerAscii (s : string) : string :=
  match s with
  | String c r => String (lowerChar c) (lowerAscii r)
  | EmptyString => EmptyString
  end.

(** The two characters outside ASCII whose small form has a letter of
    ASCII: U+0130, which becomes i followed by U+0307, and U+212A, which
    becomes k. *)
Definition isDottedI (a b : ascii) : bool :=
  (Nat.eqb (nat_of_ascii a) 196 && Nat.eqb (nat_of_ascii b) 176)%bool.

Definition isKelvin (a b c : ascii) : bool :=
  (Nat.eqb (nat_of_ascii a) 226 && Nat.eqb (nat_of_ascii b) 132
   && Nat.eqb (nat_of_ascii c) 170)%bool.

Definition dotAbove : string :=
  String (ascii_of_nat 204) (String (ascii_of_nat 135) EmptyString).

(** [s.toLowerCase()], exact on the letters of ASCII and on the two
    characters above.  The other characters outside ASCII are kept as
    they are; their small forms have no character of ASCII, so the result
    has the letters, digits and signs of ASCII that the result of
    JavaScript has, at the same places between the same numbers of other
    characters, and a search for a text of ASCII in it, or a test of its
    first letter, gives what JavaScript gives. *)
Fixpoint toLowerCase (s : string) : string :=
  match s with
  | String a r1 =>
      match r1 with
      | String b r2 =>
          if isDottedI a b then String "i" (dotAbove ++ toLowerCase r2)
          else
            match r2 with
            | String c r3 =>
                if isKelvin a b c then String "k" (toLowerCase r3)
                else String (lowerChar a) (toLowerCase r1)
            | EmptyString => String (lowerChar a) (toLowerCase r1)
            end
      | EmptyString => String (lowerChar a) (toLowerCase r1)
      end
  | EmptyString => EmptyString
  end.

(** A text of ASCII. *)
Definition isAscii (s : string) : bool :=
  forallb (fun c => Nat.ltb (nat_of_ascii c) 128) (list_ascii_of_string s).

(** [s.includes(sub)] *)
Fixpoint includes (sub s : string) : bool :=
  (prefix sub s ||
   match s with
   | String _ r => includes sub r
   | EmptyString => false
   end)%bool.

(** [replace] with the pattern of the two quote characters, double and
    single, and the empty replacement: both are removed everywhere. *)
Fixpoint stripQuotes (s : string) : string :=
  match s with
  | String c r =>
      if (Nat.eqb (nat_of_ascii c) 34 || Nat.eqb (nat_of_ascii c) 39)%bool
      then stripQuotes r else String c (stripQuotes r)
  | EmptyString => EmptyString
  end.

(** [replace] of the pattern [\s+] by an underscore: every run of white
    space becomes one underscore.  [inRun] tells that the previous character
    was white. *)
Fixpoint underscoreRuns (inRun : bool) (s : string) : string :=
  match s with
  | String a r1 =>
      if isWhite a
      then (if inRun then underscoreRuns true r1
            else String "_" (underscoreRuns true r1))
      else
        match r1 with
        | String b r2 =>
            if white2 a b
            then (if inRun then underscoreRuns true r2
                  else String "_" (underscoreRuns true r2))
            else
              match r2 with
              | String c r3 =>
                  if white3 a b c
                  then (if inRun then underscoreRuns true r3
                        else String "_" (underscoreRuns true r3))
                  else String a (underscoreRuns false r1)
              | EmptyString => String a (underscoreRuns false r1)
              end
        | EmptyString => String a (underscoreRuns false r1)
        end
  | EmptyString => EmptyString
  end.

(** [/\.png$/i.test(f)] *)
Definition endsWithPng (f : string) : bool :=
  prefix "gnp." (rev (lowerAscii f)).

(** [String(n)] for an integer. *)
Definition ofZ (n : Z) : string := NilZero.string_of_int (Z.to_int n).

(** [String(n).padStart(2, zero)] *)
Definition pad2 (n : nat) : string :=
  let s := ofZ (Z.of_nat n) in
  if Nat.ltb (String.length s) 2 then "0" ++ s else s.

(** [Array.from(new Set(l))]: the first occurrence of every value, in
    order. *)
Fixpoint dedupOnto (seen l : list string) : list string :=
  match l with
  | [] => []
  | x :: r =>
      if existsb (String.eqb x) seen then dedupOnto seen r
      else x :: dedupOnto (x :: seen) r
  end.

Definition setOf (l : list string) : list string := dedupOnto [] l.

(** The double quote character, as a one-character string. *)
Definition dquote : string := String (ascii_of_nat 34) EmptyString.

(** [s.split(/\s+/)]: the pieces between runs of white space; white space
    at an end gives an empty piece there.  [cur] is the piece being read,
    reversed. *)
Fixpoint splitWhiteFrom (cur : string) (inRun : bool) (s : string)
  : list string :=
  match s with
  | String a r1 =>
      if isWhite a
      then (if inRun then splitWhiteFrom cur true r1
            else rev cur :: splitWhiteFrom EmptyString true r1)
      else
        match r1 with
        | String b r2 =>
            if white2 a b
            then (if inRun then splitWhiteFrom cur true r2
                  else rev cur :: splitWhiteFrom EmptyString true r2)
            else
              match r2 with
              | String c r3 =>
                  if white3 a b c
                  then (if inRun then splitWhiteFrom cur true r3
                        else rev cur :: splitWhiteFrom EmptyString true r3)
                  else splitWhiteFrom (String a cur) false r1
              | EmptyString => splitWhiteFrom (String a cur) false r1
              end
        | EmptyString => splitWhiteFrom (String a cur) false r1
        end
  | EmptyString => [rev cur]
  end.

Definition splitWhite (s : string) : list string :=
  splitWhiteFrom EmptyString false s.

(** A JSON-like value, as the planner returns it.  The pairs of an object
    are in the order of [Object.keys]. *)
Inductive json : Type :=
| JNull
| JBool (b : bool)
| JNum (n : Z)
| JStr (s : string)
| JArr (items : list json)
| JObj (fields : list (string * json)).

End Js.

Import Js.

(* ===================================================================== *)
(** ** Recovery candidate extraction ([askPlannerForRecovery], lines 287-308) *)
(* ===================================================================== *)

Module Recovery.

(** The three keys under which selectors are collected. *)
Definition isSelectorKey (k : string) : bool :=
  (String.eqb k "selector" || String.eqb k "selector_candidates"
   || String.eqb k "selectors")%bool.

(** [v.filter(...)]: the items that are strings with [trim().length > 0]. *)
Definition stringItems (v : list json) : list string :=
  flat_map (fun x => match x with
                     | JStr s => if nonBlank s then [s] else []
                     | _ => []
                     end) v.

(** [collectFrom]: the strings pushed on [selectors], in the order of the
    pushes.  Under a selector key only an array is looked at, and only its
    own string items; any other value is walked. *)
Fixpoint collectFrom (obj : json) : list string :=
  match obj with
  | JArr items => flat_map collectFrom items
  | JObj fields =>
      flat_map (fun kv : string * json =>
                  let (k, v) := kv in
                  if isSelectorKey k
                  then match v with
                       | JArr items => stringItems items
                       | _ => []
                       end
                  else collectFrom v) fields
  | _ => []
  end.

(** [Array.from(new Set(selectors)).map(s => s.trim()).filter(Boolean)
    .slice(0, 12)] *)
Definition uniq (selectors : list string) : list string :=
  firstn 12 (filter truthy (map trim (setOf selectors))).

(** The part of [askPlannerForRecovery] after the planner has answered:
    [uniq.length ? uniq : null]. *)
Definition extractSelectors (parsed : json) : option (list string) :=
  match uniq (collectFrom parsed) with
  | [] => None
  | u => Some u
  end.

End Recovery.

(* ===================================================================== *)
(** ** Plans, actions and the artifacts written to disk *)
(* ===================================================================== *)

(** [PlanAction.type]; the executor also meets any other string. *)
Inductive ActionType : Type :=
| Click | Fill | WaitForSelector | Screenshot | Goto | WaitForTimeout
| Unknown (name : string).

(** [PlanAction] of [planner.ts], with [wait_for], which [saveCheckpoint]
    reads.  An absent field is [None]. *)
Record PlanAction : Type := {
  type : ActionType;
  selector : option (list string);
  selector_candidates : option (list string);
  text : option string;
  url : option string;
  timeoutMs : option Z;
  checkpoint_name : option string;
  expected_dialog : option string;
  dialogTimeoutMs : option Z;
  fallback_to_keyboard : option bool;
  notes : option string;
  wait_for : option (list string)
}.

(** An entry of [action_sequence] may be null: the executor skips it. *)
Record Checkpoint : Type := {
  name : option string;
  action_sequence : list (option PlanAction)
}.

Record Plan : Type := {
  task_id : option string;
  checkpoints : option (list Checkpoint);
  plan : option (list (option PlanAction))
}.

Record Opts : Type := {
  taskId : option string;
  outDir : option string;
  plannerConfidence : option Z;
  instruction : option string
}.

(** Errors thrown inside the try block of an action. [PageError] is a
    rejection of a page call, with the text the page gave; [FileError] is
    an error of the file system, which [saveCheckpoint] lets through. *)
Inductive error : Type :=
| PageError (msg : string)
| WaitNoSelectorMatched
| ClickNoClickable
| ClickNoSelectorMatched
| ClickDialogMissing (dialog : string)
| FillNoFillable
| FillFailed (tried errors : list string)
| GotoMissingUrl
| FileError.

(** Errors that leave [executeCheckpointedPlan]: the two it throws itself,
    and the error of a call of the file system that is made outside every
    try block. *)
Inductive runError : Type :=
| NoCheckpoints
| Aborted (checkpoint : string) (actionIndex : nat) (cause : error)
| DiskError.

(** [meta.json] *)
Record Meta : Type := {
  meta_task_id : string;
  meta_checkpoint : string;
  meta_action_index : nat;
  meta_action_type : option ActionType;
  meta_selector_used : option string;
  meta_notes : option string;
  meta_url : string;
  meta_timestamp : Z;
  meta_planner_confidence : option Z
}.

(** [failure.json] *)
Record Failure : Type := {
  fail_task_id : string;
  fail_checkpoint : string;
  fail_action_index : nat;
  fail_action : PlanAction;
  fail_error : error;
  fail_url : string;
  fail_timestamp : Z
}.

(** What is put at a place of the disk.  The picture and the summary that
    [captureDomSummary] writes are kept without their content. *)
Inductive file : Type :=
| PngFile
| JpgFile
| MetaFile (m : Meta)
| FailureFile (f : Failure)
| MarkerFile (timestamp : Z)
| DomSummaryFile
| Directory.

(** A path is its text, cut at the slashes: the list of the pieces between
    them.  A first piece that is empty tells a path from the root, a last
    piece that is empty a path that ends with a slash.  The disk is the log
    of what was put on it, the latest first, each entry at its place: the
    pieces that lead to it from the working directory, or from the root
    after a first empty piece.  Slashes separate, as on POSIX systems, and
    there are no links. *)
Definition path : Type := list string.
Definition FS : Type := list (path * file).

Definition isDirectory (f : file) : bool :=
  match f with Directory => true | _ => false end.

(** The functions of the module [path] of Node, in its POSIX form: the
    separator is the slash. *)
Module Path.

Definition path_eqb (p q : path) : bool :=
  if list_eq_dec string_dec p q then true else false.

Definition isSlash (c : ascii) : bool := Nat.eqb (nat_of_ascii c) 47.

(** The pieces of a text; [cur] is the piece being read, backwards. *)
Fixpoint piecesFrom (cur s : string) : path :=
  match s with
  | String c r =>
      if isSlash c then rev cur :: piecesFrom EmptyString r
      else piecesFrom (String c cur) r
  | EmptyString => [rev cur]
  end.

Definition ofString (s : string) : path := piecesFrom EmptyString s.

(** The text is not empty. *)
Definition nonEmpty (p : path) : bool :=
  match p with
  | [] => false
  | [s] => truthy s
  | _ :: _ :: _ => true
  end.

(** The text starts with a slash; it ends with one. *)
Definition isAbsolute (p : path) : bool :=
  match p with
  | s :: _ :: _ => negb (truthy s)
  | _ => false
  end.

Definition endsWithSlash (p : path) : bool :=
  match p with
  | _ :: _ :: _ => negb (truthy (last p EmptyString))
  | _ => false
  end.

Definition isDot (s : string) : bool :=
  (negb (truthy s) || String.eqb s ".")%bool.

Definition isDotDot (s : string) : bool := String.eqb s "..".

(** One step of [normalizeString]: the pieces kept so far, the last one
    first, and the next piece.  An empty piece and a dot are dropped; two
    dots remove the last piece kept, unless there is none or it is two
    dots itself, in which case they are kept in a relative path and
    dropped in an absolute one. *)
Definition normStep (absolute : bool) (kept : list string) (piece : string)
  : list string :=
  if isDot piece then kept
  else if isDotDot piece
       then match kept with
            | [] => if absolute then [] else [piece]
            | top :: below =>
                if isDotDot top then piece :: kept else below
            end
       else piece :: kept.

(** The text made of the pieces kept. *)
Definition render (absolute : bool) (kept : list string) (slash : bool)
  : path :=
  match kept with
  | [] =>
      if absolute then [EmptyString; EmptyString]
      else if slash then ["."; EmptyString] else ["."]
  | _ :: _ =>
      ((if absolute then [EmptyString] else [])
       ++ List.rev kept ++ (if slash then [EmptyString] else []))%list
  end.

(** [path.normalize] *)
Definition normalize (p : path) : path :=
  render (isAbsolute p) (fold_left (normStep (isAbsolute p)) p [])
         (endsWithSlash p).

(** [path.join]: the arguments that are not empty, joined by slashes and
    normalized; joining texts by slashes puts their pieces one after the
    other. *)
Definition join (parts : list path) : path :=
  match filter nonEmpty parts with
  | [] => ["."]
  | ps => normalize (concat ps)
  end.

(** [path.dirname] of a path without two slashes in a row: the path
    without its last piece. *)
Definition dirname (p : path) : path :=
  match removelast (if endsWithSlash p then removelast p else p) with
  | [] => ["."]
  | [s] => if truthy s then [s] else [EmptyString; EmptyString]
  | d => d
  end.

(** The place a path leads to, as the system finds it: piece after piece
    from the root or from the working directory, an empty piece and a dot
    staying where they are and two dots going to the directory above.  The
    root is above itself, and the directories above the working directory
    are written with two dots. *)
Definition origin (p : path) : path :=
  if isAbsolute p then [EmptyString] else [].

Definition parent (l : path) : path :=
  match l with
  | [] => [".."]
  | _ :: _ =>
      if path_eqb l [EmptyString] then l
      else if isDotDot (last l EmptyString) then (l ++ [".."])%list
           else removelast l
  end.

Definition step (l : path) (piece : string) : path :=
  if isDot piece then l
  else if isDotDot piece then parent l
       else (l ++ [piece])%list.

Definition location (p : path) : path := fold_left step p (origin p).

End Path.

(** The functions of the module [fs] of Node.  A call that throws gives
    [false], or [None], and leaves the disk as it is. *)
Module Fs.

Fixpoint stripPrefix (dir p : path) : option path :=
  match dir, p with
  | [], _ => Some p
  | d :: dir', x :: p' => if String.eqb d x then stripPrefix dir' p' else None
  | _ :: _, [] => None
  end.

(** The place [l] is strictly above the place [q]. *)
Definition above (l q : path) : bool :=
  match stripPrefix l q with
  | Some (_ :: _) => true
  | _ => false
  end.

(** The root, the working directory and the directories above it are
    there from the start. *)
Definition isAnchor (l : path) : bool :=
  (Path.path_eqb l [EmptyString] || forallb Path.isDotDot l)%bool.

(** A place is a directory when it was made one or when something lies
    below it; it exists when it is a directory or a file was put at it. *)
Definition isDirectoryAt (fs : FS) (l : path) : bool :=
  (isAnchor l
   || existsb (fun e => above l (fst e)
                        || (Path.path_eqb l (fst e) && isDirectory (snd e)))
              fs)%bool.

Definition existsAt (fs : FS) (l : path) : bool :=
  (isDirectoryAt fs l || existsb (fun e => Path.path_eqb l (fst e)) fs)%bool.

(** The walk of the system along the pieces of a path: every place it
    leaves has to be a directory. *)
Fixpoint walk (fs : FS) (cur : path) (pieces : list string) : option path :=
  match pieces with
  | [] => Some cur
  | piece :: rest =>
      if isDirectoryAt fs cur then walk fs (Path.step cur piece) rest
      else None
  end.

Definition resolve (fs : FS) (p : path) : option path :=
  walk fs (Path.origin p) p.

(** [fs.existsSync(p)] *)
Definition existsSync (fs : FS) (p : path) : bool :=
  match resolve fs p with
  | Some l => existsAt fs l
  | None => false
  end.

(** [fs.mkdirSync(p, { recursive: true })]: the directories that are
    missing on the way are made, up to the first place that holds a
    file. *)
Fixpoint mkdirFrom (fs : FS) (cur : path) (pieces : list string)
  : bool * FS :=
  match pieces with
  | [] => (true, fs)
  | piece :: rest =>
      let next := Path.step cur piece in
      if isDirectoryAt fs next then mkdirFrom fs next rest
      else if existsAt fs next then (false, fs)
           else mkdirFrom ((next, Directory) :: fs) next rest
  end.

Definition mkdirSync (fs : FS) (p : path) : bool * FS :=
  mkdirFrom fs (Path.origin p) p.

(** [fs.writeFileSync(p, f)]: the directory of the file has to be there,
    and the place must not be a directory. *)
Definition writeFileSync (fs : FS) (p : path) (f : file) : bool * FS :=
  match resolve fs p with
  | Some l => if isDirectoryAt fs l then (false, fs) else (true, (l, f) :: fs)
  | None => (false, fs)
  end.

(** [fs.readdirSync(dir)]: the names directly under a directory. *)
Definition readdirSync (fs : FS) (dir : path) : option (list string) :=
  match resolve fs dir with
  | Some l =>
      if isDirectoryAt fs l
      then Some (flat_map (fun e => match stripPrefix l (fst e) with
                                    | Some (f :: _) => [f]
                                    | _ => []
                                    end) fs)
      else None
  | None => None
  end.

End Fs.

(* ===================================================================== *)
(** ** The browser and the collaborators *)
(* ===================================================================== *)

(** What [loc.evaluate] returns in [isSelectorClickable]. *)
Record Details : Type := {
  tag : string;
  role : string;
  hasOnClick : bool;
  hasTabIndex : bool
}.

(** [boundingBox()] *)
Record Box : Type := { box_x : Z; box_y : Z; box_width : Z; box_height : Z }.

(** A page call that settles: [None] when it resolves, the text of the
    error when it rejects. *)
Definition rejection : Type := option string.

(** The capabilities the executor uses, over a world [W].  Every awaited
    call is a transition of the world; a call whose answer is an [option]
    gives [None] when its promise rejects.  [locator(s).first()] is part of
    each locator call.  [clock] is [Date.now()], [pageUrl] is [page.url()],
    [cwdOutputs] is the directory [outputs] of the working directory.
    [waitForTimeout] always resolves.

    [screenshot] is the part of [page.screenshot] played in the browser:
    it tells whether the picture was taken; the file is written by the
    executor's side of the call ([writeScreenshot] below).

    [captureDomSummary] is the call of [dom_capture.ts] once its directory
    is there: what it does to the page, and the snapshot, or [None] when
    one of its page calls rejects.  The two files it writes on its way are
    seen through [captureShot], the time of line 68 when the screenshot of
    line 62 gave a picture that is not empty and [None] when it gave none,
    and [captureTime], the time of line 174.

    The four laws say that time does not run backwards during the calls of
    the polling loop and that a wait lasts at least as long as asked. *)
Record Browser (W Snap : Type) : Type := {
  clock : W -> Z;
  pageUrl : W -> string;
  locCount : string -> W -> option nat * W;
  locIsVisible : string -> W -> option bool * W;
  locBoundingBox : string -> W -> option (option Box) * W;
  locIsEnabled : string -> W -> option bool * W;
  evalDetails : string -> W -> option Details * W;
  evalTag : string -> W -> option string * W;
  evalContentEditable : string -> W -> option bool * W;
  evalRole : string -> W -> option (option string) * W;
  waitForTimeout : Z -> W -> W;
  waitForSelector : string -> Z -> W -> bool * W;
  click : string -> Z -> W -> rejection * W;
  fill : string -> string -> Z -> W -> rejection * W;
  focus : string -> Z -> W -> rejection * W;
  keyboardType : string -> W -> rejection * W;
  goto : string -> Z -> W -> rejection * W;
  screenshot : path -> W -> bool * W;
  captureDomSummary : path -> W -> option Snap * W;
  captureShot : path -> W -> option Z;
  captureTime : path -> W -> Z;
  callPlanner : PlanAction -> option Snap -> W -> option json * W;
  jsonParse : string -> option json;
  cwdOutputs : string;
  clock_locCount : forall s w, clock w <= clock (snd (locCount s w));
  clock_locIsVisible : forall s w, clock w <= clock (snd (locIsVisible s w));
  clock_locBoundingBox :
    forall s w, clock w <= clock (snd (locBoundingBox s w));
  clock_waitForTimeout :
    forall ms w, clock w + ms <= clock (waitForTimeout ms w)
}.

(** The state threaded through a run: the world and the file system. *)
Record State (W : Type) : Type := { world : W; files : FS }.

(** A small state monad. *)
Definition St (S A : Type) : Type := S -> A * S.

Definition ret {S A : Type} (a : A) : St S A := fun s => (a, s).

Definition bind {S A B : Type} (m : St S A) (k : A -> St S B) : St S B :=
  fun s => let (a, s') := m s in k a s'.

Declare Scope st_scope.
Delimit Scope st_scope with st.
Notation "x <- m ;; k" := (bind m (fun x => k))
  (at level 61, m at next level, right associativity) : st_scope.
Notation "m ;;; k" := (bind m (fun _ => k))
  (at level 61, right associativity) : st_scope.

(** A call on the page, run inside the state of a run. *)
Definition onPage {W A : Type} (m : St W A) : St (State W) A :=
  fun st => let (a, w) := m (world st) in
            (a, {| world := w; files := files st |}).

(* ===================================================================== *)
(** ** The executor *)
(* ===================================================================== *)

(** The value of [o ?? d], and of a call ending in [.catch(() => d)]. *)
Definition orElse {A : Type} (d : A) (o : option A) : A :=
  match o with Some a => a | None => d end.

(** Truth of a string that may be null or undefined. *)
Definition truthyOpt (o : option string) : bool :=
  match o with Some s => truthy s | None => false end.

(** [a === b] for two values that are strings or null. *)
Definition sameRef (a b : option string) : bool :=
  match a, b with
  | Some x, Some y => String.eqb x y
  | None, None => true
  | _, _ => false
  end.

(** How the polling loop of one selector ends.  [OutOfFuel] is the loop
    still running when the fuel of the model is spent; it does not happen
    ([pollSelector_fuel]). *)
Inductive pollOutcome : Type := Matched | Expired | OutOfFuel.

(** What the try block of one action leaves behind: the error it threw, if
    any, and the variables [lastSelectorUsed] and [chosenSelector]. *)
Record Attempt : Type := {
  thrown : option error;
  lastSelectorUsed : option string;
  chosenSelector : option string
}.

(** The value [executeCheckpointedPlan] returns. *)
Record RunResult : Type := {
  status : string;
  result_task_id : string;
  checkpoints_executed : nat;
  result_timestamp : Z
}.

Definition isClick (t : ActionType) : bool :=
  match t with Click => true | _ => false end.
Definition isFill (t : ActionType) : bool :=
  match t with Fill => true | _ => false end.
Definition isWaitForSelector (t : ActionType) : bool :=
  match t with WaitForSelector => true | _ => false end.

(** [{ success, tried, errors }] of [tryFillWithFallback]. *)
Record FillResult : Type := {
  success : bool;
  tried : list string;
  errors : list string
}.

Section Executor.

Context {W Snap : Type} (B : Browser W Snap).
Local Open Scope st_scope.

Definition wait (ms : Z) : St W unit :=
  fun w => (tt, waitForTimeout B ms w).

(** The [while (Date.now() < deadline)] loop of [trySelectorsSimple]. *)
Fixpoint pollSelector (fuel : nat) (s : string) (deadline : Z)
  : St W pollOutcome :=
  fun w =>
    if clock B w <? deadline then
      match fuel with
      | O => (OutOfFuel, w)
      | S fuel' =>
          (count <- locCount B s ;;
           if Nat.eqb (orElse 0%nat count) 0
           then wait 100 ;;; pollSelector fuel' s deadline
           else
             visible <- locIsVisible B s ;;
             box <- (if orElse false visible
                     then (b <- locBoundingBox B s ;; ret (orElse None b))
                     else ret None) ;;
             match orElse false visible, box with
             | true, Some _ => ret Matched
             | _, _ => wait 100 ;;; pollSelector fuel' s deadline
             end) w
      end
    else (Expired, w).

(** Every turn of the loop that does not return waits 100 ms, so a budget
    of [ms] milliseconds is spent after at most [ms] turns. *)
Definition pollFuel (perSelectorMs : Z) : nat := Z.to_nat perSelectorMs.

(** [trySelectorsSimple] (lines 19-58) *)
Fixpoint trySelectorsSimple (selectors : list string) (perSelectorMs : Z)
  : St W (option string) :=
  match selectors with
  | [] => ret None
  | s :: rest =>
      if truthy s
      then fun w =>
             (let deadline := clock B w + perSelectorMs in
              r <- pollSelector (pollFuel perSelectorMs) s deadline ;;
              match r with
              | Matched => ret (Some s)
              | _ => trySelectorsSimple rest perSelectorMs
              end) w
      else trySelectorsSimple rest perSelectorMs
  end.

(** The candidates [fallbackSelectors] (lines 62-88) builds. *)
Definition fallbackCandidates (originalSelectors : list string)
    (textHint : option string) : list string :=
  let hasText (t : string) := ":has-text(" ++ dquote ++ t ++ dquote ++ ")" in
  (match textHint with
   | Some hint =>
       if nonBlank hint
       then
         let clean := stripQuotes (trim hint) in
         (if Nat.ltb 2 (utf16Length clean)
          then [hasText clean; ("button" ++ hasText clean)%string] else [])
         ++ map hasText
              (filter (fun p => Nat.ltb 2 (utf16Length p))
                      (firstn 3 (splitWhite hint)))
       else []
   | None => []
   end
   ++ ["button:has-text('Create')"; "button:has-text('+')"]
   ++ filter truthy originalSelectors)%list.

Definition fallbackSelectors (originalSelectors : list string)
    (textHint : option string) : St W (option string) :=
  trySelectorsSimple (fallbackCandidates originalSelectors textHint) 800.

(** [tryFillWithFallback] (lines 155-199); [tried] and [errors] are the
    two arrays, passed along. *)
Fixpoint fillLoop (selectors : list string) (txt : string) (timeout : Z)
    (fallbackToKeyboard : bool) (tried errors : list string)
  : St W FillResult :=
  match selectors with
  | [] =>
      if fallbackToKeyboard
      then
        r <- keyboardType B txt ;;
        match r with
        | None => ret {| success := true; tried := tried; errors := errors |}
        | Some e =>
            ret {| success := false; tried := tried;
                   errors := (errors ++ [e])%list |}
        end
      else ret {| success := false; tried := tried; errors := errors |}
  | s :: rest =>
      if truthy s
      then
        let tried := (tried ++ [s])%list in
        count <- locCount B s ;;
        if Nat.eqb (orElse 0%nat count) 0
        then fillLoop rest txt timeout fallbackToKeyboard tried errors
        else
          r <- fill B s txt timeout ;;
          match r with
          | None =>
              ret {| success := true; tried := tried; errors := errors |}
          | Some e =>
              if fallbackToKeyboard
              then
                f <- focus B s timeout ;;
                match f with
                | None =>
                    k <- keyboardType B txt ;;
                    match k with
                    | None =>
                        ret {| success := true; tried := tried;
                               errors := errors |}
                    | Some e2 =>
                        fillLoop rest txt timeout fallbackToKeyboard tried
                                 (errors ++ [e2])%list
                    end
                | Some e2 =>
                    fillLoop rest txt timeout fallbackToKeyboard tried
                             (errors ++ [e2])%list
                end
              else fillLoop rest txt timeout fallbackToKeyboard tried
                            (errors ++ [e])%list
          end
      else fillLoop rest txt timeout fallbackToKeyboard tried errors
  end.

Definition tryFillWithFallback (selectors : list string) (txt : string)
    (timeout : Z) (fallbackToKeyboard : bool) : St W FillResult :=
  fillLoop selectors txt timeout fallbackToKeyboard [] [].

(** The pattern of interactive roles, tested without regard to case. *)
Definition interactiveRole (r : string) : bool :=
  existsb (fun p => includes p (toLowerCase r))
          ["button"; "link"; "menuitem"; "option"; "tab"; "checkbox";
           "radio"].

(** [isSelectorClickable] (lines 202-245) *)
Definition isSelectorClickable (sel : string) : St W bool :=
  if truthy sel
  then
    count <- locCount B sel ;;
    if Nat.eqb (orElse 0%nat count) 0 then ret false
    else
      visible <- locIsVisible B sel ;;
      if negb (orElse false visible) then ret false
      else
        box <- locBoundingBox B sel ;;
        match orElse None box with
        | None => ret false
        | Some _ =>
            enabled <- locIsEnabled B sel ;;
            details <- evalDetails B sel ;;
            let enabled := orElse false enabled in
            let d := orElse {| tag := EmptyString; role := EmptyString;
                               hasOnClick := false; hasTabIndex := false |}
                            details in
            if (existsb (String.eqb (tag d)) ["button"; "a"; "input"]
                && enabled)%bool then ret true
            else if (interactiveRole (role d) && enabled)%bool then ret true
            else if (hasOnClick d && (enabled || true))%bool
                 (* [box] is an object here *) then ret true
            else if (hasTabIndex d && enabled)%bool then ret true
            else ret false
        end
  else ret false.

(** [isSelectorFillable] (lines 249-271); a rejected [evaluate] is caught
    by the outer [try] and gives false. *)
Definition isSelectorFillable (sel : string) : St W bool :=
  if truthy sel
  then
    count <- locCount B sel ;;
    if Nat.eqb (orElse 0%nat count) 0 then ret false
    else
      visible <- locIsVisible B sel ;;
      if negb (orElse false visible) then ret false
      else
        t <- evalTag B sel ;;
        match t with
        | None => ret false
        | Some t =>
            if negb (truthy t) then ret false
            else if (String.eqb t "input" || String.eqb t "textarea")%bool
            then ret true
            else
              ce <- evalContentEditable B sel ;;
              match ce with
              | None => ret false
              | Some true => ret true
              | Some false =>
                  r <- evalRole B sel ;;
                  match r with
                  | Some (Some r) =>
                      ret (truthy r && includes "textbox" (toLowerCase r))%bool
                  | _ => ret false
                  end
              end
        end
  else ret false.

(** [filterSelectorsByCheck] (lines 320-333), with a check given. *)
Fixpoint filterSelectorsByCheck (selectors : list string)
    (checkFn : string -> St W bool) : St W (list string) :=
  match selectors with
  | [] => ret []
  | s :: rest =>
      if truthy s
      then
        ok <- checkFn s ;;
        out <- filterSelectorsByCheck rest checkFn ;;
        ret (if ok then s :: out else out)
      else filterSelectorsByCheck rest checkFn
  end.

(* ------------------------------------------------------------------- *)
(** *** Checkpoint capture ([saveCheckpoint], lines 95-151) *)

(** A call of the file system inside the state of a run. *)
Definition onDisk {A : Type} (op : FS -> A * FS) : St (State W) A :=
  fun st => let (a, fs) := op (files st) in
            (a, {| world := world st; files := fs |}).

(** [ensureDir] (lines 13-15); [false] when [mkdirSync] throws. *)
Definition ensureDir (dir : path) : St (State W) bool :=
  onDisk (fun fs => if Fs.existsSync fs dir then (true, fs)
                    else Fs.mkdirSync fs dir).

Definition writeFile (p : path) (f : file) : St (State W) bool :=
  onDisk (fun fs => Fs.writeFileSync fs p f).

(** The end of [page.screenshot] with a path: the directory of the file
    is made, an error of that call being swallowed, and the picture is
    written; [false] when the write throws. *)
Definition writeScreenshot (p : path) : St (State W) bool :=
  onDisk (fun fs => Fs.mkdirSync fs (Path.dirname p)) ;;;
  writeFile p PngFile.

Definition shotFilename (actionIndex : nat) (checkpointName : string)
    (now : Z) : string :=
  pad2 actionIndex ++ "_" ++ underscoreRuns false checkpointName ++ "_"
  ++ ofZ now ++ ".png".

(** The loop over [verificationCandidates]: the first one that appears. *)
Fixpoint waitFirst (candidates : list string) (timeout : Z)
  : St W (option string) :=
  match candidates with
  | [] => ret None
  | v :: rest =>
      ok <- waitForSelector B v timeout ;;
      if ok then ret (Some v) else waitFirst rest timeout
  end.

Definition verificationCandidates (action : option PlanAction)
    (selectorUsed : option string) : list string :=
  ((match selectorUsed with
    | Some s => if truthy s then [s] else []
    | None => []
    end)
   ++ (match action with
       | Some a => match expected_dialog a with
                   | Some d => if truthy d then [d] else []
                   | None => []
                   end
       | None => []
       end)
   ++ (match action with
       | Some a => orElse [] (wait_for a)
       | None => []
       end))%list.

(** The result is [None] when the call throws: [ensureDir] may, and so may
    [writeMeta], which the catch block calls once more after an error in
    the try block. *)
Definition saveCheckpoint (outDir taskId checkpointName : string)
    (actionIndex : nat) (action : option PlanAction)
    (selectorUsed : option string) (plannerConfidence : option Z)
  : St (State W) (option (option path * path)) :=
  let ckptDir :=
    Path.join [Path.ofString outDir; Path.ofString taskId;
               Path.ofString checkpointName] in
  made <- ensureDir ckptDir ;;
  if negb made then ret None
  else
    fun st0 =>
      (let shotPath :=
         Path.join [ckptDir;
                    Path.ofString (shotFilename actionIndex checkpointName
                                                (clock B (world st0)))] in
       let metaPath := Path.join [ckptDir; Path.ofString "meta.json"] in
       let writeMeta (sel : option string) : St (State W) bool :=
         fun st =>
           writeFile metaPath
             (MetaFile
                {| meta_task_id := taskId;
                   meta_checkpoint := checkpointName;
                   meta_action_index := actionIndex;
                   meta_action_type := option_map type action;
                   meta_selector_used := sel;
                   meta_notes := match action with
                                 | Some a => notes a
                                 | None => None
                                 end;
                   meta_url := pageUrl B (world st);
                   meta_timestamp := clock B (world st);
                   meta_planner_confidence := plannerConfidence |}) st in
       let timeout :=
         orElse 2500 (match action with
                      | Some a => dialogTimeoutMs a
                      | None => None
                      end) in
       waitedFor <- onPage (waitFirst
                              (verificationCandidates action selectorUsed)
                              timeout) ;;
       let sel := match waitedFor with
                  | Some v => Some v
                  | None => selectorUsed
                  end in
       let inCatch : St (State W) (option (option path * path)) :=
         written <- writeMeta sel ;;
         ret (if written then Some (None, metaPath) else None) in
       shot <- onPage (screenshot B shotPath) ;;
       if shot
       then
         saved <- writeScreenshot shotPath ;;
         if saved
         then
           written <- writeMeta sel ;;
           if written then ret (Some (Some shotPath, metaPath))
           else inCatch
         else inCatch
       else inCatch) st0.

(* ------------------------------------------------------------------- *)
(** *** Recovery request ([askPlannerForRecovery], lines 276-313) *)

(** Lines 282-285: an answer that is a string is parsed, and kept as it
    is when the parse fails. *)
Definition parseOutput (plannerOut : json) : json :=
  match plannerOut with
  | JStr s => orElse plannerOut (jsonParse B s)
  | _ => plannerOut
  end.

Definition askPlannerForRecovery (instruction : string)
    (domSnapshot : option Snap) (failingAction : PlanAction)
  : St W (option (list string)) :=
  out <- callPlanner B failingAction domSnapshot ;;
  match out with
  | None => ret None
  | Some plannerOut => ret (Recovery.extractSelectors (parseOutput plannerOut))
  end.

(* ------------------------------------------------------------------- *)
(** *** The try block of one action (lines 367-553) *)

(** [action.selector || action.selector_candidates || []] *)
Definition selectorsOf (a : PlanAction) : list string :=
  match selector a with
  | Some l => l
  | None => orElse [] (selector_candidates a)
  end.

(** [for (const s of selectorsOrig) if (s && !mergedSelectors.includes(s))
    mergedSelectors.push(s)] *)
Fixpoint mergeSelectors (merged orig : list string) : list string :=
  match orig with
  | [] => merged
  | s :: rest =>
      if (truthy s && negb (existsb (String.eqb s) merged))%bool
      then mergeSelectors (merged ++ [s])%list rest
      else mergeSelectors merged rest
  end.

(** Lines 405-414 and 475-484: the remembered selector is checked again
    and dropped when the check fails. *)
Definition revalidateOneShot (shouldUse : bool) (check : string -> St W bool)
    (mem : option string) : St W (option string) :=
  match mem with
  | Some m =>
      if (shouldUse && truthy m)%bool
      then ok <- check m ;; ret (if ok then mem else None)
      else ret mem
  | None => ret mem
  end.

(** The start of [mergedSelectors]: the remembered selector, when it is
    to be used. *)
Definition oneShotHead (shouldUse : bool) (mem : option string)
  : list string :=
  match mem with
  | Some m => if (shouldUse && truthy m)%bool then [m] else []
  | None => []
  end.

(** [mergedSelectors.length ? mergedSelectors : selectorsOrig] *)
Definition orOriginal (merged orig : list string) : list string :=
  match merged with [] => orig | _ => merged end.

Definition textLocator (t : string) : string :=
  ":has-text(" ++ dquote ++ stripQuotes (trim t) ++ dquote ++ ")".

Definition failed (e : error) (mem chosen : option string) : Attempt :=
  {| thrown := Some e; lastSelectorUsed := mem; chosenSelector := chosen |}.

Definition completed (mem chosen : option string) : Attempt :=
  {| thrown := None; lastSelectorUsed := mem; chosenSelector := chosen |}.

(** Lines 376-402 *)
Definition execWaitForSelector (a : PlanAction) (mem : option string)
  : St W Attempt :=
  chosen <- trySelectorsSimple (selectorsOf a) 1200 ;;
  match chosen with
  | Some c =>
      waitForSelector B c (orElse 5000 (timeoutMs a)) ;;;
      ret (completed (Some c) (Some c))
  | None => ret (failed WaitNoSelectorMatched mem None)
  end.

(** Lines 463-472: the click on the chosen selector and the wait for the
    expected dialog; [mem] is [lastSelectorUsed] as lines 454-461 left
    it. *)
Definition clickAndVerify (a : PlanAction) (chosen : string)
    (mem : option string) : St W Attempt :=
  k <- click B chosen (orElse 5000 (timeoutMs a)) ;;
  match k with
  | Some e => ret (failed (PageError e) mem (Some chosen))
  | None =>
      match expected_dialog a with
      | Some d =>
          if truthy d
          then
            appeared <- waitForSelector B d
                          (orElse 3000 (dialogTimeoutMs a)) ;;
            if appeared then ret (completed mem (Some chosen))
            else ret (failed (ClickDialogMissing d) mem (Some chosen))
          else ret (completed mem (Some chosen))
      | None => ret (completed mem (Some chosen))
      end
  end.

(** Lines 403-472 *)
Definition execClick (a : PlanAction) (shouldUse : bool)
    (mem : option string) : St W Attempt :=
  mem <- revalidateOneShot shouldUse isSelectorClickable mem ;;
  let selectorsOrig := selectorsOf a in
  let mergedSelectors :=
    mergeSelectors (oneShotHead shouldUse mem) selectorsOrig in
  filteredCandidates <-
    filterSelectorsByCheck (orOriginal mergedSelectors selectorsOrig)
                           isSelectorClickable ;;
  match filteredCandidates with
  | [] => ret (failed ClickNoClickable mem None)
  | _ :: _ =>
      chosen <- trySelectorsSimple filteredCandidates 1200 ;;
      r <- match chosen with
           | Some _ => ret (chosen, mem)
           | None =>
               match text a with
               | Some t =>
                   if (truthy t && nonBlank t)%bool
                   then
                     let textLoc := textLocator t in
                     c <- click B textLoc (orElse 4000 (timeoutMs a)) ;;
                     match c with
                     | None => ret (Some textLoc, Some textLoc)
                     | Some _ => ret (None, mem)
                     end
                   else ret (None, mem)
               | None => ret (None, mem)
               end
           end ;;
      let (chosen, mem) := r : option string * option string in
      match chosen with
      | None => ret (failed ClickNoSelectorMatched mem None)
      | Some c =>
          let mem :=
            if (shouldUse && truthyOpt mem && sameRef chosen mem)%bool
            then None else chosen in
          clickAndVerify a c mem
      end
  end.

(** [(action.selector && action.selector[0]) || lastSelectorUsed] *)
Definition firstSelectorOr (a : PlanAction) (mem : option string)
  : option string :=
  match selector a with
  | Some (s :: _) => if truthy s then Some s else mem
  | _ => mem
  end.

(** Lines 473-538 *)
Definition execFill (a : PlanAction) (shouldUse : bool)
    (mem : option string) : St W Attempt :=
  mem <- revalidateOneShot shouldUse isSelectorFillable mem ;;
  let selectorsOrig := selectorsOf a in
  let mergedSelectors :=
    mergeSelectors (oneShotHead shouldUse mem) selectorsOrig in
  filteredFillCandidates <-
    filterSelectorsByCheck (orOriginal mergedSelectors selectorsOrig)
                           isSelectorFillable ;;
  match filteredFillCandidates with
  | [] => ret (failed FillNoFillable mem None)
  | _ :: _ =>
      let fallbackToKeyboard := orElse false (fallback_to_keyboard a) in
      let txt := orElse EmptyString (text a) in
      let timeout := orElse 5000 (timeoutMs a) in
      first <- tryFillWithFallback filteredFillCandidates txt timeout
                                   fallbackToKeyboard ;;
      if success first
      then
        if (shouldUse && truthyOpt mem
            && sameRef (hd_error mergedSelectors) mem)%bool
        then ret (completed None mem)
        else
          let chosen := firstSelectorOr a mem in
          ret (completed chosen chosen)
      else
        let giveUp :=
          ret (failed (FillFailed (tried first) (errors first)) mem None) in
        if truthyOpt (expected_dialog a)
        then
          waitForSelector B (orElse EmptyString (expected_dialog a))
                          (orElse 2500 (dialogTimeoutMs a)) ;;;
          retry <- trySelectorsSimple
                     (orOriginal mergedSelectors selectorsOrig) 1000 ;;
          match retry with
          | Some r =>
              res <- tryFillWithFallback [r] txt timeout
                                         fallbackToKeyboard ;;
              if success res
              then
                if (shouldUse && sameRef mem retry)%bool
                then ret (completed None retry)
                else ret (completed retry retry)
              else giveUp
          | None => giveUp
          end
        else giveUp
  end.

(** Lines 541-548 *)
Definition gotoUrl (a : PlanAction) : option string :=
  if truthyOpt (url a) then url a
  else if truthyOpt (text a) then text a
  else match selector a with
       | Some (s :: _) => if truthy s then Some s else None
       | _ => None
       end.

Definition execGoto (a : PlanAction) (mem : option string) : St W Attempt :=
  match gotoUrl a with
  | None => ret (failed GotoMissingUrl mem None)
  | Some u =>
      r <- goto B u (orElse 30000 (timeoutMs a)) ;;
      match r with
      | Some e => ret (failed (PageError e) mem None)
      | None => ret (completed None (Some u))
      end
  end.

(** [shouldUseLastSelectorOneShot] (lines 370-371) *)
Definition shouldUseLastSelectorOneShot (prevAction : option PlanAction)
    (a : PlanAction) (mem : option string) : bool :=
  match prevAction with
  | Some p =>
      (isWaitForSelector (type p) && (isClick (type a) || isFill (type a))
       && truthyOpt mem)%bool
  | None => false
  end.

(** [action.checkpoint_name || name] *)
Definition captureName (a : PlanAction) (name : string) : string :=
  match checkpoint_name a with
  | Some c => if truthy c then c else name
  | None => name
  end.

Definition tryAction (outDir taskId name : string)
    (plannerConfidence : option Z) (ai : nat)
    (prevAction : option PlanAction) (a : PlanAction) (mem : option string)
  : St (State W) Attempt :=
  let shouldUse := shouldUseLastSelectorOneShot prevAction a mem in
  match type a with
  | WaitForSelector => onPage (execWaitForSelector a mem)
  | Click => onPage (execClick a shouldUse mem)
  | Fill => onPage (execFill a shouldUse mem)
  | WaitForTimeout =>
      onPage (wait (orElse 500 (timeoutMs a))) ;;; ret (completed mem None)
  | Goto => onPage (execGoto a mem)
  | Screenshot =>
      saved <- saveCheckpoint outDir taskId (captureName a name) ai
                              (Some a) mem plannerConfidence ;;
      match saved with
      | Some _ => ret (completed mem None)
      | None => ret (failed FileError mem None)
      end
  | Unknown _ => ret (completed mem None)
  end.

(* ------------------------------------------------------------------- *)
(** *** The catch block: recovery (lines 561-670) *)

(** The hint of line 586 and the score of lines 589-593: a candidate
    scores -1 when it mentions the hint, 0 otherwise. *)
Definition textHintOf (a : PlanAction) : option string :=
  match text a with
  | Some t => if truthy t then Some (toLowerCase (trim t)) else None
  | None => None
  end.

Definition mentions (textHint : string) (s : string) : bool :=
  let low := toLowerCase s in
  (includes (":has-text(" ++ dquote ++ textHint ++ dquote ++ ")") low
   || includes textHint low)%bool.

(** [orderedCandidates.sort(...)]: the sort is stable and the score has
    two values, so the candidates that mention the hint come first, each
    group in its former order. *)
Definition orderCandidates (a : PlanAction) (candidates : list string)
  : list string :=
  match textHintOf a with
  | Some h =>
      if truthy h
      then (filter (mentions h) candidates
            ++ filter (fun s => negb (mentions h s)) candidates)%list
      else candidates
  | None => candidates
  end.

(** The check of the expected dialog after a recovery trial, lines
    604-610 and 620-626. *)
Definition dialogAppears (a : PlanAction) : St W bool :=
  match expected_dialog a with
  | Some d =>
      if truthy d
      then waitForSelector B d (orElse 2500 (dialogTimeoutMs a))
      else ret true
  | None => ret true
  end.

(** The loop of lines 599-649: the pair is [recovered] and
    [lastSelectorUsed]. *)
Fixpoint tryCandidates (a : PlanAction) (candidates : list string)
    (mem : option string) : St W (bool * option string) :=
  match candidates with
  | [] => ret (false, mem)
  | candidate :: rest =>
      match type a with
      | Click =>
          r <- click B candidate (orElse 5000 (timeoutMs a)) ;;
          match r with
          | Some _ => tryCandidates a rest mem
          | None =>
              ok <- dialogAppears a ;;
              if ok then ret (true, Some candidate)
              else tryCandidates a rest mem
          end
      | Fill =>
          res <- tryFillWithFallback [candidate]
                   (orElse EmptyString (text a))
                   (orElse 5000 (timeoutMs a))
                   (orElse false (fallback_to_keyboard a)) ;;
          if success res
          then
            ok <- dialogAppears a ;;
            if ok then ret (true, Some candidate)
            else tryCandidates a rest mem
          else tryCandidates a rest mem
      | WaitForSelector =>
          ok <- waitForSelector B candidate (orElse 5000 (timeoutMs a)) ;;
          if ok then ret (true, Some candidate)
          else tryCandidates a rest mem
      | _ =>
          r <- click B candidate (orElse 5000 (timeoutMs a)) ;;
          match r with
          | None => ret (true, Some candidate)
          | Some _ => tryCandidates a rest mem
          end
      end
  end.

(** Lines 569-651: the request, the filter by kind, the order and the
    trials, with the snapshot, which is null when [captureDomSummary]
    rejected. *)
Definition recoverWith (instruction : string) (recoverySnap : option Snap)
    (a : PlanAction) (mem : option string) : St W (bool * option string) :=
  recoverySelectors <-
    askPlannerForRecovery
      (if truthy instruction then instruction else "Perform task")
      recoverySnap a ;;
  match recoverySelectors with
  | Some ((_ :: _) as sels) =>
      filteredRecoveryCandidates <-
        match type a with
        | Click => filterSelectorsByCheck sels isSelectorClickable
        | Fill => filterSelectorsByCheck sels isSelectorFillable
        | _ => ret sels
        end ;;
      if ((isClick (type a) || isFill (type a))
          && Nat.eqb (length filteredRecoveryCandidates) 0)%bool
      then ret (false, mem)
      else tryCandidates a (orderCandidates a filteredRecoveryCandidates) mem
  | _ => ret (false, mem)
  end.

(** The directory [captureDomSummary] is given at line 567. *)
Definition recoveryDir (outDir taskId : string) : path :=
  Path.join [Path.ofString outDir; Path.ofString taskId;
             Path.ofString "recovery"].

(** Lines 566-651 on the page: the settle delay, the snapshot and the
    rest, when the directory of the snapshot is there. *)
Definition recover (outDir taskId instruction : string) (a : PlanAction)
    (mem : option string) : St W (bool * option string) :=
  wait 800 ;;;
  recoverySnap <- captureDomSummary B (recoveryDir outDir taskId) ;;
  recoverWith instruction recoverySnap a mem.

(** What [captureDomSummary] leaves on the disk ([dom_capture.ts], lines
    57-73 and 174-179), from the page as it is after the settle delay:
    the picture when there is one, and the summary when the call
    resolves; an error of either write is caught there. *)
Definition snapshotFiles (dir : path) (w : W) (fs : FS) : FS :=
  let fs1 :=
    match captureShot B dir w with
    | Some t =>
        snd (Fs.writeFileSync fs
               (Path.join [dir; Path.ofString ("screenshot-" ++ ofZ t
                                               ++ ".jpg")])
               JpgFile)
    | None => fs
    end in
  match fst (captureDomSummary B dir w) with
  | Some _ =>
      snd (Fs.writeFileSync fs1
             (Path.join [dir;
                         Path.ofString ("dom-summary-"
                                        ++ ofZ (captureTime B dir w)
                                        ++ ".json")])
             DomSummaryFile)
  | None => fs1
  end.

(** Lines 566-651 on the page and on the disk.  [captureDomSummary] starts
    with [ensureDir]: when that throws, the call rejects before it touches
    the page, and the snapshot is null. *)
Definition recoverOnDisk (outDir taskId instruction : string)
    (a : PlanAction) (mem : option string)
  : St (State W) (bool * option string) :=
  made <- ensureDir (recoveryDir outDir taskId) ;;
  if made
  then
    fun st =>
      let (r, w') := recover outDir taskId instruction a mem (world st) in
      (r, {| world := w';
             files := snapshotFiles (recoveryDir outDir taskId)
                                    (waitForTimeout B 800 (world st))
                                    (files st) |})
  else onPage (wait 800 ;;; recoverWith instruction None a mem).

(** Lines 653-666: the failure document; [false] when [ensureDir] or the
    write throws, in which case that error leaves the run in place of the
    abort error. *)
Definition writeFailure (outDir taskId name : string) (ai : nat)
    (a : PlanAction) (err : error) : St (State W) bool :=
  let ckptDir :=
    Path.join [Path.ofString outDir; Path.ofString taskId;
               Path.ofString name] in
  made <- ensureDir ckptDir ;;
  if made
  then
    fun st =>
      writeFile (Path.join [ckptDir; Path.ofString "failure.json"])
        (FailureFile {| fail_task_id := taskId;
                        fail_checkpoint := name;
                        fail_action_index := ai;
                        fail_action := a;
                        fail_error := err;
                        fail_url := pageUrl B (world st);
                        fail_timestamp := clock B (world st) |}) st
  else ret false.

(* ------------------------------------------------------------------- *)
(** *** The loops (lines 350-704) *)

Section Run.

Variables (outDir taskId instruction : string).
Variable plannerConfidence : option Z.

(** The loop over the actions of one checkpoint, from index [ai];
    [prevAction] is [actions[ai - 1]].  The result is the error that
    aborts the run, if any, and [lastSelectorUsed]. *)
Fixpoint runActions (name : string) (actions : list (option PlanAction))
    (ai : nat) (prevAction : option PlanAction) (mem : option string)
  : St (State W) (option runError * option string) :=
  match actions with
  | [] => ret (None, mem)
  | None :: rest => runActions name rest (S ai) None mem
  | Some a :: rest =>
      att <- tryAction outDir taskId name plannerConfidence ai
                       prevAction a mem ;;
      match thrown att with
      | None => runActions name rest (S ai) (Some a) (lastSelectorUsed att)
      | Some err =>
          r <- recoverOnDisk outDir taskId instruction a
                             (lastSelectorUsed att) ;;
          let (recovered, mem') := r : bool * option string in
          if recovered
          then runActions name rest (S ai) (Some a) mem'
          else
            written <- writeFailure outDir taskId name ai a err ;;
            ret (Some (if written then Aborted name ai err else DiskError),
                 mem')
      end
  end.

(** Line 353: the concatenation gives a string that is never empty, so
    the alternative after [||] is never taken. *)
Definition checkpointName (ck : Checkpoint) (ckIndex : nat) : string :=
  let n := orElse "undefined" (name ck) ++ "_checkpoint" in
  if truthy n then n else "checkpoint_" ++ ofZ (Z.of_nat ckIndex).

(** Lines 684-699: the implicit capture at the end of a checkpoint;
    [false] when a call outside the try block throws: [ensureDir],
    [readdirSync] or [saveCheckpoint]. *)
Definition implicitCapture (name : string)
    (actions : list (option PlanAction)) (mem : option string)
  : St (State W) bool :=
  let ckptDir :=
    Path.join [Path.ofString outDir; Path.ofString taskId;
               Path.ofString name] in
  let metaPath := Path.join [ckptDir; Path.ofString "meta.json"] in
  let markerPath := Path.join [ckptDir; Path.ofString ".screenshot_saved"] in
  made <- ensureDir ckptDir ;;
  if negb made then ret false
  else
    fun st =>
      match Fs.readdirSync (files st) ckptDir with
      | None => (false, st)
      | Some names =>
          let pngExists := existsb endsWithPng names in
          if (negb (Fs.existsSync (files st) metaPath)
              && negb (Fs.existsSync (files st) markerPath)
              && negb pngExists)%bool
          then
            (saved <- saveCheckpoint outDir taskId name
                        (Nat.max 0 (length actions - 1))
                        (last actions None) mem plannerConfidence ;;
             match saved with
             | None => ret false
             | Some _ =>
                 (fun st' => writeFile markerPath
                               (MarkerFile (clock B (world st'))) st') ;;;
                 ret true
             end) st
          else (true, st)
      end.

Definition runCheckpoint (ckIndex : nat) (ck : Checkpoint)
  : St (State W) (option runError) :=
  let name := checkpointName ck ckIndex in
  let actions := action_sequence ck in
  r <- runActions name actions 0 None None ;;
  match fst r with
  | Some e => ret (Some e)
  | None =>
      captured <- implicitCapture name actions (snd r) ;;
      ret (if captured then None else Some DiskError)
  end.

Fixpoint runCheckpoints (ckIndex : nat) (cks : list Checkpoint)
  : St (State W) (option runError) :=
  match cks with
  | [] => ret None
  | ck :: rest =>
      r <- runCheckpoint ckIndex ck ;;
      match r with
      | Some e => ret (Some e)
      | None => runCheckpoints (S ckIndex) rest
      end
  end.

End Run.

(** Line 347 *)
Definition checkpointsOf (p : Plan) : list Checkpoint :=
  match checkpoints p with
  | Some cks => cks
  | None =>
      match plan p with
      | Some actions =>
          [{| name := Some "plan"; action_sequence := actions |}]
      | None => []
      end
  end.

(** Line 341 *)
Definition taskIdOf (p : Plan) (opts : Opts) : string :=
  if truthyOpt (taskId opts) then orElse "task" (taskId opts)
  else if truthyOpt (task_id p) then orElse "task" (task_id p)
  else "task".

(** Line 342 *)
Definition outDirOf (opts : Opts) : string :=
  if truthyOpt (outDir opts) then orElse (cwdOutputs B) (outDir opts)
  else cwdOutputs B.

(** [executeCheckpointedPlan] (lines 340-704) *)
Definition executeCheckpointedPlan (checkpointedPlan : Plan) (opts : Opts)
  : St (State W) (runError + RunResult) :=
  let tid := taskIdOf checkpointedPlan opts in
  let cks := checkpointsOf checkpointedPlan in
  made <- ensureDir (Path.ofString (outDirOf opts)) ;;
  if negb made then ret (inl DiskError)
  else
    match cks with
    | [] => ret (inl NoCheckpoints)
    | _ :: _ =>
        r <- runCheckpoints (outDirOf opts) tid
               (orElse EmptyString (instruction opts))
               (plannerConfidence opts) 0 cks ;;
        match r with
        | Some e => ret (inl e)
        | None =>
            fun st =>
              (inr {| status := "success";
                      result_task_id := tid;
                      checkpoints_executed := length cks;
                      result_timestamp := clock B (world st) |}, st)
        end
    end.

End Executor.

(* ===================================================================== *)
(** ** A scripted page, to run the executor on *)
(* ===================================================================== *)

Module Sim.

(** The world of the scripted page: the clock, the number of [count()]
    calls answered, and what was done to the page, latest first. *)
Record World : Type := {
  now : Z;
  reads : nat;
  clicks : list string;
  fills : list (string * string);
  typed : list string;
  visited : list string
}.

Definition start : World :=
  {| now := 0; reads := 0; clicks := []; fills := []; typed := [];
     visited := [] |}.

(** The script of a page. [present s w] tells that an element matches [s],
    is visible and has a box; [appears] is what [waitForSelector] sees. *)
Record Script : Type := {
  present : string -> World -> bool;
  appears : string -> World -> bool;
  enabled : string -> bool;
  details : string -> Details;
  editable : string -> bool;
  roleOf : string -> option string;
  clickWorks : string -> bool;
  fillWorks : string -> bool;
  typingWorks : bool;
  shotWorks : bool;
  countsReads : bool;
  plannerAnswer : PlanAction -> option json
}.

Definition tick (ms : Z) (w : World) : World :=
  {| now := now w + ms; reads := reads w; clicks := clicks w;
     fills := fills w; typed := typed w; visited := visited w |}.

Definition simCount (sc : Script) (s : string) (w : World)
  : option nat * World :=
  (Some (if present sc s w then 1%nat else 0%nat),
   if countsReads sc
   then {| now := now w; reads := S (reads w); clicks := clicks w;
           fills := fills w; typed := typed w; visited := visited w |}
   else w).

Definition simClick (sc : Script) (s : string) (timeout : Z) (w : World)
  : rejection * World :=
  if (present sc s w && clickWorks sc s)%bool
  then (None, {| now := now w; reads := reads w; clicks := s :: clicks w;
                 fills := fills w; typed := typed w;
                 visited := visited w |})
  else (Some "click: timeout", tick timeout w).

Definition simFill (sc : Script) (s txt : string) (timeout : Z) (w : World)
  : rejection * World :=
  if (present sc s w && fillWorks sc s)%bool
  then (None, {| now := now w; reads := reads w; clicks := clicks w;
                 fills := (s, txt) :: fills w; typed := typed w;
                 visited := visited w |})
  else (Some "fill: not an input", w).

Definition simType (sc : Script) (txt : string) (w : World)
  : rejection * World :=
  if typingWorks sc
  then (None, {| now := now w; reads := reads w; clicks := clicks w;
                 fills := fills w; typed := txt :: typed w;
                 visited := visited w |})
  else (Some "keyboard: page closed", w).

Definition simGoto (u : string) (w : World) : rejection * World :=
  (None, {| now := now w; reads := reads w; clicks := clicks w;
            fills := fills w; typed := typed w; visited := u :: visited w |}).

Definition simWaitFor (sc : Script) (s : string) (timeout : Z) (w : World)
  : bool * World :=
  if appears sc s w then (true, w) else (false, tick timeout w).

Lemma simCount_clock sc s w : now w <= now (snd (simCount sc s w)).
Proof. unfold simCount; destruct (countsReads sc); simpl; lia. Qed.

Lemma tick_clock ms w : now w + ms <= now (tick ms w).
Proof. simpl; lia. Qed.

Definition browser (sc : Script) : Browser World unit :=
  {| clock := now;
     pageUrl := fun w => hd "about:blank" (visited w);
     locCount := simCount sc;
     locIsVisible := fun s w => (Some (present sc s w), w);
     locBoundingBox := fun s w =>
       (Some (if present sc s w
              then Some {| box_x := 0; box_y := 0;
                           box_width := 10; box_height := 10 |}
              else None), w);
     locIsEnabled := fun s w => (Some (enabled sc s), w);
     evalDetails := fun s w => (Some (details sc s), w);
     evalTag := fun s w => (Some (tag (details sc s)), w);
     evalContentEditable := fun s w => (Some (editable sc s), w);
     evalRole := fun s w => (Some (roleOf sc s), w);
     waitForTimeout := tick;
     waitForSelector := simWaitFor sc;
     click := simClick sc;
     fill := simFill sc;
     focus := fun s _ w => (if present sc s w then None
                            else Some "focus: timeout", w);
     keyboardType := simType sc;
     goto := fun u _ w => simGoto u w;
     screenshot := fun _ w => (shotWorks sc, w);
     captureDomSummary := fun _ w => (Some tt, w);
     captureShot := fun _ w => if shotWorks sc then Some (now w) else None;
     captureTime := fun _ w => now w;
     callPlanner := fun a _ w => (plannerAnswer sc a, w);
     jsonParse := fun _ => None;
     cwdOutputs := "outputs";
     clock_locCount := simCount_clock sc;
     clock_locIsVisible := fun _ w => Z.le_refl (now w);
     clock_locBoundingBox := fun _ w => Z.le_refl (now w);
     clock_waitForTimeout := tick_clock |}.

Definition button : Details :=
  {| tag := "button"; role := EmptyString; hasOnClick := false;
     hasTabIndex := false |}.
Definition input : Details :=
  {| tag := "input"; role := EmptyString; hasOnClick := false;
     hasTabIndex := false |}.
Definition div : Details :=
  {| tag := "div"; role := EmptyString; hasOnClick := false;
     hasTabIndex := false |}.

(** A page on which nothing is there and everything works; the planner
    has no answer. *)
Definition blank : Script :=
  {| present := fun _ _ => false;
     appears := fun _ _ => false;
     enabled := fun _ => true;
     details := fun _ => button;
     editable := fun _ => false;
     roleOf := fun _ => None;
     clickWorks := fun _ => true;
     fillWorks := fun _ => true;
     typingWorks := true;
     shotWorks := true;
     countsReads := false;
     plannerAnswer := fun _ => None |}.

Definition action (t : ActionType) (sels : list string) : PlanAction :=
  {| type := t; selector := Some sels; selector_candidates := None;
     text := None; url := None; timeoutMs := None; checkpoint_name := None;
     expected_dialog := None; dialogTimeoutMs := None;
     fallback_to_keyboard := None; notes := None; wait_for := None |}.

Definition opts : Opts :=
  {| taskId := Some "task"; outDir := Some "out"; plannerConfidence := None;
     instruction := None |}.

Definition fresh : State World := {| world := start; files := [] |}.

End Sim.

(* ===================================================================== *)
(** ** The planner's answer: [src/core/planner.ts] *)
(* ===================================================================== *)

(** What [callPlanner] does with the text the language model returned:
    the JSON document is cut out of the text, parsed, brought to the shape
    of a plan and validated.  The call of the model is external; its result
    is an input here, and so is [JSON.parse].  Numbers are integers, as in
    [json]. *)
Module Planner.

(** [o[k]] for a key [k] that arrays and primitive values do not have: the
    value stored under [k] when [o] is an object, undefined otherwise.
    Reading from [null] throws; the callers that can meet [null] test for
    it first. *)
Fixpoint lookup (k : string) (fields : list (string * json)) : option json :=
  match fields with
  | [] => None
  | (k', v) :: r => if String.eqb k' k then Some v else lookup k r
  end.

Definition getField (o : json) (k : string) : option json :=
  match o with
  | JObj fields => lookup k fields
  | _ => None
  end.

(** [o[k] = v] on an object: the value of an existing key is replaced where
    it stands, a new key comes last. *)
Fixpoint assign (k : string) (v : json) (fields : list (string * json))
  : list (string * json) :=
  match fields with
  | [] => [(k, v)]
  | (k', v') :: r =>
      if String.eqb k' k then (k', v) :: r else (k', v') :: assign k v r
  end.

Definition setField (o : json) (k : string) (v : json) : json :=
  match o with
  | JObj fields => JObj (assign k v fields)
  | _ => o
  end.

(** Truth of a value in a condition. *)
Definition truthyJ (v : json) : bool :=
  match v with
  | JNull => false
  | JBool b => b
  | JNum n => negb (Z.eqb n 0)
  | JStr s => truthy s
  | JArr _ => true
  | JObj _ => true
  end.

(** Truth of a value that may be undefined. *)
Definition truthyU (v : option json) : bool :=
  match v with
  | Some j => truthyJ j
  | None => false
  end.

(** [typeof v === "object"] *)
Definition typeofObject (v : json) : bool :=
  match v with
  | JNull => true
  | JArr _ => true
  | JObj _ => true
  | _ => false
  end.

(** [typeof v === "string"] *)
Definition typeofString (v : option json) : bool :=
  match v with
  | Some (JStr _) => true
  | _ => false
  end.

(** [Array.isArray(v)] *)
Definition isArray (v : option json) : bool :=
  match v with
  | Some (JArr _) => true
  | _ => false
  end.

(** The items of a value known to be an array. *)
Definition itemsOf (v : option json) : list json :=
  match v with
  | Some (JArr items) => items
  | _ => []
  end.

(** [Array.isArray(v) && v.length > 0] *)
Definition nonEmptyArray (v : option json) : bool :=
  (isArray v && negb (Nat.eqb (length (itemsOf v)) 0))%bool.

(** [x || y] *)
Definition orU (x y : option json) : option json :=
  if truthyU x then x else y.

(* ------------------------------------------------------------------- *)
(** *** [validateAction] (lines 52-94) *)

Inductive actionFault : Type :=
| NotAnObject
| MissingType
| InvalidType (t : string)
| SelectorNotArray
| SelectorEntriesNotStrings
| ScreenshotWithoutName
| GotoWithoutUrl
| FillWithoutText
| FillWithoutSelector
| WaitWithoutSelector.

(** The error thrown for an action: the index and the context go into the
    message. *)
Record actionError : Type := {
  at_index : nat;
  at_context : string;
  fault : actionFault
}.

Definition allowed : list string :=
  ["click"; "fill"; "waitForSelector"; "screenshot"; "goto";
   "waitForTimeout"].

(** Line 58: [selector_candidates] becomes [selector] when there is no
    selector and the candidates are an array. *)
Definition coerceArray (a : json) : json :=
  if (negb (truthyU (getField a "selector"))
      && isArray (getField a "selector_candidates"))%bool
  then match getField a "selector_candidates" with
       | Some c => setField a "selector" c
       | None => a
       end
  else a.

(** [a.selector.some(s => typeof s !== "string")] *)
Definition someNotString (v : option json) : bool :=
  existsb (fun s => negb (typeofString (Some s))) (itemsOf v).

(** [!a.selector || !Array.isArray(a.selector) || a.selector.length === 0] *)
Definition lacksSelector (a : json) : bool :=
  (negb (truthyU (getField a "selector"))
   || negb (isArray (getField a "selector"))
   || Nat.eqb (length (itemsOf (getField a "selector"))) 0)%bool.

(** [a.url.startsWith("http")] for a string. *)
Definition startsWithHttp (v : option json) : bool :=
  match v with
  | Some (JStr u) => prefix "http" u
  | _ => false
  end.

(** Lines 60-91: the first test that fails, for an action of type [t]. *)
Definition checkFields (t : string) (a : json) : option actionFault :=
  let sel := getField a "selector" in
  if (truthyU sel && negb (isArray sel))%bool then Some SelectorNotArray
  else if (truthyU sel && someNotString sel)%bool
  then Some SelectorEntriesNotStrings
  else if (String.eqb t "screenshot"
           && (negb (truthyU (getField a "checkpoint_name"))
               || negb (typeofString (getField a "checkpoint_name"))))%bool
  then Some ScreenshotWithoutName
  else if (String.eqb t "goto"
           && (negb (truthyU (getField a "url"))
               || negb (typeofString (getField a "url"))
               || negb (startsWithHttp (getField a "url"))))%bool
  then Some GotoWithoutUrl
  else if (String.eqb t "fill"
           && (negb (truthyU (getField a "text"))
               || negb (typeofString (getField a "text"))))%bool
  then Some FillWithoutText
  else if (String.eqb t "fill" && lacksSelector a)%bool
  then Some FillWithoutSelector
  else if (String.eqb t "waitForSelector" && lacksSelector a)%bool
  then Some WaitWithoutSelector
  else None.

(** [validateAction] throws or returns; it writes [a.selector] on the way,
    so the action as it is afterwards is the result. *)
Definition validateAction (a : json) (idx : nat) (context : string)
  : actionError + json :=
  let fail f := inl {| at_index := idx; at_context := context;
                       fault := f |} in
  if (negb (truthyJ a) || negb (typeofObject a))%bool then fail NotAnObject
  else
    match getField a "type" with
    | Some (JStr t) =>
        if negb (truthy t) then fail MissingType
        else if negb (existsb (String.eqb t) allowed)
        then fail (InvalidType t)
        else
          let a := coerceArray a in
          match checkFields t a with
          | Some f => fail f
          | None => inr a
          end
    | _ => fail MissingType
    end.

(** [seq.forEach((a, idx) => validateAction(a, idx, context))] *)
Fixpoint validateActions (items : list json) (idx : nat) (context : string)
  : actionError + list json :=
  match items with
  | [] => inr []
  | a :: r =>
      match validateAction a idx context with
      | inl e => inl e
      | inr a' =>
          match validateActions r (S idx) context with
          | inl e => inl e
          | inr r' => inr (a' :: r')
          end
      end
  end.

(* ------------------------------------------------------------------- *)
(** *** [normalizeParsedPlanner] (lines 120-165) *)

(** [if (!a.selector && a.selector_candidates)
       a.selector = a.selector_candidates] (lines 134, 144, 324, 331): here
    the candidates need not be an array.  A value that is not an object has
    neither property and stays as it is. *)
Definition coerceSelector (a : json) : json :=
  if (negb (truthyU (getField a "selector"))
      && truthyU (getField a "selector_candidates"))%bool
  then match getField a "selector_candidates" with
       | Some c => setField a "selector" c
       | None => a
       end
  else a.

(** [map] with a function that may throw. *)
Fixpoint mapM {A C : Type} (f : A -> option C) (l : list A)
  : option (list C) :=
  match l with
  | [] => Some []
  | x :: r =>
      match f x with
      | None => None
      | Some y =>
          match mapM f r with
          | None => None
          | Some r' => Some (y :: r')
          end
      end
  end.

(** The actions of [cp.action_sequence] are the very objects of the array
    [cp.action_sequence || cp.actions || cp.plan] they were mapped from.
    When that array is [cp.actions] or [cp.plan] it stays in the
    checkpoint, and a later write to an action shows there as well.
    [sharedKey] is the key of that array, if any. *)
Definition sharedKey (cp : json) : option string :=
  if truthyU (getField cp "action_sequence") then None
  else if truthyU (getField cp "actions")
  then (if isArray (getField cp "actions") then Some "actions" else None)
  else if truthyU (getField cp "plan")
  then (if isArray (getField cp "plan") then Some "plan" else None)
  else None.

(** The actions of a checkpoint after a write to some of them: they are
    seen under [action_sequence] and under the shared key. *)
Definition writeSeq (shared : option string) (cp : json)
    (items : list json) : json :=
  let cp := setField cp "action_sequence" (JArr items) in
  match shared with
  | Some k => setField cp k (JArr items)
  | None => cp
  end.

(** Lines 139-148, for one checkpoint.  [None] is the [TypeError] of an
    assignment to a property of a number, a string or [true]: the module
    is strict code.  An array is given the property [action_sequence]; a
    [json] array has no place for it, and it is left out: the one reader
    of the result, [callPlanner], rejects an array for its missing name
    before it reads anything else of it. *)
Definition normalizeCheckpoint (cp : json) : option json :=
  if negb (truthyJ cp) then Some cp
  else
    match cp with
    | JObj _ =>
        let action_sequence :=
          orU (getField cp "action_sequence")
              (orU (getField cp "actions")
                   (orU (getField cp "plan") (Some (JArr [])))) in
        Some (if isArray action_sequence
              then writeSeq (sharedKey cp) cp
                            (map coerceSelector (itemsOf action_sequence))
              else setField cp "action_sequence" (JArr []))
    | JArr _ => Some cp
    | _ => None
    end.

(** An object literal: a property whose value is undefined is left out, as
    [JSON.stringify] leaves it out; reading it gives undefined either
    way. *)
Definition objectOf (props : list (string * option json)) : json :=
  JObj (flat_map (fun kv : string * option json =>
                    match snd kv with
                    | Some v => [(fst kv, v)]
                    | None => []
                    end) props).

(** Lines 154-161: the value of the first key, in the order of
    [Object.keys], whose value is an array. *)
Definition firstArray (parsed : json) : option json :=
  match parsed with
  | JObj fields =>
      match find (fun k => isArray (getField parsed k)) (map fst fields) with
      | Some k => getField parsed k
      | None => None
      end
  | _ => None
  end.

(** [None] is a [TypeError], see [normalizeCheckpoint]. *)
Definition normalizeParsedPlanner (parsed : json) : option json :=
  if (negb (truthyJ parsed) || negb (typeofObject parsed))%bool
  then Some (JObj [])
  else
    match parsed with
    | JArr _ => Some (JObj [("plan", parsed)])
    | _ =>
        if (truthyU (getField parsed "plan")
            || truthyU (getField parsed "checkpoints"))%bool
        then
          let parsed :=
            if isArray (getField parsed "plan")
            then setField parsed "plan"
                   (JArr (map coerceSelector
                              (itemsOf (getField parsed "plan"))))
            else parsed in
          if isArray (getField parsed "checkpoints")
          then match mapM normalizeCheckpoint
                          (itemsOf (getField parsed "checkpoints")) with
               | Some cps => Some (setField parsed "checkpoints" (JArr cps))
               | None => None
               end
          else Some parsed
        else
          match firstArray parsed with
          | Some v =>
              Some (objectOf [("plan", Some v);
                              ("app", getField parsed "app");
                              ("description", getField parsed "description");
                              ("start_url", getField parsed "start_url");
                              ("confidence", getField parsed "confidence");
                              ("explain", getField parsed "explain")])
          | None => Some parsed
          end
    end.

(* ------------------------------------------------------------------- *)
(** *** [callPlanner] after the answer (lines 270-338) *)

Inductive validationError : Type :=
| ReadOfNull (cpIdx : nat)
| CheckpointWithoutName (cpIdx : nat)
| SequenceNotArray (cpIdx : nat)
| InvalidAction (e : actionError).

Inductive plannerError : Type :=
| LlmCallFailed (message : string)
| NoValidJson
| ExtractedNotParsed
| TypeErrorInNormalize
| MissingCheckpointsOrPlan
| ValidationFailed (e : validationError)
| TypeErrorAtEnd.

(** The context given to [validateAction] for an action of a checkpoint. *)
Definition contextOf (cpIdx : nat) (name : string) : string :=
  (" in checkpoint[" ++ ofZ (Z.of_nat cpIdx) ++ " - " ++ name ++ "]")%string.

(** Lines 307-312, for one checkpoint.  The actions are validated in
    place. *)
Definition validateCheckpoint (shared : option string) (cpIdx : nat)
    (cp : json) : validationError + json :=
  match cp with
  | JNull => inl (ReadOfNull cpIdx)
  | _ =>
      match getField cp "name" with
      | Some (JStr name) =>
          if negb (truthy name) then inl (CheckpointWithoutName cpIdx)
          else
            let seq := orU (getField cp "action_sequence")
                           (Some (JArr [])) in
            if negb (isArray seq) then inl (SequenceNotArray cpIdx)
            else
              match validateActions (itemsOf seq) 0
                                    (contextOf cpIdx name) with
              | inl e => inl (InvalidAction e)
              | inr items =>
                  inr (if truthyU (getField cp "action_sequence")
                       then writeSeq shared cp items
                       else cp)
              end
      | _ => inl (CheckpointWithoutName cpIdx)
      end
  end.

(** [checkpoints.forEach(...)]; [shared] gives the shared key of each
    checkpoint. *)
Fixpoint validateCheckpoints (cps : list json) (shared : list (option string))
    (cpIdx : nat) : validationError + list json :=
  match cps with
  | [] => inr []
  | cp :: r =>
      match validateCheckpoint (hd None shared) cpIdx cp with
      | inl e => inl e
      | inr cp' =>
          match validateCheckpoints r (tl shared) (S cpIdx) with
          | inl e => inl e
          | inr r' => inr (cp' :: r')
          end
      end
  end.

(** Lines 324 and 331: the same rule as [coerceSelector], with no test of
    the action before its property is read: [null] throws. *)
Definition finalAction (a : json) : option json :=
  match a with
  | JNull => None
  | _ => Some (coerceSelector a)
  end.

(** Lines 329-335, for one checkpoint: [cp.action_sequence.map] throws
    when there is no such array. *)
Definition finalCheckpoint (shared : option string) (cp : json)
  : option json :=
  if isArray (getField cp "action_sequence")
  then match mapM finalAction (itemsOf (getField cp "action_sequence")) with
       | Some items => Some (writeSeq shared cp items)
       | None => None
       end
  else None.

Fixpoint finalCheckpoints (cps : list json) (shared : list (option string))
  : option (list json) :=
  match cps with
  | [] => Some []
  | cp :: r =>
      match finalCheckpoint (hd None shared) cp with
      | None => None
      | Some cp' =>
          match finalCheckpoints r (tl shared) with
          | None => None
          | Some r' => Some (cp' :: r')
          end
      end
  end.

(** Lines 293-338: from the parsed answer to the plan returned. *)
Definition planFromParsed (parsed : json) : plannerError + json :=
  match normalizeParsedPlanner parsed with
  | None => inl TypeErrorInNormalize
  | Some normalized =>
      let hasCheckpoints :=
        nonEmptyArray (getField normalized "checkpoints") in
      let hasPlan := nonEmptyArray (getField normalized "plan") in
      let shared := map sharedKey (itemsOf (getField parsed "checkpoints")) in
      if (negb hasCheckpoints && negb hasPlan)%bool
      then inl MissingCheckpointsOrPlan
      else
        match (if hasCheckpoints
               then match validateCheckpoints
                            (itemsOf (getField normalized "checkpoints"))
                            shared 0 with
                    | inl e => inl e
                    | inr cps =>
                        inr (setField normalized "checkpoints" (JArr cps))
                    end
               else inr normalized) with
        | inl e => inl (ValidationFailed e)
        | inr normalized =>
            match (if hasPlan
                   then match validateActions
                                (itemsOf (getField normalized "plan")) 0
                                EmptyString with
                        | inl e => inl e
                        | inr pl =>
                            inr (setField normalized "plan" (JArr pl))
                        end
                   else inr normalized) with
            | inl e => inl (ValidationFailed (InvalidAction e))
            | inr normalized =>
                match (if hasPlan
                       then match mapM finalAction
                                       (itemsOf (getField normalized "plan"))
                            with
                            | Some pl =>
                                Some (setField normalized "plan" (JArr pl))
                            | None => None
                            end
                       else Some normalized) with
                | None => inl TypeErrorAtEnd
                | Some normalized =>
                    if hasCheckpoints
                    then match finalCheckpoints
                                 (itemsOf (getField normalized "checkpoints"))
                                 shared with
                         | Some cps =>
                             inr (setField normalized "checkpoints"
                                           (JArr cps))
                         | None => inl TypeErrorAtEnd
                         end
                    else inr normalized
                end
            end
        end
  end.

Section Parsing.

(** [JSON.parse]; [None] when it throws. *)
Variable parse : string -> option json.

(** The text from its first opening brace on. *)
Fixpoint fromFirstBrace (text : string) : option string :=
  match text with
  | EmptyString => None
  | String c r =>
      if Ascii.eqb c "{" then Some text else fromFirstBrace r
  end.

(** The loop of [extractJsonLike] on the text from the first brace on:
    the candidates are its prefixes, the longest first, down to the brace
    alone. *)
Fixpoint longestParsed (rest : string) (n : nat) : option string :=
  match n with
  | O => None
  | S m =>
      match parse (substring 0 n rest) with
      | Some _ => Some (substring 0 n rest)
      | None => longestParsed rest m
      end
  end.

(** [extractJsonLike] (lines 97-113) *)
Definition extractJsonLike (text : string) : option string :=
  if negb (truthy text) then None
  else
    match fromFirstBrace text with
    | None => None
    | Some rest => longestParsed rest (String.length rest)
    end.

(** Lines 278-291. *)
Definition parseResponse (respText : string) : plannerError + json :=
  let jsonLike := extractJsonLike respText in
  if negb (truthyOpt jsonLike)
  then match parse respText with
       | Some parsed => inr parsed
       | None => inl NoValidJson
       end
  else match parse (orElse EmptyString jsonLike) with
       | Some parsed => inr parsed
       | None => inl ExtractedNotParsed
       end.

(** [callPlanner] from the outcome of [generateText]: an error message
    when the call threw, the text of the response otherwise, which may be
    undefined. *)
Definition callPlanner (generated : string + option string)
  : plannerError + json :=
  match generated with
  | inl message => inl (LlmCallFailed message)
  | inr text =>
      let respText := match text with
                      | Some t => trim t
                      | None => EmptyString
                      end in
      match parseResponse respText with
      | inl e => inl e
      | inr parsed => planFromParsed parsed
      end
  end.

End Parsing.

End Planner.

(** The plan goes from the planner to the executor as it is
    ([src/scripts/test_capture.ts]): the executor reads the JSON value. *)
Module Handover.

Import Planner.

(** Lines 347-348 of the executor, on the plan as a JSON value: the
    checkpoints the run goes through, or nothing when the run is refused
    for having none. *)
Definition checkpoints (checkpointedPlan : json) : option (list json) :=
  let checkpoints :=
    orU (getField checkpointedPlan "checkpoints")
        (Some (if truthyU (getField checkpointedPlan "plan")
               then JArr [JObj [("name", JStr "plan");
                                ("action_sequence",
                                 orElse JNull
                                        (getField checkpointedPlan "plan"))]]
               else JArr [])) in
  if (negb (isArray checkpoints)
      || Nat.eqb (length (itemsOf checkpoints)) 0)%bool
  then None
  else Some (itemsOf checkpoints).

End Handover.

(** The hints on the page that [callPlanner] puts into its prompt (lines
    182-200 of [planner.ts]). *)
Module Prompt.

(** The fields of a visible element that are read. *)
Record VisibleElement : Type := {
  role : option string;
  name : option string;
  data_testid : option string;
  placeholder : option string
}.

(** [x || ""] *)
Definition orEmpty (x : option string) : string :=
  if truthyOpt x then orElse EmptyString x else EmptyString.

(** Lines 185-191: the text of one element. *)
Definition hintOf (e : VisibleElement) : string :=
  let role := orEmpty (role e) in
  let name := orEmpty (name e) in
  let dataTest := orEmpty (data_testid e) in
  let placeholder :=
    if truthyOpt (placeholder e)
    then (" placeholder=" ++ orElse EmptyString (placeholder e))%string
    else EmptyString in
  trim ((if truthy role then role ++ ":" else EmptyString)
        ++ name
        ++ (if truthy dataTest
            then " [data-testid=" ++ dataTest ++ "]"
            else EmptyString)
        ++ placeholder)%string.

(** Line 193 *)
Definition keepHint (text : string) : bool :=
  (truthy text && negb (prefix "img" text) && negb (String.eqb text "on"))%bool.

(** Lines 182-196: the set of the texts kept, at most 120 of them. *)
Definition visibleHints (visible_elements : list VisibleElement)
  : list string :=
  firstn 120 (setOf (filter keepHint (map hintOf visible_elements))).

(** [l.join(sep)] *)
Fixpoint join (sep : string) (l : list string) : string :=
  match l with
  | [] => EmptyString
  | [x] => x
  | x :: r => (x ++ sep ++ join sep r)%string
  end.

Definition visible (visible_elements : list VisibleElement) : string :=
  join "; " (visibleHints visible_elements).

(** Line 200 *)
Definition topTexts (top_texts : list string) : list string :=
  firstn 40 (setOf (filter truthy (map trim top_texts))).

Definition topTextSnippet (top_texts : list string) : string :=
  join " | " (topTexts top_texts).

End Prompt.

(** The resolution of the application named in an instruction
    ([src/core/app_resolver.ts]).  The registry is the object read from the
    configuration; the language model and the person at the terminal are
    inputs. *)
Module AppResolver.

Import Planner.

Record AppInfo : Type := {
  app : option json;
  baseUrl : option json;
  authPath : json
}.

(** What the person types at the three questions, before the trimming of
    [askCli]: the address when the application is unknown, the
    confirmation, and the address after a refusal. *)
Record User : Type := {
  unknownUrl : string;
  confirmation : string;
  otherUrl : string
}.

(** The function throws, or returns an application or [null]. *)
Inductive outcome : Type :=
| Throws
| Returns (info : option AppInfo).

(** [askCli]: the answer, trimmed. *)
Definition askCli (answer : string) : string := trim answer.

(** [v || null] *)
Definition orNull (v : option json) : json :=
  if truthyU v then orElse JNull v else JNull.

(** Line 29, for the key that matched; reading a property of [null]
    throws. *)
Definition entryInfo (key : string) (entry : option json) : outcome :=
  match entry with
  | Some JNull => Throws
  | None => Throws
  | Some e =>
      Returns (Some {| app := Some (JStr key);
                       baseUrl := getField e "baseUrl";
                       authPath := orNull (getField e "authPath") |})
  end.

(** Lines 27-31: the first key of the registry, in the order of
    [Object.keys], that the lower-cased instruction contains. *)
Fixpoint ruleMatch (lower : string) (registry : list (string * json))
    (keys : list string) : option outcome :=
  match keys with
  | [] => None
  | key :: rest =>
      if includes key lower
      then Some (entryInfo key (lookup key registry))
      else ruleMatch lower registry rest
  end.

Section Resolve.

(** [JSON.parse], and the conversion of a value that is not a string to
    a property key. *)
Variable parse : string -> option json.
Variable toPropertyKey : option json -> string.

(** Lines 47-53: the candidate; any failure gives the unknown one. *)
Definition candidateOf (text : option string) : json :=
  match text with
  | Some t => orElse (JObj [("app", JStr "unknown")]) (parse (trim t))
  | None => JObj [("app", JStr "unknown")]
  end.

(** [candidate.app === "unknown"] *)
Definition isUnknown (candidate : json) : bool :=
  match getField candidate "app" with
  | Some (JStr s) => String.eqb s "unknown"
  | _ => false
  end.

(** [registry[candidate.app]?.authPath || null] *)
Definition registeredAuth (registry : list (string * json))
    (appValue : option json) : json :=
  let key := match appValue with
             | Some (JStr s) => s
             | v => toPropertyKey v
             end in
  orNull match lookup key registry with
         | Some e => getField e "authPath"
         | None => None
         end.

(** Lines 55-71: after the answer of the model. *)
Definition askUser (registry : list (string * json)) (candidate : json)
    (user : User) : outcome :=
  if (negb (truthyJ candidate) || isUnknown candidate)%bool
  then
    let userUrl := askCli (unknownUrl user) in
    if negb (truthy userUrl) then Returns None
    else Returns (Some {| app := Some (JStr "custom");
                          baseUrl := Some (JStr userUrl);
                          authPath := JNull |})
  else
    let confirmed := askCli (confirmation user) in
    if prefix "y" (toLowerCase confirmed)
    then Returns (Some {| app := getField candidate "app";
                          baseUrl := getField candidate "base_url";
                          authPath :=
                            registeredAuth registry
                                           (getField candidate "app") |})
    else
      let provided := askCli (otherUrl user) in
      if negb (truthy provided) then Returns None
      else Returns (Some {| app := getField candidate "app";
                            baseUrl := Some (JStr provided);
                            authPath := JNull |}).

(** [resolveAppFromInstruction]; [generated] is [None] when the call of
    the model throws, and the text of its response otherwise, which may
    be undefined. *)
Definition resolveAppFromInstruction (registry : list (string * json))
    (instruction : string) (generated : option (option string))
    (user : User) : outcome :=
  let lower := toLowerCase instruction in
  match ruleMatch lower registry (map fst registry) with
  | Some r => r
  | None =>
      match generated with
      | None => Throws
      | Some text => askUser registry (candidateOf text) user
      end
  end.

End Resolve.

End AppResolver.

Unset Implicit Arguments.

(* ===================================================================== *)
(** ** Specification-side definitions *)
(* ===================================================================== *)

Module RecoverySpec.

Import Recovery.

(** [Offered j s]: the string [s] is a non-blank item of an array stored
    under a selector key, at a place of [j] reached through arrays and
    through fields with other keys. *)
Inductive Offered : json -> string -> Prop :=
| OfferedInArray items x s :
    In x items -> Offered x s -> Offered (JArr items) s
| OfferedUnderKey fields k items s :
    In (k, JArr items) fields -> isSelectorKey k = true ->
    In (JStr s) items -> nonBlank s = true -> Offered (JObj fields) s
| OfferedInField fields k v s :
    In (k, v) fields -> isSelectorKey k = false -> Offered v s ->
    Offered (JObj fields) s.

(** The reading of the extraction as every string found under a selector
    key at any depth. *)
Fixpoint allStrings (j : json) : list string :=
  match j with
  | JStr s => [s]
  | JArr items => flat_map allStrings items
  | JObj fields => flat_map (fun kv : string * json => allStrings (snd kv))
                            fields
  | _ => []
  end.

Fixpoint stringsUnderSelectorKeys (j : json) : list string :=
  match j with
  | JArr items => flat_map stringsUnderSelectorKeys items
  | JObj fields =>
      flat_map (fun kv : string * json =>
                  let (k, v) := kv in
                  if isSelectorKey k then allStrings v
                  else stringsUnderSelectorKeys v) fields
  | _ => []
  end.

Definition everyStringUnderKeys (j : json) : option (list string) :=
  match firstn 12 (setOf (stringsUnderSelectorKeys j)) with
  | [] => None
  | u => Some u
  end.

(** Induction on a JSON value, with the items of arrays and the values
    of fields as smaller values. *)
Section JsonInduction.

Variable P : json -> Prop.
Hypothesis HNull : P JNull.
Hypothesis HBool : forall b, P (JBool b).
Hypothesis HNum : forall n, P (JNum n).
Hypothesis HStr : forall s, P (JStr s).
Hypothesis HArr : forall items, Forall P items -> P (JArr items).
Hypothesis HObj :
  forall fields, Forall (fun kv => P (snd kv)) fields -> P (JObj fields).

Fixpoint json_nested_ind (j : json) : P j :=
  match j with
  | JNull => HNull
  | JBool b => HBool b
  | JNum n => HNum n
  | JStr s => HStr s
  | JArr items =>
      HArr items ((fix go (l : list json) : Forall P l :=
               match l with
               | [] => Forall_nil _
               | x :: r => Forall_cons _ (json_nested_ind x) (go r)
               end) items)
  | JObj fields =>
      HObj fields ((fix go (l : list (string * json))
               : Forall (fun kv => P (snd kv)) l :=
               match l with
               | [] => Forall_nil _
               | kv :: r =>
                   Forall_cons _ (json_nested_ind (snd kv)) (go r)
               end) fields)
  end.

End JsonInduction.

End RecoverySpec.

(* ===================================================================== *)
(** ** Properties of the candidate extraction *)
(* ===================================================================== *)

Module RecoveryFacts.

Import Recovery RecoverySpec.

Lemma stringItems_spec items s :
  In s (stringItems items) <-> In (JStr s) items /\ nonBlank s = true.
Proof.
  unfold stringItems. rewrite in_flat_map. split.
  - intros [x [Hx Hs]]. destruct x; simpl in Hs; try contradiction.
    destruct (nonBlank s0) eqn:E; simpl in Hs; [|contradiction].
    destruct Hs as [<- | []]. auto.
  - intros [Hin Hnb]. exists (JStr s). split; [assumption|].
    rewrite Hnb. now left.
Qed.

Lemma collectFrom_sound j : forall s, In s (collectFrom j) -> Offered j s.
Proof.
  induction j using json_nested_ind; simpl; intros s0 Hin;
    try contradiction.
  - apply in_flat_map in Hin as [x [Hx Hs]].
    rewrite Forall_forall in H. eauto using OfferedInArray.
  - apply in_flat_map in Hin as [[k v] [Hkv Hs]].
    rewrite Forall_forall in H.
    destruct (isSelectorKey k) eqn:Ek.
    + destruct v; try contradiction.
      apply stringItems_spec in Hs as [Hi Hnb].
      eauto using OfferedUnderKey.
    + eapply OfferedInField; eauto. exact (H _ Hkv _ Hs).
Qed.

Lemma collectFrom_complete j s : Offered j s -> In s (collectFrom j).
Proof.
  induction 1; simpl.
  - apply in_flat_map. eauto.
  - apply in_flat_map. exists (k, JArr items). split; [assumption|].
    rewrite H0. apply stringItems_spec. auto.
  - apply in_flat_map. exists (k, v). split; [assumption|].
    rewrite H0. assumption.
Qed.

Lemma Offered_nonBlank j s : Offered j s -> nonBlank s = true.
Proof. induction 1; auto. Qed.

Lemma dedupOnto_In seen l x :
  In x (dedupOnto seen l) <-> In x l /\ ~ In x seen.
Proof.
  revert seen. induction l as [|y l IH]; intros seen; simpl.
  - tauto.
  - destruct (existsb (String.eqb y) seen) eqn:E.
    + apply existsb_exists in E as [z [Hz Ez]].
      apply String.eqb_eq in Ez; subst z.
      rewrite IH. split.
      * intros [H1 H2]; auto.
      * intros [[->|H1] H2]; [contradiction|auto].
    + assert (Hy : ~ In y seen).
      { intros Hy.
        assert (existsb (String.eqb y) seen = true) as E'.
        { apply existsb_exists. exists y. split; [assumption|].
          apply String.eqb_refl. }
        congruence. }
      simpl. rewrite IH. simpl. split.
      * intros [->|[H1 H2]]; [auto|]. split; [auto|]. tauto.
      * intros [[->|H1] H2]; [auto|].
        destruct (string_dec y x) as [->|Hne]; [auto|].
        right. split; [assumption|]. intros [?|?]; [congruence|auto].
Qed.

Lemma setOf_In l x : In x (setOf l) <-> In x l.
Proof. unfold setOf. rewrite dedupOnto_In. simpl. tauto. Qed.

Lemma firstn_subset {A} n (l : list A) x : In x (firstn n l) -> In x l.
Proof.
  intros H. rewrite <- (firstn_skipn n l). apply in_or_app. now left.
Qed.

Lemma uniq_In l c :
  In c (uniq l) -> exists s, In s l /\ c = trim s.
Proof.
  unfold uniq. intros H. apply firstn_subset in H.
  apply filter_In in H as [H _]. apply in_map_iff in H as [s [<- Hs]].
  apply -> setOf_In in Hs. exists s. split; [assumption|reflexivity].
Qed.

Lemma uniq_length l : (length (uniq l) <= 12)%nat.
Proof. unfold uniq. apply firstn_le_length. Qed.

Lemma filter_all {A} (f : A -> bool) l :
  Forall (fun x => f x = true) l -> filter f l = l.
Proof.
  induction 1 as [|x l Hx _ IH]; simpl; [reflexivity|].
  now rewrite Hx, IH.
Qed.

Lemma uniq_complete l s :
  Forall (fun x => nonBlank x = true) l ->
  (length (setOf l) <= 12)%nat -> In s l -> In (trim s) (uniq l).
Proof.
  intros Hnb Hlen Hin. unfold uniq.
  rewrite filter_all.
  - rewrite firstn_all2 by (rewrite length_map; assumption).
    apply in_map. now apply setOf_In.
  - rewrite Forall_forall. intros c Hc.
    apply in_map_iff in Hc as [x [<- Hx]]. apply -> setOf_In in Hx.
    rewrite Forall_forall in Hnb. exact (Hnb _ Hx).
Qed.

Lemma uniq_nil l :
  Forall (fun x => nonBlank x = true) l -> uniq l = [] -> l = [].
Proof.
  intros Hnb H. destruct l as [|x l]; [reflexivity|exfalso].
  unfold uniq, setOf in H. simpl in H.
  inversion Hnb as [|? ? Hx _]; subst.
  unfold nonBlank in Hx. rewrite Hx in H. simpl in H. discriminate.
Qed.

Lemma extractSelectors_spec j :
  (extractSelectors j = None <-> forall s, ~ Offered j s)
  /\ (forall u, extractSelectors j = Some u ->
        u <> [] /\ (length u <= 12)%nat
        /\ (forall c, In c u -> exists s, Offered j s /\ c = trim s)
        /\ ((length (setOf (collectFrom j)) <= 12)%nat ->
            forall s, Offered j s -> In (trim s) u)).
Proof.
  assert (Hnb : Forall (fun x => nonBlank x = true) (collectFrom j)).
  { rewrite Forall_forall. intros x Hx.
    eapply Offered_nonBlank, collectFrom_sound, Hx. }
  unfold extractSelectors. split.
  - split.
    + intros H s Hs. apply collectFrom_complete in Hs.
      destruct (uniq (collectFrom j)) eqn:E; [|discriminate].
      apply uniq_nil in E; [|assumption]. rewrite E in Hs. exact Hs.
    + intros H. destruct (collectFrom j) as [|x l] eqn:E.
      * reflexivity.
      * exfalso. apply (H x). apply collectFrom_sound. rewrite E.
        now left.
  - intros u Hu.
    assert (Eu : uniq (collectFrom j) = u /\ u <> []).
    { destruct (uniq (collectFrom j)); [discriminate|].
      inversion Hu; subst. split; [reflexivity|discriminate]. }
    destruct Eu as [Eu Hne]. subst u. split; [assumption|].
    split; [apply uniq_length|]. split.
    + intros c Hc. apply uniq_In in Hc as [s [Hs ->]].
      exists s. split; [now apply collectFrom_sound|reflexivity].
    + intros Hlen s Hs. apply uniq_complete; auto.
      now apply collectFrom_complete.
Qed.

End RecoveryFacts.

(* ===================================================================== *)
(** ** Resolution on a page whose reads leave it alone *)
(* ===================================================================== *)

Section PageSpec.

Context {W Snap : Type} (B : Browser W Snap).

(** The locator reads do not change the world: between two waits the
    page is at rest. *)
Record ReadsPure : Prop := {
  pure_count : forall s w, snd (locCount B s w) = w;
  pure_visible : forall s w, snd (locIsVisible B s w) = w;
  pure_box : forall s w, snd (locBoundingBox B s w) = w;
  pure_enabled : forall s w, snd (locIsEnabled B s w) = w;
  pure_details : forall s w, snd (evalDetails B s w) = w;
  pure_tag : forall s w, snd (evalTag B s w) = w;
  pure_editable : forall s w, snd (evalContentEditable B s w) = w;
  pure_role : forall s w, snd (evalRole B s w) = w
}.

(** The three conditions of the resolver, read in the world [w]: the
    element exists, is visible and has a bounding box. *)
Definition resolves (s : string) (w : W) : bool :=
  (negb (Nat.eqb (orElse 0%nat (fst (locCount B s w))) 0)
   && orElse false (fst (locIsVisible B s w))
   && match orElse None (fst (locBoundingBox B s w)) with
      | Some _ => true
      | None => false
      end)%bool.

(** The world after [k] waits of 100 ms. *)
Fixpoint after (k : nat) (w : W) : W :=
  match k with
  | O => w
  | S k' => after k' (waitForTimeout B 100 w)
  end.

(** The resolver in the words of its contract.  A candidate is polled
    every 100 ms while its budget lasts: it is returned at the first poll
    that finds the three conditions, and it is left for the next
    candidate once the budget has elapsed with no such poll. *)
Inductive Resolve (budget : Z)
  : list string -> W -> option string -> W -> Prop :=
| ResolveNone w : Resolve budget [] w None w
| ResolveHit s rest w k :
    (forall j, (j < k)%nat ->
               clock B (after j w) < clock B w + budget
               /\ resolves s (after j w) = false) ->
    clock B (after k w) < clock B w + budget ->
    resolves s (after k w) = true ->
    Resolve budget (s :: rest) w (Some s) (after k w)
| ResolveNext s rest w k r w' :
    (forall j, (j < k)%nat ->
               clock B (after j w) < clock B w + budget
               /\ resolves s (after j w) = false) ->
    clock B w + budget <= clock B (after k w) ->
    Resolve budget rest (after k w) r w' ->
    Resolve budget (s :: rest) w r w'.

(** What [isSelectorClickable] and [isSelectorFillable] answer in [w]. *)
Definition clickableIn (s : string) (w : W) : bool :=
  fst (isSelectorClickable B s w).

Definition fillableIn (s : string) (w : W) : bool :=
  fst (isSelectorFillable B s w).

End PageSpec.

Section PageFacts.

Context {W Snap : Type} (B : Browser W Snap).

Lemma after_clock k w : clock B w + 100 * Z.of_nat k <= clock B (after B k w).
Proof.
  revert w. induction k as [|k IH]; intros w.
  - simpl. lia.
  - cbn [after]. specialize (IH (waitForTimeout B 100 w)).
    pose proof (clock_waitForTimeout B 100 w). lia.
Qed.

Lemma after_succ k w :
  after B (S k) w = waitForTimeout B 100 (after B k w).
Proof.
  revert w. induction k as [|k IH]; intros w; [reflexivity|].
  cbn [after] in *. now rewrite <- IH.
Qed.

Hypothesis pure : ReadsPure B.

Lemma poll_step fuel s deadline w :
  clock B w < deadline ->
  pollSelector B (S fuel) s deadline w =
  if resolves B s w then (Matched, w)
  else pollSelector B fuel s deadline (waitForTimeout B 100 w).
Proof.
  intros Hlt. cbn [pollSelector].
  apply Z.ltb_lt in Hlt. rewrite Hlt.
  unfold resolves, bind, ret, wait.
  pose proof (pure_count B pure s w) as Hc.
  pose proof (pure_visible B pure s w) as Hv.
  pose proof (pure_box B pure s w) as Hb.
  destruct (locCount B s w) as [c w1]; simpl in Hc; subst w1.
  cbn [fst].
  destruct (Nat.eqb (orElse 0%nat c) 0); cbn [negb andb]; [reflexivity|].
  destruct (locIsVisible B s w) as [v w1]; simpl in Hv; subst w1.
  cbn [fst].
  destruct (orElse false v); cbn [andb]; [|reflexivity].
  destruct (locBoundingBox B s w) as [b w1]; simpl in Hb; subst w1.
  cbn [fst].
  destruct (orElse None b); reflexivity.
Qed.

(** Every run of the polling loop is a number of fruitless polls,
    followed by a poll that matches, by the deadline, or by the end of the
    fuel. *)
Lemma poll_run fuel s deadline : forall w,
  exists k,
    (forall j, (j < k)%nat ->
               clock B (after B j w) < deadline
               /\ resolves B s (after B j w) = false)
    /\ snd (pollSelector B fuel s deadline w) = after B k w
    /\ match fst (pollSelector B fuel s deadline w) with
       | Matched => clock B (after B k w) < deadline
                    /\ resolves B s (after B k w) = true
       | Expired => deadline <= clock B (after B k w)
       | OutOfFuel => k = fuel /\ clock B (after B k w) < deadline
       end.
Proof.
  induction fuel as [|fuel IH]; intros w.
  - exists 0%nat. cbn [pollSelector after].
    split; [intros j Hj; lia|].
    destruct (clock B w <? deadline) eqn:E; cbn [fst snd].
    + apply Z.ltb_lt in E. auto.
    + apply Z.ltb_ge in E. auto.
  - destruct (Z.lt_ge_cases (clock B w) deadline) as [Hlt|Hge].
    + rewrite (poll_step fuel s deadline w Hlt).
      destruct (resolves B s w) eqn:Er.
      * exists 0%nat. cbn [after fst snd].
        split; [intros j Hj; lia|]. auto.
      * destruct (IH (waitForTimeout B 100 w)) as [k [Hk [Hw Ho]]].
        exists (S k). cbn [after]. split; [|split; [exact Hw|]].
        -- intros [|j] Hj; cbn [after]; [auto|]. apply Hk. lia.
        -- destruct (fst (pollSelector B fuel s deadline
                                       (waitForTimeout B 100 w)));
             try exact Ho.
           destruct Ho as [-> Ho]. auto.
    + exists 0%nat. cbn [pollSelector after].
      apply Z.ltb_ge in Hge. rewrite Hge. cbn [fst snd].
      split; [intros j Hj; lia|]. apply Z.ltb_ge in Hge. auto.
Qed.

(** The fuel given by [trySelectorsSimple] is enough: the loop ends by a
    match or by its deadline. *)
Lemma pollSelector_fuel s budget w :
  fst (pollSelector B (pollFuel budget) s (clock B w + budget) w)
  <> OutOfFuel.
Proof.
  destruct (poll_run (pollFuel budget) s (clock B w + budget) w)
    as [k [_ [_ Ho]]].
  intros E. rewrite E in Ho. destruct Ho as [-> Ho].
  pose proof (after_clock (pollFuel budget) w). unfold pollFuel in *. lia.
Qed.

Lemma poll_hit k : forall fuel s deadline w,
  (forall j, (j < k)%nat ->
             clock B (after B j w) < deadline
             /\ resolves B s (after B j w) = false) ->
  clock B (after B k w) < deadline ->
  resolves B s (after B k w) = true ->
  (k < fuel)%nat ->
  pollSelector B fuel s deadline w = (Matched, after B k w).
Proof.
  induction k as [|k IH]; intros fuel s deadline w Hpre Hlt Hres Hfuel;
    (destruct fuel as [|fuel]; [lia|]).
  - cbn [after] in *. rewrite (poll_step fuel s deadline w Hlt), Hres.
    reflexivity.
  - destruct (Hpre 0%nat ltac:(lia)) as [H0 R0]. cbn [after] in H0, R0.
    rewrite (poll_step fuel s deadline w H0), R0. cbn [after] in *.
    apply IH; auto; [|lia].
    intros j Hj. apply (Hpre (S j)). lia.
Qed.

Lemma poll_miss k : forall fuel s deadline w,
  (forall j, (j < k)%nat ->
             clock B (after B j w) < deadline
             /\ resolves B s (after B j w) = false) ->
  deadline <= clock B (after B k w) ->
  (k <= fuel)%nat ->
  pollSelector B fuel s deadline w = (Expired, after B k w).
Proof.
  induction k as [|k IH]; intros fuel s deadline w Hpre Hge Hfuel.
  - cbn [after] in *. apply Z.ltb_ge in Hge.
    destruct fuel; cbn [pollSelector]; rewrite Hge; reflexivity.
  - destruct fuel as [|fuel]; [lia|].
    destruct (Hpre 0%nat ltac:(lia)) as [H0 R0]. cbn [after] in H0, R0.
    rewrite (poll_step fuel s deadline w H0), R0. cbn [after] in *.
    apply IH; auto; [|lia].
    intros j Hj. apply (Hpre (S j)). lia.
Qed.

Lemma try_cons s rest budget w :
  truthy s = true ->
  trySelectorsSimple B (s :: rest) budget w =
  let (o, w1) := pollSelector B (pollFuel budget) s (clock B w + budget) w in
  match o with
  | Matched => (Some s, w1)
  | _ => trySelectorsSimple B rest budget w1
  end.
Proof.
  intros Hs. cbn [trySelectorsSimple]. rewrite Hs. unfold bind, ret.
  destruct (pollSelector B (pollFuel budget) s (clock B w + budget) w)
    as [[| |] w1]; reflexivity.
Qed.

Lemma try_sound budget sels : forall w,
  Forall (fun s => truthy s = true) sels ->
  Resolve B budget sels w
          (fst (trySelectorsSimple B sels budget w))
          (snd (trySelectorsSimple B sels budget w)).
Proof.
  induction sels as [|s rest IH]; intros w Hall.
  - cbn. constructor.
  - inversion Hall as [|? ? Hs Hrest]; subst.
    rewrite (try_cons s rest budget w Hs).
    pose proof (pollSelector_fuel s budget w) as Hfuel.
    destruct (poll_run (pollFuel budget) s (clock B w + budget) w)
      as [k [Hpre [Hw Ho]]].
    destruct (pollSelector B (pollFuel budget) s (clock B w + budget) w)
      as [o w1]. cbn [fst snd] in *. subst w1.
    destruct o; cbn [fst snd].
    + destruct Ho as [Hlt Hres]. now apply ResolveHit.
    + eapply ResolveNext; eauto.
    + congruence.
Qed.

Lemma try_complete budget sels w r w' :
  Forall (fun s => truthy s = true) sels ->
  Resolve B budget sels w r w' ->
  trySelectorsSimple B sels budget w = (r, w').
Proof.
  intros Hall Hres. induction Hres as [w|s rest w k Hpre Hlt Hr
                                       |s rest w k r w' Hpre Hge Hrest IH].
  - reflexivity.
  - inversion Hall as [|? ? Hs _]; subst.
    rewrite (try_cons s rest budget w Hs).
    rewrite (poll_hit k (pollFuel budget) s _ w Hpre Hlt Hr).
    + reflexivity.
    + pose proof (after_clock k w). unfold pollFuel. lia.
  - inversion Hall as [|? ? Hs Hall']; subst.
    rewrite (try_cons s rest budget w Hs).
    rewrite (poll_miss k (pollFuel budget) s _ w Hpre Hge).
    + now apply IH.
    + destruct k as [|k]; [lia|].
      destruct (Hpre k ltac:(lia)) as [Hk _].
      pose proof (after_clock k w). unfold pollFuel. lia.
Qed.

Ltac pure_read op law :=
  match goal with
  | |- context [op B ?s ?w] =>
      let H := fresh "Hpure" in
      let r := fresh "r" in
      let w1 := fresh "w" in
      pose proof (law B pure s w) as H;
      destruct (op B s w) as [r w1]; cbn [fst snd] in H |- *; subst w1
  end.

Lemma clickable_pure s w :
  isSelectorClickable B s w = (clickableIn B s w, w).
Proof.
  unfold clickableIn.
  rewrite (surjective_pairing (isSelectorClickable B s w)) at 1.
  f_equal. unfold isSelectorClickable.
  destruct (truthy s); [|reflexivity]. unfold bind, ret.
  pure_read (@locCount W Snap) (@pure_count W Snap).
  destruct (Nat.eqb (orElse 0%nat r) 0); [reflexivity|].
  pure_read (@locIsVisible W Snap) (@pure_visible W Snap).
  destruct (negb (orElse false r0)); [reflexivity|].
  pure_read (@locBoundingBox W Snap) (@pure_box W Snap).
  destruct (orElse None r1); [|reflexivity].
  pure_read (@locIsEnabled W Snap) (@pure_enabled W Snap).
  pure_read (@evalDetails W Snap) (@pure_details W Snap).
  repeat match goal with
         | |- context [if ?b then _ else _] => destruct b
         end; reflexivity.
Qed.

Lemma fillable_pure s w :
  isSelectorFillable B s w = (fillableIn B s w, w).
Proof.
  unfold fillableIn.
  rewrite (surjective_pairing (isSelectorFillable B s w)) at 1.
  f_equal. unfold isSelectorFillable.
  destruct (truthy s); [|reflexivity]. unfold bind, ret.
  pure_read (@locCount W Snap) (@pure_count W Snap).
  destruct (Nat.eqb (orElse 0%nat r) 0); [reflexivity|].
  pure_read (@locIsVisible W Snap) (@pure_visible W Snap).
  destruct (negb (orElse false r0)); [reflexivity|].
  pure_read (@evalTag W Snap) (@pure_tag W Snap).
  destruct r1 as [t|]; [|reflexivity].
  destruct (negb (truthy t)); [reflexivity|].
  destruct (String.eqb t "input" || String.eqb t "textarea")%bool;
    [reflexivity|].
  pure_read (@evalContentEditable W Snap) (@pure_editable W Snap).
  destruct r1 as [[|]|]; try reflexivity.
  pure_read (@evalRole W Snap) (@pure_role W Snap).
  destruct r1 as [[?|]|]; reflexivity.
Qed.

(** A clickable selector satisfies the three conditions of the resolver. *)
Lemma clickable_resolves s w :
  clickableIn B s w = true -> truthy s = true /\ resolves B s w = true.
Proof.
  unfold clickableIn, isSelectorClickable, resolves.
  destruct (truthy s); [|cbn; discriminate]. unfold bind, ret.
  pure_read (@locCount W Snap) (@pure_count W Snap).
  destruct (Nat.eqb (orElse 0%nat r) 0); [cbn; discriminate|].
  pure_read (@locIsVisible W Snap) (@pure_visible W Snap).
  destruct (orElse false r0); [|cbn; discriminate]. cbn [negb].
  pure_read (@locBoundingBox W Snap) (@pure_box W Snap).
  destruct (orElse None r1); [|cbn; discriminate].
  intros _. auto.
Qed.

Lemma fillable_truthy s w : fillableIn B s w = true -> truthy s = true.
Proof.
  unfold fillableIn, isSelectorFillable.
  destruct (truthy s); [reflexivity|cbn; discriminate].
Qed.

Lemma filter_pure (check : string -> St W bool) (chk : string -> W -> bool) :
  (forall s w, check s w = (chk s w, w)) ->
  forall l w,
    filterSelectorsByCheck l check w
    = (filter (fun s => (truthy s && chk s w)%bool) l, w).
Proof.
  intros Hcheck l w. induction l as [|s l IH]; [reflexivity|].
  cbn [filterSelectorsByCheck filter].
  destruct (truthy s); cbn [andb]; [|exact IH].
  unfold bind, ret. rewrite Hcheck, IH. reflexivity.
Qed.

(** First candidate wins: a head candidate that satisfies the conditions
    is returned at once, whatever follows it. *)
Lemma try_head s rest budget w :
  truthy s = true -> resolves B s w = true -> 0 < budget ->
  trySelectorsSimple B (s :: rest) budget w = (Some s, w).
Proof.
  intros Hs Hr Hb. rewrite (try_cons s rest budget w Hs).
  rewrite (poll_hit 0 (pollFuel budget) s (clock B w + budget) w).
  - reflexivity.
  - intros j Hj. lia.
  - cbn [after]. lia.
  - exact Hr.
  - unfold pollFuel. lia.
Qed.

End PageFacts.

(** Facts of the executor that hold on every page. *)
Section ExecutorFacts.

Context {W Snap : Type} (B : Browser W Snap).

Lemma trySelectors_In sels budget : forall w c w',
  trySelectorsSimple B sels budget w = (Some c, w') ->
  In c sels /\ truthy c = true.
Proof.
  induction sels as [|s rest IH]; intros w c w' H.
  - discriminate.
  - cbn [trySelectorsSimple] in H. destruct (truthy s) eqn:Hs.
    + unfold bind, ret in H.
      destruct (pollSelector B (pollFuel budget) s (clock B w + budget) w)
        as [[| |] w1].
      * inversion H; subst. split; [now left|assumption].
      * apply IH in H. destruct H. split; [now right|assumption].
      * apply IH in H. destruct H. split; [now right|assumption].
    + apply IH in H. destruct H. split; [now right|assumption].
Qed.

Lemma filterSelectors_subset (check : string -> St W bool) l :
  forall w out w',
  filterSelectorsByCheck l check w = (out, w') ->
  forall x, In x out -> In x l /\ truthy x = true.
Proof.
  induction l as [|s l IH]; intros w out w' H x Hx.
  - inversion H; subst. contradiction.
  - cbn [filterSelectorsByCheck] in H. destruct (truthy s) eqn:Hs.
    + unfold bind, ret in H. destruct (check s w) as [ok w1].
      destruct (filterSelectorsByCheck l check w1) as [out1 w2] eqn:E.
      inversion H; subst.
      destruct ok.
      * destruct Hx as [<-|Hx]; [split; [now left|assumption]|].
        destruct (IH _ _ _ E x Hx). split; [now right|assumption].
      * destruct (IH _ _ _ E x Hx). split; [now right|assumption].
    + destruct (IH _ _ _ H x Hx). split; [now right|assumption].
Qed.

Lemma mergeSelectors_In orig : forall merged x,
  In x (mergeSelectors merged orig) -> In x merged \/ In x orig.
Proof.
  induction orig as [|s orig IH]; intros merged x H; cbn in H.
  - now left.
  - destruct (truthy s && negb (existsb (String.eqb s) merged))%bool.
    + apply IH in H as [H|H]; [|right; now right].
      apply in_app_or in H as [H|[<-|[]]]; [now left|right; now left].
    + apply IH in H as [H|H]; [now left|right; now right].
Qed.

Lemma mergeSelectors_head orig : forall x merged,
  exists t, mergeSelectors (x :: merged) orig = x :: t.
Proof.
  induction orig as [|s orig IH]; intros x merged; cbn.
  - eauto.
  - destruct (truthy s
              && negb (String.eqb s x || existsb (String.eqb s) merged))%bool.
    + apply (IH x (merged ++ [s])%list).
    + apply IH.
Qed.

Lemma orOriginal_In merged orig x :
  In x (orOriginal merged orig) -> In x merged \/ In x orig.
Proof. destruct merged; cbn; auto. Qed.

End ExecutorFacts.

(* ===================================================================== *)
(** ** Scenarios *)
(* ===================================================================== *)

Module Scenarios.

Import Sim.

(** X shows up after half a second, Y is there from the start. *)
Definition late : Script :=
  {| present := fun s w =>
       if String.eqb s "X" then 500 <=? now w else String.eqb s "Y";
     appears := fun _ _ => false;
     enabled := fun _ => true;
     details := fun _ => button;
     editable := fun _ => false;
     roleOf := fun _ => None;
     clickWorks := fun _ => true;
     fillWorks := fun _ => true;
     typingWorks := true;
     shotWorks := true;
     countsReads := false;
     plannerAnswer := fun _ => None |}.

(** A and C are both there; A is a button or a plain division. *)
Definition twoTargets (aIsButton : bool) : Script :=
  {| present := fun s _ => (String.eqb s "A" || String.eqb s "C")%bool;
     appears := fun _ _ => false;
     enabled := fun _ => true;
     details := fun s =>
       if (String.eqb s "A" && negb aIsButton)%bool then div else button;
     editable := fun _ => false;
     roleOf := fun _ => None;
     clickWorks := fun _ => true;
     fillWorks := fun _ => true;
     typingWorks := true;
     shotWorks := true;
     countsReads := false;
     plannerAnswer := fun _ => None |}.

(** R1 and R2 are buttons; the dialog shows once R2 was clicked. *)
Definition dialogAfterR2 : Script :=
  {| present := fun s _ => (String.eqb s "R1" || String.eqb s "R2")%bool;
     appears := fun s w =>
       (String.eqb s "role=dialog"
        && existsb (String.eqb "R2") (clicks w))%bool;
     enabled := fun _ => true;
     details := fun _ => button;
     editable := fun _ => false;
     roleOf := fun _ => None;
     clickWorks := fun _ => true;
     fillWorks := fun _ => true;
     typingWorks := true;
     shotWorks := true;
     countsReads := false;
     plannerAnswer := fun _ => None |}.

(** BTN is there for the clickable check and gone when the resolver
    polls it; an element with the text OK is there all along. *)
Definition flicker : Script :=
  {| present := fun s w =>
       ((String.eqb s "BTN" && Nat.leb (reads w) 1)
        || String.eqb s (textLocator "OK"))%bool;
     appears := fun _ _ => false;
     enabled := fun _ => true;
     details := fun _ => button;
     editable := fun _ => false;
     roleOf := fun _ => None;
     clickWorks := fun _ => true;
     fillWorks := fun _ => true;
     typingWorks := true;
     shotWorks := true;
     countsReads := true;
     plannerAnswer := fun _ => None |}.

(** X is a plain division, Y is an input; both are there. *)
Definition divAndInput : Script :=
  {| present := fun s _ => (String.eqb s "X" || String.eqb s "Y")%bool;
     appears := fun _ _ => false;
     enabled := fun _ => true;
     details := fun s => if String.eqb s "Y" then input else div;
     editable := fun _ => false;
     roleOf := fun _ => None;
     clickWorks := fun _ => true;
     fillWorks := fun s => String.eqb s "Y";
     typingWorks := true;
     shotWorks := true;
     countsReads := false;
     plannerAnswer := fun _ => None |}.

Definition waitAB : PlanAction := action WaitForSelector ["A"; "B"].
Definition clickC : PlanAction := action Click ["C"].

Definition clickExpectingDialog : PlanAction :=
  {| type := Click; selector := Some ["R0"]; selector_candidates := None;
     text := None; url := None; timeoutMs := None; checkpoint_name := None;
     expected_dialog := Some "role=dialog"; dialogTimeoutMs := None;
     fallback_to_keyboard := None; notes := None; wait_for := None |}.

Definition clickOK : PlanAction :=
  {| type := Click; selector := Some ["BTN"]; selector_candidates := None;
     text := Some "OK"; url := None; timeoutMs := None;
     checkpoint_name := None; expected_dialog := None;
     dialogTimeoutMs := None; fallback_to_keyboard := None; notes := None;
     wait_for := None |}.

Definition fillHello : PlanAction :=
  {| type := Fill; selector := Some []; selector_candidates := None;
     text := Some "hello"; url := None; timeoutMs := None;
     checkpoint_name := None; expected_dialog := None;
     dialogTimeoutMs := None; fallback_to_keyboard := Some true;
     notes := None; wait_for := None |}.

Definition fillXY : PlanAction :=
  {| type := Fill; selector := Some ["X"; "Y"]; selector_candidates := None;
     text := Some "hi"; url := None; timeoutMs := None;
     checkpoint_name := None; expected_dialog := None;
     dialogTimeoutMs := None; fallback_to_keyboard := None; notes := None;
     wait_for := None |}.

Definition capture (checkpointName : option string) : PlanAction :=
  {| type := Screenshot; selector := None; selector_candidates := None;
     text := None; url := None; timeoutMs := None;
     checkpoint_name := checkpointName; expected_dialog := None;
     dialogTimeoutMs := None; fallback_to_keyboard := None; notes := None;
     wait_for := None |}.

Definition planOf (cks : list Checkpoint) : Plan :=
  {| task_id := None; checkpoints := Some cks; plan := None |}.

(** A click that cannot work, then a second checkpoint. *)
Definition abortingPlan : Plan :=
  planOf [ {| name := Some "ck1"; action_sequence := [Some clickC] |};
           {| name := Some "ck2";
              action_sequence := [Some (capture (Some "done"))] |} ].


(** One explicit capture with a name of its own. *)
Definition namedCapture : Plan :=
  planOf [ {| name := Some "ck";
              action_sequence := [Some (capture (Some "dialog_open"))] |} ].

(** A fill with no candidates, the keyboard allowed. *)
Definition emptyFill : Plan :=
  planOf [ {| name := Some "ck"; action_sequence := [Some fillHello] |} ].

(** A is there, a button, until the page has answered two counts; C is a
    button that stays. *)
Definition fading : Script :=
  {| present := fun s w =>
       ((String.eqb s "A" && Nat.leb (reads w) 2) || String.eqb s "C")%bool;
     appears := fun _ _ => false;
     enabled := fun _ => true;
     details := fun _ => button;
     editable := fun _ => false;
     roleOf := fun _ => None;
     clickWorks := fun _ => true;
     fillWorks := fun _ => true;
     typingWorks := true;
     shotWorks := true;
     countsReads := true;
     plannerAnswer := fun _ => None |}.






(** A capture whose name leads to the directory of its checkpoint. *)
Definition dottedCapture : Plan :=
  planOf [ {| name := Some "ck";
              action_sequence :=
                [Some (capture (Some "./ck_checkpoint"))] |} ].

Lemma pure_script (sc : Script) :
  countsReads sc = false -> ReadsPure (browser sc).
Proof.
  intros H. constructor; intros s w; try reflexivity.
  cbn. unfold simCount. rewrite H. reflexivity.
Qed.

End Scenarios.

(* ===================================================================== *)
(** ** The claims *)
(* ===================================================================== *)

Section Claims.

Context {W Snap : Type} (B : Browser W Snap).

Lemma truthy_iff s : truthy s = true <-> s <> EmptyString.
Proof. destruct s; cbn; split; congruence. Qed.

(** C5. Resolution priority.  On a page whose reads leave it alone, for
    candidates that are non-empty references, [trySelectorsSimple] returns
    exactly what the contract of the resolver says: it goes through the
    candidates in list order, polls each one every 100 ms until the
    element exists, is visible and has a bounding box or until the budget
    of that candidate has elapsed, returns the first candidate (by
    position) for which a poll succeeds, and returns none exactly when the
    budget of every candidate has elapsed without a successful poll. *)
Theorem resolution_priority (budget : Z) (sels : list string) (w : W)
    (r : option string) (w' : W) :
  ReadsPure B ->
  Forall (fun s => s <> EmptyString) sels ->
  (trySelectorsSimple B sels budget w = (r, w')
   <-> Resolve B budget sels w r w').
Proof.
  intros pure Hne.
  assert (Hall : Forall (fun s => truthy s = true) sels).
  { eapply Forall_impl; [|exact Hne]. intros s. apply truthy_iff. }
  split.
  - intros H. pose proof (try_sound B pure budget sels w Hall) as Hs.
    rewrite H in Hs. exact Hs.
  - apply try_complete; assumption.
Qed.

Lemma execClick_one_shot (a : PlanAction) (A : string) (w : W) :
  ReadsPure B -> truthy A = true -> clickableIn B A w = true ->
  execClick B a true (Some A) w = clickAndVerify B a A None w.
Proof.
  intros pure HA Hc.
  destruct (clickable_resolves B pure A w Hc) as [_ Hr].
  unfold execClick, revalidateOneShot.
  cbn [andb]. rewrite HA. unfold bind at 1. unfold bind at 1.
  rewrite (clickable_pure B pure A w), Hc. unfold ret at 1.
  cbv beta iota. unfold oneShotHead. cbn [andb]. rewrite HA.
  destruct (mergeSelectors_head (selectorsOf a) A []) as [t Ht].
  rewrite Ht. cbn [orOriginal]. unfold bind at 1.
  rewrite (filter_pure (isSelectorClickable B) (clickableIn B)
                       (clickable_pure B pure)).
  cbn [filter]. rewrite HA, Hc. cbn [andb]. unfold bind at 1.
  rewrite (try_head B pure A _ 1200 w HA Hr) by lia.
  unfold bind at 1, ret at 1. cbn [truthyOpt sameRef andb].
  rewrite HA, String.eqb_refl. reflexivity.
Qed.

Lemma execClick_not_clickable (a : PlanAction) (A : string) (w : W) :
  ReadsPure B -> truthy A = true -> clickableIn B A w = false ->
  execClick B a true (Some A) w = execClick B a true None w.
Proof.
  intros pure HA Hc.
  unfold execClick, revalidateOneShot.
  cbn [andb]. rewrite HA. unfold bind at 1. unfold bind at 1.
  rewrite (clickable_pure B pure A w), Hc. unfold ret at 1.
  unfold bind at 4, ret at 7. reflexivity.
Qed.

Lemma clickAndVerify_chosen (a : PlanAction) (c : string)
    (m : option string) (w : W) :
  chosenSelector (fst (clickAndVerify B a c m w)) = Some c.
Proof.
  unfold clickAndVerify, bind, ret.
  destruct (click B c (orElse 5000 (timeoutMs a)) w) as [[e|] w1];
    [reflexivity|].
  destruct (expected_dialog a) as [d|]; [|reflexivity].
  destruct (truthy d); [|reflexivity].
  destruct (waitForSelector B d (orElse 3000 (dialogTimeoutMs a)) w1)
    as [[|] w2]; reflexivity.
Qed.

(** With nothing remembered, the selector a Click uses is one of its own
    declared candidates, or the locator made from its text. *)
Lemma execClick_own_candidates (a : PlanAction) (sh : bool) (w : W) :
  forall c,
    chosenSelector (fst (execClick B a sh None w)) = Some c ->
    In c (selectorsOf a)
    \/ exists t, text a = Some t /\ c = textLocator t.
Proof.
  intros c. unfold execClick, revalidateOneShot, oneShotHead.
  unfold bind at 1, ret at 1. cbv beta iota. unfold bind at 1.
  destruct (filterSelectorsByCheck
              (orOriginal (mergeSelectors [] (selectorsOf a))
                          (selectorsOf a))
              (isSelectorClickable B) w) as [filtered w1] eqn:Ef.
  destruct filtered as [|f0 fr]; [cbn; discriminate|].
  unfold bind at 1.
  destruct (trySelectorsSimple B (f0 :: fr) 1200 w1) as [chosen w2] eqn:Et.
  destruct chosen as [ch|].
  - unfold bind at 1, ret at 1. cbv beta iota.
    rewrite clickAndVerify_chosen. intros E; inversion E; subst c.
    left. apply trySelectors_In in Et as [Hin _].
    destruct (filterSelectors_subset _ _ _ _ _ Ef ch Hin) as [Hin' _].
    apply orOriginal_In in Hin' as [Hin'|Hin']; [|assumption].
    apply mergeSelectors_In in Hin' as [[]|Hin']. assumption.
  - unfold bind at 1.
    destruct (text a) as [t|]; [|cbn; discriminate].
    destruct (truthy t && nonBlank t)%bool; [|cbn; discriminate].
    unfold bind at 1.
    destruct (click B (textLocator t) (orElse 4000 (timeoutMs a)) w2)
      as [[e|] w3]; unfold ret at 1; cbv beta iota; [cbn; discriminate|].
    rewrite clickAndVerify_chosen. intros E; inversion E; subst c.
    right. eauto.
Qed.

(** C1. One-shot selector memory for Click.  A WaitForSelector action
    that completes has resolved one of its candidates, A, and remembers
    it.  For the Click that follows it immediately, on a page whose reads
    leave it alone: if A passes the clickable check, the Click clicks A,
    whatever its own candidates are, and the memory is empty afterwards;
    if A fails the check, the Click runs as with an empty memory, so the
    selector it uses is one of its own declared candidates (or the
    locator made from its text). *)
Theorem one_shot_click (outDir taskId name : string) (conf : option Z)
    (ai : nat) (p a : PlanAction) (mem0 : option string) (w0 w1 : W)
    (att1 : Attempt) (fs : FS) :
  ReadsPure B ->
  type p = WaitForSelector -> type a = Click ->
  execWaitForSelector B p mem0 w0 = (att1, w1) -> thrown att1 = None ->
  exists A,
    lastSelectorUsed att1 = Some A /\ In A (selectorsOf p)
    /\ let st := {| world := w1; files := fs |} in
       let click := tryAction B outDir taskId name conf (S ai) (Some p) a
                              (lastSelectorUsed att1) st in
       (clickableIn B A w1 = true ->
        click = onPage (clickAndVerify B a A None) st
        /\ chosenSelector (fst click) = Some A
        /\ lastSelectorUsed (fst click) = None)
       /\ (clickableIn B A w1 = false ->
           click = onPage (execClick B a true None) st
           /\ forall c, chosenSelector (fst click) = Some c ->
                In c (selectorsOf a)
                \/ exists t, text a = Some t /\ c = textLocator t).
Proof.
  intros pure Hp Ha Hwait Hok.
  unfold execWaitForSelector, bind, ret in Hwait.
  destruct (trySelectorsSimple B (selectorsOf p) 1200 w0)
    as [[A|] w] eqn:Et.
  2:{ inversion Hwait; subst. discriminate. }
  destruct (waitForSelector B A (orElse 5000 (timeoutMs p)) w) as [b w2].
  inversion Hwait; subst att1 w2. clear Hwait.
  apply trySelectors_In in Et as [Hin HA].
  exists A. split; [reflexivity|]. split; [assumption|].
  cbn [lastSelectorUsed completed].
  assert (Hshould : shouldUseLastSelectorOneShot (Some p) a (Some A) = true).
  { unfold shouldUseLastSelectorOneShot. rewrite Hp, Ha. cbn. exact HA. }
  cbv zeta. unfold tryAction. rewrite Ha, Hshould. split.
  - intros Hc. unfold onPage. cbn [world files].
    rewrite (execClick_one_shot a A w1 pure HA Hc).
    split; [reflexivity|].
    pose proof (clickAndVerify_chosen a A None w1) as Hch.
    assert (Hmem : lastSelectorUsed (fst (clickAndVerify B a A None w1))
                   = None).
    { unfold clickAndVerify, bind, ret.
      destruct (click B A (orElse 5000 (timeoutMs a)) w1) as [[e|] w3];
        [reflexivity|].
      destruct (expected_dialog a) as [d|]; [|reflexivity].
      destruct (truthy d); [|reflexivity].
      destruct (waitForSelector B d (orElse 3000 (dialogTimeoutMs a)) w3)
        as [[|] w4]; reflexivity. }
    destruct (clickAndVerify B a A None w1) as [att w3].
    cbn [fst] in *. auto.
  - intros Hc. unfold onPage. cbn [world files].
    rewrite (execClick_not_clickable a A w1 pure HA Hc).
    split; [reflexivity|].
    intros c. pose proof (execClick_own_candidates a true w1 c) as Hown.
    destruct (execClick B a true None w1) as [att w3].
    cbn [fst] in *. exact Hown.
Qed.

(** The side effect of a recovery trial on a candidate: the fill for a
    Fill action, the click otherwise; the answer tells that it worked. *)
Definition sideEffect (a : PlanAction) (c : string) : St W bool :=
  match type a with
  | Fill =>
      bind (tryFillWithFallback B [c] (orElse EmptyString (text a))
              (orElse 5000 (timeoutMs a))
              (orElse false (fallback_to_keyboard a)))
           (fun res => ret (success res))
  | _ =>
      bind (click B c (orElse 5000 (timeoutMs a)))
           (fun r => ret (match r with None => true | Some _ => false end))
  end.

Lemma tryCandidates_step (a : PlanAction) (c : string) (rest : list string)
    (mem : option string) (w : W) :
  type a = Click \/ type a = Fill ->
  tryCandidates B a (c :: rest) mem w =
  let (ok, w1) := sideEffect a c w in
  if ok
  then let (shown, w2) := dialogAppears B a w1 in
       if shown then ((true, Some c), w2)
       else tryCandidates B a rest mem w2
  else tryCandidates B a rest mem w1.
Proof.
  intros [Ht|Ht]; cbn [tryCandidates]; unfold sideEffect; rewrite Ht;
    unfold bind, ret.
  - destruct (click B c (orElse 5000 (timeoutMs a)) w) as [[e|] w1];
      [reflexivity|].
    destruct (dialogAppears B a w1) as [[|] w2]; reflexivity.
  - destruct (tryFillWithFallback B [c] (orElse EmptyString (text a))
                (orElse 5000 (timeoutMs a))
                (orElse false (fallback_to_keyboard a)) w) as [res w1].
    destruct (success res); [|reflexivity].
    destruct (dialogAppears B a w1) as [[|] w2]; reflexivity.
Qed.

Lemma tryCandidates_accepts (a : PlanAction) :
  type a = Click \/ type a = Fill ->
  forall cands mem w m' w',
    tryCandidates B a cands mem w = ((true, m'), w') ->
    exists pre c post w1 w2,
      cands = (pre ++ c :: post)%list /\ m' = Some c
      /\ sideEffect a c w1 = (true, w2)
      /\ dialogAppears B a w2 = (true, w').
Proof.
  intros Ht cands. induction cands as [|c rest IH]; intros mem w m' w' H.
  - inversion H.
  - rewrite (tryCandidates_step a c rest mem w Ht) in H.
    destruct (sideEffect a c w) as [[|] w1] eqn:Es.
    + destruct (dialogAppears B a w1) as [[|] w2] eqn:Ed.
      * inversion H; subst. exists [], c, rest, w, w1. auto.
      * apply IH in H as (pre & c' & post & u1 & u2 & -> & H).
        exists (c :: pre), c', post, u1, u2. auto.
    + apply IH in H as (pre & c' & post & u1 & u2 & -> & H).
      exists (c :: pre), c', post, u1, u2. auto.
Qed.

Lemma tryCandidates_keeps_memory (a : PlanAction) :
  forall cands mem w m' w',
    tryCandidates B a cands mem w = ((false, m'), w') -> m' = mem.
Proof.
  intros cands. induction cands as [|c rest IH]; intros mem w m' w' H.
  - inversion H. reflexivity.
  - cbn [tryCandidates] in H. unfold bind, ret in H.
    destruct (type a).
    + destruct (click B c (orElse 5000 (timeoutMs a)) w) as [[e|] w1];
        [eauto|].
      destruct (dialogAppears B a w1) as [[|] w2]; [discriminate|eauto].
    + destruct (tryFillWithFallback B [c] (orElse EmptyString (text a))
                  (orElse 5000 (timeoutMs a))
                  (orElse false (fallback_to_keyboard a)) w) as [res w1].
      destruct (success res); [|eauto].
      destruct (dialogAppears B a w1) as [[|] w2]; [discriminate|eauto].
    + destruct (waitForSelector B c (orElse 5000 (timeoutMs a)) w)
        as [[|] w1]; [discriminate|eauto].
    + destruct (click B c (orElse 5000 (timeoutMs a)) w) as [[e|] w1];
        [eauto|discriminate].
    + destruct (click B c (orElse 5000 (timeoutMs a)) w) as [[e|] w1];
        [eauto|discriminate].
    + destruct (click B c (orElse 5000 (timeoutMs a)) w) as [[e|] w1];
        [eauto|discriminate].
    + destruct (click B c (orElse 5000 (timeoutMs a)) w) as [[e|] w1];
        [eauto|discriminate].
Qed.

(** What the request and the trials return comes from the trials. *)
Lemma recoverWith_inv (instr : string) (snap : option Snap)
    (a : PlanAction) (mem : option string) (w : W) :
  (fst (fst (recoverWith B instr snap a mem w)) = false
   /\ snd (fst (recoverWith B instr snap a mem w)) = mem)
  \/ exists cands w1,
       recoverWith B instr snap a mem w = tryCandidates B a cands mem w1.
Proof.
  unfold recoverWith, bind, ret.
  destruct (askPlannerForRecovery B
              (if truthy instr then instr else "Perform task") snap a w)
    as [[[|s sels]|] w2]; [left; auto| |left; auto].
  destruct (type a); cbn [isClick isFill orb andb];
    try (right; eexists; eexists; reflexivity).
  all: match goal with
       | |- context [filterSelectorsByCheck ?l ?c ?u] =>
           destruct (filterSelectorsByCheck l c u) as [filtered w3]
       end;
    destruct (Nat.eqb (length filtered) 0);
    [left; cbn; auto|right; eexists; eexists; reflexivity].
Qed.

(** What [recover] returns comes from the trials. *)
Lemma recover_inv (outDir taskId instr : string) (a : PlanAction)
    (mem : option string) (w : W) :
  (fst (fst (recover B outDir taskId instr a mem w)) = false
   /\ snd (fst (recover B outDir taskId instr a mem w)) = mem)
  \/ exists cands w1,
       recover B outDir taskId instr a mem w
       = tryCandidates B a cands mem w1.
Proof.
  unfold recover, bind, wait.
  destruct (captureDomSummary B (recoveryDir outDir taskId)
                              (waitForTimeout B 800 w)) as [snap w1].
  apply recoverWith_inv.
Qed.

(** On the page, the recovery of a run is the request and the trials,
    with a snapshot or without one. *)
Lemma recoverOnDisk_onPage (outDir taskId instr : string) (a : PlanAction)
    (mem : option string) (st : State W) :
  exists snap u,
    fst (recoverOnDisk B outDir taskId instr a mem st)
    = fst (recoverWith B instr snap a mem u)
    /\ world (snd (recoverOnDisk B outDir taskId instr a mem st))
       = snd (recoverWith B instr snap a mem u).
Proof.
  unfold recoverOnDisk, bind.
  destruct (ensureDir (recoveryDir outDir taskId) st) as [made st1].
  destruct made.
  - unfold recover, bind, wait.
    destruct (captureDomSummary B (recoveryDir outDir taskId)
                                (waitForTimeout B 800 (world st1)))
      as [snap u].
    exists snap, u.
    destruct (recoverWith B instr snap a mem u) as [r w']. auto.
  - unfold onPage, bind, wait.
    exists None, (waitForTimeout B 800 (world st1)).
    destruct (recoverWith B instr None a mem
                          (waitForTimeout B 800 (world st1))) as [r w'].
    auto.
Qed.

(** C2. Recovery acceptance.  For a Click or Fill action that declares an
    expected dialog: a candidate whose click or fill works but after which
    the dialog does not appear within its timeout is dropped and the
    trials go on with the next candidate; when the trials end with
    [recovered], the remembered selector is a candidate whose side effect
    worked and after which the dialog appeared; when they end without,
    the memory is as before.  The same holds of [recover], which sets
    [recovered] only through these trials, and of the recovery of a run,
    [recoverOnDisk], with a snapshot or without one. *)
Theorem recovery_acceptance (a : PlanAction) (d : string) :
  type a = Click \/ type a = Fill ->
  expected_dialog a = Some d -> truthy d = true ->
  let shown := waitForSelector B d (orElse 2500 (dialogTimeoutMs a)) in
  (forall c rest mem w w1 w2,
      sideEffect a c w = (true, w1) -> shown w1 = (false, w2) ->
      tryCandidates B a (c :: rest) mem w = tryCandidates B a rest mem w2)
  /\ (forall cands mem w m' w',
        tryCandidates B a cands mem w = ((true, m'), w') ->
        exists pre c post w1 w2,
          cands = (pre ++ c :: post)%list /\ m' = Some c
          /\ sideEffect a c w1 = (true, w2) /\ shown w2 = (true, w'))
  /\ (forall cands mem w m' w',
        tryCandidates B a cands mem w = ((false, m'), w') -> m' = mem)
  /\ (forall outDir taskId instr mem w m' w',
        recover B outDir taskId instr a mem w = ((true, m'), w') ->
        exists c w1 w2,
          m' = Some c /\ sideEffect a c w1 = (true, w2)
          /\ shown w2 = (true, w'))
  /\ (forall outDir taskId instr mem w m' w',
        recover B outDir taskId instr a mem w = ((false, m'), w') ->
        m' = mem)
  /\ (forall outDir taskId instr mem st m' st',
        recoverOnDisk B outDir taskId instr a mem st = ((true, m'), st') ->
        exists c w1 w2,
          m' = Some c /\ sideEffect a c w1 = (true, w2)
          /\ shown w2 = (true, world st'))
  /\ (forall outDir taskId instr mem st m' st',
        recoverOnDisk B outDir taskId instr a mem st = ((false, m'), st') ->
        m' = mem).
Proof.
  intros Ht Hd Htr shown.
  assert (Hshown : forall w, dialogAppears B a w = shown w).
  { intros w. unfold dialogAppears. rewrite Hd, Htr. reflexivity. }
  split; [|split; [|split; [|split; [|split; [|split]]]]].
  - intros c rest mem w w1 w2 Hs Hno.
    rewrite (tryCandidates_step a c rest mem w Ht), Hs, Hshown, Hno.
    reflexivity.
  - intros cands mem w m' w' H.
    destruct (tryCandidates_accepts a Ht cands mem w m' w' H)
      as (pre & c & post & w1 & w2 & Hc & Hm & Hs & Hdlg).
    rewrite Hshown in Hdlg. exists pre, c, post, w1, w2. auto.
  - apply tryCandidates_keeps_memory.
  - intros outDir taskId instr mem w m' w' H.
    destruct (recover_inv outDir taskId instr a mem w)
      as [[Hf _]|[cands [w1 E]]].
    + rewrite H in Hf. discriminate.
    + rewrite E in H.
      destruct (tryCandidates_accepts a Ht cands mem w1 m' w' H)
        as (pre & c & post & u1 & u2 & Hc & Hm & Hs & Hdlg).
      rewrite Hshown in Hdlg. exists c, u1, u2. auto.
  - intros outDir taskId instr mem w m' w' H.
    destruct (recover_inv outDir taskId instr a mem w)
      as [[_ Hm]|[cands [w1 E]]].
    + rewrite H in Hm. exact Hm.
    + rewrite E in H.
      exact (tryCandidates_keeps_memory a cands mem w1 m' w' H).
  - intros outDir taskId instr mem st m' st' H.
    destruct (recoverOnDisk_onPage outDir taskId instr a mem st)
      as (snap & u & Hf & Hw).
    rewrite H in Hf, Hw. cbn [fst snd] in Hf, Hw.
    destruct (recoverWith_inv instr snap a mem u)
      as [[Hfa _]|[cands [w1 E]]].
    + rewrite <- Hf in Hfa. discriminate.
    + rewrite E in Hf, Hw.
      destruct (tryCandidates B a cands mem w1) as [r w'] eqn:Et.
      cbn [fst snd] in Hf, Hw. subst r w'.
      destruct (tryCandidates_accepts a Ht cands mem w1 m' (world st') Et)
        as (pre & c & post & u1 & u2 & Hc & Hm & Hs & Hdlg).
      rewrite Hshown in Hdlg. exists c, u1, u2. auto.
  - intros outDir taskId instr mem st m' st' H.
    destruct (recoverOnDisk_onPage outDir taskId instr a mem st)
      as (snap & u & Hf & Hw).
    rewrite H in Hf. cbn [fst] in Hf.
    destruct (recoverWith_inv instr snap a mem u)
      as [[_ Hm]|[cands [w1 E]]].
    + rewrite <- Hf in Hm. exact Hm.
    + rewrite E in Hf.
      destruct (tryCandidates B a cands mem w1) as [r w'] eqn:Et.
      cbn [fst] in Hf. subst r.
      exact (tryCandidates_keeps_memory a cands mem w1 m' w' Et).
Qed.

End Claims.

(* ===================================================================== *)
(** ** Facts on the string helpers *)
(* ===================================================================== *)

(** A string that does not begin with a white-space character, and one
    that does not end with one. *)
Definition startsClean (s : string) : Prop := afterWhite s = None.

Definition endsClean (s : string) : Prop := afterWhiteRev (rev s) = None.

Module JsFacts.

Lemma rev_onto_acc (s : string) : forall acc,
  rev_onto s acc = (rev s ++ acc)%string.
Proof.
  unfold rev. induction s as [|c s IH]; intros acc; [reflexivity|].
  cbn [rev_onto]. rewrite IH, (IH (String c EmptyString)).
  clear IH. induction (rev_onto s EmptyString) as [|d r IHr];
    [reflexivity|].
  cbn [append]. now rewrite IHr.
Qed.

Lemma append_empty (s : string) : (s ++ EmptyString)%string = s.
Proof. induction s as [|c s IH]; [reflexivity|]. cbn. now rewrite IH. Qed.

Lemma append_assoc' (x y z : string) :
  ((x ++ y) ++ z)%string = (x ++ (y ++ z))%string.
Proof. induction x as [|c x IH]; [reflexivity|]. cbn. now rewrite IH. Qed.

Lemma rev_append (x y : string) : rev (x ++ y) = (rev y ++ rev x)%string.
Proof.
  induction x as [|c x IH].
  - cbn [append]. now rewrite append_empty.
  - cbn [append]. unfold rev at 1 3. cbn [rev_onto].
    rewrite !rev_onto_acc, IH, append_assoc'. reflexivity.
Qed.

Lemma rev_involutive (s : string) : rev (rev s) = s.
Proof.
  induction s as [|c s IH]; [reflexivity|].
  unfold rev at 2. cbn [rev_onto]. rewrite rev_onto_acc, rev_append, IH.
  reflexivity.
Qed.

Lemma lowerAscii_append (x y : string) :
  lowerAscii (x ++ y) = (lowerAscii x ++ lowerAscii y)%string.
Proof. induction x as [|c x IH]; [reflexivity|]. cbn. now rewrite IH. Qed.

Lemma prefix_append (p x y : string) :
  prefix p x = true -> prefix p (x ++ y) = true.
Proof.
  revert x. induction p as [|c p IH]; intros x H;
    [destruct (x ++ y)%string; reflexivity|].
  destruct x as [|d x]; [discriminate|]. cbn [append prefix] in *.
  destruct (ascii_dec c d); [auto|discriminate].
Qed.

Lemma endsWithPng_append (x y : string) :
  endsWithPng y = true -> endsWithPng (x ++ y) = true.
Proof.
  unfold endsWithPng. intros H.
  rewrite lowerAscii_append, rev_append. now apply prefix_append.
Qed.

(** The names given to screenshots are recognised by the test for
    screenshot files. *)
Lemma shotFilename_png (ai : nat) (name : string) (now : Z) :
  endsWithPng (shotFilename ai name now) = true.
Proof.
  unfold shotFilename. repeat apply endsWithPng_append. reflexivity.
Qed.

Ltac by_cases_on_white :=
  repeat (match goal with
          | H : ?b = _ |- context [if ?b then _ else _] => rewrite H
          | |- context [if ?b then _ else _] => destruct b eqn:?
          end; cbn).

Lemma trimStart_eq (s : string) :
  trimStart s
  = match afterWhite s with Some r => trimStart r | None => s end.
Proof.
  destruct s as [|a [|b [|c r]]]; cbn; by_cases_on_white; reflexivity.
Qed.

Lemma trimStartRev_eq (s : string) :
  trimStartRev s
  = match afterWhiteRev s with Some r => trimStartRev r | None => s end.
Proof.
  destruct s as [|a [|b [|c r]]]; cbn; by_cases_on_white; reflexivity.
Qed.

Lemma afterWhite_cut (s r : string) :
  afterWhite s = Some r ->
  exists w, s = (w ++ r)%string /\ (0 < String.length w)%nat.
Proof.
  destruct s as [|a [|b [|c s]]]; cbn; by_cases_on_white;
    try discriminate; intros [= <-].
  all: first
    [ exists (String a EmptyString); split; [reflexivity|cbn; lia]
    | exists (String a (String b EmptyString));
        split; [reflexivity|cbn; lia]
    | exists (String a (String b (String c EmptyString)));
        split; [reflexivity|cbn; lia] ].
Qed.

Lemma afterWhiteRev_cut (s r : string) :
  afterWhiteRev s = Some r ->
  exists w, s = (w ++ r)%string /\ (0 < String.length w)%nat.
Proof.
  destruct s as [|a [|b [|c s]]]; cbn; by_cases_on_white;
    try discriminate; intros [= <-].
  all: first
    [ exists (String a EmptyString); split; [reflexivity|cbn; lia]
    | exists (String a (String b EmptyString));
        split; [reflexivity|cbn; lia]
    | exists (String a (String b (String c EmptyString)));
        split; [reflexivity|cbn; lia] ].
Qed.

Lemma length_app (x y : string) :
  String.length (x ++ y) = (String.length x + String.length y)%nat.
Proof. induction x as [|c x IH]; [reflexivity|]. cbn. now rewrite IH. Qed.

Lemma trimStart_clean_upto (n : nat) : forall s,
  (String.length s <= n)%nat -> startsClean (trimStart s).
Proof.
  unfold startsClean.
  induction n as [|n IH]; intros s Hn.
  - destruct s; [reflexivity|cbn in Hn; lia].
  - rewrite trimStart_eq. destruct (afterWhite s) as [r|] eqn:E; [|exact E].
    apply IH. destruct (afterWhite_cut s r E) as (w & -> & Hw).
    rewrite length_app in Hn. lia.
Qed.

Lemma trimStart_clean (s : string) : startsClean (trimStart s).
Proof. now apply (trimStart_clean_upto (String.length s)). Qed.

Lemma trimStartRev_clean_upto (n : nat) : forall s,
  (String.length s <= n)%nat -> afterWhiteRev (trimStartRev s) = None.
Proof.
  induction n as [|n IH]; intros s Hn.
  - destruct s; [reflexivity|cbn in Hn; lia].
  - rewrite trimStartRev_eq.
    destruct (afterWhiteRev s) as [r|] eqn:E; [|exact E].
    apply IH. destruct (afterWhiteRev_cut s r E) as (w & -> & Hw).
    rewrite length_app in Hn. lia.
Qed.

Lemma trimStartRev_clean (s : string) :
  afterWhiteRev (trimStartRev s) = None.
Proof. now apply (trimStartRev_clean_upto (String.length s)). Qed.

Lemma trimStart_id (s : string) : startsClean s -> trimStart s = s.
Proof. unfold startsClean. intros H. now rewrite trimStart_eq, H. Qed.

Lemma trimStartRev_id (s : string) :
  afterWhiteRev s = None -> trimStartRev s = s.
Proof. intros H. now rewrite trimStartRev_eq, H. Qed.

Lemma trimStart_suffix_upto (n : nat) : forall s,
  (String.length s <= n)%nat ->
  exists pre, s = (pre ++ trimStart s)%string.
Proof.
  induction n as [|n IH]; intros s Hn.
  - destruct s; [exists EmptyString; reflexivity|cbn in Hn; lia].
  - rewrite trimStart_eq.
    destruct (afterWhite s) as [r|] eqn:E;
      [|exists EmptyString; reflexivity].
    destruct (afterWhite_cut s r E) as (w & -> & Hw).
    rewrite length_app in Hn.
    destruct (IH r) as [pre Hpre]; [lia|].
    exists (w ++ pre)%string. rewrite append_assoc'. now rewrite <- Hpre.
Qed.

Lemma trimStart_suffix (s : string) :
  exists pre, s = (pre ++ trimStart s)%string.
Proof. now apply (trimStart_suffix_upto (String.length s)). Qed.

Lemma trimStartRev_suffix_upto (n : nat) : forall s,
  (String.length s <= n)%nat ->
  exists pre, s = (pre ++ trimStartRev s)%string.
Proof.
  induction n as [|n IH]; intros s Hn.
  - destruct s; [exists EmptyString; reflexivity|cbn in Hn; lia].
  - rewrite trimStartRev_eq.
    destruct (afterWhiteRev s) as [r|] eqn:E;
      [|exists EmptyString; reflexivity].
    destruct (afterWhiteRev_cut s r E) as (w & -> & Hw).
    rewrite length_app in Hn.
    destruct (IH r) as [pre Hpre]; [lia|].
    exists (w ++ pre)%string. rewrite append_assoc'. now rewrite <- Hpre.
Qed.

Lemma trimStartRev_suffix (s : string) :
  exists pre, s = (pre ++ trimStartRev s)%string.
Proof. now apply (trimStartRev_suffix_upto (String.length s)). Qed.

(** A white-space character a string begins with is one its extensions
    begin with. *)
Lemma afterWhite_append (x y r : string) :
  afterWhite x = Some r -> afterWhite (x ++ y) = Some (r ++ y)%string.
Proof.
  destruct x as [|a [|b [|c x]]]; cbn; try discriminate.
  - destruct (isWhite a); [|discriminate]. now intros [= <-].
  - destruct (isWhite a); [now intros [= <-]|].
    destruct (white2 a b); [|discriminate]. now intros [= <-].
  - destruct (isWhite a); [now intros [= <-]|].
    destruct (white2 a b); [now intros [= <-]|].
    destruct (white3 a b c); [|discriminate]. now intros [= <-].
Qed.

Lemma startsClean_prefix (x y : string) :
  startsClean (x ++ y) -> startsClean x.
Proof.
  unfold startsClean. intros H.
  destruct (afterWhite x) as [r|] eqn:E; [|reflexivity].
  rewrite (afterWhite_append x y r E) in H. discriminate.
Qed.

(** [trim] leaves no white space at either end and does nothing to a
    string it has made. *)
Lemma trim_clean (s : string) :
  startsClean (trim s) /\ endsClean (trim s)
  /\ trim (trim s) = trim s.
Proof.
  unfold trim, trimEnd, endsClean.
  set (t := trimStart s). set (X := trimStartRev (rev t)).
  assert (Ht : startsClean t) by apply trimStart_clean.
  assert (HX : afterWhiteRev X = None) by apply trimStartRev_clean.
  assert (Hrev : startsClean (rev X)).
  { destruct (trimStartRev_suffix (rev t)) as [pre Hpre]. fold X in Hpre.
    assert (E : t = (rev X ++ rev pre)%string).
    { rewrite <- (rev_involutive t), Hpre, rev_append. reflexivity. }
    rewrite E in Ht. exact (startsClean_prefix _ _ Ht). }
  split; [exact Hrev|]. split; [rewrite rev_involutive; exact HX|].
  rewrite (trimStart_id (rev X) Hrev), rev_involutive.
  rewrite (trimStartRev_id X HX). reflexivity.
Qed.

End JsFacts.

(* ===================================================================== *)
(** ** What a run writes *)
(* ===================================================================== *)

Definition isFailureFile (e : path * file) : bool :=
  match snd e with FailureFile _ => true | _ => false end.

(** The number of failure documents written so far. *)
Definition failureCount (fs : FS) : nat := length (filter isFailureFile fs).

Definition isDirectoryEntry (e : path * file) : bool := isDirectory (snd e).

(** The number of screenshots written at places directly under the place
    [dir]. *)
Definition shotsIn (dir : path) (fs : FS) : nat :=
  length (filter (fun e : path * file =>
                    match snd e, Fs.stripPrefix dir (fst e) with
                    | PngFile, Some [_] => true
                    | _, _ => false
                    end) fs).

(** The directory [path.join(outDir, taskId, name)] of the records made
    under the name [name], and the place of the file [f] of a
    directory. *)
Definition checkpointDir (outDir taskId name : string) : path :=
  Path.join [Path.ofString outDir; Path.ofString taskId; Path.ofString name].

Definition fileIn (dir : path) (f : string) : path :=
  Path.location (Path.join [dir; Path.ofString f]).

(** The test of lines 690-691: something in the checkpoint directory
    tells that a capture was made. *)
Definition alreadyCaptured (outDir taskId name : string) (fs : FS) : bool :=
  let ckptDir := checkpointDir outDir taskId name in
  (Fs.existsSync fs (Path.join [ckptDir; Path.ofString "meta.json"])
   || Fs.existsSync fs (Path.join [ckptDir;
                                   Path.ofString ".screenshot_saved"])
   || existsb endsWithPng (orElse [] (Fs.readdirSync fs ckptDir)))%bool.

(** A piece of a path that names something: it has no slash and is not
    empty, a dot or two dots. *)
Definition plain (s : string) : bool :=
  (negb (Path.isDot s) && negb (Path.isDotDot s)
   && forallb (fun c => negb (Path.isSlash c)) (list_ascii_of_string s))%bool.

(** Facts on paths. *)
Module PathFacts.

Local Open Scope list_scope.

Lemma path_eqb_refl (p : path) : Path.path_eqb p p = true.
Proof.
  unfold Path.path_eqb. destruct (list_eq_dec string_dec p p); congruence.
Qed.

Lemma path_eqb_true (p q : path) : Path.path_eqb p q = true -> p = q.
Proof.
  unfold Path.path_eqb. destruct (list_eq_dec string_dec p q);
    [auto|discriminate].
Qed.

(** The pieces kept by the normalization: names, above two dots in a
    relative path. *)
Definition isName (s : string) : bool :=
  (negb (Path.isDot s) && negb (Path.isDotDot s))%bool.

Inductive Kept (absolute : bool) : list string -> Prop :=
| KeptDots dots :
    Forall (fun s => Path.isDotDot s = true) dots ->
    (absolute = true -> dots = []) -> Kept absolute dots
| KeptName s kept :
    isName s = true -> Kept absolute kept -> Kept absolute (s :: kept).

Lemma isDotDot_eq (s : string) : Path.isDotDot s = true -> s = "..".
Proof. unfold Path.isDotDot. apply String.eqb_eq. Qed.

Lemma dotdot_not_dot (s : string) :
  Path.isDotDot s = true -> Path.isDot s = false.
Proof. intros H. apply isDotDot_eq in H. subst s. reflexivity. Qed.

Lemma normStep_kept (absolute : bool) (kept : list string) (piece : string) :
  Kept absolute kept -> Kept absolute (Path.normStep absolute kept piece).
Proof.
  intros K. unfold Path.normStep.
  destruct (Path.isDot piece) eqn:Ed; [exact K|].
  destruct (Path.isDotDot piece) eqn:Edd.
  - destruct K as [dots Hd Ha|s kept Hs K].
    + destruct dots as [|top below].
      * destruct absolute; [apply KeptDots; auto|].
        apply KeptDots; [repeat constructor; exact Edd|discriminate].
      * inversion Hd; subst. rewrite H1.
        apply KeptDots; [constructor; assumption|].
        intros E. specialize (Ha E). discriminate.
    + unfold isName in Hs. apply andb_true_iff in Hs as [_ Hs].
      apply negb_true_iff in Hs. rewrite Hs. exact K.
  - apply KeptName; [|exact K]. unfold isName. now rewrite Ed, Edd.
Qed.

Lemma fold_kept (absolute : bool) (p : list string) : forall kept,
  Kept absolute kept ->
  Kept absolute (fold_left (Path.normStep absolute) p kept).
Proof.
  induction p as [|x p IH]; intros kept K; [exact K|].
  cbn [fold_left]. apply IH, normStep_kept, K.
Qed.

(** The place of the pieces kept. *)
Definition place (absolute : bool) (kept : list string) : path :=
  (if absolute then [EmptyString] else []) ++ List.rev kept.

Lemma isName_truthy (s : string) : isName s = true -> truthy s = true.
Proof.
  unfold isName, Path.isDot. intros H. apply andb_true_iff in H as [H _].
  apply negb_true_iff in H. apply orb_false_iff in H as [H _].
  now apply negb_false_iff in H.
Qed.

Lemma isName_step (l : path) (s : string) :
  isName s = true -> Path.step l s = l ++ [s].
Proof.
  unfold isName, Path.step. intros H. apply andb_true_iff in H as [H1 H2].
  apply negb_true_iff in H1, H2. now rewrite H1, H2.
Qed.

Lemma isName_normStep (absolute : bool) (kept : list string) (s : string) :
  isName s = true -> Path.normStep absolute kept s = s :: kept.
Proof.
  unfold isName, Path.normStep. intros H.
  apply andb_true_iff in H as [H1 H2].
  apply negb_true_iff in H1, H2. now rewrite H1, H2.
Qed.

Lemma isDot_step (l : path) (s : string) :
  Path.isDot s = true -> Path.step l s = l.
Proof. unfold Path.step. now intros ->. Qed.

Lemma isDot_normStep (absolute : bool) (kept : list string) (s : string) :
  Path.isDot s = true -> Path.normStep absolute kept s = kept.
Proof. unfold Path.normStep. now intros ->. Qed.

Lemma kept_truthy (absolute : bool) (kept : list string) :
  Kept absolute kept -> Forall (fun s => truthy s = true) kept.
Proof.
  induction 1 as [dots Hd _|s kept Hs K IH].
  - eapply Forall_impl; [|exact Hd]. intros s H.
    apply isDotDot_eq in H. now subst s.
  - constructor; [now apply isName_truthy|exact IH].
Qed.

(** Two dots after two dots. *)
Lemma dots_fold_norm (l : list string) : forall acc,
  Forall (fun s => Path.isDotDot s = true) l ->
  Forall (fun s => Path.isDotDot s = true) acc ->
  fold_left (Path.normStep false) l acc = List.rev l ++ acc.
Proof.
  induction l as [|x l IH]; intros acc Hl Ha; [reflexivity|].
  inversion Hl as [|? ? Hx Hl']; subst. cbn [fold_left List.rev].
  assert (E : Path.normStep false acc x = x :: acc).
  { unfold Path.normStep. rewrite (dotdot_not_dot x Hx), Hx.
    destruct acc as [|top below]; [reflexivity|].
    inversion Ha; subst. now rewrite H1. }
  rewrite E, IH; [|assumption|constructor; assumption].
  now rewrite <- app_assoc.
Qed.

Lemma dots_parent (acc : path) :
  Forall (fun s => Path.isDotDot s = true) acc ->
  Path.parent acc = acc ++ [".."].
Proof.
  intros Ha. destruct acc as [|x acc]; [reflexivity|].
  unfold Path.parent.
  assert (Hlast : Path.isDotDot (last (x :: acc) EmptyString) = true).
  { assert (Hin : In (last (x :: acc) EmptyString) (x :: acc)).
    { clear Ha. revert x. induction acc as [|y acc IH]; intros x;
        [now left|]. right. apply IH. }
    rewrite Forall_forall in Ha. now apply Ha. }
  rewrite Hlast.
  destruct (Path.path_eqb (x :: acc) [EmptyString]) eqn:E; [|reflexivity].
  apply path_eqb_true in E. inversion E; subst. inversion Ha; subst.
  discriminate.
Qed.

Lemma dots_fold_step (l : list string) : forall acc,
  Forall (fun s => Path.isDotDot s = true) l ->
  Forall (fun s => Path.isDotDot s = true) acc ->
  fold_left Path.step l acc = acc ++ l.
Proof.
  induction l as [|x l IH]; intros acc Hl Ha;
    [now rewrite app_nil_r|].
  inversion Hl as [|? ? Hx Hl']; subst. cbn [fold_left].
  assert (E : Path.step acc x = acc ++ [x]).
  { unfold Path.step. rewrite (dotdot_not_dot x Hx), Hx.
    rewrite (dots_parent acc Ha). now rewrite (isDotDot_eq x Hx). }
  rewrite E, IH; [now rewrite <- app_assoc|assumption|].
  apply Forall_app. split; [assumption|repeat constructor; assumption].
Qed.

(** Read again, the pieces kept are kept as they are. *)
Lemma kept_fold_norm (absolute : bool) (kept : list string) :
  Kept absolute kept ->
  fold_left (Path.normStep absolute) (List.rev kept) [] = kept.
Proof.
  induction 1 as [dots Hd Ha|s kept Hs K IH].
  - destruct absolute; [now rewrite (Ha eq_refl)|].
    rewrite dots_fold_norm; [|now apply Forall_rev|constructor].
    now rewrite rev_involutive, app_nil_r.
  - cbn [List.rev]. rewrite fold_left_app, IH. cbn [fold_left].
    now apply isName_normStep.
Qed.

Lemma kept_fold_step (absolute : bool) (kept : list string) :
  Kept absolute kept ->
  fold_left Path.step (List.rev kept)
            (if absolute then [EmptyString] else [])
  = place absolute kept.
Proof.
  unfold place. induction 1 as [dots Hd Ha|s kept Hs K IH].
  - destruct absolute; [now rewrite (Ha eq_refl)|].
    rewrite dots_fold_step; [reflexivity|now apply Forall_rev|constructor].
  - cbn [List.rev]. rewrite fold_left_app, IH. cbn [fold_left].
    rewrite isName_step by assumption. now rewrite app_assoc.
Qed.

(** The pieces of a rendered path: the place, and a mark at the end. *)
Definition endMark (absolute : bool) (kept : list string) (slash : bool)
  : list string :=
  match kept with
  | [] => if absolute then [EmptyString]
          else if slash then ["."; EmptyString] else ["."]
  | _ :: _ => if slash then [EmptyString] else []
  end.

Lemma render_place (absolute : bool) (kept : list string) (slash : bool) :
  Path.render absolute kept slash
  = place absolute kept ++ endMark absolute kept slash.
Proof.
  unfold Path.render, place, endMark.
  destruct kept as [|x kept]; [destruct absolute, slash; reflexivity|].
  now rewrite app_assoc.
Qed.

Lemma endMark_dots (absolute : bool) (kept : list string) (slash : bool) :
  Forall (fun s => Path.isDot s = true) (endMark absolute kept slash).
Proof.
  unfold endMark. destruct kept, absolute, slash; repeat constructor.
Qed.

Lemma dots_skip_norm (absolute : bool) (l : list string) : forall acc,
  Forall (fun s => Path.isDot s = true) l ->
  fold_left (Path.normStep absolute) l acc = acc.
Proof.
  induction l as [|x l IH]; intros acc H; [reflexivity|].
  inversion H; subst. cbn [fold_left]. rewrite isDot_normStep by assumption.
  now apply IH.
Qed.

Lemma dots_skip_step (l : list string) : forall acc,
  Forall (fun s => Path.isDot s = true) l ->
  fold_left Path.step l acc = acc.
Proof.
  induction l as [|x l IH]; intros acc H; [reflexivity|].
  inversion H; subst. cbn [fold_left]. rewrite isDot_step by assumption.
  now apply IH.
Qed.

Lemma place_fold_norm (absolute : bool) (kept : list string) :
  Kept absolute kept ->
  fold_left (Path.normStep absolute) (place absolute kept) [] = kept.
Proof.
  intros K. unfold place. rewrite fold_left_app.
  rewrite (dots_skip_norm absolute (if absolute then [EmptyString] else []))
    by (destruct absolute; repeat constructor).
  now apply kept_fold_norm.
Qed.

Lemma place_fold_step (absolute : bool) (kept : list string) :
  Kept absolute kept ->
  fold_left Path.step (place absolute kept)
            (if absolute then [EmptyString] else [])
  = place absolute kept.
Proof.
  intros K. unfold place at 1. rewrite fold_left_app.
  rewrite (dots_skip_step (if absolute then [EmptyString] else []))
    by (destruct absolute; repeat constructor).
  now apply kept_fold_step.
Qed.

(** A rendered path, with more pieces after it, starts at the root when
    it was made absolute. *)
Lemma isAbsolute_render (absolute : bool) (kept : list string)
    (slash : bool) (more : list string) :
  Kept absolute kept ->
  Path.isAbsolute (Path.render absolute kept slash ++ more) = absolute.
Proof.
  intros K. pose proof (kept_truthy _ _ K) as Ht. unfold Path.render.
  destruct kept as [|x kept].
  - destruct absolute; [reflexivity|].
    destruct slash; [reflexivity|]. destruct more; reflexivity.
  - destruct absolute; [cbn [app]|].
    + destruct (List.rev (x :: kept)) eqn:E; [|reflexivity].
      apply (f_equal (@length string)) in E. rewrite length_rev in E.
      discriminate.
    + cbn [app].
      assert (Hr : Forall (fun s => truthy s = true) (List.rev (x :: kept)))
        by now apply Forall_rev.
      destruct (List.rev (x :: kept)) as [|y r] eqn:E.
      { apply (f_equal (@length string)) in E. rewrite length_rev in E.
        discriminate. }
      inversion Hr; subst. cbn [app Path.isAbsolute]. rewrite H1.
      destruct ((r ++ (if slash then [EmptyString] else [])) ++ more);
        reflexivity.
Qed.

Lemma origin_render (absolute : bool) (kept : list string) (slash : bool)
    (more : list string) :
  Kept absolute kept ->
  Path.origin (Path.render absolute kept slash ++ more)
  = if absolute then [EmptyString] else [].
Proof.
  intros K. unfold Path.origin. now rewrite isAbsolute_render.
Qed.

(** The place a rendered path leads to. *)
Lemma location_render (absolute : bool) (kept : list string) (slash : bool) :
  Kept absolute kept ->
  Path.location (Path.render absolute kept slash) = place absolute kept.
Proof.
  intros K. unfold Path.location.
  pose proof (origin_render absolute kept slash [] K) as Eo.
  rewrite app_nil_r in Eo. rewrite Eo.
  rewrite render_place, fold_left_app, place_fold_step by assumption.
  apply dots_skip_step, endMark_dots.
Qed.

(** What [path.join] returns is rendered from pieces kept. *)
Lemma join_normalize (parts : list path) :
  Path.join parts = Path.normalize (concat (filter Path.nonEmpty parts)).
Proof.
  unfold Path.join. destruct (filter Path.nonEmpty parts); reflexivity.
Qed.

Lemma normalize_rendered (p : path) :
  exists absolute kept slash,
    Kept absolute kept /\ Path.normalize p = Path.render absolute kept slash.
Proof.
  exists (Path.isAbsolute p),
         (fold_left (Path.normStep (Path.isAbsolute p)) p []),
         (Path.endsWithSlash p).
  split; [|reflexivity]. apply fold_kept. apply KeptDots; [constructor|auto].
Qed.

Lemma join_rendered (parts : list path) :
  exists absolute kept slash,
    Kept absolute kept
    /\ Path.join parts = Path.render absolute kept slash.
Proof. rewrite join_normalize. apply normalize_rendered. Qed.

Lemma render_nonEmpty (absolute : bool) (kept : list string) (slash : bool) :
  Kept absolute kept ->
  Path.nonEmpty (Path.render absolute kept slash) = true.
Proof.
  intros K. pose proof (kept_truthy _ _ K) as Ht. unfold Path.render.
  destruct kept as [|x kept]; [destruct absolute, slash; reflexivity|].
  destruct absolute; cbn [app].
  - destruct (List.rev (x :: kept)) eqn:E; [|reflexivity].
    apply (f_equal (@length string)) in E. rewrite length_rev in E.
    discriminate.
  - assert (Hr : Forall (fun s => truthy s = true) (List.rev (x :: kept)))
      by now apply Forall_rev.
    destruct (List.rev (x :: kept)) as [|y r] eqn:E.
    { apply (f_equal (@length string)) in E. rewrite length_rev in E.
      discriminate. }
    inversion Hr; subst. cbn [app Path.nonEmpty]. rewrite H1.
    destruct (r ++ (if slash then [EmptyString] else [])); reflexivity.
Qed.

Lemma endsWithSlash_name (p : path) (f : string) :
  truthy f = true -> Path.endsWithSlash (p ++ [f]) = false.
Proof.
  intros Hf. unfold Path.endsWithSlash.
  destruct (p ++ [f]) as [|a [|b r]] eqn:E; try reflexivity.
  rewrite <- E, last_last, Hf. reflexivity.
Qed.

(** The file [f] in the directory [d] that [path.join] returned: its path
    is the place of [d] and then [f]. *)
Lemma render_under (absolute : bool) (kept : list string) (slash : bool)
    (f : string) :
  Kept absolute kept -> isName f = true ->
  Path.join [Path.render absolute kept slash; [f]]
  = place absolute kept ++ [f].
Proof.
  intros K Hf. rewrite join_normalize. cbn [filter].
  rewrite render_nonEmpty by assumption.
  cbn [Path.nonEmpty]. rewrite (isName_truthy f Hf).
  cbn [concat]. rewrite app_nil_r. unfold Path.normalize.
  rewrite isAbsolute_render by assumption.
  rewrite endsWithSlash_name by now apply isName_truthy.
  rewrite fold_left_app.
  assert (E : fold_left (Path.normStep absolute)
                        (Path.render absolute kept slash) [] = kept).
  { rewrite render_place, fold_left_app, place_fold_norm by assumption.
    apply dots_skip_norm, endMark_dots. }
  rewrite E. cbn [fold_left].
  rewrite isName_normStep by assumption.
  unfold Path.render, place. cbn [List.rev].
  now rewrite app_nil_r, app_assoc.
Qed.

Lemma join_under (parts : list path) (f : string) :
  isName f = true ->
  Path.join [Path.join parts; [f]] = Path.location (Path.join parts) ++ [f].
Proof.
  intros Hf. destruct (join_rendered parts) as (a & k & s & K & ->).
  rewrite location_render by assumption. now apply render_under.
Qed.

Lemma place_more (absolute : bool) (kept : list string) (f : string) :
  place absolute kept ++ [f] = place absolute (f :: kept).
Proof. unfold place. cbn [List.rev]. now rewrite app_assoc. Qed.

Lemma place_render (absolute : bool) (kept : list string) (x : string) :
  place absolute (x :: kept) = Path.render absolute (x :: kept) false.
Proof. unfold place, Path.render. now rewrite app_nil_r. Qed.

End PathFacts.

(** Facts on the names of the files. *)
Module NameFacts.

Import PathFacts.
Local Open Scope list_scope.

Definition noSlash (s : string) : bool :=
  forallb (fun c => negb (Path.isSlash c)) (list_ascii_of_string s).

Lemma noSlash_app (x y : string) :
  noSlash (x ++ y) = (noSlash x && noSlash y)%bool.
Proof.
  unfold noSlash. induction x as [|c x IH]; [reflexivity|].
  cbn [append list_ascii_of_string forallb]. rewrite IH.
  now rewrite andb_assoc.
Qed.

Lemma plain_name (s : string) : plain s = true -> isName s = true.
Proof.
  unfold plain, isName. intros H. now apply andb_true_iff in H as [H _].
Qed.

Lemma plain_noSlash (s : string) : plain s = true -> noSlash s = true.
Proof. unfold plain. intros H. now apply andb_true_iff in H as [_ H]. Qed.

Lemma piecesFrom_noSlash (s : string) : forall cur,
  noSlash s = true -> Path.piecesFrom cur s = [rev (rev_onto s cur)].
Proof.
  unfold noSlash. induction s as [|c s IH]; intros cur H; [reflexivity|].
  cbn [list_ascii_of_string forallb] in H.
  apply andb_true_iff in H as [Hc Hs]. apply negb_true_iff in Hc.
  cbn [Path.piecesFrom rev_onto]. rewrite Hc. now apply IH.
Qed.

(** A text without a slash is one piece. *)
Lemma ofString_noSlash (s : string) :
  noSlash s = true -> Path.ofString s = [s].
Proof.
  intros H. unfold Path.ofString. rewrite piecesFrom_noSlash by assumption.
  fold (rev s). now rewrite JsFacts.rev_involutive.
Qed.

Lemma uint_noSlash (d : Decimal.uint) :
  noSlash (NilEmpty.string_of_uint d) = true.
Proof. induction d; cbn; auto. Qed.

Lemma ofZ_noSlash (n : Z) : noSlash (ofZ n) = true.
Proof.
  unfold ofZ, NilZero.string_of_int, NilZero.string_of_uint.
  destruct (Z.to_int n) as [d|d]; destruct d;
    try reflexivity; apply uint_noSlash.
Qed.

Lemma pad2_noSlash (n : nat) : noSlash (pad2 n) = true.
Proof.
  unfold pad2. destruct (Nat.ltb _ 2); [|apply ofZ_noSlash].
  rewrite noSlash_app, ofZ_noSlash. reflexivity.
Qed.

Lemma underscoreRuns_eq (s : string) (inRun : bool) :
  underscoreRuns inRun s
  = match afterWhite s with
    | Some r =>
        if inRun then underscoreRuns true r
        else String "_" (underscoreRuns true r)
    | None =>
        match s with
        | String a r => String a (underscoreRuns false r)
        | EmptyString => EmptyString
        end
    end.
Proof.
  destruct s as [|a [|b [|c r]]]; cbn [underscoreRuns afterWhite];
    try reflexivity.
  - destruct (isWhite a); reflexivity.
  - destruct (isWhite a); [reflexivity|]. destruct (white2 a b); reflexivity.
  - destruct (isWhite a); [reflexivity|].
    destruct (white2 a b); [reflexivity|].
    destruct (white3 a b c); reflexivity.
Qed.

Lemma underscoreRuns_noSlash_upto (n : nat) : forall s inRun,
  (String.length s <= n)%nat -> noSlash s = true ->
  noSlash (underscoreRuns inRun s) = true.
Proof.
  induction n as [|n IH]; intros s inRun Hn Hs.
  - destruct s; [reflexivity|cbn in Hn; lia].
  - rewrite underscoreRuns_eq.
    destruct (afterWhite s) as [r|] eqn:E.
    + destruct (JsFacts.afterWhite_cut s r E) as (w & -> & Hw).
      rewrite JsFacts.length_app in Hn. rewrite noSlash_app in Hs.
      apply andb_true_iff in Hs as [_ Hr].
      assert (H : noSlash (underscoreRuns true r) = true)
        by (apply IH; [lia|exact Hr]).
      destruct inRun; [exact H|]. unfold noSlash in *.
      cbn [list_ascii_of_string forallb]. now rewrite H.
    + destruct s as [|a r]; [reflexivity|].
      unfold noSlash in Hs |- *. cbn [list_ascii_of_string forallb] in *.
      apply andb_true_iff in Hs as [Ha Hr]. rewrite Ha. cbn [andb].
      apply (IH r false); [cbn in Hn; lia|exact Hr].
Qed.

Lemma underscoreRuns_noSlash (s : string) (inRun : bool) :
  noSlash s = true -> noSlash (underscoreRuns inRun s) = true.
Proof. now apply (underscoreRuns_noSlash_upto (String.length s)). Qed.

Lemma png_name (s : string) : endsWithPng s = true -> isName s = true.
Proof.
  intros H. unfold isName.
  destruct (Path.isDot s) eqn:Ed.
  { unfold Path.isDot in Ed. apply orb_true_iff in Ed as [Ed|Ed].
    - destruct s; [discriminate H|discriminate Ed].
    - apply String.eqb_eq in Ed. subst s. discriminate H. }
  destruct (Path.isDotDot s) eqn:Edd; [|reflexivity].
  apply isDotDot_eq in Edd. subst s. discriminate H.
Qed.

(** The name of a screenshot is a plain one when the name of the capture
    has no slash. *)
Lemma shotFilename_plain (ai : nat) (name : string) (now : Z) :
  noSlash name = true -> plain (shotFilename ai name now) = true.
Proof.
  intros H. unfold plain.
  pose proof (png_name _ (JsFacts.shotFilename_png ai name now)) as Hn.
  unfold isName in Hn. rewrite Hn. cbn [andb].
  fold (noSlash (shotFilename ai name now)). unfold shotFilename.
  rewrite !noSlash_app, pad2_noSlash, ofZ_noSlash.
  now rewrite underscoreRuns_noSlash.
Qed.

End NameFacts.

(** Facts on the disk. *)
Module FsFacts.

Import PathFacts.
Local Open Scope list_scope.

(** What is on the disk stays there, as what it is, whatever is put on
    the disk later. *)
Lemma isDirectoryAt_app (added fs : FS) (l : path) :
  Fs.isDirectoryAt fs l = true -> Fs.isDirectoryAt (added ++ fs) l = true.
Proof.
  unfold Fs.isDirectoryAt. rewrite existsb_app. intros H.
  apply orb_true_iff in H as [-> | ->]; [reflexivity|].
  now rewrite !orb_true_r.
Qed.

Lemma existsAt_app (added fs : FS) (l : path) :
  Fs.existsAt fs l = true -> Fs.existsAt (added ++ fs) l = true.
Proof.
  unfold Fs.existsAt. rewrite existsb_app. intros H.
  apply orb_true_iff in H as [H | ->].
  - now rewrite (isDirectoryAt_app added fs l H).
  - now rewrite !orb_true_r.
Qed.

Lemma walk_app (added fs : FS) (pieces : list string) : forall cur l,
  Fs.walk fs cur pieces = Some l -> Fs.walk (added ++ fs) cur pieces = Some l.
Proof.
  induction pieces as [|x pieces IH]; intros cur l H; [exact H|].
  cbn [Fs.walk] in *.
  destruct (Fs.isDirectoryAt fs cur) eqn:E; [|discriminate].
  rewrite (isDirectoryAt_app added fs cur E). now apply IH.
Qed.

Lemma existsSync_app (added fs : FS) (p : path) :
  Fs.existsSync fs p = true -> Fs.existsSync (added ++ fs) p = true.
Proof.
  unfold Fs.existsSync, Fs.resolve.
  destruct (Fs.walk fs (Path.origin p) p) as [l|] eqn:E; [|discriminate].
  rewrite (walk_app added fs p _ _ E). apply existsAt_app.
Qed.

Lemma readdirSync_app (added fs : FS) (dir : path) (names : list string) :
  Fs.readdirSync fs dir = Some names ->
  exists more, Fs.readdirSync (added ++ fs) dir = Some (more ++ names).
Proof.
  unfold Fs.readdirSync, Fs.resolve.
  destruct (Fs.walk fs (Path.origin dir) dir) as [l|] eqn:E; [|discriminate].
  rewrite (walk_app added fs dir _ _ E).
  destruct (Fs.isDirectoryAt fs l) eqn:Ed; [|discriminate].
  rewrite (isDirectoryAt_app added fs l Ed). intros [= <-].
  rewrite flat_map_app. eexists. reflexivity.
Qed.

(** The walk ends at the place of the path. *)
Lemma walk_fold (fs : FS) (pieces : list string) : forall cur l,
  Fs.walk fs cur pieces = Some l -> l = fold_left Path.step pieces cur.
Proof.
  induction pieces as [|x pieces IH]; intros cur l H.
  - now injection H as <-.
  - cbn [Fs.walk fold_left] in *.
    destruct (Fs.isDirectoryAt fs cur); [now apply IH|discriminate].
Qed.

Lemma resolve_location (fs : FS) (p l : path) :
  Fs.resolve fs p = Some l -> l = Path.location p.
Proof. apply walk_fold. Qed.




(** [mkdirSync] makes directories only, and none where the path leads to
    a directory already. *)
Lemma mkdirFrom_log (pieces : list string) : forall fs cur,
  exists dirs,
    snd (Fs.mkdirFrom fs cur pieces) = dirs ++ fs
    /\ Forall (fun e => isDirectoryEntry e = true) dirs.
Proof.
  induction pieces as [|x pieces IH]; intros fs cur; cbn [Fs.mkdirFrom].
  - exists []. split; [reflexivity|constructor].
  - destruct (Fs.isDirectoryAt fs (Path.step cur x)); [apply IH|].
    destruct (Fs.existsAt fs (Path.step cur x)).
    + exists []. split; [reflexivity|constructor].
    + destruct (IH ((Path.step cur x, Directory) :: fs) (Path.step cur x))
        as (dirs & E & Hd).
      exists (dirs ++ [(Path.step cur x, Directory)]). split.
      * rewrite E, <- app_assoc. reflexivity.
      * apply Forall_app. split; [exact Hd|repeat constructor].
Qed.


(** The path leads to a directory. *)
Definition leadsToDirectory (fs : FS) (p : path) : bool :=
  match Fs.resolve fs p with
  | Some l => Fs.isDirectoryAt fs l
  | None => false
  end.

Lemma leadsToDirectory_app (added fs : FS) (p : path) :
  leadsToDirectory fs p = true -> leadsToDirectory (added ++ fs) p = true.
Proof.
  unfold leadsToDirectory, Fs.resolve.
  destruct (Fs.walk fs (Path.origin p) p) as [l|] eqn:E; [|discriminate].
  rewrite (walk_app added fs p _ _ E). apply isDirectoryAt_app.
Qed.

Lemma leadsToDirectory_exists (fs : FS) (p : path) :
  leadsToDirectory fs p = true -> Fs.existsSync fs p = true.
Proof.
  unfold leadsToDirectory, Fs.existsSync, Fs.existsAt.
  destruct (Fs.resolve fs p); [|discriminate]. now intros ->.
Qed.


(** A write that works puts the file at the place of the path, where it
    is found afterwards; a write that throws changes nothing. *)
Lemma writeFileSync_cases (fs : FS) (p : path) (f : file) :
  (Fs.writeFileSync fs p f = (true, (Path.location p, f) :: fs)
   /\ Fs.resolve fs p = Some (Path.location p)
   /\ Fs.isDirectoryAt fs (Path.location p) = false)
  \/ (Fs.writeFileSync fs p f = (false, fs)
      /\ (Fs.resolve fs p = None
          \/ Fs.isDirectoryAt fs (Path.location p) = true)).
Proof.
  unfold Fs.writeFileSync.
  destruct (Fs.resolve fs p) as [l|] eqn:E; [|right; auto].
  pose proof (resolve_location fs p l E). subst l.
  destruct (Fs.isDirectoryAt fs (Path.location p)); [right|left]; auto.
Qed.

Lemma written_exists (fs : FS) (p : path) (f : file) :
  Fs.resolve fs p = Some (Path.location p) ->
  Fs.existsSync ((Path.location p, f) :: fs) p = true.
Proof.
  intros E. unfold Fs.existsSync, Fs.resolve.
  change ((Path.location p, f) :: fs) with ([(Path.location p, f)] ++ fs).
  rewrite (walk_app [(Path.location p, f)] fs p _ _ E).
  unfold Fs.existsAt. cbn [app existsb fst]. rewrite path_eqb_refl.
  now rewrite orb_true_r.
Qed.

End FsFacts.

(** Directories that [path.join] names, and the files in them. *)
Module DirFacts.

Import PathFacts NameFacts FsFacts.
Local Open Scope list_scope.


Definition start (absolute : bool) : path :=
  if absolute then [EmptyString] else [].





(** The directory named last by a plain name. *)
Lemma concat_absolute (ps : list path) (more : list string) :
  Forall (fun p => Path.nonEmpty p = true) ps ->
  Path.isAbsolute (concat ps ++ more) = Path.isAbsolute (concat ps)
  \/ ps = [].
Proof.
  intros H. destruct ps as [|p ps]; [now right|]. left.
  inversion H as [|? ? Hp _]; subst. cbn [concat].
  destruct p as [|s [|t r]]; [discriminate| |reflexivity].
  cbn [Path.nonEmpty] in Hp. cbn [app Path.isAbsolute]. rewrite Hp.
  destruct (concat ps ++ more), (concat ps); reflexivity.
Qed.

Lemma join_plain_last (parts : list path) (name : string) :
  plain name = true ->
  exists absolute kept,
    Kept absolute (name :: kept)
    /\ Path.join (parts ++ [Path.ofString name])
       = Path.render absolute (name :: kept) false
    /\ Path.location (Path.join parts) = place absolute kept.
Proof.
  intros Hp. pose proof (plain_name name Hp) as Hn.
  rewrite (ofString_noSlash name (plain_noSlash name Hp)).
  rewrite !join_normalize, filter_app. cbn [filter Path.nonEmpty].
  rewrite (isName_truthy name Hn), concat_app. cbn [concat].
  rewrite app_nil_r.
  set (ps := filter Path.nonEmpty parts).
  assert (Hps : Forall (fun p => Path.nonEmpty p = true) ps).
  { apply Forall_forall. intros p Hin. now apply filter_In in Hin. }
  assert (Ea : Path.isAbsolute (concat ps ++ [name])
               = Path.isAbsolute (concat ps)).
  { destruct (concat_absolute ps [name] Hps) as [E|E]; [exact E|].
    rewrite E. reflexivity. }
  exists (Path.isAbsolute (concat ps)),
         (fold_left (Path.normStep (Path.isAbsolute (concat ps)))
                    (concat ps) []).
  assert (K : Kept (Path.isAbsolute (concat ps))
                   (fold_left (Path.normStep (Path.isAbsolute (concat ps)))
                              (concat ps) [])).
  { apply fold_kept. apply KeptDots; [constructor|auto]. }
  split; [now apply KeptName|]. split.
  - unfold Path.normalize. rewrite Ea, fold_left_app. cbn [fold_left].
    rewrite isName_normStep by assumption.
    now rewrite endsWithSlash_name by now apply isName_truthy.
  - unfold Path.normalize. now apply location_render.
Qed.

(** The place of a file with a plain name. *)
Lemma fileIn_plain (parts : list path) (f : string) :
  plain f = true ->
  fileIn (Path.join parts) f = Path.location (Path.join parts) ++ [f].
Proof.
  intros Hp. unfold fileIn.
  rewrite (ofString_noSlash f (plain_noSlash f Hp)).
  rewrite join_under by now apply plain_name.
  destruct (join_rendered parts) as (a & k & s & K & ->).
  rewrite location_render by assumption.
  rewrite place_more.
  rewrite (place_render a k f) at 1. apply location_render.
  apply KeptName; [now apply plain_name|assumption].
Qed.






End DirFacts.

Section FileFacts.

Import PathFacts FsFacts.
Local Open Scope list_scope.
Context {W Snap : Type} (B : Browser W Snap).
Variables (outDir taskId instruction : string).
Variable plannerConfidence : option Z.

(** What a capture under the name [cname] puts on the disk: the metadata
    document and a screenshot, at their places in the directory of that
    name, and directories. *)
Inductive CaptureFile (cname : string) : path * file -> Prop :=
| CaptureMeta m :
    meta_checkpoint m = cname ->
    CaptureFile cname
      (fileIn (checkpointDir outDir taskId cname) "meta.json", MetaFile m)
| CaptureShot ai now :
    CaptureFile cname
      (fileIn (checkpointDir outDir taskId cname)
              (shotFilename ai cname now), PngFile)
| CaptureDirectory l : CaptureFile cname (l, Directory).

(** What a recovery puts on the disk: the picture and the summary of the
    snapshot, in the directory [recovery], and directories. *)
Inductive RecoveryFile : path * file -> Prop :=
| RecoveryPicture now :
    RecoveryFile (fileIn (recoveryDir outDir taskId)
                         ("screenshot-" ++ ofZ now ++ ".jpg"), JpgFile)
| RecoverySummary now :
    RecoveryFile (fileIn (recoveryDir outDir taskId)
                         ("dom-summary-" ++ ofZ now ++ ".json"),
                  DomSummaryFile)
| RecoveryDirectory l : RecoveryFile (l, Directory).

Lemma onPage_files {A : Type} (m : St W A) (st : State W) :
  files (snd (onPage m st)) = files st.
Proof. unfold onPage. destruct (m (world st)). reflexivity. Qed.

Lemma onDisk_eq {A : Type} (op : FS -> A * FS) (st : State W) :
  onDisk op st
  = (fst (op (files st)),
     {| world := world st; files := snd (op (files st)) |}).
Proof. unfold onDisk. destruct (op (files st)). reflexivity. Qed.

Lemma directories_capture (cname : string) (dirs : FS) :
  Forall (fun e => isDirectoryEntry e = true) dirs ->
  Forall (CaptureFile cname) dirs.
Proof.
  intros H. eapply Forall_impl; [|exact H].
  intros [l f] E. unfold isDirectoryEntry in E. cbn [snd] in E.
  destruct f; try discriminate. constructor.
Qed.

Lemma directories_no_failure (dirs : FS) :
  Forall (fun e => isDirectoryEntry e = true) dirs ->
  Forall (fun e => isFailureFile e = false) dirs.
Proof.
  intros H. eapply Forall_impl; [|exact H].
  intros [l f] E. unfold isDirectoryEntry, isFailureFile in *.
  cbn [snd] in *. destruct f; try discriminate; reflexivity.
Qed.

(** [ensureDir] makes directories only, and none where the path leads to
    a directory. *)
Lemma ensureDir_log (dir : path) (st : State W) :
  exists dirs,
    snd (@ensureDir W dir st)
    = {| world := world st; files := dirs ++ files st |}
    /\ Forall (fun e => isDirectoryEntry e = true) dirs.
Proof.
  unfold ensureDir. rewrite onDisk_eq. cbn [snd].
  destruct (Fs.existsSync (files st) dir).
  - exists []. split; [reflexivity|constructor].
  - unfold Fs.mkdirSync.
    destruct (mkdirFrom_log dir (files st) (Path.origin dir))
      as (dirs & E & Hd).
    exists dirs. rewrite E. auto.
Qed.

Lemma ensureDir_there (dir : path) (w : W) (fs : FS) :
  leadsToDirectory fs dir = true ->
  ensureDir dir {| world := w; files := fs |}
  = (true, {| world := w; files := fs |}).
Proof.
  intros H. unfold ensureDir. rewrite onDisk_eq. cbn [world files].
  now rewrite (leadsToDirectory_exists fs dir H).
Qed.

Lemma writeFile_cases (p : path) (f : file) (st : State W) :
  (writeFile p f st
   = (true, {| world := world st;
               files := (Path.location p, f) :: files st |})
   /\ Fs.resolve (files st) p = Some (Path.location p)
   /\ Fs.isDirectoryAt (files st) (Path.location p) = false)
  \/ (writeFile p f st
      = (false, {| world := world st; files := files st |})
      /\ (Fs.resolve (files st) p = None
          \/ Fs.isDirectoryAt (files st) (Path.location p) = true)).
Proof.
  unfold writeFile. rewrite onDisk_eq.
  destruct (writeFileSync_cases (files st) p f) as [(E & H)|(E & H)];
    rewrite E; [left|right]; auto.
Qed.

Ltac write_step :=
  match goal with
  | |- context [writeFile ?p ?f ?s] =>
      let E := fresh "E" in
      let Hr := fresh "Hr" in
      destruct (writeFile_cases p f s) as [(E & Hr & _)|(E & _)];
      rewrite E; clear E; cbn [fst snd world files ret]
  end.

Ltac write_step_in H :=
  match type of H with
  | context [writeFile ?p ?f ?s] =>
      let E := fresh "E" in
      let Hr := fresh "Hr" in
      destruct (writeFile_cases p f s) as [(E & Hr & _)|(E & _)];
      rewrite E in H; clear E; cbn [fst snd world files ret] in H
  end.

(** The end of [page.screenshot]: directories, and the picture when the
    write works. *)
Lemma writeScreenshot_log (p : path) (st : State W) :
  exists pngs dirs,
    snd (writeScreenshot p st)
    = {| world := world st; files := pngs ++ dirs ++ files st |}
    /\ Forall (fun e => isDirectoryEntry e = true) dirs
    /\ ((fst (writeScreenshot p st) = true
         /\ pngs = [(Path.location p, PngFile)])
        \/ (fst (writeScreenshot p st) = false /\ pngs = [])).
Proof.
  unfold writeScreenshot, bind. rewrite onDisk_eq.
  unfold Fs.mkdirSync.
  destruct (mkdirFrom_log (Path.dirname p) (files st)
                          (Path.origin (Path.dirname p)))
    as (dirs & E & Hd).
  rewrite E.
  destruct (writeFile_cases p PngFile
              {| world := world st; files := dirs ++ files st |})
    as [(Ew & _)|(Ew & _)]; rewrite Ew; cbn [fst snd world files].
  - exists [(Path.location p, PngFile)], dirs. auto.
  - exists [], dirs. auto.
Qed.

(** One capture: directories, then the screenshot when the call and the
    write work, then the metadata document; a capture that throws has
    written no metadata document. *)
Lemma saveCheckpoint_log (name : string) (ai : nat)
    (action : option PlanAction) (sel : option string) (st : State W) :
  let dir := checkpointDir outDir taskId name in
  let r := saveCheckpoint B outDir taskId name ai action sel
                          plannerConfidence st in
  exists metas pngs dirs,
    files (snd r) = metas ++ pngs ++ dirs ++ files st
    /\ Forall (fun e => isDirectoryEntry e = true) dirs
    /\ (pngs = []
        \/ pngs = [(fileIn dir (shotFilename ai name (clock B (world st))),
                    PngFile)])
    /\ match fst r with
       | Some (shot, metaPath) =>
           metaPath = Path.join [dir; Path.ofString "meta.json"]
           /\ Fs.existsSync (files (snd r)) metaPath = true
           /\ (exists m,
                  metas = [(fileIn dir "meta.json", MetaFile m)]
                  /\ meta_checkpoint m = name /\ meta_action_index m = ai)
           /\ match shot with
              | Some p =>
                  p = Path.join [dir;
                                 Path.ofString
                                   (shotFilename ai name
                                                 (clock B (world st)))]
                  /\ pngs = [(Path.location p, PngFile)]
              | None => True
              end
       | None => metas = []
       end.
Proof.
  cbv zeta.
  destruct (saveCheckpoint B outDir taskId name ai action sel
                           plannerConfidence st) as [res st'] eqn:Er.
  cbn [fst snd]. unfold saveCheckpoint, bind in Er.
  fold (checkpointDir outDir taskId name) in Er.
  destruct (ensureDir_log (checkpointDir outDir taskId name) st)
    as (dirs1 & E1 & Hd1).
  destruct (ensureDir (checkpointDir outDir taskId name) st)
    as [made st1].
  cbn [snd] in E1. subst st1.
  destruct made; cbn [negb] in Er.
  2:{ injection Er as <- <-. exists [], [], dirs1. cbn [files app]. auto. }
  unfold onPage in Er. cbn [world files] in Er.
  match type of Er with
  | context [waitFirst B ?c ?t ?u] =>
      destruct (waitFirst B c t u) as [waited w1]
  end.
  cbn [world files] in Er.
  match type of Er with
  | context [screenshot B ?p ?u] =>
      destruct (screenshot B p u) as [shot w2]
  end.
  destruct shot.
  - destruct (writeScreenshot_log
                (Path.join [checkpointDir outDir taskId name;
                            Path.ofString
                              (shotFilename ai name (clock B (world st)))])
                {| world := w2; files := dirs1 ++ files st |})
      as (pngs & dirs2 & E & Hd2 & Hp).
    destruct (writeScreenshot _ _) as [saved st3].
    cbn [fst snd world files] in E, Hp. subst st3.
    destruct Hp as [[-> ->]|[-> ->]]; write_step_in Er;
      try write_step_in Er; injection Er as <- <-; cbn [files].
    all: first
      [ eexists [_], [_], (dirs2 ++ dirs1); cbn [app];
        split; [now rewrite <- app_assoc|];
        split; [apply Forall_app; auto|];
        split; [now right|]; split; [reflexivity|];
        split; [now apply written_exists|];
        split; [eexists; split; [reflexivity|split; reflexivity]|];
        first [exact I|split; reflexivity]
      | eexists [_], [], (dirs2 ++ dirs1); cbn [app];
        split; [now rewrite <- app_assoc|];
        split; [apply Forall_app; auto|];
        split; [now left|]; split; [reflexivity|];
        split; [now apply written_exists|];
        split; [eexists; split; [reflexivity|split; reflexivity]|];
        exact I
      | eexists [], [_], (dirs2 ++ dirs1); cbn [app];
        split; [now rewrite <- app_assoc|];
        split; [apply Forall_app; auto|]; split; [now right|reflexivity]
      | exists [], [], (dirs2 ++ dirs1); cbn [app];
        split; [now rewrite <- app_assoc|];
        split; [apply Forall_app; auto|]; auto ].
  - write_step_in Er; injection Er as <- <-; cbn [files].
    + eexists [_], [], dirs1. cbn [app].
      split; [reflexivity|]. split; [assumption|]. split; [now left|].
      split; [reflexivity|]. split; [now apply written_exists|].
      split; [|exact I].
      eexists. split; [reflexivity|split; reflexivity].
    + exists [], [], dirs1. cbn [app]. auto.
Qed.

(** What the try block of an explicit capture leaves: its record, or the
    error of the file system and no metadata document. *)
Lemma tryAction_capture (name : string) (ai : nat)
    (prev : option PlanAction) (a : PlanAction) (mem : option string)
    (st : State W) :
  type a = Screenshot ->
  let dir := checkpointDir outDir taskId (captureName a name) in
  let r := tryAction B outDir taskId name plannerConfidence ai prev a mem
                     st in
  exists metas pngs dirs,
    files (snd r) = metas ++ pngs ++ dirs ++ files st
    /\ Forall (fun e => isDirectoryEntry e = true) dirs
    /\ (pngs = []
        \/ pngs = [(fileIn dir (shotFilename ai (captureName a name)
                                             (clock B (world st))),
                    PngFile)])
    /\ match thrown (fst r) with
       | None =>
           Fs.existsSync (files (snd r))
                         (Path.join [dir; Path.ofString "meta.json"]) = true
           /\ exists m,
                metas = [(fileIn dir "meta.json", MetaFile m)]
                /\ meta_checkpoint m = captureName a name
                /\ meta_action_index m = ai
       | Some err => err = FileError /\ metas = []
       end.
Proof.
  intros Ht. cbv zeta. unfold tryAction. rewrite Ht. unfold bind.
  destruct (saveCheckpoint_log (captureName a name) ai (Some a) mem st)
    as (metas & pngs & dirs & E & Hd & Hp & Hres).
  destruct (saveCheckpoint B outDir taskId (captureName a name) ai (Some a)
              mem plannerConfidence st) as [res st1].
  cbn [fst snd] in E, Hres.
  exists metas, pngs, dirs.
  destruct res as [[shot metaPath]|]; cbn [ret fst snd thrown completed failed].
  - destruct Hres as (-> & Hex & Hm & _). auto.
  - auto.
Qed.

Lemma captureFile_no_failure (cname : string) (e : path * file) :
  CaptureFile cname e -> isFailureFile e = false.
Proof. destruct 1; reflexivity. Qed.

Lemma recoveryFile_no_failure (e : path * file) :
  RecoveryFile e -> isFailureFile e = false.
Proof. destruct 1; reflexivity. Qed.

(** What the try block of any action puts on the disk. *)
Lemma tryAction_log (name : string) (ai : nat) (prev : option PlanAction)
    (a : PlanAction) (mem : option string) (st : State W) :
  let r := tryAction B outDir taskId name plannerConfidence ai prev a mem
                     st in
  exists added,
    files (snd r) = added ++ files st
    /\ Forall (CaptureFile (captureName a name)) added
    /\ (type a <> Screenshot -> added = []).
Proof.
  cbv zeta.
  destruct (type a) eqn:Ht;
    try (exists []; unfold tryAction; rewrite Ht; unfold bind, ret;
         repeat match goal with
                | |- context [onPage ?m st] =>
                    let H := fresh in
                    pose proof (onPage_files m st) as H;
                    destruct (onPage m st); cbn [snd] in H |- *
                end;
         cbn [snd app]; repeat split; auto; congruence).
  destruct (tryAction_capture name ai prev a mem st Ht)
    as (metas & pngs & dirs & E & Hd & Hp & Hres).
  exists (metas ++ pngs ++ dirs). split; [now rewrite E, <- !app_assoc|].
  split; [|congruence].
  apply Forall_app. split.
  - destruct (thrown (fst (tryAction B outDir taskId name plannerConfidence
                                     ai prev a mem st))).
    + destruct Hres as [_ ->]. constructor.
    + destruct Hres as (_ & m & -> & Hm & _).
      constructor; [now apply CaptureMeta|constructor].
  - apply Forall_app. split; [|now apply directories_capture].
    destruct Hp as [-> | ->]; [constructor|].
    constructor; [apply CaptureShot|constructor].
Qed.

Lemma snapshotFiles_log (w : W) (fs : FS) :
  exists added,
    snapshotFiles B (recoveryDir outDir taskId) w fs = added ++ fs
    /\ Forall RecoveryFile added.
Proof.
  unfold snapshotFiles.
  assert (H1 : exists added1,
             match captureShot B (recoveryDir outDir taskId) w with
             | Some t =>
                 snd (Fs.writeFileSync fs
                        (Path.join [recoveryDir outDir taskId;
                                    Path.ofString ("screenshot-" ++ ofZ t
                                                   ++ ".jpg")])
                        JpgFile)
             | None => fs
             end = added1 ++ fs
             /\ Forall RecoveryFile added1).
  { destruct (captureShot B (recoveryDir outDir taskId) w) as [t|];
      [|exists []; split; [reflexivity|constructor]].
    match goal with
    | |- context [Fs.writeFileSync fs ?p ?f] =>
        destruct (writeFileSync_cases fs p f) as [(E & _)|(E & _)];
        rewrite E
    end.
    - eexists [_]. split; [reflexivity|].
      constructor; [apply RecoveryPicture|constructor].
    - exists []. split; [reflexivity|constructor]. }
  destruct H1 as (added1 & -> & Ha1).
  destruct (fst (captureDomSummary B (recoveryDir outDir taskId) w));
    [|exists added1; auto].
  match goal with
  | |- context [Fs.writeFileSync ?x ?p ?f] =>
      destruct (writeFileSync_cases x p f) as [(E & _)|(E & _)];
      rewrite E
  end.
  - eexists (_ :: added1). split; [reflexivity|].
    constructor; [apply RecoverySummary|assumption].
  - exists added1. auto.
Qed.

Lemma directories_recovery (dirs : FS) :
  Forall (fun e => isDirectoryEntry e = true) dirs ->
  Forall RecoveryFile dirs.
Proof.
  intros H. eapply Forall_impl; [|exact H].
  intros [l f] E. unfold isDirectoryEntry in E. cbn [snd] in E.
  destruct f; try discriminate. constructor.
Qed.

(** What a recovery puts on the disk. *)
Lemma recoverOnDisk_log (a : PlanAction) (mem : option string)
    (st : State W) :
  exists added,
    files (snd (recoverOnDisk B outDir taskId instruction a mem st))
    = added ++ files st
    /\ Forall RecoveryFile added.
Proof.
  unfold recoverOnDisk, bind.
  destruct (ensureDir_log (recoveryDir outDir taskId) st)
    as (dirs & E & Hd).
  destruct (ensureDir (recoveryDir outDir taskId) st) as [made st1].
  cbn [snd] in E. subst st1. destruct made.
  - cbn [world files].
    destruct (recover B outDir taskId instruction a mem (world st))
      as [r w'].
    cbn [snd files].
    destruct (snapshotFiles_log (waitForTimeout B 800 (world st))
                                (dirs ++ files st)) as (added & -> & Ha).
    exists (added ++ dirs). split; [now rewrite <- app_assoc|].
    apply Forall_app. split; [assumption|now apply directories_recovery].
  - rewrite onPage_files. cbn [files]. exists dirs.
    split; [reflexivity|now apply directories_recovery].
Qed.

(** The failure document of an abort at action [k] of the checkpoint
    directory [name], written in the world [w]. *)
Definition failureDoc (name : string) (k : nat) (a : PlanAction)
    (err : error) (w : W) : path * file :=
  (fileIn (checkpointDir outDir taskId name) "failure.json",
   FailureFile {| fail_task_id := taskId;
                  fail_checkpoint := name;
                  fail_action_index := k;
                  fail_action := a;
                  fail_error := err;
                  fail_url := pageUrl B w;
                  fail_timestamp := clock B w |}).

(** The failure document is the last thing written, after directories;
    when it cannot be written, directories only were made. *)
Lemma writeFailure_log (name : string) (ai : nat) (a : PlanAction)
    (err : error) (st : State W) :
  let r := writeFailure B outDir taskId name ai a err st in
  world (snd r) = world st
  /\ exists dirs,
       Forall (fun e => isDirectoryEntry e = true) dirs
       /\ ((fst r = true
            /\ files (snd r)
               = failureDoc name ai a err (world st) :: dirs ++ files st)
           \/ (fst r = false /\ files (snd r) = dirs ++ files st)).
Proof.
  cbv zeta. unfold writeFailure, bind.
  fold (checkpointDir outDir taskId name).
  destruct (ensureDir_log (checkpointDir outDir taskId name) st)
    as (dirs & E & Hd).
  destruct (ensureDir (checkpointDir outDir taskId name) st) as [made st1].
  cbn [snd] in E. subst st1. destruct made.
  - match goal with
    | |- context [writeFile ?p ?f ?s] =>
        destruct (writeFile_cases p f s) as [(E & _)|(E & _)]; rewrite E
    end; cbn [fst snd world files]; (split; [reflexivity|]);
      exists dirs; (split; [assumption|]); [left|right]; auto.
  - cbn [ret fst snd world files]. split; [reflexivity|].
    exists dirs. auto.
Qed.

(** The files a checkpoint may write. *)
Inductive Artifact (name : string) (actions : list (option PlanAction))
  : path * file -> Prop :=
| ArtifactFailure f :
    Artifact name actions
             (fileIn (checkpointDir outDir taskId name) "failure.json",
              FailureFile f)
| ArtifactMarker t :
    Artifact name actions
             (fileIn (checkpointDir outDir taskId name) ".screenshot_saved",
              MarkerFile t)
| ArtifactImplicit e : CaptureFile name e -> Artifact name actions e
| ArtifactExplicit a e :
    In (Some a) actions -> type a = Screenshot ->
    CaptureFile (captureName a name) e -> Artifact name actions e
| ArtifactRecovery e : RecoveryFile e -> Artifact name actions e.

Lemma artifact_cons name x actions e :
  Artifact name actions e -> Artifact name (x :: actions) e.
Proof.
  destruct 1; try (constructor; assumption).
  eapply ArtifactExplicit; [right|idtac|]; eassumption.
Qed.

Lemma artifact_no_failure_or name actions e :
  Artifact name actions e ->
  isFailureFile e = false
  \/ exists f, e = (fileIn (checkpointDir outDir taskId name) "failure.json",
                    FailureFile f).
Proof.
  destruct 1.
  - right. eauto.
  - now left.
  - left. eapply captureFile_no_failure. eassumption.
  - left. eapply captureFile_no_failure. eassumption.
  - left. now apply recoveryFile_no_failure.
Qed.

Lemma failureCount_app (added fs : FS) :
  failureCount (added ++ fs) = (failureCount added + failureCount fs)%nat.
Proof. unfold failureCount. now rewrite filter_app, length_app. Qed.

Lemma failureCount_none (added : FS) :
  Forall (fun e => isFailureFile e = false) added -> failureCount added = 0%nat.
Proof.
  unfold failureCount. induction 1 as [|e l He _ IH]; [reflexivity|].
  cbn [filter]. rewrite He. exact IH.
Qed.

(** What the loop over the actions of a checkpoint writes: the records of
    its explicit captures, the files of its recoveries and, when it
    aborts, one failure document, the last file written; a loop left by
    an error of the file system has written no failure document. *)
Lemma runActions_log (name : string) (actions : list (option PlanAction)) :
  forall ai prev mem st,
    let r := runActions B outDir taskId instruction plannerConfidence name
                        actions ai prev mem st in
    exists added,
      files (snd r) = added ++ files st
      /\ Forall (Artifact name actions) added
      /\ match fst (fst r) with
         | None => Forall (fun e => isFailureFile e = false) added
         | Some DiskError => Forall (fun e => isFailureFile e = false) added
         | Some NoCheckpoints => False
         | Some (Aborted n k err) =>
             exists j a rest,
               n = name /\ k = (ai + j)%nat
               /\ nth_error actions j = Some (Some a)
               /\ added = failureDoc name k a err (world (snd r)) :: rest
               /\ Forall (fun e => isFailureFile e = false) rest
         end.
Proof.
  induction actions as [|[a|] rest IH]; intros ai prev mem st; cbv zeta.
  - exists []. cbn. auto.
  - cbn [runActions]. unfold bind.
    destruct (tryAction_log name ai prev a mem st)
      as (added1 & E1 & Hc1 & Hn1).
    destruct (tryAction B outDir taskId name plannerConfidence ai prev a
                        mem st) as [att st1].
    cbn [snd] in E1.
    assert (Hart1 : Forall (Artifact name (Some a :: rest)) added1).
    { destruct (type a) eqn:Ht;
        try (rewrite Hn1 by discriminate; constructor).
      eapply Forall_impl; [|exact Hc1]. intros e He.
      eapply ArtifactExplicit; [now left|exact Ht|exact He]. }
    assert (Hf1 : Forall (fun e => isFailureFile e = false) added1).
    { eapply Forall_impl; [|exact Hc1]. intros e.
      apply captureFile_no_failure. }
    clear Hc1 Hn1.
    assert (Hnext : forall prev' mem' st2 added2,
               files st2 = added2 ++ files st ->
               Forall (Artifact name (Some a :: rest)) added2 ->
               Forall (fun e => isFailureFile e = false) added2 ->
               let r := runActions B outDir taskId instruction
                          plannerConfidence name rest (S ai) prev' mem'
                          st2 in
               exists added,
                 files (snd r) = added ++ files st
                 /\ Forall (Artifact name (Some a :: rest)) added
                 /\ match fst (fst r) with
                    | None => Forall (fun e => isFailureFile e = false) added
                    | Some DiskError =>
                        Forall (fun e => isFailureFile e = false) added
                    | Some NoCheckpoints => False
                    | Some (Aborted n k err) =>
                        exists j a0 rest0,
                          n = name /\ k = (ai + j)%nat
                          /\ nth_error (Some a :: rest) j = Some (Some a0)
                          /\ added = failureDoc name k a0 err
                                                (world (snd r)) :: rest0
                          /\ Forall (fun e => isFailureFile e = false) rest0
                    end).
    { intros prev' mem' st2 added2 E2 Ha2 Hf2. cbv zeta.
      destruct (IH (S ai) prev' mem' st2) as (added & E & HA & H).
      exists (added ++ added2). split; [now rewrite E, E2, app_assoc|].
      split.
      { apply Forall_app. split; [|assumption].
        eapply Forall_impl; [|exact HA]. intros e. apply artifact_cons. }
      destruct (fst (fst (runActions B outDir taskId instruction
                            plannerConfidence name rest (S ai) prev' mem'
                            st2))) as [[|n k err|]|].
      - exact H.
      - destruct H as (j & a0 & rest0 & -> & -> & Hn & -> & Hf).
        exists (S j), a0, (rest0 ++ added2).
        split; [reflexivity|]. split; [lia|]. split; [exact Hn|].
        split; [reflexivity|]. apply Forall_app. auto.
      - apply Forall_app. auto.
      - apply Forall_app. auto. }
    destruct (thrown att) as [err|].
    + destruct (recoverOnDisk_log a (lastSelectorUsed att) st1)
        as (added2 & E2 & Hr2).
      destruct (recoverOnDisk B outDir taskId instruction a
                              (lastSelectorUsed att) st1)
        as [[recovered mem'] st2].
      cbn [snd] in E2.
      assert (Ha12 : Forall (Artifact name (Some a :: rest))
                            (added2 ++ added1)).
      { apply Forall_app. split; [|assumption].
        eapply Forall_impl; [|exact Hr2]. intros e.
        apply ArtifactRecovery. }
      assert (Hf12 : Forall (fun e => isFailureFile e = false)
                            (added2 ++ added1)).
      { apply Forall_app. split; [|assumption].
        eapply Forall_impl; [|exact Hr2]. intros e.
        apply recoveryFile_no_failure. }
      destruct recovered.
      * apply (Hnext _ _ _ (added2 ++ added1));
          [now rewrite E2, E1, app_assoc|assumption|assumption].
      * destruct (writeFailure_log name ai a err st2)
          as (Hw & dirs & Hd & Hcase).
        destruct (writeFailure B outDir taskId name ai a err st2)
          as [written st3].
        cbn [fst snd ret] in *.
        destruct Hcase as [[-> E3]|[-> E3]].
        -- exists (failureDoc name ai a err (world st2)
                     :: dirs ++ added2 ++ added1).
           split; [rewrite E3, E2, E1; cbn [app];
                   now rewrite <- !app_assoc|].
           split.
           { constructor; [apply ArtifactFailure|].
             apply Forall_app. split; [|assumption].
             eapply Forall_impl; [|exact Hd]. intros [l f] Hdir.
             unfold isDirectoryEntry in Hdir. cbn [snd] in Hdir.
             destruct f; try discriminate.
             apply ArtifactImplicit. constructor. }
           exists 0%nat, a, (dirs ++ added2 ++ added1).
           rewrite Nat.add_0_r, Hw. repeat split; auto.
           apply Forall_app. split; [|assumption].
           now apply directories_no_failure.
        -- exists (dirs ++ added2 ++ added1).
           split; [rewrite E3, E2, E1; now rewrite <- !app_assoc|].
           split.
           { apply Forall_app. split; [|assumption].
             eapply Forall_impl; [|exact Hd]. intros [l f] Hdir.
             unfold isDirectoryEntry in Hdir. cbn [snd] in Hdir.
             destruct f; try discriminate.
             apply ArtifactImplicit. constructor. }
           apply Forall_app. split; [|assumption].
           now apply directories_no_failure.
    + apply (Hnext _ _ _ added1); assumption.
  - cbn [runActions].
    destruct (IH (S ai) None mem st) as (added & E & HA & H).
    exists added. split; [exact E|]. split.
    { eapply Forall_impl; [|exact HA]. intros e. apply artifact_cons. }
    destruct (fst (fst (runActions B outDir taskId instruction
                          plannerConfidence name rest (S ai) None mem st)))
      as [[|n k err|]|]; try exact H.
    destruct H as (j & a0 & rest0 & -> & -> & Hn & -> & Hf).
    exists (S j), a0, rest0.
    split; [reflexivity|]. split; [lia|]. auto.
Qed.

(** What tells that a capture was made stays, whatever is written
    later. *)
Lemma alreadyCaptured_app (name : string) (added fs : FS) :
  alreadyCaptured outDir taskId name fs = true ->
  alreadyCaptured outDir taskId name (added ++ fs) = true.
Proof.
  unfold alreadyCaptured. cbv zeta. intros H.
  apply orb_true_iff in H as [H|H]; [apply orb_true_iff in H as [H|H]|].
  - now rewrite (existsSync_app added fs _ H).
  - rewrite (existsSync_app added fs _ H). now rewrite orb_true_r.
  - destruct (Fs.readdirSync fs (checkpointDir outDir taskId name))
      as [names|] eqn:E; [|discriminate].
    destruct (readdirSync_app added fs _ names E) as [more ->].
    cbn [orElse] in *. rewrite existsb_app, H. now rewrite !orb_true_r.
Qed.



(** What the implicit capture writes, and what it leaves when it does
    not throw: something that tells that a capture was made. *)
Lemma implicitCapture_log name actions mem st :
  let dir := checkpointDir outDir taskId name in
  let r := implicitCapture B outDir taskId plannerConfidence name actions
                           mem st in
  exists markers metas pngs dirs,
    files (snd r) = markers ++ metas ++ pngs ++ dirs ++ files st
    /\ Forall (fun e => isDirectoryEntry e = true) dirs
    /\ (pngs = [] \/ exists now, pngs = [(fileIn dir
                                           (shotFilename
                                              (Nat.max 0 (length actions - 1))
                                              name now), PngFile)])
    /\ (metas = []
        \/ exists m, metas = [(fileIn dir "meta.json", MetaFile m)]
                     /\ meta_checkpoint m = name
                     /\ meta_action_index m
                        = Nat.max 0 (length actions - 1))
    /\ (markers = []
        \/ exists t, markers = [(fileIn dir ".screenshot_saved",
                                 MarkerFile t)])
    /\ (fst r = true ->
        alreadyCaptured outDir taskId name (files (snd r)) = true)
    /\ (fst r = false -> markers = [] /\ metas = []).
Proof.
  cbv zeta.
  destruct (implicitCapture B outDir taskId plannerConfidence name actions
                            mem st) as [res st'] eqn:Er.
  cbn [fst snd]. unfold implicitCapture, bind in Er.
  fold (checkpointDir outDir taskId name) in Er.
  destruct (ensureDir_log (checkpointDir outDir taskId name) st)
    as (dirs1 & E1 & Hd1).
  destruct (ensureDir (checkpointDir outDir taskId name) st)
    as [made st1].
  cbn [snd] in E1. subst st1.
  destruct made; cbn [negb files] in Er.
  2:{ injection Er as <- <-. exists [], [], [], dirs1. cbn [files app].
      repeat split; auto; discriminate. }
  destruct (Fs.readdirSync (dirs1 ++ files st)
                           (checkpointDir outDir taskId name))
    as [names|] eqn:En.
  2:{ injection Er as <- <-. exists [], [], [], dirs1. cbn [files app].
      repeat split; auto; discriminate. }
  match type of Er with
  | (if ?c then _ else _) = _ => destruct c eqn:Ec
  end.
  2:{ injection Er as <- <-. exists [], [], [], dirs1. cbn [files app].
      split; [reflexivity|]. split; [assumption|].
      split; [now left|]. split; [now left|]. split; [now left|].
      split; [|discriminate]. intros _.
      unfold alreadyCaptured. cbv zeta. rewrite En. cbn [orElse].
      repeat rewrite negb_andb in Ec || rewrite <- negb_orb in Ec.
      now apply negb_false_iff in Ec. }
  destruct (saveCheckpoint_log name (Nat.max 0 (length actions - 1))
              (last actions None) mem
              {| world := world st; files := dirs1 ++ files st |})
    as (metas & pngs & dirs2 & E & Hd2 & Hp & Hres).
  destruct (saveCheckpoint B outDir taskId name
              (Nat.max 0 (length actions - 1)) (last actions None) mem
              plannerConfidence
              {| world := world st; files := dirs1 ++ files st |})
    as [saved st2].
  cbn [fst snd world files] in E, Hp, Hres.
  assert (Hpngs : pngs = []
                  \/ exists now,
                       pngs = [(fileIn (checkpointDir outDir taskId name)
                                       (shotFilename
                                          (Nat.max 0 (length actions - 1))
                                          name now), PngFile)])
    by (destruct Hp as [-> | ->]; [now left|right; eauto]).
  destruct saved as [[shot metaPath]|].
  - destruct Hres as (-> & Hex & (m & -> & Hm1 & Hm2) & _).
    cbn [ret] in Er.
    match type of Er with
    | context [writeFile ?p ?f ?s] =>
        destruct (writeFile_cases p f s) as [(Ew & _)|(Ew & _)];
        rewrite Ew in Er; clear Ew
    end; injection Er as <- <-; cbn [files].
    + rewrite E in Hex |- *.
      eexists [_], [_], pngs, (dirs2 ++ dirs1). cbn [app].
      split; [now rewrite <- !app_assoc|].
      split; [apply Forall_app; auto|]. split; [assumption|].
      split; [right; eauto|]. split; [right; eauto|].
      split; [|discriminate]. intros _.
      unfold alreadyCaptured. cbv zeta.
      match goal with
      | |- context [Fs.existsSync (?e :: ?l) _] =>
          change (e :: l) with ([e] ++ l)
      end.
      rewrite (existsSync_app _ _ _ Hex). reflexivity.
    + rewrite E in Hex |- *.
      eexists [], [_], pngs, (dirs2 ++ dirs1). cbn [app].
      split; [now rewrite <- !app_assoc|].
      split; [apply Forall_app; auto|]. split; [assumption|].
      split; [right; eauto|]. split; [now left|].
      split; [|discriminate]. intros _.
      unfold alreadyCaptured. cbv zeta. cbn [app] in Hex.
      rewrite Hex. reflexivity.
  - subst metas. cbn [ret] in Er. injection Er as <- <-.
    exists [], [], pngs, (dirs2 ++ dirs1). rewrite E. cbn [app].
    split; [now rewrite <- !app_assoc|].
    split; [apply Forall_app; auto|]. split; [assumption|].
    split; [now left|]. split; [now left|].
    split; [discriminate|auto].
Qed.

Lemma directories_artifact name actions (dirs : FS) :
  Forall (fun e => isDirectoryEntry e = true) dirs ->
  Forall (Artifact name actions) dirs.
Proof.
  intros H. eapply Forall_impl; [|exact H].
  intros [l f] E. unfold isDirectoryEntry in E. cbn [snd] in E.
  destruct f; try discriminate. apply ArtifactImplicit. constructor.
Qed.

(** What a checkpoint writes, and how it ends. *)
Lemma runCheckpoint_log (i : nat) (ck : Checkpoint) (st : State W) :
  let name := checkpointName ck i in
  let r := runCheckpoint B outDir taskId instruction plannerConfidence i ck
                         st in
  exists added,
    files (snd r) = added ++ files st
    /\ Forall (Artifact name (action_sequence ck)) added
    /\ match fst r with
       | None =>
           Forall (fun e => isFailureFile e = false) added
           /\ alreadyCaptured outDir taskId name (files (snd r)) = true
       | Some DiskError => Forall (fun e => isFailureFile e = false) added
       | Some NoCheckpoints => False
       | Some (Aborted n k err) =>
           exists a rest,
             n = name
             /\ nth_error (action_sequence ck) k = Some (Some a)
             /\ added = failureDoc name k a err (world (snd r)) :: rest
             /\ Forall (fun e => isFailureFile e = false) rest
       end.
Proof.
  cbv zeta. unfold runCheckpoint, bind.
  destruct (runActions_log (checkpointName ck i) (action_sequence ck)
                           0 None None st) as (added & E & HA & H).
  destruct (runActions B outDir taskId instruction plannerConfidence
              (checkpointName ck i) (action_sequence ck) 0 None None st)
    as [[r mem] st1].
  cbn [fst snd] in E, H |- *. destruct r as [e|].
  - cbn [ret fst snd]. exists added. split; [exact E|].
    split; [exact HA|]. destruct e as [|n k err|]; [exact H| |exact H].
    destruct H as (j & a & rest & -> & -> & Hn & -> & Hf).
    exists a, rest. auto.
  - destruct (implicitCapture_log (checkpointName ck i) (action_sequence ck)
                                  mem st1)
      as (markers & metas & pngs & dirs & Ei & Hd & Hp & Hm & Hk & Hyes
          & Hno).
    destruct (implicitCapture B outDir taskId plannerConfidence
                (checkpointName ck i) (action_sequence ck) mem st1)
      as [captured st2].
    cbn [fst snd ret] in *.
    exists ((markers ++ metas ++ pngs ++ dirs) ++ added).
    split; [rewrite Ei, E; now rewrite <- !app_assoc|].
    assert (HA2 : Forall (Artifact (checkpointName ck i)
                                   (action_sequence ck))
                         (markers ++ metas ++ pngs ++ dirs)).
    { apply Forall_app. split.
      { destruct Hk as [-> | [t ->]]; [constructor|].
        constructor; [apply ArtifactMarker|constructor]. }
      apply Forall_app. split.
      { destruct Hm as [-> | (m & -> & Hm1 & _)]; [constructor|].
        constructor; [|constructor].
        apply ArtifactImplicit. now apply CaptureMeta. }
      apply Forall_app. split; [|now apply directories_artifact].
      destruct Hp as [-> | [now ->]]; [constructor|].
      constructor; [|constructor]. apply ArtifactImplicit.
      apply CaptureShot. }
    assert (Hf2 : Forall (fun e => isFailureFile e = false)
                         ((markers ++ metas ++ pngs ++ dirs) ++ added)).
    { apply Forall_app. split; [|exact H].
      apply Forall_app. split.
      { destruct Hk as [-> | [t ->]]; repeat constructor. }
      apply Forall_app. split.
      { destruct Hm as [-> | (m & -> & _)]; repeat constructor. }
      apply Forall_app. split; [|now apply directories_no_failure].
      destruct Hp as [-> | [now ->]]; repeat constructor. }
    split; [apply Forall_app; auto|].
    destruct captured; [split; [exact Hf2|now apply Hyes]|exact Hf2].
Qed.




(** What the checkpoints of a plan write, and how their run ends. *)
Lemma runCheckpoints_log (cks : list Checkpoint) : forall i st,
  let r := runCheckpoints B outDir taskId instruction plannerConfidence i
                          cks st in
  exists added,
    files (snd r) = added ++ files st
    /\ Forall (fun e => exists j ck,
                          nth_error cks j = Some ck
                          /\ Artifact (checkpointName ck (i + j))
                                      (action_sequence ck) e) added
    /\ match fst r with
       | None =>
           Forall (fun e => isFailureFile e = false) added
           /\ forall j ck,
                nth_error cks j = Some ck ->
                alreadyCaptured outDir taskId (checkpointName ck (i + j))
                                (files (snd r)) = true
       | Some DiskError => Forall (fun e => isFailureFile e = false) added
       | Some NoCheckpoints => False
       | Some (Aborted n k err) =>
           exists j ck a rest,
             nth_error cks j = Some ck
             /\ n = checkpointName ck (i + j)
             /\ nth_error (action_sequence ck) k = Some (Some a)
             /\ added = failureDoc n k a err (world (snd r)) :: rest
             /\ Forall (fun e => isFailureFile e = false) rest
       end.
Proof.
  induction cks as [|ck cks IH]; intros i st; cbv zeta.
  - exists []. cbn [runCheckpoints ret fst snd app].
    split; [reflexivity|]. split; [constructor|].
    split; [constructor|]. intros [|j] c; discriminate.
  - cbn [runCheckpoints]. unfold bind.
    destruct (runCheckpoint_log i ck st) as (added1 & E1 & HA1 & H1).
    destruct (runCheckpoint B outDir taskId instruction plannerConfidence
                            i ck st) as [r1 st1].
    cbn [fst snd] in E1, H1.
    assert (HA1' : Forall (fun e => exists j c,
                             nth_error (ck :: cks) j = Some c
                             /\ Artifact (checkpointName c (i + j))
                                         (action_sequence c) e) added1).
    { eapply Forall_impl; [|exact HA1]. intros e He.
      exists 0%nat, ck. rewrite Nat.add_0_r. auto. }
    destruct r1 as [e|].
    + cbn [ret fst snd]. exists added1. split; [exact E1|].
      split; [exact HA1'|].
      destruct e as [|n k err|]; [exact H1| |exact H1].
      destruct H1 as (a & rest & -> & Hn & -> & Hf).
      exists 0%nat, ck, a, rest. rewrite Nat.add_0_r. auto.
    + destruct H1 as [Hf1 Hc1].
      destruct (IH (S i) st1) as (added & E & HA & H).
      exists (added ++ added1).
      split; [rewrite E, E1; now rewrite app_assoc|]. split.
      { apply Forall_app. split; [|exact HA1'].
        eapply Forall_impl; [|exact HA]. intros e (j & c & Hj & He).
        exists (S j), c.
        replace (i + S j)%nat with (S i + j)%nat by lia. auto. }
      destruct (fst (runCheckpoints B outDir taskId instruction
                       plannerConfidence (S i) cks st1))
        as [[|n k err|]|].
      * exact H.
      * destruct H as (j & c & a & rest & Hj & -> & Hn & -> & Hf).
        exists (S j), c, a, (rest ++ added1).
        replace (i + S j)%nat with (S i + j)%nat by lia.
        repeat split; auto. apply Forall_app. auto.
      * apply Forall_app. auto.
      * destruct H as [Hf Hall]. split; [apply Forall_app; auto|].
        intros [|j] c Hj.
        -- injection Hj as <-. rewrite Nat.add_0_r, E.
           now apply alreadyCaptured_app.
        -- replace (i + S j)%nat with (S i + j)%nat by lia.
           now apply Hall.
Qed.




End FileFacts.

(* ===================================================================== *)
(** ** The claims on runs *)
(* ===================================================================== *)

Section RunClaims.

Import PathFacts FsFacts.
Local Open Scope list_scope.
Context {W Snap : Type} (B : Browser W Snap).


Lemma truthy_append (x y : string) :
  truthy y = true -> truthy (x ++ y)%string = true.
Proof. destruct x; cbn; auto. Qed.


Lemma location_plain_last (parts : list path) (name : string) :
  plain name = true ->
  Path.location (Path.join (parts ++ [Path.ofString name]))
  = Path.location (Path.join parts) ++ [name].
Proof.
  intros Hp.
  destruct (DirFacts.join_plain_last parts name Hp)
    as (a & k & K & -> & ->).
  rewrite location_render by assumption. now rewrite place_more.
Qed.

(** C10 (amended). Checkpoint storage key.  The name of the directory of
    a checkpoint is its declared name followed by [_checkpoint], and
    [undefined_checkpoint] when no name is declared: the index-based name
    is never used.  The files a checkpoint writes are the failure
    document, the marker and the files of the implicit record, at the
    places [path.join] gives them in that directory; the files of the
    record of an explicit capture, in the directory given by the
    [checkpoint_name] of the capture when it has one and in the directory
    of the checkpoint otherwise; and the picture and the summary of the
    snapshot of a recovery, in the directory [recovery]; beside these a
    checkpoint makes directories.  Where the task identifier, the name
    and the name of the file are plain, the place of a file is the output
    directory followed by the task identifier, the name and the name of
    the file; a name of another kind is normalized by [path.join], and
    the file lies where the normalized path leads.  The name of a
    screenshot is plain when the name of its capture has no slash. *)
Theorem checkpoint_storage (outDir taskId instruction : string)
    (conf : option Z) :
  (forall ck i,
      checkpointName ck i
      = (orElse "undefined" (name ck) ++ "_checkpoint")%string)
  /\ (forall i,
        checkpointName {| name := None; action_sequence := [] |} i
        = "undefined_checkpoint")
  /\ (forall a name,
        captureName a name
        = match checkpoint_name a with
          | Some c => if truthy c then c else name
          | None => name
          end)
  /\ (forall i ck st,
        exists added,
          files (snd (runCheckpoint B outDir taskId instruction conf i ck
                                    st))
          = added ++ files st
          /\ Forall (Artifact outDir taskId (checkpointName ck i)
                              (action_sequence ck)) added)
  /\ (forall name f,
        plain taskId = true -> plain name = true -> plain f = true ->
        fileIn (checkpointDir outDir taskId name) f
        = Path.location (Path.join [Path.ofString outDir])
            ++ [taskId; name; f])
  /\ (forall ai name now,
        NameFacts.noSlash name = true ->
        plain (shotFilename ai name now) = true).
Proof.
  split; [|split; [|split; [|split; [|split]]]].
  - intros ck i. unfold checkpointName.
    rewrite truthy_append; reflexivity.
  - reflexivity.
  - reflexivity.
  - intros i ck st.
    destruct (runCheckpoint_log B outDir taskId instruction conf i ck st)
      as (added & E & HA & _).
    exists added. auto.
  - intros name f Ht Hn Hf. unfold checkpointDir.
    rewrite DirFacts.fileIn_plain by assumption.
    change [Path.ofString outDir; Path.ofString taskId; Path.ofString name]
      with ([Path.ofString outDir; Path.ofString taskId]
              ++ [Path.ofString name]).
    rewrite location_plain_last by assumption.
    change [Path.ofString outDir; Path.ofString taskId]
      with ([Path.ofString outDir] ++ [Path.ofString taskId]).
    rewrite location_plain_last by assumption.
    now rewrite <- !app_assoc.
  - apply NameFacts.shotFilename_plain.
Qed.

End RunClaims.

Section FillClaims.

Local Open Scope list_scope.
Context {W Snap : Type} (B : Browser W Snap).

(** C8 (amended). Recovery candidate extraction.  A failed planner call
    gives no candidates, and so does an answer in which nothing is
    offered.  Otherwise the candidates are at most 12, each one is the
    trimmed form of a non-blank string offered in an array under one of
    the keys [selector], [selector_candidates], [selectors] (at a place
    reached through arrays and through fields with other keys), and when
    at most 12 distinct strings are offered each of them is returned in
    trimmed form.  The call itself is the only effect. *)
Theorem recovery_extraction (instr : string) (snap : option Snap)
    (a : PlanAction) (w : W) :
  let r := askPlannerForRecovery B instr snap a w in
  snd r = snd (callPlanner B a snap w)
  /\ match fst (callPlanner B a snap w) with
     | None => fst r = None
     | Some out =>
         let j := parseOutput B out in
         (fst r = None <-> forall s, ~ RecoverySpec.Offered j s)
         /\ (forall u, fst r = Some u ->
               u <> [] /\ (length u <= 12)%nat
               /\ (forall c, In c u ->
                     exists s, RecoverySpec.Offered j s /\ c = trim s)
               /\ ((length (setOf (Recovery.collectFrom j)) <= 12)%nat ->
                   forall s, RecoverySpec.Offered j s -> In (trim s) u))
     end.
Proof.
  cbv zeta. unfold askPlannerForRecovery, bind, ret.
  destruct (callPlanner B a snap w) as [[out|] w1]; cbn [fst snd].
  - split; [reflexivity|].
    apply RecoveryFacts.extractSelectors_spec.
  - auto.
Qed.

Lemma fillLoop_no_match (txt : string) (timeout : Z) (sels : list string) :
  ReadsPure B ->
  forall tried errors w,
    Forall (fun s => truthy s = false
                     \/ orElse 0%nat (fst (locCount B s w)) = 0%nat) sels ->
    fillLoop B sels txt timeout true tried errors w
    = fillLoop B [] txt timeout true (tried ++ filter truthy sels) errors w.
Proof.
  intros pure. induction sels as [|s sels IH]; intros tried errors w Hall.
  - rewrite app_nil_r. reflexivity.
  - inversion Hall as [|? ? Hs Hrest]; subst.
    cbn [fillLoop filter]. destruct (truthy s) eqn:Et.
    + destruct Hs as [Hs|Hs]; [discriminate|].
      unfold bind at 1.
      pose proof (pure_count B pure s w) as Hp.
      destruct (locCount B s w) as [c w1]. cbn [fst snd] in *. subst w1.
      rewrite Hs. cbn [Nat.eqb].
      rewrite (IH (tried ++ [s]) errors w Hrest).
      rewrite <- app_assoc. reflexivity.
    + apply IH. assumption.
Qed.

(** C6 (amended). Fill and the keyboard.  [tryFillWithFallback], given no
    candidates and allowed to use the keyboard, types the text into the
    focused element and succeeds when the typing does; the same holds
    when, on a page whose reads leave it alone, no candidate matches any
    element.  The fill of the plan runner does not get that far with an
    empty candidate list: with no remembered selector in play it fails
    with the no-fillable-selector error before anything is typed, the
    page untouched, and the failure goes to recovery. *)
Theorem fill_keyboard_fallback :
  (forall txt timeout w,
      tryFillWithFallback B [] txt timeout true w
      = match keyboardType B txt w with
        | (None, w') =>
            ({| success := true; tried := []; errors := [] |}, w')
        | (Some e, w') =>
            ({| success := false; tried := []; errors := [e] |}, w')
        end)
  /\ (ReadsPure B ->
      forall sels txt timeout w,
        Forall (fun s => truthy s = false
                         \/ orElse 0%nat (fst (locCount B s w)) = 0%nat)
               sels ->
        tryFillWithFallback B sels txt timeout true w
        = match keyboardType B txt w with
          | (None, w') =>
              ({| success := true; tried := filter truthy sels;
                  errors := [] |}, w')
          | (Some e, w') =>
              ({| success := false; tried := filter truthy sels;
                  errors := [e] |}, w')
          end)
  /\ (forall a mem w,
        type a = Fill -> selectorsOf a = [] ->
        execFill B a false mem w = (failed FillNoFillable mem None, w)).
Proof.
  split; [|split].
  - intros txt timeout w. unfold tryFillWithFallback. cbn [fillLoop].
    unfold bind, ret. destruct (keyboardType B txt w) as [[e|] w'];
      reflexivity.
  - intros pure sels txt timeout w Hall. unfold tryFillWithFallback.
    rewrite (fillLoop_no_match txt timeout sels pure [] [] w Hall).
    cbn [fillLoop app]. unfold bind, ret.
    destruct (keyboardType B txt w) as [[e|] w']; reflexivity.
  - intros a mem w _ Hsel. unfold execFill, revalidateOneShot, oneShotHead.
    rewrite Hsel. destruct mem as [m|]; reflexivity.
Qed.

(** [execFill] with the state passed by hand. *)
Lemma execFill_unfold (a : PlanAction) (shouldUse : bool)
    (mem : option string) (w : W) :
  execFill B a shouldUse mem w =
  let txt := orElse EmptyString (text a) in
  let timeout := orElse 5000 (timeoutMs a) in
  let keyboard := orElse false (fallback_to_keyboard a) in
  let (mem1, w1) :=
    revalidateOneShot shouldUse (isSelectorFillable B) mem w in
  let merged := mergeSelectors (oneShotHead shouldUse mem1)
                               (selectorsOf a) in
  let pool := orOriginal merged (selectorsOf a) in
  let (filtered, w2) :=
    filterSelectorsByCheck pool (isSelectorFillable B) w1 in
  match filtered with
  | [] => (failed FillNoFillable mem1 None, w2)
  | _ :: _ =>
      let (first, w3) :=
        tryFillWithFallback B filtered txt timeout keyboard w2 in
      if success first
      then
        if (shouldUse && truthyOpt mem1
            && sameRef (hd_error merged) mem1)%bool
        then (completed None mem1, w3)
        else (completed (firstSelectorOr a mem1) (firstSelectorOr a mem1),
              w3)
      else
        if truthyOpt (expected_dialog a)
        then
          let (shown, w4) :=
            waitForSelector B (orElse EmptyString (expected_dialog a))
                            (orElse 2500 (dialogTimeoutMs a)) w3 in
          let (retry, w5) := trySelectorsSimple B pool 1000 w4 in
          match retry with
          | Some r =>
              let (res, w6) :=
                tryFillWithFallback B [r] txt timeout keyboard w5 in
              if success res
              then
                if (shouldUse && sameRef mem1 retry)%bool
                then (completed None retry, w6)
                else (completed retry retry, w6)
              else (failed (FillFailed (tried first) (errors first)) mem1
                           None, w6)
          | None =>
              (failed (FillFailed (tried first) (errors first)) mem1 None,
               w5)
          end
        else (failed (FillFailed (tried first) (errors first)) mem1 None,
              w3)
  end.
Proof.
  cbv zeta. unfold execFill, bind, ret.
  destruct (revalidateOneShot shouldUse (isSelectorFillable B) mem w)
    as [mem1 w1].
  destruct (filterSelectorsByCheck _ (isSelectorFillable B) w1)
    as [[|f0 fr] w2]; [reflexivity|].
  destruct (tryFillWithFallback B (f0 :: fr) _ _ _ w2) as [first w3].
  destruct (success first).
  - destruct (shouldUse && truthyOpt mem1 && _)%bool; reflexivity.
  - destruct (truthyOpt (expected_dialog a)); [|reflexivity].
    destruct (waitForSelector B _ _ w3) as [shown w4].
    destruct (trySelectorsSimple B _ 1000 w4) as [[r|] w5]; [|reflexivity].
    destruct (tryFillWithFallback B [r] _ _ _ w5) as [res w6].
    destruct (success res); [|reflexivity].
    destruct (shouldUse && _)%bool; reflexivity.
Qed.

(** C9. Fill used-reference bookkeeping.  Let the remembered selector be
    checked again, the candidates filtered and the first fill attempted,
    and let no one-shot memory be in play (none was to be used, or the
    check dropped it).  When that first fill succeeds, the selector
    recorded as used and remembered is [selector[0]] of the action when
    this is a non-empty string, whichever candidate was filled (and the
    remembered value otherwise).  When it fails, a dialog is expected and
    the retry resolves a selector on which the second fill succeeds, the
    selector recorded and remembered is that retried selector. *)
Theorem fill_used_reference (a : PlanAction) (shouldUse : bool)
    (mem : option string) (w : W) :
  let txt := orElse EmptyString (text a) in
  let timeout := orElse 5000 (timeoutMs a) in
  let keyboard := orElse false (fallback_to_keyboard a) in
  let r0 := revalidateOneShot shouldUse (isSelectorFillable B) mem w in
  let mem1 := fst r0 in
  let pool := orOriginal (mergeSelectors (oneShotHead shouldUse mem1)
                                         (selectorsOf a)) (selectorsOf a) in
  let r1 := filterSelectorsByCheck pool (isSelectorFillable B) (snd r0) in
  let r2 := tryFillWithFallback B (fst r1) txt timeout keyboard (snd r1) in
  (shouldUse && truthyOpt mem1)%bool = false ->
  fst r1 <> [] ->
  (success (fst r2) = true ->
   execFill B a shouldUse mem w
   = (completed (firstSelectorOr a mem1) (firstSelectorOr a mem1), snd r2)
   /\ forall s0 rest,
        selector a = Some (s0 :: rest) -> truthy s0 = true ->
        firstSelectorOr a mem1 = Some s0)
  /\ (success (fst r2) = false ->
      forall d, expected_dialog a = Some d -> truthy d = true ->
      let r3 := waitForSelector B d (orElse 2500 (dialogTimeoutMs a))
                                (snd r2) in
      let r4 := trySelectorsSimple B pool 1000 (snd r3) in
      forall retry, fst r4 = Some retry ->
      let r5 := tryFillWithFallback B [retry] txt timeout keyboard
                                    (snd r4) in
      success (fst r5) = true ->
      execFill B a shouldUse mem w
      = (completed (Some retry) (Some retry), snd r5)).
Proof.
  cbv zeta. rewrite execFill_unfold. cbv zeta.
  destruct (revalidateOneShot shouldUse (isSelectorFillable B) mem w)
    as [mem1 w1].
  cbn [fst snd].
  destruct (filterSelectorsByCheck
              (orOriginal (mergeSelectors (oneShotHead shouldUse mem1)
                                          (selectorsOf a)) (selectorsOf a))
              (isSelectorFillable B) w1) as [filtered w2].
  cbn [fst snd]. intros Hno Hne.
  destruct filtered as [|f0 fr]; [congruence|].
  destruct (tryFillWithFallback B (f0 :: fr) (orElse EmptyString (text a))
              (orElse 5000 (timeoutMs a))
              (orElse false (fallback_to_keyboard a)) w2) as [first w3].
  cbn [fst snd]. split.
  - intros Hs. rewrite Hs, Hno. cbn [andb]. split; [reflexivity|].
    intros s0 rest Hsel Ht. unfold firstSelectorOr. rewrite Hsel, Ht.
    reflexivity.
  - intros Hs d Hd Htd retry. rewrite Hs.
    unfold truthyOpt. rewrite Hd, Htd. cbn [orElse].
    destruct (waitForSelector B d (orElse 2500 (dialogTimeoutMs a)) w3)
      as [shown w4].
    cbn [snd].
    destruct (trySelectorsSimple B
                (orOriginal (mergeSelectors (oneShotHead shouldUse mem1)
                                            (selectorsOf a))
                            (selectorsOf a)) 1000 w4)
      as [found w5] eqn:Et.
    cbn [fst snd]. intros ->.
    destruct (tryFillWithFallback B [retry] (orElse EmptyString (text a))
                (orElse 5000 (timeoutMs a))
                (orElse false (fallback_to_keyboard a)) w5) as [res w6].
    cbn [fst snd]. intros ->.
    apply trySelectors_In in Et as [_ Hr].
    assert (Hsame : (shouldUse && sameRef mem1 (Some retry))%bool = false).
    { destruct shouldUse; [|reflexivity]. cbn [andb] in *.
      destruct mem1 as [m|]; [|reflexivity]. cbn in Hno |- *.
      destruct m; [|discriminate]. destruct retry; [discriminate|].
      reflexivity. }
    rewrite Hsame. reflexivity.
Qed.

End FillClaims.

(* ===================================================================== *)
(** ** Runs on the scripted page *)
(* ===================================================================== *)

Module Runs.

Import Sim Scenarios RecoverySpec.
Local Open Scope list_scope.

(** X is first in the list and shows up after 500 ms, Y is there at once:
    the resolver returns X. *)
Lemma resolution_priority_witness :
  trySelectorsSimple (browser late) ["X"; "Y"] 1200 start
  = (Some "X", tick 100 (tick 100 (tick 100 (tick 100 (tick 100 start)))))
  /\ Resolve (browser late) 1200 ["X"; "Y"] start (Some "X")
             (tick 100 (tick 100 (tick 100 (tick 100 (tick 100 start))))).
Proof.
  assert (H : trySelectorsSimple (browser late) ["X"; "Y"] 1200 start
              = (Some "X",
                 tick 100 (tick 100 (tick 100 (tick 100
                   (tick 100 start))))))
    by (vm_compute; reflexivity).
  split; [exact H|].
  apply (proj1 (resolution_priority (browser late) 1200 ["X"; "Y"] start
                  (Some "X") _ (pure_script late eq_refl)
                  ltac:(repeat constructor; discriminate))).
  exact H.
Defined.

(** After a wait that resolved A, a Click declared on C clicks A when A is
    a button: A is the one element clicked, and the memory is empty
    afterwards. *)
Lemma one_shot_click_witness :
  let B := browser (twoTargets true) in
  let st := {| world := snd (execWaitForSelector B waitAB None start);
               files := [] |} in
  let click := tryAction B "out" "task" "ck" None 1 (Some waitAB) clickC
                         (Some "A") st in
  chosenSelector (fst click) = Some "A"
  /\ lastSelectorUsed (fst click) = None
  /\ clicks (world (snd click)) = ["A"].
Proof.
  cbv zeta.
  split; [|split; vm_compute; reflexivity].
  destruct (one_shot_click (browser (twoTargets true)) "out" "task" "ck"
              None 0 waitAB clickC None start
              (snd (execWaitForSelector (browser (twoTargets true)) waitAB
                                        None start))
              (fst (execWaitForSelector (browser (twoTargets true)) waitAB
                                        None start))
              []
              (pure_script (twoTargets true) eq_refl) eq_refl eq_refl
              ltac:(vm_compute; reflexivity) ltac:(vm_compute; reflexivity))
    as (A & HA & _ & Hyes & _).
  assert (EA : A = "A") by (vm_compute in HA; congruence).
  subst A.
  destruct (Hyes ltac:(vm_compute; reflexivity)) as (_ & Hchosen & _).
  exact Hchosen.
Defined.

(** R1 is clicked but no dialog shows: the trials go on with R2. *)
Lemma recovery_acceptance_witness :
  let B := browser dialogAfterR2 in
  tryCandidates B clickExpectingDialog ["R1"; "R2"] None start
  = tryCandidates B clickExpectingDialog ["R2"] None
      (snd (waitForSelector B "role=dialog" 2500
              (snd (sideEffect B clickExpectingDialog "R1" start)))).
Proof.
  cbv zeta.
  apply (proj1 (recovery_acceptance (browser dialogAfterR2)
                  clickExpectingDialog "role=dialog"
                  (or_introl eq_refl) eq_refl eq_refl))
    with (w1 := snd (sideEffect (browser dialogAfterR2)
                                clickExpectingDialog "R1" start));
    vm_compute; reflexivity.
Defined.

Example recovery_accepts_second :
  tryCandidates (browser dialogAfterR2) clickExpectingDialog ["R1"; "R2"]
                None start
  = ((true, Some "R2"),
     {| now := 2500; reads := 0; clicks := ["R2"; "R1"]; fills := [];
        typed := []; visited := [] |}).
Proof. vm_compute. reflexivity. Qed.

(** C1, as stated, fails on a page that changes during the Click.  The
    wait has resolved A; at the Click A passes the clickable check of the
    re-validation; the page then loses A, the filter drops it, and the
    Click uses C and remembers C. *)
Lemma one_shot_click_on_changing_page :
  let B := browser fading in
  let waited := execWaitForSelector B waitAB None start in
  let r := tryAction B "out" "task" "ck" None 1 (Some waitAB) clickC
                     (lastSelectorUsed (fst waited))
                     {| world := snd waited; files := [] |} in
  thrown (fst waited) = None
  /\ lastSelectorUsed (fst waited) = Some "A"
  /\ fst (isSelectorClickable B "A" (snd waited)) = true
  /\ thrown (fst r) = None
  /\ chosenSelector (fst r) = Some "C"
  /\ lastSelectorUsed (fst r) = Some "C"
  /\ clicks (world (snd r)) = ["C"].
Proof. vm_compute. repeat split; reflexivity. Qed.




(** C10, as stated, fails: an explicit capture with a name of its own
    writes its record under that name, not under the directory of the
    checkpoint. *)
Lemma capture_outside_checkpoint_directory :
  let st' := snd (executeCheckpointedPlan (browser blank) namedCapture opts
                                          fresh) in
  Fs.existsSync (files st') ["out"; "task"; "dialog_open"; "meta.json"]
  = true
  /\ shotsIn ["out"; "task"; "dialog_open"] (files st') = 1%nat
  /\ checkpointName {| name := Some "ck"; action_sequence := [] |} 0
     = "ck_checkpoint".
Proof. vm_compute. repeat split; reflexivity. Qed.

(** A capture named [./ck_checkpoint] in the checkpoint [ck]: its
    directory is the directory of the checkpoint, its screenshot lies in
    a directory of its own below it, and the implicit capture is
    skipped. *)
Example capture_name_normalized :
  files (snd (executeCheckpointedPlan (browser blank) dottedCapture opts
                                      fresh))
  = [(["out"; "task"; "ck_checkpoint"; "meta.json"],
      MetaFile {| meta_task_id := "task";
                  meta_checkpoint := "./ck_checkpoint";
                  meta_action_index := 0;
                  meta_action_type := Some Screenshot;
                  meta_selector_used := None;
                  meta_notes := None;
                  meta_url := "about:blank";
                  meta_timestamp := 0;
                  meta_planner_confidence := None |});
     (["out"; "task"; "ck_checkpoint"; "00_."; "ck_checkpoint_0.png"],
      PngFile);
     (["out"; "task"; "ck_checkpoint"; "00_."], Directory);
     (["out"; "task"; "ck_checkpoint"], Directory);
     (["out"; "task"], Directory);
     (["out"], Directory)].
Proof. vm_compute. reflexivity. Qed.

(** C6, as stated, fails: a Fill with no candidates, the keyboard
    allowed, on a page where typing would work, aborts the run and
    nothing is typed. *)
Lemma empty_fill_not_typed :
  let r := executeCheckpointedPlan (browser blank) emptyFill opts fresh in
  typingWorks blank = true
  /\ fst r = inl (Aborted "ck_checkpoint" 0 FillNoFillable)
  /\ typed (world (snd r)) = [].
Proof. vm_compute. repeat split; reflexivity. Qed.

(** C7. The guard on the length of the text is missing in the Click of
    the plan runner.  The text OK has two characters; the candidate BTN
    passes the clickable check and is gone when the resolver polls it;
    the Click then clicks the element that contains OK (twice: once to
    try it, once as the chosen selector) and completes.  The sibling
    helper [fallbackSelectors] builds no such locator for OK. *)
Theorem click_text_fallback_short_text :
  let r := execClick (browser flicker) clickOK false None start in
  String.length "OK" = 2%nat
  /\ thrown (fst r) = None
  /\ chosenSelector (fst r) = Some (textLocator "OK")
  /\ clicks (snd r) = [textLocator "OK"; textLocator "OK"]
  /\ fallbackCandidates ["BTN"] (Some "OK")
     = ["button:has-text('Create')"; "button:has-text('+')"; "BTN"].
Proof. vm_compute. repeat split; reflexivity. Qed.

(** C8, as stated, fails: a string that is the value of a selector key
    is found under that key and is not collected. *)
Lemma bare_string_not_extracted :
  let j := JObj [("selector", JStr "button")] in
  everyStringUnderKeys j = Some ["button"]
  /\ Recovery.extractSelectors j = None.
Proof. vm_compute. split; reflexivity. Qed.

(** The values are made distinct before they are trimmed. *)
Example trimmed_after_dedup :
  Recovery.extractSelectors
    (JObj [("selectors", JArr [JStr " a"; JStr "a"])])
  = Some ["a"; "a"].
Proof. vm_compute. reflexivity. Qed.

(** X is not fillable and Y is filled; X is recorded. *)
Lemma fill_used_reference_witness :
  let r := execFill (browser divAndInput) fillXY false None start in
  fst r = completed (Some "X") (Some "X")
  /\ fills (snd r) = [("Y", "hi")].
Proof.
  cbv zeta.
  destruct (fill_used_reference (browser divAndInput) fillXY false None
              start eq_refl
              ltac:(vm_compute; discriminate)) as [Hdirect _].
  destruct (Hdirect ltac:(vm_compute; reflexivity)) as [E Hfirst].
  rewrite E, (Hfirst "X" ["Y"] eq_refl eq_refl).
  split; [reflexivity|]. vm_compute. reflexivity.
Defined.

End Runs.

(* ===================================================================== *)
(** ** Further properties of the executor *)
(* ===================================================================== *)

From Stdlib Require Import Permutation.

(** [Subseq l m]: [l] is [m] with some entries left out, the order kept. *)
Inductive Subseq {A : Type} : list A -> list A -> Prop :=
| SubseqNil : Subseq [] []
| SubseqSkip x l m : Subseq l m -> Subseq l (x :: m)
| SubseqKeep x l m : Subseq l m -> Subseq (x :: l) (x :: m).

Section ExecutorProperties.

Local Open Scope list_scope.
Context {W Snap : Type} (B : Browser W Snap).

(** X1. On every page, what [trySelectorsSimple] returns is one of the
    candidates it was given, and never the empty string. *)
Theorem resolver_returns_candidate (sels : list string) (budget : Z) (w : W) :
  match fst (trySelectorsSimple B sels budget w) with
  | Some c => In c sels /\ c <> EmptyString
  | None => True
  end.
Proof.
  destruct (trySelectorsSimple B sels budget w) as [[c|] w'] eqn:E;
    cbn [fst]; [|exact I].
  destruct (trySelectors_In B sels budget w c w' E) as [Hin Ht].
  split; [assumption|]. intros ->. discriminate.
Qed.

(** Time does not run backwards during the polling loop; when the loop ends
    by its deadline, the deadline has passed; the fuel can only run out
    after one wait of 100 ms for every unit of fuel. *)
Lemma poll_clock (fuel : nat) (s : string) (deadline : Z) : forall w,
  let r := pollSelector B fuel s deadline w in
  clock B w <= clock B (snd r)
  /\ match fst r with
     | Matched => True
     | Expired => deadline <= clock B (snd r)
     | OutOfFuel => clock B w + 100 * Z.of_nat fuel <= clock B (snd r)
                    /\ clock B (snd r) < deadline
     end.
Proof.
  induction fuel as [|fuel IH]; intros w; cbv zeta; cbn [pollSelector].
  - destruct (clock B w <? deadline) eqn:E; cbn [fst snd].
    + apply Z.ltb_lt in E. lia.
    + apply Z.ltb_ge in E. lia.
  - destruct (clock B w <? deadline) eqn:E; cbn [fst snd].
    2:{ apply Z.ltb_ge in E. lia. }
    unfold bind, ret, wait.
    pose proof (clock_locCount B s w) as Hc.
    destruct (locCount B s w) as [c w1]. cbn [snd] in Hc.
    assert (Hloop : forall u, clock B w1 <= clock B u ->
              let r := pollSelector B fuel s deadline
                                    (waitForTimeout B 100 u) in
              clock B w <= clock B (snd r)
              /\ match fst r with
                 | Matched => True
                 | Expired => deadline <= clock B (snd r)
                 | OutOfFuel =>
                     clock B w + 100 * Z.of_nat (S fuel) <= clock B (snd r)
                     /\ clock B (snd r) < deadline
                 end).
    { intros u Hu. cbv zeta.
      pose proof (clock_waitForTimeout B 100 u) as Hw.
      destruct (IH (waitForTimeout B 100 u)) as [H1 H2].
      split; [lia|].
      destruct (fst (pollSelector B fuel s deadline
                                  (waitForTimeout B 100 u))); [exact I|lia|lia]. }
    destruct (Nat.eqb (orElse 0%nat c) 0).
    { apply (Hloop w1). lia. }
    pose proof (clock_locIsVisible B s w1) as Hv.
    destruct (locIsVisible B s w1) as [v w2]. cbn [snd] in Hv.
    destruct (orElse false v).
    + pose proof (clock_locBoundingBox B s w2) as Hb.
      destruct (locBoundingBox B s w2) as [b w3]. cbn [snd] in Hb.
      destruct (orElse None b).
      * cbn [fst snd]. split; [lia|exact I].
      * apply (Hloop w3). lia.
    + apply (Hloop w2). lia.
Qed.

Lemma poll_never_out_of_fuel (s : string) (budget : Z) (w : W) :
  fst (pollSelector B (pollFuel budget) s (clock B w + budget) w)
  <> OutOfFuel.
Proof.
  pose proof (poll_clock (pollFuel budget) s (clock B w + budget) w) as H.
  cbv zeta in H. destruct H as [_ H]. intros E. rewrite E in H.
  unfold pollFuel in H. lia.
Qed.

Lemma try_clock (budget : Z) (sels : list string) : forall w,
  let r := trySelectorsSimple B sels budget w in
  clock B w <= clock B (snd r)
  /\ (fst r = None ->
      clock B w + budget * Z.of_nat (length (filter truthy sels))
      <= clock B (snd r)).
Proof.
  induction sels as [|s rest IH]; intros w; cbv zeta.
  - cbn. lia.
  - cbn [trySelectorsSimple filter]. destruct (truthy s).
    + unfold bind, ret.
      pose proof (poll_clock (pollFuel budget) s (clock B w + budget) w) as Hp.
      pose proof (poll_never_out_of_fuel s budget w) as Hf.
      cbv zeta in Hp.
      destruct (pollSelector B (pollFuel budget) s (clock B w + budget) w)
        as [o w1].
      cbn [fst snd] in Hp, Hf. destruct Hp as [Hmono Ho].
      destruct (IH w1) as [H1 H2]. cbn [length].
      destruct o; cbn [fst snd].
      * split; [lia|discriminate].
      * split; [lia|]. intros Hn. specialize (H2 Hn). lia.
      * congruence.
    + apply IH.
Qed.

(** A loop that ends with the rounds it is given ends in the same way
    with more. *)
Lemma poll_more_rounds (n : nat) (s : string) (deadline : Z) :
  forall m w, (n <= m)%nat ->
    fst (pollSelector B n s deadline w) <> OutOfFuel ->
    pollSelector B m s deadline w = pollSelector B n s deadline w.
Proof.
  induction n as [|n IH]; intros m w Hle Hn.
  - cbn [pollSelector] in Hn |- *.
    destruct m as [|m]; [reflexivity|]. cbn [pollSelector].
    destruct (clock B w <? deadline); [now elim Hn|reflexivity].
  - destruct m as [|m]; [lia|].
    cbn [pollSelector] in Hn |- *.
    destruct (clock B w <? deadline); [|reflexivity].
    unfold bind, ret, wait in Hn |- *.
    destruct (locCount B s w) as [c w1].
    destruct (Nat.eqb (orElse 0%nat c) 0); [apply IH; [lia|exact Hn]|].
    destruct (locIsVisible B s w1) as [v w2].
    destruct (orElse false v).
    + destruct (locBoundingBox B s w2) as [b w3].
      destruct (orElse None b); [reflexivity|apply IH; [lia|exact Hn]].
    + apply IH; [lia|exact Hn].
Qed.

(** X2. On every page the polling loop of a candidate ends, by a match or
    by its deadline, after at most one round for every 100 ms of the
    budget, the last one short: cut after that many rounds or after more,
    the loop never ends by the cut and gives what it gives in the
    resolver.  Time does not run backwards during a resolution; and when
    no candidate is returned, the budget of every non-empty candidate has
    been spent in turn: the clock has advanced by at least the budget
    times their number. *)
Theorem resolver_spends_budgets (sels : list string) (budget : Z) (w : W) :
  let r := trySelectorsSimple B sels budget w in
  (forall n s w0,
      budget <= 100 * Z.of_nat n ->
      let p := pollSelector B n s (clock B w0 + budget) w0 in
      fst p <> OutOfFuel
      /\ pollSelector B (pollFuel budget) s (clock B w0 + budget) w0 = p)
  /\ clock B w <= clock B (snd r)
  /\ (fst r = None ->
      clock B w + budget * Z.of_nat (length (filter truthy sels))
      <= clock B (snd r)).
Proof.
  cbv zeta. split; [|apply try_clock].
  intros n s w0 Hn.
  assert (Hends : fst (pollSelector B n s (clock B w0 + budget) w0)
                  <> OutOfFuel).
  { pose proof (poll_clock n s (clock B w0 + budget) w0) as H.
    cbv zeta in H. destruct H as [_ H]. intros E. rewrite E in H. lia. }
  split; [exact Hends|].
  destruct (Nat.le_ge_cases n (pollFuel budget)) as [Hle|Hge].
  - now apply poll_more_rounds.
  - symmetry. apply poll_more_rounds; [exact Hge|].
    apply poll_never_out_of_fuel.
Qed.

(** X3. [filterSelectorsByCheck] keeps the order: what it returns is the
    list of the non-empty candidates with some of them left out. *)
Theorem filter_keeps_order (check : string -> St W bool)
    (sels : list string) (w : W) :
  Subseq (fst (filterSelectorsByCheck sels check w)) (filter truthy sels).
Proof.
  revert w. induction sels as [|s rest IH]; intros w.
  - cbn. constructor.
  - cbn [filterSelectorsByCheck filter]. destruct (truthy s).
    + unfold bind, ret. destruct (check s w) as [ok w1].
      specialize (IH w1).
      destruct (filterSelectorsByCheck rest check w1) as [out w2].
      cbn [fst] in *. destruct ok; constructor; assumption.
    + apply IH.
Qed.

Lemma mergeSelectors_spec (orig : list string) : forall merged,
  NoDup merged -> Forall (fun s => truthy s = true) merged ->
  let l := mergeSelectors merged orig in
  NoDup l /\ Forall (fun s => truthy s = true) l
  /\ (forall x, In x l <-> In x merged \/ (In x orig /\ truthy x = true))
  /\ exists t, l = merged ++ t.
Proof.
  induction orig as [|s orig IH]; intros merged Hnd Htr; cbv zeta.
  - cbn. repeat split; auto.
    + intros [H|[[] _]]. exact H.
    + exists []. now rewrite app_nil_r.
  - cbn [mergeSelectors].
    destruct (truthy s) eqn:Hs; cbn [andb].
    + destruct (existsb (String.eqb s) merged) eqn:Hex; cbn [negb].
      * apply existsb_exists in Hex as [y [Hy Ey]].
        apply String.eqb_eq in Ey. subst y.
        destruct (IH merged Hnd Htr) as (H1 & H2 & H3 & H4).
        repeat split; auto.
        -- intros Hx. apply H3 in Hx as [Hx|[Hx Hx']]; [now left|].
           right. split; [now right|assumption].
        -- intros [Hx|[[->|Hx] Hx']]; apply H3; auto.
      * assert (Hnot : ~ In s merged).
        { intros Hin.
          assert (existsb (String.eqb s) merged = true) as E.
          { apply existsb_exists. exists s. split; [assumption|].
            apply String.eqb_refl. }
          congruence. }
        assert (Hnd' : NoDup (merged ++ [s])).
        { apply NoDup_app; [assumption|repeat constructor; intros []|].
          intros x Hx [->|[]]. contradiction. }
        assert (Htr' : Forall (fun s => truthy s = true) (merged ++ [s])).
        { apply Forall_app. split; [assumption|repeat constructor].
          assumption. }
        destruct (IH (merged ++ [s]) Hnd' Htr') as (H1 & H2 & H3 & [t H4]).
        repeat split; auto.
        -- intros Hx. apply H3 in Hx as [Hx|[Hx Hx']].
           ++ apply in_app_or in Hx as [Hx|[<-|[]]]; [now left|].
              right. split; [now left|assumption].
           ++ right. split; [now right|assumption].
        -- intros [Hx|[[->|Hx] Hx']]; apply H3.
           ++ left. apply in_or_app. now left.
           ++ left. apply in_or_app. right. now left.
           ++ right. auto.
        -- exists (s :: t). rewrite H4, <- app_assoc. reflexivity.
    + destruct (IH merged Hnd Htr) as (H1 & H2 & H3 & H4).
      repeat split; auto.
      * intros Hx. apply H3 in Hx as [Hx|[Hx Hx']]; [now left|].
        right. split; [now right|assumption].
      * intros [Hx|[[->|Hx] Hx']]; [apply H3; auto|congruence|].
        apply H3. auto.
Qed.

(** X4. The candidate list a Click or Fill builds.  It starts with the
    remembered selector when that one is to be used, holds no candidate
    twice and no empty string, and its members are the remembered selector
    and the non-empty declared candidates. *)
Theorem merged_candidates (shouldUse : bool) (mem : option string)
    (orig : list string) :
  let head := oneShotHead shouldUse mem in
  let l := mergeSelectors head orig in
  NoDup l
  /\ Forall (fun s => s <> EmptyString) l
  /\ (forall x, In x l <-> In x head \/ (In x orig /\ x <> EmptyString))
  /\ exists t, l = head ++ t.
Proof.
  cbv zeta.
  assert (Hnd : NoDup (oneShotHead shouldUse mem)).
  { unfold oneShotHead. destruct mem as [m|]; [|constructor].
    destruct (shouldUse && truthy m)%bool; repeat constructor.
    intros []. }
  assert (Htr : Forall (fun s => truthy s = true) (oneShotHead shouldUse mem)).
  { unfold oneShotHead. destruct mem as [m|]; [|constructor].
    destruct shouldUse; cbn [andb]; [|constructor].
    destruct (truthy m) eqn:E; repeat constructor. assumption. }
  destruct (mergeSelectors_spec orig _ Hnd Htr) as (H1 & H2 & H3 & H4).
  split; [assumption|]. split; [|split; [|assumption]].
  - eapply Forall_impl; [|exact H2]. intros s Hs ->. discriminate.
  - intros x. rewrite H3. split.
    + intros [H|[H Hx]]; [now left|]. right. split; [assumption|].
      intros ->. discriminate.
    + intros [H|[H Hx]]; [now left|]. right. split; [assumption|].
      destruct x; [congruence|reflexivity].
Qed.

Lemma clickAndVerify_shape (a : PlanAction) (c : string)
    (m : option string) (w : W) :
  exists e,
    fst (clickAndVerify B a c m w)
    = {| thrown := e; lastSelectorUsed := m; chosenSelector := Some c |}.
Proof.
  unfold clickAndVerify, bind, ret.
  destruct (click B c (orElse 5000 (timeoutMs a)) w) as [[e|] w1];
    [eexists; reflexivity|].
  destruct (expected_dialog a) as [d|]; [|eexists; reflexivity].
  destruct (truthy d); [|eexists; reflexivity].
  destruct (waitForSelector B d (orElse 3000 (dialogTimeoutMs a)) w1)
    as [[|] w2]; eexists; reflexivity.
Qed.

Lemma execClick_plain (a : PlanAction) (w : W) :
  exists e ch w',
    forall mem,
      execClick B a false mem w
      = ({| thrown := e;
            lastSelectorUsed := match ch with
                                | Some c => Some c
                                | None => mem
                                end;
            chosenSelector := ch |}, w').
Proof.
  assert (Hr : forall mem u,
             revalidateOneShot false (isSelectorClickable B) mem u = (mem, u))
    by (intros [m|] u; reflexivity).
  assert (Hh : forall mem, oneShotHead false mem = [])
    by (intros [m|]; reflexivity).
  assert (Hexec : forall mem,
             execClick B a false mem w
             = bind (filterSelectorsByCheck
                       (orOriginal (mergeSelectors [] (selectorsOf a))
                                   (selectorsOf a)) (isSelectorClickable B))
                 (fun filtered =>
                    match filtered with
                    | [] => ret (failed ClickNoClickable mem None)
                    | _ :: _ =>
                        bind (trySelectorsSimple B filtered 1200)
                          (fun chosen =>
                             bind
                               match chosen with
                               | Some _ => ret (chosen, mem)
                               | None =>
                                   match text a with
                                   | Some t =>
                                       if (truthy t && nonBlank t)%bool
                                       then
                                         bind (click B (textLocator t)
                                                 (orElse 4000 (timeoutMs a)))
                                           (fun c =>
                                              match c with
                                              | None =>
                                                  ret (Some (textLocator t),
                                                       Some (textLocator t))
                                              | Some _ => ret (None, mem)
                                              end)
                                       else ret (None, mem)
                                   | None => ret (None, mem)
                                   end
                               end
                               (fun r : option string * option string =>
                                  let (chosen, mem) := r in
                                  match chosen with
                                  | None =>
                                      ret (failed ClickNoSelectorMatched mem
                                                  None)
                                  | Some c => clickAndVerify B a c chosen
                                  end))
                    end) w).
  { intros mem. unfold execClick. unfold bind at 1. rewrite Hr, Hh.
    reflexivity. }
  destruct (filterSelectorsByCheck
              (orOriginal (mergeSelectors [] (selectorsOf a)) (selectorsOf a))
              (isSelectorClickable B) w) as [[|f0 fr] w1] eqn:Ef.
  - exists (Some ClickNoClickable), None, w1. intros mem.
    rewrite Hexec. unfold bind at 1. rewrite Ef. reflexivity.
  - destruct (trySelectorsSimple B (f0 :: fr) 1200 w1) as [[c|] w2] eqn:Et.
    + destruct (clickAndVerify_shape a c (Some c) w2) as [e He].
      exists e, (Some c), (snd (clickAndVerify B a c (Some c) w2)).
      intros mem. rewrite Hexec. unfold bind at 1. rewrite Ef.
      unfold bind at 1. rewrite Et. unfold bind at 1, ret at 1.
      rewrite <- He. apply surjective_pairing.
    + destruct (text a) as [t|] eqn:Etext.
      2:{ exists (Some ClickNoSelectorMatched), None, w2. intros mem.
          rewrite Hexec. unfold bind at 1. rewrite Ef. unfold bind at 1.
          rewrite Et. reflexivity. }
      destruct (truthy t && nonBlank t)%bool eqn:Eg.
      2:{ exists (Some ClickNoSelectorMatched), None, w2. intros mem.
          rewrite Hexec. unfold bind at 1. rewrite Ef. unfold bind at 1.
          rewrite Et. reflexivity. }
      destruct (click B (textLocator t) (orElse 4000 (timeoutMs a)) w2)
        as [[err|] w3] eqn:Ek.
      * exists (Some ClickNoSelectorMatched), None, w3. intros mem.
        rewrite Hexec. unfold bind at 1. rewrite Ef. unfold bind at 1.
        rewrite Et. unfold bind at 1. unfold bind at 1. rewrite Ek.
        reflexivity.
      * destruct (clickAndVerify_shape a (textLocator t)
                    (Some (textLocator t)) w3) as [e He].
        exists e, (Some (textLocator t)),
          (snd (clickAndVerify B a (textLocator t) (Some (textLocator t))
                               w3)).
        intros mem. rewrite Hexec. unfold bind at 1. rewrite Ef.
        unfold bind at 1. rewrite Et. unfold bind at 1. unfold bind at 1.
        rewrite Ek. unfold ret at 1.
        rewrite <- He. apply surjective_pairing.
Qed.

(** X5. A Click that is not the one-shot use of a remembered selector does
    not look at the memory: whatever was remembered, it throws or completes
    alike, chooses the same selector and leaves the page in the same state.
    Afterwards the memory is the chosen selector, and it is as before when
    no selector was chosen. *)
Theorem click_ignores_stale_memory (a : PlanAction) (mem mem' : option string)
    (w : W) :
  let r := execClick B a false mem w in
  let r' := execClick B a false mem' w in
  snd r = snd r'
  /\ thrown (fst r) = thrown (fst r')
  /\ chosenSelector (fst r) = chosenSelector (fst r')
  /\ lastSelectorUsed (fst r)
     = match chosenSelector (fst r) with
       | Some c => Some c
       | None => mem
       end.
Proof.
  cbv zeta. destruct (execClick_plain a w) as (e & ch & w' & H).
  rewrite (H mem), (H mem'). cbn. auto.
Qed.

(** X6. The order in which recovery tries its candidates is a rearrangement
    of them: none is dropped or added.  Without a text hint the order is
    the given one, and ordering twice is ordering once. *)
Theorem recovery_order_rearranges (a : PlanAction) (cands : list string) :
  Permutation cands (orderCandidates a cands)
  /\ (textHintOf a = None -> orderCandidates a cands = cands)
  /\ orderCandidates a (orderCandidates a cands) = orderCandidates a cands.
Proof.
  unfold orderCandidates.
  destruct (textHintOf a) as [h|]; [|auto using Permutation_refl].
  destruct (truthy h); [|split; [apply Permutation_refl|]].
  2:{ split; [discriminate|reflexivity]. }
  split; [|split; [discriminate|]].
  - induction cands as [|c cands IH]; [constructor|].
    cbn [filter]. destruct (mentions h c); cbn [negb].
    + cbn [app]. now constructor.
    + apply Permutation_cons_app. exact IH.
  - rewrite !filter_app.
    assert (H1 : forall l, filter (mentions h) (filter (mentions h) l)
                           = filter (mentions h) l).
    { induction l as [|x l IH]; [reflexivity|]. cbn [filter].
      destruct (mentions h x) eqn:E; cbn [filter]; [rewrite E, IH|];
        auto. }
    assert (H2 : forall l, filter (mentions h)
                             (filter (fun s => negb (mentions h s)) l) = []).
    { induction l as [|x l IH]; [reflexivity|]. cbn [filter].
      destruct (mentions h x) eqn:E; cbn [negb filter]; [|rewrite E];
        auto. }
    assert (H3 : forall l, filter (fun s => negb (mentions h s))
                             (filter (mentions h) l) = []).
    { induction l as [|x l IH]; [reflexivity|]. cbn [filter].
      destruct (mentions h x) eqn:E; cbn [negb filter]; [rewrite E|];
        auto. }
    assert (H4 : forall l, filter (fun s => negb (mentions h s))
                             (filter (fun s => negb (mentions h s)) l)
                           = filter (fun s => negb (mentions h s)) l).
    { induction l as [|x l IH]; [reflexivity|]. cbn [filter].
      destruct (mentions h x) eqn:E; cbn [negb filter];
        [|rewrite E; cbn [negb]; rewrite IH]; auto. }
    rewrite H1, H2, H3, H4, app_nil_r. reflexivity.
Qed.

Lemma orderCandidates_In (a : PlanAction) (cands : list string) (c : string) :
  In c (orderCandidates a cands) -> In c cands.
Proof.
  unfold orderCandidates. destruct (textHintOf a) as [h|]; [|auto].
  destruct (truthy h); [|auto].
  intros H. apply in_app_or in H as [H|H]; apply filter_In in H; tauto.
Qed.

Lemma tryCandidates_member (a : PlanAction) (cands : list string) :
  forall mem w,
    match fst (tryCandidates B a cands mem w) with
    | (true, m') => exists c, m' = Some c /\ In c cands
    | (false, m') => m' = mem
    end.
Proof.
  induction cands as [|c rest IH]; intros mem w.
  - reflexivity.
  - assert (Hnext : forall u,
               match fst (tryCandidates B a rest mem u) with
               | (true, m') => exists c0, m' = Some c0 /\ In c0 (c :: rest)
               | (false, m') => m' = mem
               end).
    { intros u. specialize (IH mem u).
      destruct (fst (tryCandidates B a rest mem u)) as [[|] m']; [|exact IH].
      destruct IH as [c0 [E Hin]]. exists c0. split; [exact E|now right]. }
    assert (Hhere : exists c0, Some c = Some c0 /\ In c0 (c :: rest))
      by (exists c; split; [reflexivity|now left]).
    cbn [tryCandidates]. unfold bind, ret.
    destruct (type a).
    + destruct (click B c (orElse 5000 (timeoutMs a)) w) as [[e|] w1];
        [apply Hnext|].
      destruct (dialogAppears B a w1) as [[|] w2]; [exact Hhere|apply Hnext].
    + destruct (tryFillWithFallback B [c] (orElse EmptyString (text a))
                  (orElse 5000 (timeoutMs a))
                  (orElse false (fallback_to_keyboard a)) w) as [res w1].
      destruct (success res); [|apply Hnext].
      destruct (dialogAppears B a w1) as [[|] w2]; [exact Hhere|apply Hnext].
    + destruct (waitForSelector B c (orElse 5000 (timeoutMs a)) w)
        as [[|] w1]; [exact Hhere|apply Hnext].
    + destruct (click B c (orElse 5000 (timeoutMs a)) w) as [[e|] w1];
        [apply Hnext|exact Hhere].
    + destruct (click B c (orElse 5000 (timeoutMs a)) w) as [[e|] w1];
        [apply Hnext|exact Hhere].
    + destruct (click B c (orElse 5000 (timeoutMs a)) w) as [[e|] w1];
        [apply Hnext|exact Hhere].
    + destruct (click B c (orElse 5000 (timeoutMs a)) w) as [[e|] w1];
        [apply Hnext|exact Hhere].
Qed.

(** A recovery that succeeds remembers a selector of the answer to its
    request. *)
Lemma recoverWith_remembers (instr : string) (snap : option Snap)
    (a : PlanAction) (mem : option string) (w : W) :
  match fst (recoverWith B instr snap a mem w) with
  | (true, m') =>
      exists c sels,
        m' = Some c
        /\ fst (askPlannerForRecovery B
                  (if truthy instr then instr else "Perform task") snap a w)
           = Some sels
        /\ In c sels
  | (false, m') => m' = mem
  end.
Proof.
  unfold recoverWith, bind, ret.
  destruct (askPlannerForRecovery B
              (if truthy instr then instr else "Perform task") snap a w)
    as [[[|s sels]|] w2]; cbn [fst]; try reflexivity.
  assert (Hgo : forall filtered u,
             (forall x, In x filtered -> In x (s :: sels)) ->
             match fst (tryCandidates B a (orderCandidates a filtered) mem u)
             with
             | (true, m') =>
                 exists c sels0,
                   m' = Some c /\ Some (s :: sels) = Some sels0 /\ In c sels0
             | (false, m') => m' = mem
             end).
  { intros filtered u Hsub.
    pose proof (tryCandidates_member a (orderCandidates a filtered) mem u)
      as Hm.
    destruct (fst (tryCandidates B a (orderCandidates a filtered) mem u))
      as [[|] m']; [|exact Hm].
    destruct Hm as [c [E Hin]]. exists c, (s :: sels).
    split; [exact E|]. split; [reflexivity|].
    apply Hsub. eapply orderCandidates_In. exact Hin. }
  destruct (type a); cbn [isClick isFill orb andb];
    try (apply Hgo; auto).
  - destruct (filterSelectorsByCheck (s :: sels) (isSelectorClickable B) w2)
      as [filtered w3] eqn:Ef.
    destruct (Nat.eqb (length filtered) 0); [reflexivity|].
    apply Hgo. intros x Hx.
    apply (filterSelectors_subset _ _ _ _ _ Ef x Hx).
  - destruct (filterSelectorsByCheck (s :: sels) (isSelectorFillable B) w2)
      as [filtered w3] eqn:Ef.
    destruct (Nat.eqb (length filtered) 0); [reflexivity|].
    apply Hgo. intros x Hx.
    apply (filterSelectors_subset _ _ _ _ _ Ef x Hx).
Qed.

(** X7. Whatever the kind of the failing action, a recovery that succeeds
    remembers one of the selectors the planner offered in its answer to the
    recovery request, and a recovery that fails leaves the memory as it
    was.  This holds of the recovery on the page, [recover], and of the
    recovery of a run, whether its snapshot was taken or not. *)
Theorem recovery_remembers_offered (outDir taskId instr : string)
    (a : PlanAction) (mem : option string) (w : W) :
  let snap := captureDomSummary B (recoveryDir outDir taskId)
                                (waitForTimeout B 800 w) in
  let asked := askPlannerForRecovery B
                 (if truthy instr then instr else "Perform task")
                 (fst snap) a (snd snap) in
  match fst (recover B outDir taskId instr a mem w) with
  | (true, m') =>
      exists c sels, m' = Some c /\ fst asked = Some sels /\ In c sels
  | (false, m') => m' = mem
  end
  /\ forall st : State W,
       match fst (recoverOnDisk B outDir taskId instr a mem st) with
       | (true, m') =>
           exists c s u sels,
             m' = Some c
             /\ fst (askPlannerForRecovery B
                       (if truthy instr then instr else "Perform task")
                       s a u) = Some sels
             /\ In c sels
       | (false, m') => m' = mem
       end.
Proof.
  cbv zeta. split.
  - unfold recover, bind, wait.
    destruct (captureDomSummary B (recoveryDir outDir taskId)
                                (waitForTimeout B 800 w)) as [snap w1].
    cbn [fst snd]. apply recoverWith_remembers.
  - intros st.
    destruct (recoverOnDisk_onPage B outDir taskId instr a mem st)
      as (s & u & Hf & _).
    rewrite Hf. pose proof (recoverWith_remembers instr s a mem u) as H.
    destruct (fst (recoverWith B instr s a mem u)) as [[|] m'];
      [|exact H].
    destruct H as (c & sels & H1 & H2 & H3). exists c, s, u, sels. auto.
Qed.

Lemma fillLoop_tried (txt : string) (timeout : Z) (keyboard : bool)
    (sels : list string) : forall tried0 errs0 w,
  let r := fst (fillLoop B sels txt timeout keyboard tried0 errs0 w) in
  (exists n, tried r = tried0 ++ firstn n (filter truthy sels))
  /\ (success r = false -> tried r = tried0 ++ filter truthy sels)
  /\ (success r = true -> keyboard = false ->
      exists pre s, tried r = tried0 ++ pre ++ [s] /\ In s sels).
Proof.
  induction sels as [|s rest IH]; intros tried0 errs0 w; cbv zeta.
  - cbn [fillLoop filter]. destruct keyboard.
    + unfold bind, ret. destruct (keyboardType B txt w) as [[e|] w1];
        cbn [fst tried success].
      * split; [exists 0%nat; now rewrite app_nil_r|].
        split; [now rewrite app_nil_r|discriminate].
      * split; [exists 0%nat; now rewrite app_nil_r|].
        split; [discriminate|discriminate].
    + cbn [ret fst tried success].
      split; [exists 0%nat; now rewrite app_nil_r|].
      split; [now rewrite app_nil_r|discriminate].
  - cbn [fillLoop filter]. destruct (truthy s) eqn:Hs.
    2:{ destruct (IH tried0 errs0 w) as (H1 & H2 & H3).
        split; [exact H1|]. split; [exact H2|].
        intros Hok Hk. destruct (H3 Hok Hk) as (pre & x & E & Hin).
        exists pre, x. split; [exact E|now right]. }
    assert (Hnext : forall errs u,
               let r := fst (fillLoop B rest txt timeout keyboard
                                      (tried0 ++ [s]) errs u) in
               (exists n, tried r = tried0 ++ firstn n (s :: filter truthy rest))
               /\ (success r = false ->
                   tried r = tried0 ++ s :: filter truthy rest)
               /\ (success r = true -> keyboard = false ->
                   exists pre x, tried r = tried0 ++ pre ++ [x]
                                 /\ In x (s :: rest))).
    { intros errs u. cbv zeta.
      destruct (IH (tried0 ++ [s]) errs u) as ([n H1] & H2 & H3).
      split; [exists (S n); rewrite H1, <- app_assoc; reflexivity|].
      split; [intros Hf; rewrite (H2 Hf), <- app_assoc; reflexivity|].
      intros Hok Hk. destruct (H3 Hok Hk) as (pre & x & E & Hin).
      exists (s :: pre), x. split; [|now right].
      rewrite E, <- app_assoc. reflexivity. }
    assert (Hdone : forall errs,
               let r := {| success := true; tried := tried0 ++ [s];
                           errors := errs |} in
               (exists n, tried r = tried0 ++ firstn n (s :: filter truthy rest))
               /\ (success r = false ->
                   tried r = tried0 ++ s :: filter truthy rest)
               /\ (success r = true -> keyboard = false ->
                   exists pre x, tried r = tried0 ++ pre ++ [x]
                                 /\ In x (s :: rest))).
    { intros errs. cbv zeta. cbn [tried success].
      split; [exists 1%nat; reflexivity|]. split; [discriminate|].
      intros _ _. exists [], s. split; [reflexivity|now left]. }
    unfold bind, ret. destruct (locCount B s w) as [c w1].
    destruct (Nat.eqb (orElse 0%nat c) 0); [apply Hnext|].
    destruct (fill B s txt timeout w1) as [[e|] w2]; [|apply Hdone].
    destruct keyboard; [|apply Hnext].
    destruct (focus B s timeout w2) as [[e2|] w3]; [apply Hnext|].
    destruct (keyboardType B txt w3) as [[e3|] w4];
      [apply Hnext|apply Hdone].
Qed.

(** X8. The record of a fill.  The selectors reported as tried are the
    non-empty candidates up to the one where the fill stopped, in order;
    after a failure they are all the non-empty candidates; and a success
    without keyboard fallback ends on a tried candidate. *)
Theorem fill_reports_tried (sels : list string) (txt : string) (timeout : Z)
    (keyboard : bool) (w : W) :
  let r := fst (tryFillWithFallback B sels txt timeout keyboard w) in
  (exists n, tried r = firstn n (filter truthy sels))
  /\ (success r = false -> tried r = filter truthy sels)
  /\ (success r = true -> keyboard = false ->
      exists pre s, tried r = pre ++ [s] /\ In s sels).
Proof.
  cbv zeta. unfold tryFillWithFallback.
  exact (fillLoop_tried txt timeout keyboard sels [] [] w).
Qed.

End ExecutorProperties.


(* ===================================================================== *)
(** ** Further properties of runs, captures and checks *)
(* ===================================================================== *)

Section RunProperties.

Local Open Scope list_scope.
Context {W Snap : Type} (B : Browser W Snap).

(** X9. A capture and the disk.  [saveCheckpoint] adds to the disk, from
    the oldest on, directories, at most one screenshot and at most one
    metadata document, the screenshot at the place its name leads to from
    the directory [path.join(outDir, taskId, name)]: a file of that
    directory when the name has no slash, and a file whose name the test
    for screenshot files accepts.  When it returns, the metadata document
    was written at [meta.json] of that directory and is there, so that
    the directory counts as captured; a screenshot path returned is the
    path of the file written.  When it throws, no metadata document was
    written. *)
Theorem capture_and_disk (outDir taskId name : string) (ai : nat)
    (action : option PlanAction) (sel : option string) (conf : option Z)
    (st : State W) :
  let r := saveCheckpoint B outDir taskId name ai action sel conf st in
  let dir := checkpointDir outDir taskId name in
  let shotName := shotFilename ai name (clock B (world st)) in
  exists metas pngs dirs,
    files (snd r) = metas ++ pngs ++ dirs ++ files st
    /\ Forall (fun e => isDirectoryEntry e = true) dirs
    /\ (pngs = [] \/ pngs = [(fileIn dir shotName, PngFile)])
    /\ (NameFacts.noSlash name = true ->
        fileIn dir shotName = Path.location dir ++ [shotName])
    /\ endsWithPng shotName = true
    /\ match fst r with
       | Some (shot, metaPath) =>
           metaPath = Path.join [dir; Path.ofString "meta.json"]
           /\ Fs.existsSync (files (snd r)) metaPath = true
           /\ alreadyCaptured outDir taskId name (files (snd r)) = true
           /\ (exists m,
                  metas = [(Path.location dir ++ ["meta.json"], MetaFile m)]
                  /\ meta_checkpoint m = name /\ meta_action_index m = ai)
           /\ match shot with
              | Some p =>
                  p = Path.join [dir; Path.ofString shotName]
                  /\ pngs = [(Path.location p, PngFile)]
              | None => True
              end
       | None => metas = []
       end.
Proof.
  cbv zeta.
  destruct (saveCheckpoint_log B outDir taskId conf name ai action sel st)
    as (metas & pngs & dirs & E & Hd & Hp & H).
  exists metas, pngs, dirs.
  split; [exact E|]. split; [exact Hd|]. split; [exact Hp|].
  split.
  { intros Hn. unfold checkpointDir. apply DirFacts.fileIn_plain.
    now apply NameFacts.shotFilename_plain. }
  split; [apply JsFacts.shotFilename_png|].
  destruct (fst (saveCheckpoint B outDir taskId name ai action sel conf st))
    as [[shot metaPath]|]; [|exact H].
  destruct H as (Hm & Hex & (m & Em & Hc & Hi) & Hs).
  split; [exact Hm|]. split; [exact Hex|]. split.
  { unfold alreadyCaptured. cbv zeta. rewrite <- Hm, Hex. reflexivity. }
  split; [|exact Hs].
  exists m. split; [|auto]. rewrite Em. unfold checkpointDir.
  now rewrite (DirFacts.fileIn_plain _ "meta.json" eq_refl).
Qed.

(** X10. A run that returns.  It reports [success], the task identifier in
    use and the number of checkpoints of the plan, which is not zero; it has
    written no failure document and removed no file; and the directory of
    every checkpoint of the plan holds a capture: a metadata document, a
    marker or a screenshot. *)
Theorem successful_run (p : Plan) (opts : Opts) (st st' : State W)
    (r : RunResult) :
  executeCheckpointedPlan B p opts st = (inr r, st') ->
  status r = "success"
  /\ result_task_id r = taskIdOf p opts
  /\ checkpoints_executed r = length (checkpointsOf p)
  /\ (0 < checkpoints_executed r)%nat
  /\ failureCount (files st') = failureCount (files st)
  /\ (exists added, files st' = added ++ files st)
  /\ forall i ck,
       nth_error (checkpointsOf p) i = Some ck ->
       alreadyCaptured (outDirOf B opts) (taskIdOf p opts)
                       (checkpointName ck i) (files st') = true.
Proof.
  intros H. unfold executeCheckpointedPlan, bind in H.
  destruct (ensureDir_log (Path.ofString (outDirOf B opts)) st)
    as (dirs & Ed & Hd).
  destruct (ensureDir (Path.ofString (outDirOf B opts)) st) as [made st0].
  cbn [snd] in Ed. subst st0.
  destruct made; cbn [negb] in H; [|discriminate].
  destruct (checkpointsOf p) as [|c cs] eqn:Ecks; [discriminate|].
  pose proof (runCheckpoints_log B (outDirOf B opts) (taskIdOf p opts)
                (orElse EmptyString (instruction opts))
                (plannerConfidence opts) (c :: cs) 0
                {| world := world st; files := dirs ++ files st |}) as L.
  cbv zeta in L.
  destruct (runCheckpoints B (outDirOf B opts) (taskIdOf p opts)
              (orElse EmptyString (instruction opts))
              (plannerConfidence opts) 0 (c :: cs)
              {| world := world st; files := dirs ++ files st |})
    as [res st1].
  cbn [fst snd files] in L. destruct L as (added & E & _ & L).
  destruct res as [e|]; [discriminate|].
  injection H as <- <-. destruct L as [Hf Hall]. cbn.
  repeat split; auto; try lia.
  - rewrite E, !failureCount_app, (failureCount_none added Hf).
    now rewrite (failureCount_none dirs (directories_no_failure dirs Hd)).
  - exists (added ++ dirs). rewrite E. apply app_assoc.
Qed.

(** X11. A plan without checkpoints.  The run first makes sure that the
    output directory is there, making it and what is missing above it
    when it is not.  When the plan gives no checkpoint, the run is then
    refused with the no-checkpoints error, or ends with the error of the
    file system when the directory cannot be made; the page is as before
    and the disk has gained directories only, none when the path of the
    output directory led to a directory already.  No other run ends with
    the no-checkpoints error.  An empty [checkpoints] array hides a
    [plan] array: such a plan gives no checkpoint, whatever its [plan]
    holds. *)
Theorem no_checkpoints_refused (p : Plan) (opts : Opts) (st : State W) :
  let d := ensureDir (Path.ofString (outDirOf B opts)) st in
  (checkpointsOf p = [] ->
   executeCheckpointedPlan B p opts st
   = (inl (if fst d then NoCheckpoints else DiskError), snd d))
  /\ world (snd d) = world st
  /\ (exists dirs,
        files (snd d) = dirs ++ files st
        /\ Forall (fun e => isDirectoryEntry e = true) dirs)
  /\ (FsFacts.leadsToDirectory (files st)
                               (Path.ofString (outDirOf B opts)) = true ->
      d = (true, st))
  /\ (fst (executeCheckpointedPlan B p opts st) = inl NoCheckpoints ->
      checkpointsOf p = [])
  /\ (checkpoints p = Some [] -> checkpointsOf p = []).
Proof.
  cbv zeta.
  destruct (ensureDir_log (Path.ofString (outDirOf B opts)) st)
    as (dirs & Ed & Hd).
  split; [|split; [|split; [|split; [|split]]]].
  - intros E. unfold executeCheckpointedPlan, bind.
    destruct (ensureDir (Path.ofString (outDirOf B opts)) st) as [made st0].
    cbn [fst snd]. destruct made; cbn [negb]; [|reflexivity].
    rewrite E. reflexivity.
  - rewrite Ed. reflexivity.
  - exists dirs. rewrite Ed. auto.
  - intros H. destruct st as [w fs]. cbn [files] in H.
    exact (ensureDir_there _ w fs H).
  - unfold executeCheckpointedPlan, bind.
    destruct (ensureDir (Path.ofString (outDirOf B opts)) st) as [made st0].
    destruct made; cbn [negb]; [|discriminate].
    destruct (checkpointsOf p) as [|c cs]; [reflexivity|].
    pose proof (runCheckpoints_log B (outDirOf B opts) (taskIdOf p opts)
                  (orElse EmptyString (instruction opts))
                  (plannerConfidence opts) (c :: cs) 0 st0) as L.
    cbv zeta in L.
    destruct (runCheckpoints B (outDirOf B opts) (taskIdOf p opts)
                (orElse EmptyString (instruction opts))
                (plannerConfidence opts) 0 (c :: cs) st0) as [res st1].
    cbn [fst snd] in L. destruct L as (added & _ & _ & L).
    destruct res as [[| |]|]; cbn [fst ret]; try discriminate.
    contradiction.
  - unfold checkpointsOf. intros ->. reflexivity.
Qed.


(** X13. The fillable check as a predicate.  On a page whose reads leave it
    alone, a selector is fillable exactly when it is not empty, an element
    matches it and is visible, its tag is known, and it is an input or a
    text area, or is content-editable, or has a role that mentions
    [textbox].  Neither a bounding box nor being enabled is asked for, and
    the page is as before. *)
Theorem fillable_characterised (s : string) (w : W) :
  ReadsPure B ->
  isSelectorFillable B s w
  = ((truthy s
      && negb (Nat.eqb (orElse 0%nat (fst (locCount B s w))) 0)
      && orElse false (fst (locIsVisible B s w))
      && match fst (evalTag B s w) with
         | Some t =>
             truthy t
             && (String.eqb t "input" || String.eqb t "textarea"
                 || match fst (evalContentEditable B s w) with
                    | Some true => true
                    | Some false =>
                        match fst (evalRole B s w) with
                        | Some (Some r) =>
                            truthy r && includes "textbox" (toLowerCase r)
                        | _ => false
                        end
                    | None => false
                    end)
         | None => false
         end)%bool, w).
Proof.
  intros pure. rewrite (fillable_pure B pure s w). f_equal.
  unfold fillableIn, isSelectorFillable.
  destruct (truthy s); [|reflexivity]. unfold bind, ret.
  pose proof (pure_count B pure s w) as Hc.
  destruct (locCount B s w) as [c w1]. cbn [fst snd] in *. subst w1.
  destruct (Nat.eqb (orElse 0%nat c) 0); [reflexivity|].
  pose proof (pure_visible B pure s w) as Hv.
  destruct (locIsVisible B s w) as [v w1]. cbn [fst snd] in *. subst w1.
  destruct (orElse false v); [|reflexivity]. cbn [negb andb].
  pose proof (pure_tag B pure s w) as Ht.
  destruct (evalTag B s w) as [t w1]. cbn [fst snd] in *. subst w1.
  destruct t as [t|]; [|reflexivity].
  destruct (truthy t); [|reflexivity]. cbn [negb andb].
  destruct (String.eqb t "input" || String.eqb t "textarea")%bool;
    [reflexivity|]. cbn [orb].
  pose proof (pure_editable B pure s w) as He.
  destruct (evalContentEditable B s w) as [ce w1].
  cbn [fst snd] in *. subst w1.
  destruct ce as [[|]|]; try reflexivity.
  pose proof (pure_role B pure s w) as Hr.
  destruct (evalRole B s w) as [r w1]. cbn [fst snd] in *. subst w1.
  destruct r as [[r|]|]; reflexivity.
Qed.

End RunProperties.

(** Facts on the extracted candidates. *)
Section ExtractionProperties.

Local Open Scope list_scope.
Import Recovery.

Lemma dedupOnto_NoDup (l : list string) : forall seen,
  NoDup (dedupOnto seen l).
Proof.
  induction l as [|x l IH]; intros seen; cbn [dedupOnto]; [constructor|].
  destruct (existsb (String.eqb x) seen); [apply IH|].
  constructor; [|apply IH].
  intros Hin. apply RecoveryFacts.dedupOnto_In in Hin as [_ Hnot].
  apply Hnot. now left.
Qed.

Lemma NoDup_map_on {A C : Type} (f : A -> C) (l : list A) :
  (forall x y, In x l -> In y l -> f x = f y -> x = y) ->
  NoDup l -> NoDup (map f l).
Proof.
  intros Hinj Hnd. induction Hnd as [|x l Hx Hnd IH]; [constructor|].
  cbn [map]. constructor.
  - intros Hin. apply in_map_iff in Hin as [y [E Hy]].
    assert (y = x) by (apply Hinj; [now right|now left|exact E]).
    subst y. contradiction.
  - apply IH. intros a b Ha Hb. apply Hinj; now right.
Qed.

Lemma NoDup_firstn {A : Type} (n : nat) (l : list A) :
  NoDup l -> NoDup (firstn n l).
Proof.
  revert n. induction l as [|x l IH]; intros n Hnd.
  - rewrite firstn_nil. constructor.
  - destruct n as [|n]; [constructor|]. cbn [firstn].
    inversion Hnd as [|? ? Hx Hl]; subst. constructor; [|now apply IH].
    intros Hin. apply Hx. eapply RecoveryFacts.firstn_subset. exact Hin.
Qed.

(** X14. The candidates taken from a planner answer are never an empty
    list, never more than twelve, and each of them is a non-empty string
    with no white-space character of JavaScript, of one or of several
    bytes, at either end. *)
Theorem extracted_candidates_clean (j : json) :
  match extractSelectors j with
  | Some u =>
      u <> [] /\ (length u <= 12)%nat
      /\ Forall (fun c => c <> EmptyString /\ startsClean c
                          /\ endsClean c /\ trim c = c) u
  | None => True
  end.
Proof.
  unfold extractSelectors.
  destruct (uniq (collectFrom j)) as [|c u] eqn:E; [exact I|].
  split; [discriminate|]. split; [rewrite <- E; apply RecoveryFacts.uniq_length|].
  rewrite <- E. rewrite Forall_forall. intros x Hx. unfold uniq in Hx.
  apply RecoveryFacts.firstn_subset in Hx. apply filter_In in Hx as [Hx Ht].
  apply in_map_iff in Hx as [s [<- _]].
  destruct (JsFacts.trim_clean s) as (H1 & H2 & H3).
  split; [intros E'; rewrite E' in Ht; discriminate|]. auto.
Qed.

(** X15. The candidates taken from a planner answer are distinct, provided
    no two of the strings offered differ only by the white space around
    them. *)
Theorem extracted_candidates_distinct (j : json) (u : list string) :
  (forall s t, In s (collectFrom j) -> In t (collectFrom j) ->
               trim s = trim t -> s = t) ->
  extractSelectors j = Some u -> NoDup u.
Proof.
  intros Hinj H. unfold extractSelectors in H.
  assert (E : u = uniq (collectFrom j)).
  { destruct (uniq (collectFrom j)); [discriminate|]. congruence. }
  subst u. unfold uniq. apply NoDup_firstn, NoDup_filter, NoDup_map_on.
  - intros x y Hx Hy. apply Hinj; now apply RecoveryFacts.setOf_In.
  - apply dedupOnto_NoDup.
Qed.

End ExtractionProperties.

Module MoreRuns.

Import Sim Scenarios.
Local Open Scope list_scope.

(** A capture in the first checkpoint, nothing to do in the second. *)
Definition captureThenIdle : Plan :=
  planOf [ {| name := Some "ck1";
              action_sequence := [Some (capture None)] |};
           {| name := Some "ck2"; action_sequence := [] |} ].

(** Both checkpoints of a run that returns hold a capture, and no failure
    document was written. *)
Lemma successful_run_witness :
  let r := executeCheckpointedPlan (browser blank) captureThenIdle opts
                                   fresh in
  (exists res, fst r = inr res /\ checkpoints_executed res = 2%nat)
  /\ failureCount (files (snd r)) = 0%nat
  /\ alreadyCaptured "out" "task" "ck1_checkpoint" (files (snd r)) = true
  /\ alreadyCaptured "out" "task" "ck2_checkpoint" (files (snd r)) = true.
Proof.
  cbv zeta.
  destruct (executeCheckpointedPlan (browser blank) captureThenIdle opts
                                    fresh) as [[e|res] st'] eqn:E;
    [vm_compute in E; discriminate|].
  destruct (successful_run (browser blank) captureThenIdle opts fresh st'
                           res E)
    as (_ & _ & Hn & _ & Hcount & _ & Hall).
  cbn [fst snd]. split; [exists res; split; [reflexivity|exact Hn]|].
  split; [exact Hcount|].
  split; [exact (Hall 0%nat _ eq_refl)|exact (Hall 1%nat _ eq_refl)].
Defined.


(** Y is an input and X a plain division: Y passes the fillable check, X
    does not. *)
Lemma fillable_characterised_witness :
  isSelectorFillable (browser divAndInput) "Y" start = (true, start)
  /\ isSelectorFillable (browser divAndInput) "X" start = (false, start).
Proof.
  split.
  - rewrite (fillable_characterised (browser divAndInput) "Y" start
               (pure_script divAndInput eq_refl)).
    vm_compute. reflexivity.
  - rewrite (fillable_characterised (browser divAndInput) "X" start
               (pure_script divAndInput eq_refl)).
    vm_compute. reflexivity.
Defined.

(** U+00A0 in UTF-8. *)
Definition nbsp : string :=
  String (ascii_of_nat 194) (String (ascii_of_nat 160) EmptyString).

(** Two letters e with an acute accent: four bytes, two UTF-16 code
    units. *)
Definition twoAccents : string :=
  String (ascii_of_nat 195) (String (ascii_of_nat 169)
    (String (ascii_of_nat 195) (String (ascii_of_nat 169) EmptyString))).

(** White space of two bytes is trimmed from a candidate, and a candidate
    made of it alone is dropped. *)
Example extraction_trims_wide_space :
  Recovery.extractSelectors
    (JObj [("selectors",
            JArr [JStr (nbsp ++ "#save" ++ nbsp)%string; JStr nbsp])])
  = Some ["#save"]
  /\ Recovery.extractSelectors (JObj [("selectors", JArr [JStr nbsp])])
     = None.
Proof. vm_compute. split; reflexivity. Qed.

(** A hint of two characters and four bytes gives no locator by text. *)
Example short_hint_of_four_bytes :
  utf16Length twoAccents = 2%nat
  /\ String.length twoAccents = 4%nat
  /\ fallbackCandidates [] (Some twoAccents)
     = ["button:has-text('Create')"; "button:has-text('+')"].
Proof. vm_compute. repeat split; reflexivity. Qed.

(** Two strings that differ by more than white space give two distinct
    candidates. *)
Lemma extracted_candidates_distinct_witness :
  Recovery.extractSelectors
    (JObj [("selectors", JArr [JStr " a"; JStr "b "])]) = Some ["a"; "b"]
  /\ NoDup ["a"; "b"].
Proof.
  split; [vm_compute; reflexivity|].
  apply (extracted_candidates_distinct
           (JObj [("selectors", JArr [JStr " a"; JStr "b "])])).
  - intros s t Hs Ht.
    vm_compute in Hs, Ht.
    destruct Hs as [<- | [<- | []]]; destruct Ht as [<- | [<- | []]];
      intros E; try reflexivity; vm_compute in E; discriminate.
  - vm_compute. reflexivity.
Defined.

End MoreRuns.

(* ===================================================================== *)
(** ** Properties of the planner's answer handling *)
(* ===================================================================== *)

Module PlannerFacts.

Import Planner.
Local Open Scope list_scope.

Lemma lookup_assign_same (k : string) (v : json) fields :
  lookup k (assign k v fields) = Some v.
Proof.
  induction fields as [|[k' v'] r IH]; cbn.
  - rewrite String.eqb_refl. reflexivity.
  - destruct (String.eqb k' k) eqn:E; cbn; rewrite E; [reflexivity|exact IH].
Qed.

Lemma lookup_assign_other (k k' : string) (v : json) fields :
  k <> k' -> lookup k' (assign k v fields) = lookup k' fields.
Proof.
  intros Hne. induction fields as [|[k0 v0] r IH]; cbn.
  - destruct (String.eqb k k') eqn:E; [|reflexivity].
    apply String.eqb_eq in E. contradiction.
  - destruct (String.eqb k0 k) eqn:E; cbn.
    + apply String.eqb_eq in E. subst k0.
      destruct (String.eqb k k') eqn:E'; [|reflexivity].
      apply String.eqb_eq in E'. contradiction.
    + destruct (String.eqb k0 k'); [reflexivity|exact IH].
Qed.

Lemma assign_same (k : string) (v : json) fields :
  lookup k fields = Some v -> assign k v fields = fields.
Proof.
  induction fields as [|[k0 v0] r IH]; cbn; [discriminate|].
  destruct (String.eqb k0 k); intros H.
  - congruence.
  - rewrite (IH H). reflexivity.
Qed.

Lemma get_set_same (fields : list (string * json)) (k : string) (v : json) :
  getField (setField (JObj fields) k v) k = Some v.
Proof. apply lookup_assign_same. Qed.

Lemma get_set_other (o : json) (k k' : string) (v : json) :
  k <> k' -> getField (setField o k v) k' = getField o k'.
Proof.
  intros Hne. destruct o; try reflexivity. cbn.
  apply lookup_assign_other. exact Hne.
Qed.

Lemma set_same (o : json) (k : string) (v : json) :
  getField o k = Some v -> setField o k v = o.
Proof.
  destruct o; try reflexivity. cbn. intros H.
  rewrite (assign_same _ _ _ H). reflexivity.
Qed.

Lemma get_some_object (o : json) (k : string) (v : json) :
  getField o k = Some v -> exists fields, o = JObj fields.
Proof. destruct o; try discriminate. eauto. Qed.

Lemma set_object (fields : list (string * json)) (k : string) (v : json) :
  exists fields', setField (JObj fields) k v = JObj fields'.
Proof. cbn. eauto. Qed.

(** The two coercions. *)

Lemma coerceArray_cases (a : json) :
  (coerceArray a = a
   /\ (truthyU (getField a "selector") = true
       \/ isArray (getField a "selector_candidates") = false))
  \/ (exists c, getField a "selector_candidates" = Some (JArr c)
                /\ truthyU (getField a "selector") = false
                /\ coerceArray a = setField a "selector" (JArr c)).
Proof.
  unfold coerceArray.
  destruct (truthyU (getField a "selector")); cbn [negb andb];
    [left; split; [reflexivity|now left]|].
  destruct (getField a "selector_candidates") as [[| | | |c|]|] eqn:E;
    cbn [isArray]; try (left; split; [reflexivity|now right]).
  right. exists c. auto.
Qed.

Lemma coerceSelector_cases (a : json) :
  (coerceSelector a = a
   /\ (truthyU (getField a "selector") = true
       \/ truthyU (getField a "selector_candidates") = false))
  \/ (exists c, getField a "selector_candidates" = Some c
                /\ truthyJ c = true
                /\ truthyU (getField a "selector") = false
                /\ coerceSelector a = setField a "selector" c).
Proof.
  unfold coerceSelector.
  destruct (truthyU (getField a "selector")); cbn [negb andb];
    [left; split; [reflexivity|now left]|].
  destruct (getField a "selector_candidates") as [c|] eqn:E;
    cbn [truthyU]; [|left; split; [reflexivity|now right]].
  destruct (truthyJ c) eqn:Ec; [|left; split; [reflexivity|now right]].
  right. exists c. auto.
Qed.

Lemma coerceArray_other (a : json) (k : string) :
  k <> "selector" -> getField (coerceArray a) k = getField a k.
Proof.
  intros Hk. destruct (coerceArray_cases a) as [[-> _]|(c & _ & _ & ->)];
    [reflexivity|].
  apply get_set_other. congruence.
Qed.

Lemma coerceSelector_other (a : json) (k : string) :
  k <> "selector" -> getField (coerceSelector a) k = getField a k.
Proof.
  intros Hk.
  destruct (coerceSelector_cases a) as [[-> _]|(c & _ & _ & _ & ->)];
    [reflexivity|].
  apply get_set_other. congruence.
Qed.

Lemma coerceArray_object fields :
  exists fields', coerceArray (JObj fields) = JObj fields'.
Proof.
  destruct (coerceArray_cases (JObj fields)) as [[-> _]|(c & _ & _ & ->)];
    [eauto|apply set_object].
Qed.

Lemma coerceSelector_object fields :
  exists fields', coerceSelector (JObj fields) = JObj fields'.
Proof.
  destruct (coerceSelector_cases (JObj fields))
    as [[-> _]|(c & _ & _ & _ & ->)]; [eauto|apply set_object].
Qed.

Lemma isArray_truthy (v : option json) : isArray v = true -> truthyU v = true.
Proof. destruct v as [[]|]; try discriminate; reflexivity. Qed.

(** Once the selector is there, or the candidates are not, neither
    coercion does anything. *)
Lemma coerceArray_fixed (a : json) :
  truthyU (getField a "selector") = true
  \/ isArray (getField a "selector_candidates") = false ->
  coerceArray a = a.
Proof.
  intros H. unfold coerceArray. destruct H as [-> | ->];
    [reflexivity|]. rewrite andb_false_r. reflexivity.
Qed.

Lemma coerceSelector_fixed (a : json) :
  truthyU (getField a "selector") = true
  \/ truthyU (getField a "selector_candidates") = false ->
  coerceSelector a = a.
Proof.
  intros H. unfold coerceSelector. destruct H as [-> | ->];
    [reflexivity|]. rewrite andb_false_r. reflexivity.
Qed.

Lemma coerceArray_idem (a : json) : coerceArray (coerceArray a) = coerceArray a.
Proof.
  destruct (coerceArray_cases a) as [[E H]|(c & Hc & Hs & E)]; rewrite E.
  - exact E.
  - apply coerceArray_fixed. left.
    destruct (get_some_object _ _ _ Hc) as [fields ->].
    rewrite get_set_same. reflexivity.
Qed.

Lemma coerceSelector_idem (a : json) :
  coerceSelector (coerceSelector a) = coerceSelector a.
Proof.
  destruct (coerceSelector_cases a) as [[E H]|(c & Hc & Ht & Hs & E)];
    rewrite E.
  - exact E.
  - apply coerceSelector_fixed. left.
    destruct (get_some_object _ _ _ Hc) as [fields ->].
    rewrite get_set_same. exact Ht.
Qed.

(** After the lax coercion the strict one finds nothing to do. *)
Lemma coerceArray_after (a : json) :
  coerceArray (coerceSelector a) = coerceSelector a.
Proof.
  destruct (coerceSelector_cases a) as [[E H]|(c & Hc & Ht & Hs & E)];
    rewrite E.
  - apply coerceArray_fixed. destruct H as [H|H]; [now left|right].
    destruct (isArray (getField a "selector_candidates")) eqn:Ea;
      [|reflexivity].
    apply isArray_truthy in Ea. congruence.
  - apply coerceArray_fixed. left.
    destruct (get_some_object _ _ _ Hc) as [fields ->].
    rewrite get_set_same. exact Ht.
Qed.

(** What a successful validation went through. *)
Lemma validateAction_inv (a a' : json) (idx : nat) (ctx : string) :
  validateAction a idx ctx = inr a' ->
  exists fields t,
    a = JObj fields
    /\ getField a "type" = Some (JStr t)
    /\ truthy t = true
    /\ existsb (String.eqb t) allowed = true
    /\ a' = coerceArray a
    /\ checkFields t a' = None.
Proof.
  unfold validateAction.
  destruct (negb (truthyJ a) || negb (typeofObject a))%bool eqn:E0;
    [discriminate|].
  destruct (getField a "type") as [[| | |t| |]|] eqn:Et; try discriminate.
  destruct (truthy t) eqn:Ett; cbn [negb]; [|discriminate].
  destruct (existsb (String.eqb t) allowed) eqn:Ea; cbn [negb];
    [|discriminate].
  destruct (checkFields t (coerceArray a)) eqn:Ec; [discriminate|].
  intros H. inversion H; subst a'.
  destruct (get_some_object _ _ _ Et) as [fields ->].
  exists fields, t. repeat split; assumption || reflexivity.
Qed.

Lemma validateAction_intro (fields : list (string * json)) (t : string)
    (idx : nat) (ctx : string) :
  getField (JObj fields) "type" = Some (JStr t) ->
  truthy t = true ->
  existsb (String.eqb t) allowed = true ->
  checkFields t (coerceArray (JObj fields)) = None ->
  validateAction (JObj fields) idx ctx = inr (coerceArray (JObj fields)).
Proof.
  intros Et Ett Ea Ec. unfold validateAction.
  cbn [truthyJ typeofObject negb orb]. rewrite Et, Ett, Ea. cbn [negb].
  rewrite Ec. reflexivity.
Qed.

Lemma validateAction_stable (a a' : json) (idx : nat) (ctx : string) :
  validateAction a idx ctx = inr a' ->
  forall idx' ctx', validateAction a' idx' ctx' = inr a'.
Proof.
  intros H idx' ctx'.
  destruct (validateAction_inv _ _ _ _ H)
    as (fields & t & -> & Et & Ett & Ea & -> & Ec).
  destruct (coerceArray_object fields) as [fields' E].
  rewrite E in *.
  rewrite (validateAction_intro fields' t idx' ctx').
  - rewrite <- E, coerceArray_idem. reflexivity.
  - rewrite <- E, coerceArray_other by discriminate. exact Et.
  - exact Ett.
  - exact Ea.
  - rewrite <- E, coerceArray_idem, E. exact Ec.
Qed.

(** The tests of [checkFields], one by one. *)
Lemma checkFields_inv (t : string) (a : json) :
  checkFields t a = None ->
  (truthyU (getField a "selector") = true ->
   isArray (getField a "selector") = true
   /\ someNotString (getField a "selector") = false)
  /\ (t = "screenshot" ->
      truthyU (getField a "checkpoint_name") = true
      /\ typeofString (getField a "checkpoint_name") = true)
  /\ (t = "goto" ->
      truthyU (getField a "url") = true
      /\ startsWithHttp (getField a "url") = true)
  /\ (t = "fill" ->
      truthyU (getField a "text") = true
      /\ typeofString (getField a "text") = true
      /\ lacksSelector a = false)
  /\ (t = "waitForSelector" -> lacksSelector a = false).
Proof.
  unfold checkFields.
  destruct (truthyU (getField a "selector")) eqn:Es; cbn [andb].
  - destruct (isArray (getField a "selector")) eqn:Ea; cbn [negb];
      [|discriminate].
    destruct (someNotString (getField a "selector")) eqn:En;
      [discriminate|].
    destruct (String.eqb t "screenshot") eqn:E1; cbn [andb].
    + apply String.eqb_eq in E1. subst t. cbn.
      destruct (truthyU (getField a "checkpoint_name")); [|discriminate].
      destruct (typeofString (getField a "checkpoint_name"));
        [|discriminate].
      intros _. repeat split; auto; discriminate.
    + apply String.eqb_neq in E1.
      destruct (String.eqb t "goto") eqn:E2; cbn [andb].
      * apply String.eqb_eq in E2. subst t. cbn.
        destruct (truthyU (getField a "url")); [|discriminate].
        destruct (typeofString (getField a "url")); [|discriminate].
        destruct (startsWithHttp (getField a "url")); [|discriminate].
        intros _. repeat split; auto; discriminate.
      * apply String.eqb_neq in E2.
        destruct (String.eqb t "fill") eqn:E3; cbn [andb].
        -- apply String.eqb_eq in E3. subst t. cbn.
           destruct (truthyU (getField a "text")); [|discriminate].
           destruct (typeofString (getField a "text")); [|discriminate].
           cbn. destruct (lacksSelector a); [discriminate|].
           intros _. repeat split; auto; discriminate.
        -- apply String.eqb_neq in E3.
           destruct (String.eqb t "waitForSelector") eqn:E4; cbn [andb].
           ++ destruct (lacksSelector a); [discriminate|].
              intros _. repeat split; auto; congruence.
           ++ apply String.eqb_neq in E4.
              intros _. repeat split; auto; congruence.
  - destruct (String.eqb t "screenshot") eqn:E1; cbn [andb].
    + apply String.eqb_eq in E1. subst t. cbn.
      destruct (truthyU (getField a "checkpoint_name")); [|discriminate].
      destruct (typeofString (getField a "checkpoint_name"));
        [|discriminate].
      intros _. repeat split; auto; discriminate.
    + apply String.eqb_neq in E1.
      destruct (String.eqb t "goto") eqn:E2; cbn [andb].
      * apply String.eqb_eq in E2. subst t. cbn.
        destruct (truthyU (getField a "url")); [|discriminate].
        destruct (typeofString (getField a "url")); [|discriminate].
        destruct (startsWithHttp (getField a "url")); [|discriminate].
        intros _. repeat split; auto; discriminate.
      * apply String.eqb_neq in E2.
        destruct (String.eqb t "fill") eqn:E3; cbn [andb].
        -- apply String.eqb_eq in E3. subst t. cbn.
           destruct (truthyU (getField a "text")); [|discriminate].
           destruct (typeofString (getField a "text")); [|discriminate].
           cbn. destruct (lacksSelector a); [discriminate|].
           intros _. repeat split; auto; discriminate.
        -- apply String.eqb_neq in E3.
           destruct (String.eqb t "waitForSelector") eqn:E4; cbn [andb].
           ++ destruct (lacksSelector a); [discriminate|].
              intros _. repeat split; auto; congruence.
           ++ apply String.eqb_neq in E4.
              intros _. repeat split; auto; congruence.
Qed.

(** An array of strings. *)
Definition stringsOnly (l : list json) : Prop :=
  Forall (fun x => exists s, x = JStr s) l.

Lemma someNotString_false (v : option json) :
  someNotString v = false -> stringsOnly (itemsOf v).
Proof.
  unfold someNotString, stringsOnly. intros H. apply Forall_forall.
  intros x Hx. destruct x as [| | |s| |]; try solve [eauto];
    exfalso; (assert (E : existsb (fun s => negb (typeofString (Some s)))
                                  (itemsOf v) = true)
                by (apply existsb_exists; eexists; split; [exact Hx|];
                    reflexivity));
    congruence.
Qed.

Lemma typeofString_truthy (v : option json) :
  truthyU v = true -> typeofString v = true ->
  exists s, v = Some (JStr s) /\ s <> EmptyString.
Proof.
  destruct v as [[| | |s| |]|]; try discriminate. intros H _.
  exists s. split; [reflexivity|]. intros ->. discriminate.
Qed.

Lemma lacksSelector_false (a : json) :
  lacksSelector a = false ->
  exists s l, getField a "selector" = Some (JArr (s :: l)).
Proof.
  unfold lacksSelector. intros H.
  apply orb_false_iff in H as [H H3]. apply orb_false_iff in H as [_ H2].
  destruct (getField a "selector") as [[| | | |[|s l]|]|];
    try discriminate.
  eauto.
Qed.

(** X16. An action that [validateAction] lets through.  It is an object
    whose type is one of the six kinds; it is the action given, or the
    action given with its array of selector candidates written to an
    absent selector.  Its selector, when there is one, is an array of
    strings.  A screenshot names its checkpoint, a goto has an address that
    starts with http, a fill has a text and a selector array that is not
    empty, a wait for a selector has such an array.  A click or a wait for
    a timeout is asked nothing more.  Validating the result again, at any
    index, returns it unchanged. *)
Theorem validated_action (a a' : json) (idx : nat) (ctx : string) :
  validateAction a idx ctx = inr a' ->
  (exists fields, a' = JObj fields)
  /\ (a' = a
      \/ exists c, getField a "selector_candidates" = Some (JArr c)
                   /\ truthyU (getField a "selector") = false
                   /\ a' = setField a "selector" (JArr c))
  /\ (truthyU (getField a' "selector") = true ->
      exists l, getField a' "selector" = Some (JArr l) /\ stringsOnly l)
  /\ (exists t,
        getField a' "type" = Some (JStr t) /\ In t allowed
        /\ (t = "screenshot" ->
            exists n, getField a' "checkpoint_name" = Some (JStr n)
                      /\ n <> EmptyString)
        /\ (t = "goto" ->
            exists u, getField a' "url" = Some (JStr u)
                      /\ prefix "http" u = true)
        /\ (t = "fill" ->
            (exists x, getField a' "text" = Some (JStr x)
                       /\ x <> EmptyString)
            /\ exists s l, getField a' "selector" = Some (JArr (s :: l)))
        /\ (t = "waitForSelector" ->
            exists s l, getField a' "selector" = Some (JArr (s :: l))))
  /\ forall idx' ctx', validateAction a' idx' ctx' = inr a'.
Proof.
  intros H. pose proof (validateAction_stable _ _ _ _ H) as Hst.
  destruct (validateAction_inv _ _ _ _ H)
    as (fields & t & -> & Et & Ett & Ea & -> & Ec).
  destruct (checkFields_inv _ _ Ec) as (Hsel & Hshot & Hgoto & Hfill & Hwait).
  split; [apply coerceArray_object|].
  split.
  { destruct (coerceArray_cases (JObj fields))
      as [[E _]|(c & Hc & Hs & E)]; [now left|right; eauto]. }
  split.
  { intros Ht. destruct (Hsel Ht) as [Harr Hstr].
    apply someNotString_false in Hstr.
    destruct (getField (coerceArray (JObj fields)) "selector")
      as [[| | | |l|]|]; try discriminate.
    exists l. split; [reflexivity|exact Hstr]. }
  split; [|exact Hst].
  exists t. split; [rewrite coerceArray_other by discriminate; exact Et|].
  split.
  { apply existsb_exists in Ea as [x [Hx Ex]].
    apply String.eqb_eq in Ex. subst x. exact Hx. }
  split.
  { intros E. destruct (Hshot E) as [H1 H2].
    apply (typeofString_truthy _ H1 H2). }
  split.
  { intros E. destruct (Hgoto E) as [_ H2].
    destruct (getField (coerceArray (JObj fields)) "url")
      as [[| | |u| |]|]; try discriminate.
    exists u. split; [reflexivity|exact H2]. }
  split.
  { intros E. destruct (Hfill E) as (H1 & H2 & H3).
    split; [apply (typeofString_truthy _ H1 H2)|].
    apply lacksSelector_false. exact H3. }
  intros E. apply lacksSelector_false. exact (Hwait E).
Qed.

(** **** Strings cut at a length *)

Lemma length_append (x y : string) :
  String.length (x ++ y) = (String.length x + String.length y)%nat.
Proof. induction x as [|c x IH]; [reflexivity|]. cbn. now rewrite IH. Qed.

Lemma substring_cut (n : nat) : forall s,
  (n <= String.length s)%nat ->
  exists post,
    s = (substring 0 n s ++ post)%string
    /\ String.length (substring 0 n s) = n.
Proof.
  induction n as [|n IH]; intros s Hn.
  - exists s. destruct s; split; reflexivity.
  - destruct s as [|c s]; [cbn in Hn; lia|]. cbn in Hn.
    destruct (IH s ltac:(lia)) as (post & E & L).
    exists post. cbn [substring append String.length].
    split; [now rewrite <- E|now rewrite L].
Qed.

Lemma same_prefix (c1 : string) : forall c2 p1 p2,
  (c1 ++ p1)%string = (c2 ++ p2)%string ->
  String.length c1 = String.length c2 -> c1 = c2.
Proof.
  induction c1 as [|a c1 IH]; intros [|b c2] p1 p2 E L;
    try discriminate; [reflexivity|].
  cbn in E, L. inversion E; subst b. f_equal.
  apply (IH c2 p1 p2); [assumption|lia].
Qed.

Lemma same_suffix (c : string) (p1 p2 : string) :
  (c ++ p1)%string = (c ++ p2)%string -> p1 = p2.
Proof.
  induction c as [|a c IH]; cbn; intros E; [exact E|].
  inversion E. auto.
Qed.

Lemma prefix_brace (c : ascii) (r : string) :
  prefix "{" (String c r) = Ascii.eqb c "{".
Proof.
  cbn [prefix]. destruct (ascii_dec "{" c) as [<-|Hne].
  - destruct r; reflexivity.
  - symmetry. apply Ascii.eqb_neq. congruence.
Qed.

Section ParsingFacts.

Variable parse : string -> option json.

Lemma fromFirstBrace_some (text rest : string) :
  fromFirstBrace text = Some rest ->
  exists pre,
    text = (pre ++ rest)%string
    /\ includes "{" pre = false
    /\ prefix "{" rest = true.
Proof.
  induction text as [|c r IH]; cbn [fromFirstBrace]; [discriminate|].
  destruct (Ascii.eqb c "{") eqn:E.
  - intros H. inversion H; subst rest. exists EmptyString.
    split; [reflexivity|]. split; [reflexivity|].
    rewrite prefix_brace. exact E.
  - intros H. destruct (IH H) as (pre & -> & Hno & Hp).
    exists (String c pre). split; [reflexivity|]. split; [|exact Hp].
    cbn [includes]. rewrite prefix_brace, E, Hno. reflexivity.
Qed.

(** The brace that starts a candidate is the first one of the text. *)
Lemma first_brace_unique (pre : string) : forall text rest,
  text = (pre ++ rest)%string ->
  includes "{" pre = false -> prefix "{" rest = true ->
  fromFirstBrace text = Some rest.
Proof.
  induction pre as [|c pre IH]; intros text rest -> Hno Hp.
  - cbn [append]. destruct rest as [|d rest]; [discriminate|].
    cbn [fromFirstBrace]. rewrite prefix_brace in Hp. rewrite Hp.
    reflexivity.
  - cbn [append fromFirstBrace]. cbn [includes] in Hno.
    apply orb_false_iff in Hno as [H1 H2]. rewrite prefix_brace in H1.
    rewrite H1. apply (IH _ rest eq_refl H2 Hp).
Qed.

Lemma longestParsed_spec (rest : string) (n : nat) :
  (n <= String.length rest)%nat ->
  match longestParsed parse rest n with
  | Some c =>
      exists post,
        rest = (c ++ post)%string
        /\ (1 <= String.length c <= n)%nat
        /\ parse c <> None
        /\ forall d e,
             post = (d ++ e)%string -> d <> EmptyString ->
             (String.length (c ++ d) <= n)%nat ->
             parse (c ++ d) = None
  | None =>
      forall c post,
        rest = (c ++ post)%string -> (1 <= String.length c <= n)%nat ->
        parse c = None
  end.
Proof.
  induction n as [|n IH]; intros Hn; cbn [longestParsed].
  - intros c post _ H. lia.
  - destruct (substring_cut (S n) rest Hn) as (post0 & E0 & L0).
    destruct (parse (substring 0 (S n) rest)) as [j|] eqn:Ep.
    + exists post0. split; [exact E0|]. split; [lia|].
      split; [congruence|].
      intros d e _ Hd Hlen. rewrite length_append, L0 in Hlen.
      destruct d; [congruence|cbn in Hlen; lia].
    + specialize (IH ltac:(lia)).
      destruct (longestParsed parse rest n) as [c|].
      * destruct IH as (post & E & Hl & Hp & Hlonger).
        exists post. split; [exact E|]. split; [lia|].
        split; [exact Hp|].
        intros d e Hpost Hd Hlen.
        destruct (Nat.eq_dec (String.length (c ++ d)) (S n)) as [Heq|Hneq].
        -- assert (Ecd : (c ++ d)%string = substring 0 (S n) rest).
           { apply (same_prefix _ _ e post0); [|congruence].
             rewrite JsFacts.append_assoc', <- Hpost, <- E. exact E0. }
           rewrite Ecd. exact Ep.
        -- apply (Hlonger d e Hpost Hd). lia.
      * intros c post E Hl.
        destruct (Nat.eq_dec (String.length c) (S n)) as [Heq|Hneq].
        -- assert (Ec : c = substring 0 (S n) rest).
           { apply (same_prefix _ _ post post0); [|congruence].
             rewrite <- E. exact E0. }
           rewrite Ec. exact Ep.
        -- apply (IH c post E). lia.
Qed.

(** X17. The JSON document cut out of a text.  What [extractJsonLike]
    returns starts at the first opening brace of the text, parses, and is
    the longest such piece: no longer piece from the same brace parses.
    It returns nothing exactly when the text has no opening brace or no
    piece that starts at the first one parses. *)
Theorem extracted_is_longest (text : string) :
  match extractJsonLike parse text with
  | Some c =>
      exists pre post,
        text = (pre ++ c ++ post)%string
        /\ includes "{" pre = false
        /\ prefix "{" c = true
        /\ parse c <> None
        /\ forall d e,
             post = (d ++ e)%string -> d <> EmptyString ->
             parse (c ++ d) = None
  | None =>
      forall pre c post,
        text = (pre ++ c ++ post)%string ->
        includes "{" pre = false -> prefix "{" c = true ->
        parse c = None
  end.
Proof.
  unfold extractJsonLike.
  destruct (truthy text) eqn:Et; cbn [negb].
  2:{ destruct text; [|discriminate].
      intros [|a pre] c post E _ Hp; [|discriminate].
      destruct c; discriminate. }
  destruct (fromFirstBrace text) as [rest|] eqn:Ef.
  - destruct (fromFirstBrace_some _ _ Ef) as (pre & -> & Hno & Hp).
    pose proof (longestParsed_spec rest (String.length rest) (le_n _)) as H.
    destruct (longestParsed parse rest (String.length rest)) as [c|].
    + destruct H as (post & E & Hl & Hparse & Hlonger).
      exists pre, post. split; [now rewrite <- E|]. split; [exact Hno|].
      split.
      { rewrite E in Hp. destruct c as [|a c]; [cbn in Hl; lia|].
        rewrite prefix_brace. cbn [append] in Hp.
        rewrite prefix_brace in Hp. exact Hp. }
      split; [exact Hparse|].
      intros d e Hpost Hd. apply (Hlonger d e Hpost Hd).
      rewrite E, Hpost, <- JsFacts.append_assoc', (length_append _ e). lia.
    + intros pre' c post E Hno' Hp'.
      assert (Er : fromFirstBrace (pre ++ rest) = Some (c ++ post)%string).
      { apply (first_brace_unique pre' _ _ E Hno').
        apply JsFacts.prefix_append. exact Hp'. }
      rewrite Ef in Er. inversion Er; subst rest.
      apply (H c post eq_refl). rewrite length_append.
      destruct c; [discriminate|]. cbn. lia.
  - intros pre c post E Hno Hp.
    assert (Er : fromFirstBrace text = Some (c ++ post)%string).
    { apply (first_brace_unique pre _ _ E Hno).
      apply JsFacts.prefix_append. exact Hp. }
    congruence.
Qed.

End ParsingFacts.

(** **** Lists of actions *)

Lemma validateActions_coerced (l : list json) : forall idx ctx l',
  validateActions (map coerceSelector l) idx ctx = inr l' ->
  l' = map coerceSelector l.
Proof.
  induction l as [|a l IH]; intros idx ctx l' H; cbn in H.
  - inversion H. reflexivity.
  - destruct (validateAction (coerceSelector a) idx ctx) as [e|a1] eqn:Ea;
      [discriminate|].
    destruct (validateActions (map coerceSelector l) (S idx) ctx)
      as [e|r] eqn:Er; [discriminate|].
    inversion H; subst l'. cbn.
    rewrite (IH _ _ _ Er).
    destruct (validateAction_inv _ _ _ _ Ea)
      as (fields & t & _ & _ & _ & _ & -> & _).
    rewrite coerceArray_after. reflexivity.
Qed.

Lemma validateActions_final (l : list json) : forall idx ctx l',
  validateActions l idx ctx = inr l' ->
  mapM finalAction l' = Some (map coerceSelector l').
Proof.
  induction l as [|a l IH]; intros idx ctx l' H; cbn in H.
  - inversion H. reflexivity.
  - destruct (validateAction a idx ctx) as [e|a1] eqn:Ea; [discriminate|].
    destruct (validateActions l (S idx) ctx) as [e|r] eqn:Er;
      [discriminate|].
    inversion H; subst l'. cbn [mapM map].
    rewrite (IH _ _ _ Er).
    destruct (validateAction_inv _ _ _ _ Ea)
      as (fields & t & -> & _ & _ & _ & -> & _).
    destruct (coerceArray_object fields) as [fields' ->]. reflexivity.
Qed.

Lemma validateActions_nth (l : list json) : forall idx ctx l',
  validateActions l idx ctx = inr l' ->
  forall k a',
    nth_error l' k = Some a' ->
    exists a, nth_error l k = Some a
              /\ validateAction a (idx + k) ctx = inr a'.
Proof.
  induction l as [|a l IH]; intros idx ctx l' H k a' Hk; cbn in H.
  - inversion H; subst l'. destruct k; discriminate.
  - destruct (validateAction a idx ctx) as [e|a1] eqn:Ea; [discriminate|].
    destruct (validateActions l (S idx) ctx) as [e|r] eqn:Er;
      [discriminate|].
    inversion H; subst l'. destruct k as [|k]; cbn in Hk.
    + inversion Hk; subst a'. exists a. rewrite Nat.add_0_r. auto.
    + destruct (IH _ _ _ Er k a' Hk) as (a0 & H0 & H1).
      exists a0. split; [exact H0|].
      replace (idx + S k)%nat with (S idx + k)%nat by lia. exact H1.
Qed.

Lemma validateActions_length (l : list json) : forall idx ctx l',
  validateActions l idx ctx = inr l' -> length l' = length l.
Proof.
  induction l as [|a l IH]; intros idx ctx l' H; cbn in H.
  - inversion H. reflexivity.
  - destruct (validateAction a idx ctx) as [e|a1]; [discriminate|].
    destruct (validateActions l (S idx) ctx) as [e|r] eqn:Er;
      [discriminate|].
    inversion H; subst l'. cbn. now rewrite (IH _ _ _ Er).
Qed.

(** **** One checkpoint *)

Lemma sharedKey_cases (cp : json) :
  sharedKey cp = None \/ sharedKey cp = Some "actions"
  \/ sharedKey cp = Some "plan".
Proof.
  unfold sharedKey.
  destruct (truthyU (getField cp "action_sequence")); [now left|].
  destruct (truthyU (getField cp "actions")).
  - destruct (isArray (getField cp "actions")); auto.
  - destruct (truthyU (getField cp "plan")); [|now left].
    destruct (isArray (getField cp "plan")); auto.
Qed.

Definition sharedOk (shared : option string) : Prop :=
  shared = None \/ shared = Some "actions" \/ shared = Some "plan".

Lemma writeSeq_seq (shared : option string) fields (items : list json) :
  sharedOk shared ->
  getField (writeSeq shared (JObj fields) items) "action_sequence"
  = Some (JArr items).
Proof.
  unfold writeSeq. intros [-> | [-> | ->]].
  - apply get_set_same.
  - rewrite get_set_other by discriminate. apply get_set_same.
  - rewrite get_set_other by discriminate. apply get_set_same.
Qed.

Lemma writeSeq_name (shared : option string) (cp : json)
    (items : list json) :
  sharedOk shared ->
  getField (writeSeq shared cp items) "name" = getField cp "name".
Proof.
  unfold writeSeq. intros [-> | [-> | ->]];
    rewrite ?get_set_other by discriminate; reflexivity.
Qed.

Lemma writeSeq_object (shared : option string) fields (items : list json) :
  exists fields', writeSeq shared (JObj fields) items = JObj fields'.
Proof. unfold writeSeq. destruct shared; cbn; eauto. Qed.

Lemma writeSeq_again (shared : option string) fields (items : list json) :
  sharedOk shared ->
  writeSeq shared (writeSeq shared (JObj fields) items) items
  = writeSeq shared (JObj fields) items.
Proof.
  intros Hs. unfold writeSeq at 1.
  destruct (writeSeq_object shared fields items) as [fields' E].
  pose proof (writeSeq_seq shared fields items Hs) as Hseq.
  rewrite (set_same _ _ _ Hseq).
  destruct shared as [k|]; [|reflexivity].
  apply set_same. unfold writeSeq.
  cbn [setField]. apply lookup_assign_same.
Qed.

(** An object among the checkpoints gets its actions, coerced, under
    [action_sequence] and under the shared key. *)
Lemma normalizeCheckpoint_object fields :
  exists l,
    normalizeCheckpoint (JObj fields)
    = Some (writeSeq (sharedKey (JObj fields)) (JObj fields)
                     (map coerceSelector l)).
Proof.
  unfold normalizeCheckpoint. cbn [truthyJ negb].
  set (cp := JObj fields).
  destruct (isArray (orU (getField cp "action_sequence")
                         (orU (getField cp "actions")
                              (orU (getField cp "plan") (Some (JArr []))))))
    eqn:Ea.
  - eexists. reflexivity.
  - exists []. f_equal. cbn [map]. unfold writeSeq.
    assert (Es : sharedKey cp = None).
    { unfold sharedKey. unfold orU in Ea.
      destruct (truthyU (getField cp "action_sequence")); [reflexivity|].
      destruct (truthyU (getField cp "actions"));
        [rewrite Ea; reflexivity|].
      destruct (truthyU (getField cp "plan")); [rewrite Ea; reflexivity|].
      reflexivity. }
    rewrite Es. reflexivity.
Qed.

(** A checkpoint as [callPlanner] returns it. *)
Definition GoodCheckpoint (cpIdx : nat) (cp : json) : Prop :=
  exists fields name items,
    cp = JObj fields
    /\ getField cp "name" = Some (JStr name)
    /\ name <> EmptyString
    /\ getField cp "action_sequence" = Some (JArr items)
    /\ forall k a,
         nth_error items k = Some a ->
         validateAction a k (contextOf cpIdx name) = inr a.

Lemma checkpoint_checked (cp cp' : json) (i : nat) :
  normalizeCheckpoint cp = Some cp' ->
  match validateCheckpoint (sharedKey cp) i cp' with
  | inr cp'' =>
      cp'' = cp'
      /\ finalCheckpoint (sharedKey cp) cp' = Some cp'
      /\ GoodCheckpoint i cp'
  | inl e => forall j, e <> SequenceNotArray j
  end.
Proof.
  destruct cp as [|b|n|s|items|fields].
  - intros H. inversion H; subst cp'. cbn. discriminate.
  - destruct b; cbn; intros H; inversion H; subst cp'. cbn. discriminate.
  - unfold normalizeCheckpoint. cbn [truthyJ].
    destruct (negb (negb (n =? 0))); intros H; inversion H; subst cp'.
    cbn. discriminate.
  - destruct s; cbn; intros H; inversion H; subst cp'. cbn. discriminate.
  - intros H. inversion H; subst cp'. cbn. discriminate.
  - destruct (normalizeCheckpoint_object fields) as [l E].
    rewrite E. intros H. inversion H; subst cp'. clear H E.
    pose proof (sharedKey_cases (JObj fields)) as Hs.
    set (sh := sharedKey (JObj fields)) in *.
    set (X := map coerceSelector l).
    destruct (writeSeq_object sh fields X) as [fields' Eo].
    pose proof (writeSeq_seq sh fields X Hs) as Hseq.
    pose proof (writeSeq_again sh fields X Hs) as Hagain.
    rewrite Eo in *.
    unfold validateCheckpoint.
    destruct (getField (JObj fields') "name") as [[| | |name| |]|] eqn:En;
      try discriminate.
    destruct (truthy name) eqn:Etn; cbn [negb]; [|discriminate].
    unfold orU. rewrite Hseq. cbn [truthyU truthyJ isArray negb itemsOf].
    destruct (validateActions X 0 (contextOf i name)) as [e|items] eqn:Ev;
      [discriminate|].
    pose proof (validateActions_coerced l _ _ _ Ev) as EX. fold X in EX.
    subst items. rewrite Hagain.
    split; [reflexivity|]. split.
    + unfold finalCheckpoint. rewrite Hseq. cbn [isArray itemsOf].
      rewrite (validateActions_final _ _ _ _ Ev).
      unfold X at 1. rewrite map_map.
      rewrite (map_ext _ _ coerceSelector_idem). fold X.
      rewrite Hagain. reflexivity.
    + exists fields', name, X. split; [reflexivity|].
      split; [exact En|]. split; [intros ->; discriminate|].
      split; [exact Hseq|].
      intros k a Hk.
      destruct (validateActions_nth _ _ _ _ Ev k a Hk) as (a0 & H0 & H1).
      rewrite Hk in H0. inversion H0; subst a0. exact H1.
Qed.

Lemma checkpoints_checked (cps : list json) : forall cps' i,
  mapM normalizeCheckpoint cps = Some cps' ->
  match validateCheckpoints cps' (map sharedKey cps) i with
  | inr cps'' =>
      cps'' = cps'
      /\ finalCheckpoints cps' (map sharedKey cps) = Some cps'
      /\ forall k cp, nth_error cps' k = Some cp -> GoodCheckpoint (i + k) cp
  | inl e => forall j, e <> SequenceNotArray j
  end.
Proof.
  induction cps as [|cp cps IH]; intros cps' i H; cbn [mapM] in H.
  - inversion H; subst cps'. cbn. split; [reflexivity|].
    split; [reflexivity|]. intros [|k] c Hc; discriminate.
  - destruct (normalizeCheckpoint cp) as [cp'|] eqn:Ec; [|discriminate].
    destruct (mapM normalizeCheckpoint cps) as [r|] eqn:Er; [|discriminate].
    inversion H; subst cps'. cbn [map validateCheckpoints hd tl].
    pose proof (checkpoint_checked cp cp' i Ec) as Hone.
    destruct (validateCheckpoint (sharedKey cp) i cp') as [e|cp''];
      [exact Hone|].
    destruct Hone as (-> & Hfin & Hgood).
    specialize (IH r (S i) eq_refl).
    destruct (validateCheckpoints r (map sharedKey cps) (S i)) as [e|r'];
      [exact IH|].
    destruct IH as (-> & Hfins & Hgoods).
    split; [reflexivity|]. split.
    + cbn [finalCheckpoints hd tl]. rewrite Hfin, Hfins. reflexivity.
    + intros [|k] c Hc; cbn in Hc.
      * inversion Hc; subst c. rewrite Nat.add_0_r. exact Hgood.
      * replace (i + S k)%nat with (S i + k)%nat by lia.
        apply Hgoods. exact Hc.
Qed.

(** **** The whole answer *)

Lemma isArray_items (v : option json) :
  isArray v = true -> v = Some (JArr (itemsOf v)).
Proof. destruct v as [[]|]; try discriminate. reflexivity. Qed.

Lemma nonEmptyArray_isArray (v : option json) :
  nonEmptyArray v = true -> isArray v = true.
Proof. unfold nonEmptyArray. intros H. now apply andb_true_iff in H. Qed.

Lemma nonEmptyArray_items (v : option json) :
  nonEmptyArray v = true -> itemsOf v <> [].
Proof.
  unfold nonEmptyArray. intros H. apply andb_true_iff in H as [_ H].
  destruct (itemsOf v); [discriminate|discriminate].
Qed.

Lemma set_set (o : json) (k : string) (v v' : json) :
  setField (setField o k v) k v' = setField o k v'.
Proof.
  destruct o; try reflexivity. cbn. f_equal.
  induction fields as [|[k0 v0] r IH]; cbn.
  - rewrite String.eqb_refl. reflexivity.
  - destruct (String.eqb k0 k) eqn:E; cbn; rewrite E; [reflexivity|].
    now rewrite IH.
Qed.

Lemma objectOf_checkpoints (v : json) (a b c d e : option json) :
  getField (objectOf [("plan", Some v); ("app", a); ("description", b);
                      ("start_url", c); ("confidence", d); ("explain", e)])
           "checkpoints" = None.
Proof. destruct a, b, c, d, e; reflexivity. Qed.

Lemma objectOf_task_id (v : json) (a b c d e : option json) :
  getField (objectOf [("plan", Some v); ("app", a); ("description", b);
                      ("start_url", c); ("confidence", d); ("explain", e)])
           "task_id" = None.
Proof. destruct a, b, c, d, e; reflexivity. Qed.

Lemma objectOf_plan (v : json) (a b c d e : option json) :
  getField (objectOf [("plan", Some v); ("app", a); ("description", b);
                      ("start_url", c); ("confidence", d); ("explain", e)])
           "plan" = Some v.
Proof. reflexivity. Qed.

(** The branch of [normalizeParsedPlanner] for an object that has a plan
    or checkpoints. *)
Definition hasPlanOrCheckpoints (parsed : json) : bool :=
  (truthyU (getField parsed "plan")
   || truthyU (getField parsed "checkpoints"))%bool.

Lemma hasPlanOrCheckpoints_object (parsed : json) :
  hasPlanOrCheckpoints parsed = true -> exists fields, parsed = JObj fields.
Proof.
  unfold hasPlanOrCheckpoints. destruct parsed; cbn; try discriminate.
  eauto.
Qed.

(** The checkpoints of the normalized answer are the normalized
    checkpoints of the answer. *)
Lemma normalize_checkpoints (parsed n : json) :
  normalizeParsedPlanner parsed = Some n ->
  nonEmptyArray (getField n "checkpoints") = true ->
  hasPlanOrCheckpoints parsed = true
  /\ mapM normalizeCheckpoint (itemsOf (getField parsed "checkpoints"))
     = Some (itemsOf (getField n "checkpoints")).
Proof.
  unfold normalizeParsedPlanner.
  destruct (negb (truthyJ parsed) || negb (typeofObject parsed))%bool;
    [intros H; inversion H; discriminate|].
  destruct parsed as [| | | |items|fields];
    try (intros H; inversion H; discriminate).
  fold (hasPlanOrCheckpoints (JObj fields)).
  destruct (hasPlanOrCheckpoints (JObj fields)) eqn:Eb.
  - set (p1 := if isArray (getField (JObj fields) "plan")
               then setField (JObj fields) "plan"
                      (JArr (map coerceSelector
                                 (itemsOf (getField (JObj fields) "plan"))))
               else JObj fields).
    assert (E1 : getField p1 "checkpoints"
                 = getField (JObj fields) "checkpoints").
    { unfold p1. destruct (isArray (getField (JObj fields) "plan"));
        [|reflexivity]. apply get_set_other. discriminate. }
    assert (O1 : exists f1, p1 = JObj f1).
    { unfold p1. destruct (isArray (getField (JObj fields) "plan"));
        [apply set_object|eauto]. }
    destruct O1 as [f1 O1].
    destruct (isArray (getField p1 "checkpoints")) eqn:Ea.
    + rewrite E1.
      destruct (mapM normalizeCheckpoint
                     (itemsOf (getField (JObj fields) "checkpoints")))
        as [cps|]; [|discriminate].
      intros H _. inversion H. rewrite O1, get_set_same. auto.
    + intros H Hne. inversion H; subst n.
      apply nonEmptyArray_isArray in Hne. congruence.
  - destruct (firstArray (JObj fields)) as [v|].
    + intros H Hne. inversion H; subst n.
      rewrite objectOf_checkpoints in Hne. discriminate.
    + intros H Hne. inversion H; subst n.
      apply nonEmptyArray_isArray, isArray_truthy in Hne.
      unfold hasPlanOrCheckpoints in Eb. rewrite Hne in Eb.
      rewrite orb_true_r in Eb. discriminate.
Qed.

(** [callPlanner] after the normalization, with the steps that change
    nothing left out. *)
Definition pipeline (parsed n : json) : plannerError + json :=
  let hasCheckpoints := nonEmptyArray (getField n "checkpoints") in
  let hasPlan := nonEmptyArray (getField n "plan") in
  if (negb hasCheckpoints && negb hasPlan)%bool
  then inl MissingCheckpointsOrPlan
  else
    match (if hasCheckpoints
           then validateCheckpoints
                  (itemsOf (getField n "checkpoints"))
                  (map sharedKey (itemsOf (getField parsed "checkpoints"))) 0
           else inr []) with
    | inl e => inl (ValidationFailed e)
    | inr _ =>
        match (if hasPlan
               then validateActions (itemsOf (getField n "plan")) 0
                                    EmptyString
               else inr []) with
        | inl e => inl (ValidationFailed (InvalidAction e))
        | inr pl =>
            inr (if hasPlan
                 then setField n "plan" (JArr (map coerceSelector pl))
                 else n)
        end
    end.

Lemma planFromParsed_pipeline (parsed n : json) :
  normalizeParsedPlanner parsed = Some n ->
  planFromParsed parsed = pipeline parsed n.
Proof.
  intros Hn. unfold planFromParsed, pipeline. rewrite Hn. cbv zeta.
  pose proof (normalize_checkpoints parsed n Hn) as Hcps.
  destruct (nonEmptyArray (getField n "checkpoints")) eqn:Ehc;
    destruct (nonEmptyArray (getField n "plan")) eqn:Ehp;
    cbn [negb andb]; try reflexivity.
  - destruct (Hcps eq_refl) as [_ Hnorm].
    pose proof (checkpoints_checked _ _ 0%nat Hnorm) as Hchk.
    pose proof (isArray_items _ (nonEmptyArray_isArray _ Ehc)) as Ecps.
    destruct (validateCheckpoints _ _ 0) as [e|cps'']; [reflexivity|].
    destruct Hchk as (-> & Hfin & _).
    rewrite (set_same _ _ _ Ecps).
    destruct (validateActions (itemsOf (getField n "plan")) 0 EmptyString)
      as [e|pl] eqn:Ev; [reflexivity|].
    destruct (get_some_object _ _ _ Ecps) as [fields ->].
    rewrite get_set_same. cbn [itemsOf].
    rewrite (validateActions_final _ _ _ _ Ev). rewrite set_set.
    rewrite get_set_other by discriminate. rewrite Hfin.
    rewrite set_same; [reflexivity|].
    rewrite get_set_other by discriminate. exact Ecps.
  - destruct (Hcps eq_refl) as [_ Hnorm].
    pose proof (checkpoints_checked _ _ 0%nat Hnorm) as Hchk.
    pose proof (isArray_items _ (nonEmptyArray_isArray _ Ehc)) as Ecps.
    destruct (validateCheckpoints _ _ 0) as [e|cps'']; [reflexivity|].
    destruct Hchk as (-> & Hfin & _).
    rewrite (set_same _ _ _ Ecps). rewrite Hfin.
    rewrite (set_same _ _ _ Ecps). reflexivity.
  - pose proof (isArray_items _ (nonEmptyArray_isArray _ Ehp)) as Epl.
    destruct (validateActions (itemsOf (getField n "plan")) 0 EmptyString)
      as [e|pl] eqn:Ev; [reflexivity|].
    destruct (get_some_object _ _ _ Epl) as [fields ->].
    rewrite get_set_same. cbn [itemsOf].
    rewrite (validateActions_final _ _ _ _ Ev). rewrite set_set.
    reflexivity.
Qed.

Lemma normalize_plan (parsed n : json) :
  normalizeParsedPlanner parsed = Some n ->
  hasPlanOrCheckpoints parsed = true ->
  isArray (getField n "plan") = true ->
  exists l, getField n "plan" = Some (JArr (map coerceSelector l)).
Proof.
  intros Hn Hb. destruct (hasPlanOrCheckpoints_object _ Hb) as [fields ->].
  unfold normalizeParsedPlanner in Hn. cbn [truthyJ typeofObject negb orb] in Hn.
  fold (hasPlanOrCheckpoints (JObj fields)) in Hn. rewrite Hb in Hn.
  set (p1 := if isArray (getField (JObj fields) "plan")
             then setField (JObj fields) "plan"
                    (JArr (map coerceSelector
                               (itemsOf (getField (JObj fields) "plan"))))
             else JObj fields) in *.
  assert (Ep : getField n "plan" = getField p1 "plan").
  { destruct (isArray (getField p1 "checkpoints")).
    - destruct (mapM normalizeCheckpoint (itemsOf (getField p1 "checkpoints")))
        as [cps|]; [|discriminate].
      inversion Hn. apply get_set_other. discriminate.
    - inversion Hn. reflexivity. }
  rewrite Ep. unfold p1.
  destruct (isArray (getField (JObj fields) "plan")) eqn:Ea.
  - intros _. rewrite get_set_same. eauto.
  - congruence.
Qed.

Lemma extract_some (parse : string -> option json) (text c : string) :
  extractJsonLike parse text = Some c ->
  truthy c = true /\ parse c <> None.
Proof.
  unfold extractJsonLike. destruct (negb (truthy text)); [discriminate|].
  destruct (fromFirstBrace text) as [rest|]; [|discriminate].
  pose proof (longestParsed_spec parse rest (String.length rest) (le_n _))
    as H.
  intros E. rewrite E in H. destruct H as (post & _ & Hl & Hp & _).
  split; [|exact Hp]. destruct c; [cbn in Hl; lia|reflexivity].
Qed.

(** X18. A plan that [callPlanner] returns.  It has checkpoints or a plan,
    an array that is not empty.  Its checkpoints are those of the
    normalized answer: each is an object with a name that is a non-empty
    string and an array of actions, and every action passes
    [validateAction] as it stands.  When the answer had a plan or
    checkpoints of its own, what is returned is the normalized answer
    itself: the validation and the final pass over the selectors change
    nothing.  Otherwise the plan was found at the top level or under
    another key, and an action of it is a validated action, or a validated
    action whose candidates, which are not an array, have been written to
    its selector. *)
Theorem accepted_answer (parsed out : json) :
  planFromParsed parsed = inr out ->
  exists n,
    normalizeParsedPlanner parsed = Some n
    /\ (nonEmptyArray (getField out "checkpoints")
        || nonEmptyArray (getField out "plan"))%bool = true
    /\ getField out "checkpoints" = getField n "checkpoints"
    /\ (hasPlanOrCheckpoints parsed = true -> out = n)
    /\ (forall i cp,
          nth_error (itemsOf (getField out "checkpoints")) i = Some cp ->
          GoodCheckpoint i cp)
    /\ (forall i a,
          nth_error (itemsOf (getField out "plan")) i = Some a ->
          exists a1,
            validateAction a1 i EmptyString = inr a1
            /\ (a = a1
                \/ exists v,
                     getField a1 "selector_candidates" = Some v
                     /\ truthyJ v = true
                     /\ isArray (Some v) = false
                     /\ truthyU (getField a1 "selector") = false
                     /\ a = setField a1 "selector" v)).
Proof.
  intros H.
  destruct (normalizeParsedPlanner parsed) as [n|] eqn:Hn;
    [|unfold planFromParsed in H; rewrite Hn in H; discriminate].
  exists n. split; [reflexivity|].
  rewrite (planFromParsed_pipeline _ _ Hn) in H. unfold pipeline in H.
  pose proof (normalize_checkpoints parsed n Hn) as Hcps.
  (* the checkpoints *)
  assert (Hgood : nonEmptyArray (getField n "checkpoints") = true ->
                  forall i cp,
                    nth_error (itemsOf (getField n "checkpoints")) i = Some cp
                    -> GoodCheckpoint i cp).
  { intros Ehc. rewrite Ehc in H. cbn [negb andb] in H.
    destruct (Hcps Ehc) as [_ Hnorm].
    pose proof (checkpoints_checked _ _ 0%nat Hnorm) as Hchk.
    destruct (validateCheckpoints _ _ 0) as [e|cps'']; [discriminate|].
    destruct Hchk as (_ & _ & Hg). exact Hg. }
  assert (Hempty : forall v, nonEmptyArray v = false ->
                             forall i (x : json),
                               nth_error (itemsOf v) i = Some x -> False).
  { intros v Hv i x Hx. unfold nonEmptyArray in Hv.
    destruct v as [[| | | |[|y l]|]|]; cbn in *;
      try discriminate; destruct i; discriminate. }
  (* the plan *)
  destruct (nonEmptyArray (getField n "plan")) eqn:Ehp.
  - pose proof (isArray_items _ (nonEmptyArray_isArray _ Ehp)) as Epl.
    destruct (get_some_object _ _ _ Epl) as [fields En].
    assert (Hsteps : exists pl,
               validateActions (itemsOf (getField n "plan")) 0 EmptyString
               = inr pl
               /\ out = setField n "plan" (JArr (map coerceSelector pl))).
    { rewrite andb_false_r in H.
      destruct (if nonEmptyArray (getField n "checkpoints")
                then validateCheckpoints
                       (itemsOf (getField n "checkpoints"))
                       (map sharedKey (itemsOf (getField parsed "checkpoints")))
                       0
                else inr []) as [e|x]; [discriminate|].
      destruct (validateActions (itemsOf (getField n "plan")) 0 EmptyString)
        as [e|pl]; [discriminate|].
      inversion H. eauto. }
    destruct Hsteps as (pl & Ev & ->).
    assert (Eout : getField (setField n "plan" (JArr (map coerceSelector pl)))
                            "plan" = Some (JArr (map coerceSelector pl))).
    { rewrite En. apply get_set_same. }
    assert (Ecp : getField (setField n "plan" (JArr (map coerceSelector pl)))
                           "checkpoints" = getField n "checkpoints").
    { apply get_set_other. discriminate. }
    split.
    { rewrite Eout. unfold nonEmptyArray at 2. cbn [isArray itemsOf andb].
      rewrite length_map, (validateActions_length _ _ _ _ Ev).
      apply nonEmptyArray_items in Ehp.
      destruct (itemsOf (getField n "plan")); [congruence|].
      apply orb_true_r. }
    split; [exact Ecp|]. split.
    { intros Hb.
      destruct (normalize_plan _ _ Hn Hb (nonEmptyArray_isArray _ Ehp))
        as [l El].
      rewrite El in Ev. cbn [itemsOf] in Ev.
      apply validateActions_coerced in Ev. subst pl.
      rewrite map_map, (map_ext _ _ coerceSelector_idem).
      apply set_same. exact El. }
    split.
    { rewrite Ecp.
      destruct (nonEmptyArray (getField n "checkpoints")) eqn:Ehc;
        [exact (Hgood eq_refl)|].
      intros i cp Hi. exfalso. exact (Hempty _ Ehc i cp Hi). }
    rewrite Eout. cbn [itemsOf]. intros i a Hi.
    rewrite nth_error_map in Hi.
    destruct (nth_error pl i) as [a1|] eqn:E1; [|discriminate].
    cbn in Hi. inversion Hi; subst a. clear Hi.
    destruct (validateActions_nth _ _ _ _ Ev i a1 E1) as (a0 & _ & H0).
    pose proof (validateAction_stable _ _ _ _ H0 i EmptyString) as Hst.
    exists a1. split; [exact Hst|].
    destruct (coerceSelector_cases a1) as [[E _]|(c & Hc & Ht & Hs & E)];
      [now left|].
    right. exists c. repeat split; auto.
    destruct (validateAction_inv _ _ _ _ Hst)
      as (f1 & t & _ & _ & _ & _ & Eca & _).
    destruct (coerceArray_cases a1) as [[_ [Hx|Hx]]|(c' & Hc' & _ & Ex)].
    + congruence.
    + rewrite Hc in Hx. exact Hx.
    + rewrite Hc in Hc'. inversion Hc'; subst c.
      rewrite Ex in Eca. rewrite Eca in Hs.
      destruct (get_some_object _ _ _ Hc) as [f2 E2]. rewrite E2 in Hs.
      rewrite get_set_same in Hs. discriminate.
  - destruct (nonEmptyArray (getField n "checkpoints")) eqn:Ehc;
      cbn [negb andb] in H; [|discriminate].
    assert (out = n).
    { destruct (validateCheckpoints _ _ 0) as [e|x]; [discriminate|].
      inversion H. reflexivity. }
    subst out. rewrite Ehc, Ehp.
    split; [reflexivity|]. split; [reflexivity|].
    split; [reflexivity|]. split; [exact (Hgood eq_refl)|].
    intros i a Hi. exfalso. exact (Hempty _ Ehp i a Hi).
Qed.

(** X19. Three errors of [callPlanner] that no answer brings about: the
    document [extractJsonLike] returns always parses again; the actions of
    a checkpoint are always an array when they are validated; and the final
    pass over the selectors never meets a missing array or a missing
    action. *)
Theorem errors_never_raised (parse : string -> option json)
    (generated : string + option string) :
  callPlanner parse generated <> inl ExtractedNotParsed
  /\ callPlanner parse generated <> inl TypeErrorAtEnd
  /\ forall i,
       callPlanner parse generated
       <> inl (ValidationFailed (SequenceNotArray i)).
Proof.
  assert (Hplan : forall parsed,
             planFromParsed parsed <> inl ExtractedNotParsed
             /\ planFromParsed parsed <> inl TypeErrorAtEnd
             /\ forall i, planFromParsed parsed
                          <> inl (ValidationFailed (SequenceNotArray i))).
  { intros parsed.
    destruct (normalizeParsedPlanner parsed) as [n|] eqn:Hn.
    2:{ unfold planFromParsed. rewrite Hn.
        repeat split; try intros i; discriminate. }
    rewrite (planFromParsed_pipeline _ _ Hn). unfold pipeline.
    pose proof (normalize_checkpoints parsed n Hn) as Hcps.
    destruct (nonEmptyArray (getField n "checkpoints")) eqn:Ehc;
      destruct (nonEmptyArray (getField n "plan")) eqn:Ehp;
      cbn [negb andb].
    - destruct (Hcps eq_refl) as [_ Hnorm].
      pose proof (checkpoints_checked _ _ 0%nat Hnorm) as Hchk.
      destruct (validateCheckpoints _ _ 0) as [e|x].
      + repeat split; try intros i; try discriminate.
        intros E. inversion E as [E']. exact (Hchk i E').
      + destruct (validateActions _ 0 EmptyString);
          repeat split; try intros i; discriminate.
    - destruct (Hcps eq_refl) as [_ Hnorm].
      pose proof (checkpoints_checked _ _ 0%nat Hnorm) as Hchk.
      destruct (validateCheckpoints _ _ 0) as [e|x].
      + repeat split; try intros i; try discriminate.
        intros E. inversion E as [E']. exact (Hchk i E').
      + repeat split; try intros i; discriminate.
    - destruct (validateActions _ 0 EmptyString);
        repeat split; try intros i; discriminate.
    - repeat split; try intros i; discriminate. }
  unfold callPlanner. destruct generated as [message|text];
    [repeat split; try intros i; discriminate|].
  set (respText := match text with
                   | Some t => trim t
                   | None => EmptyString
                   end).
  unfold parseResponse.
  destruct (extractJsonLike parse respText) as [c|] eqn:Ee; cbn [truthyOpt].
  - destruct (extract_some parse _ _ Ee) as [Hc Hp]. rewrite Hc.
    cbn [negb orElse]. destruct (parse c) as [parsed|]; [|congruence].
    apply Hplan.
  - cbn [negb]. destruct (parse respText) as [parsed|]; [apply Hplan|].
    repeat split; try intros i; discriminate.
Qed.

Lemma checkFields_click (a : json) :
  truthyU (getField a "selector") = false ->
  checkFields "click" a = None.
Proof. intros H. unfold checkFields. rewrite H. reflexivity. Qed.

(** X20. The key under which the actions come decides what happens to
    candidates that are not an array.  Take a click with no selector whose
    [selector_candidates] is a value that is true in a condition and is
    not an array, a string say.  Given as the one item of an array under
    a key of the answer that is neither [plan] nor [checkpoints] nor one
    of the five keys that are kept, the click is accepted and comes back
    with that value as its selector, which [validateAction] itself would
    refuse.  Given under the key [plan], the same click is refused: there
    the value is written to the selector before the validation. *)
Theorem wrapper_decides (key : string) (fields : list (string * json))
    (v : json) :
  let a := JObj fields in
  let refused := {| at_index := 0; at_context := EmptyString;
                    fault := SelectorNotArray |} in
  existsb (String.eqb key)
          ["plan"; "checkpoints"; "app"; "description"; "start_url";
           "confidence"; "explain"] = false ->
  getField a "type" = Some (JStr "click") ->
  truthyU (getField a "selector") = false ->
  getField a "selector_candidates" = Some v ->
  truthyJ v = true ->
  isArray (Some v) = false ->
  planFromParsed (JObj [(key, JArr [a])])
  = inr (JObj [("plan", JArr [setField a "selector" v])])
  /\ planFromParsed (JObj [("plan", JArr [a])])
     = inl (ValidationFailed (InvalidAction refused))
  /\ validateAction (setField a "selector" v) 0 EmptyString = inl refused.
Proof.
  cbv zeta. intros Hkey Et Hs Hc Hv Ha.
  assert (Eco : coerceSelector (JObj fields)
                = setField (JObj fields) "selector" v).
  { unfold coerceSelector. rewrite Hs, Hc. cbn [truthyU negb andb].
    rewrite Hv. reflexivity. }
  assert (Eca : coerceArray (JObj fields) = JObj fields).
  { apply coerceArray_fixed. right. rewrite Hc. exact Ha. }
  assert (Eok : validateAction (JObj fields) 0 EmptyString
                = inr (JObj fields)).
  { rewrite (validateAction_intro fields "click" 0 EmptyString Et eq_refl
               eq_refl); rewrite Eca; [reflexivity|].
    apply checkFields_click. exact Hs. }
  assert (Eno : validateAction (setField (JObj fields) "selector" v) 0
                               EmptyString
                = inl {| at_index := 0; at_context := EmptyString;
                         fault := SelectorNotArray |}).
  { destruct (set_object fields "selector" v) as [f' Ef].
    assert (Esel : getField (JObj f') "selector" = Some v)
      by (rewrite <- Ef; apply get_set_same).
    assert (Ety : getField (JObj f') "type" = Some (JStr "click"))
      by (rewrite <- Ef, get_set_other by discriminate; exact Et).
    rewrite Ef. unfold validateAction.
    cbn [truthyJ typeofObject negb orb]. rewrite Ety.
    cbn [truthy negb allowed existsb String.eqb Ascii.eqb Bool.eqb orb andb].
    rewrite (coerceArray_fixed (JObj f'))
      by (left; rewrite Esel; exact Hv).
    unfold checkFields. rewrite Esel. cbn [truthyU]. rewrite Hv, Ha.
    reflexivity. }
  split; [|split; [|exact Eno]].
  - cbn [existsb] in Hkey.
    repeat (apply orb_false_iff in Hkey as [? Hkey]).
    assert (En : normalizeParsedPlanner (JObj [(key, JArr [JObj fields])])
                 = Some (JObj [("plan", JArr [JObj fields])])).
    { unfold normalizeParsedPlanner, firstArray, objectOf.
      cbn [truthyJ typeofObject negb orb getField lookup map fst find].
      repeat match goal with
             | H : String.eqb key _ = false |- _ => rewrite H; clear H
             end.
      cbn [truthyU orb]. rewrite String.eqb_refl.
      cbn [isArray flat_map snd fst app]. rewrite String.eqb_refl.
      reflexivity. }
    rewrite (planFromParsed_pipeline _ _ En).
    unfold pipeline.
    cbn [getField lookup String.eqb Ascii.eqb Bool.eqb nonEmptyArray isArray
         itemsOf length Nat.eqb negb andb validateActions].
    rewrite Eok. cbn [map setField assign String.eqb Ascii.eqb Bool.eqb].
    rewrite Eco. reflexivity.
  - assert (En : normalizeParsedPlanner (JObj [("plan", JArr [JObj fields])])
                 = Some (JObj [("plan",
                                JArr [setField (JObj fields) "selector" v])])).
    { unfold normalizeParsedPlanner.
      cbn [truthyJ typeofObject negb orb getField lookup String.eqb Ascii.eqb
           Bool.eqb truthyU isArray itemsOf map setField assign].
      rewrite Eco. reflexivity. }
    rewrite (planFromParsed_pipeline _ _ En). unfold pipeline.
    cbn [getField lookup String.eqb Ascii.eqb Bool.eqb nonEmptyArray isArray
         itemsOf length Nat.eqb negb andb validateActions].
    rewrite Eno. reflexivity.
Qed.

(** X21. A plan found under another key.  When the answer is an object
    with neither a plan nor checkpoints, the array under its first key that
    holds one is taken for the plan.  What is then returned has no
    checkpoints and no task identifier, whatever the answer had; and
    without any array in the answer the call fails for its missing plan. *)
Theorem plan_under_other_key (fields : list (string * json)) :
  hasPlanOrCheckpoints (JObj fields) = false ->
  (firstArray (JObj fields) = None ->
   planFromParsed (JObj fields) = inl MissingCheckpointsOrPlan)
  /\ forall out,
       planFromParsed (JObj fields) = inr out ->
       getField out "task_id" = None
       /\ getField out "checkpoints" = None
       /\ exists k items pl,
            In k (map fst fields)
            /\ getField (JObj fields) k = Some (JArr items)
            /\ firstArray (JObj fields) = Some (JArr items)
            /\ validateActions items 0 EmptyString = inr pl
            /\ getField out "plan" = Some (JArr (map coerceSelector pl)).
Proof.
  intros Hb.
  assert (Hn : normalizeParsedPlanner (JObj fields)
               = Some match firstArray (JObj fields) with
                      | Some v =>
                          objectOf
                            [("plan", Some v);
                             ("app", getField (JObj fields) "app");
                             ("description",
                              getField (JObj fields) "description");
                             ("start_url",
                              getField (JObj fields) "start_url");
                             ("confidence",
                              getField (JObj fields) "confidence");
                             ("explain", getField (JObj fields) "explain")]
                      | None => JObj fields
                      end).
  { unfold normalizeParsedPlanner. cbn [truthyJ typeofObject negb orb].
    fold (hasPlanOrCheckpoints (JObj fields)). rewrite Hb.
    destruct (firstArray (JObj fields)); reflexivity. }
  rewrite (planFromParsed_pipeline _ _ Hn). unfold pipeline.
  assert (Hfalse : nonEmptyArray (getField (JObj fields) "checkpoints") = false
                   /\ nonEmptyArray (getField (JObj fields) "plan") = false).
  { unfold hasPlanOrCheckpoints in Hb. apply orb_false_iff in Hb as [H1 H2].
    split.
    - destruct (nonEmptyArray (getField (JObj fields) "checkpoints")) eqn:E;
        [|reflexivity].
      apply nonEmptyArray_isArray, isArray_truthy in E. congruence.
    - destruct (nonEmptyArray (getField (JObj fields) "plan")) eqn:E;
        [|reflexivity].
      apply nonEmptyArray_isArray, isArray_truthy in E. congruence. }
  destruct Hfalse as [Hc Hp].
  destruct (firstArray (JObj fields)) as [v|] eqn:Ef.
  - split; [discriminate|]. intros out.
    rewrite objectOf_checkpoints, objectOf_plan.
    cbn [nonEmptyArray isArray itemsOf andb negb].
    assert (Hk : exists k items,
               In k (map fst fields)
               /\ getField (JObj fields) k = Some (JArr items)
               /\ v = JArr items).
    { unfold firstArray in Ef.
      destruct (find (fun k => isArray (getField (JObj fields) k))
                     (map fst fields)) as [k|] eqn:Ek; [|discriminate].
      apply find_some in Ek as [Hin Harr].
      apply isArray_items in Harr. rewrite Harr in Ef.
      inversion Ef. exists k, (itemsOf (getField (JObj fields) k)).
      repeat split; auto. }
    destruct Hk as (k & items & Hin & Hget & ->).
    unfold nonEmptyArray. cbn [isArray itemsOf andb].
    destruct (Nat.eqb (length items) 0) eqn:El; cbn [negb andb];
      [discriminate|].
    destruct (validateActions items 0 EmptyString) as [e|pl] eqn:Ev;
      [discriminate|].
    intros H. injection H as Eout. subst out.
    destruct (lookup "app" fields), (lookup "description" fields),
      (lookup "start_url" fields), (lookup "confidence" fields),
      (lookup "explain" fields);
      (split; [reflexivity|]); (split; [reflexivity|]);
      exists k, items, pl; repeat split; auto.
  - split; [|intros out]; rewrite Hc, Hp; cbn; [reflexivity|discriminate].
Qed.

End PlannerFacts.

Module PlannerRuns.

Import Planner PlannerFacts.
Local Open Scope list_scope.

(** A fill whose selectors come as candidates. *)
Definition fillByCandidates : json :=
  JObj [("type", JStr "fill"); ("text", JStr "hi");
        ("selector_candidates", JArr [JStr "input"])].

(** A click whose candidates are one string, not an array. *)
Definition clickByString : list (string * json) :=
  [("type", JStr "click"); ("selector_candidates", JStr "button")].

(** An answer in the checkpointed format, its actions under [actions]. *)
Definition checkpointed : json :=
  JObj [("task_id", JStr "t");
        ("checkpoints",
         JArr [JObj [("name", JStr "open");
                     ("actions", JArr [fillByCandidates])]])].

(** An answer whose actions come under a key of its own. *)
Definition underSteps : list (string * json) :=
  [("task_id", JStr "t"); ("steps", JArr [fillByCandidates])].

(** The candidates of a fill become its selector, and the result passes
    the validation again. *)
Lemma validated_action_witness :
  let a' := setField fillByCandidates "selector" (JArr [JStr "input"]) in
  validateAction fillByCandidates 3 "ctx" = inr a'
  /\ validateAction a' 0 EmptyString = inr a'.
Proof.
  cbv zeta.
  assert (H : validateAction fillByCandidates 3 "ctx"
              = inr (setField fillByCandidates "selector"
                              (JArr [JStr "input"])))
    by (vm_compute; reflexivity).
  split; [exact H|].
  destruct (validated_action _ _ _ _ H) as (_ & _ & _ & _ & Hst).
  apply Hst.
Defined.

(** A checkpointed answer is returned as it was normalized. *)
Lemma accepted_answer_witness :
  exists out,
    planFromParsed checkpointed = inr out
    /\ normalizeParsedPlanner checkpointed = Some out.
Proof.
  destruct (planFromParsed checkpointed) as [e|out] eqn:E;
    [vm_compute in E; discriminate|].
  exists out. split; [reflexivity|].
  destruct (accepted_answer _ _ E) as (n & Hn & _ & _ & Hsame & _).
  rewrite Hn. f_equal. symmetry. apply Hsame. vm_compute. reflexivity.
Defined.

(** The click comes back with a string for its selector from an array
    under the key steps, and is refused under the key plan. *)
Lemma wrapper_decides_witness :
  planFromParsed (JObj [("steps", JArr [JObj clickByString])])
  = inr (JObj [("plan",
                JArr [setField (JObj clickByString) "selector"
                               (JStr "button")])])
  /\ planFromParsed (JObj [("plan", JArr [JObj clickByString])])
     = inl (ValidationFailed
              (InvalidAction {| at_index := 0; at_context := EmptyString;
                                fault := SelectorNotArray |})).
Proof.
  destruct (wrapper_decides "steps" clickByString (JStr "button")
              eq_refl eq_refl eq_refl eq_refl eq_refl eq_refl)
    as (H1 & H2 & _).
  split; [exact H1|exact H2].
Defined.

(** The task identifier of the answer is lost when the plan is found
    under a key of its own. *)
Lemma plan_under_other_key_witness :
  exists out,
    planFromParsed (JObj underSteps) = inr out
    /\ getField (JObj underSteps) "task_id" = Some (JStr "t")
    /\ getField out "task_id" = None.
Proof.
  destruct (planFromParsed (JObj underSteps)) as [e|out] eqn:E;
    [vm_compute in E; discriminate|].
  exists out. split; [reflexivity|]. split; [reflexivity|].
  destruct (plan_under_other_key underSteps eq_refl) as [_ H].
  destruct (H out E) as [Ht _]. exact Ht.
Defined.

End PlannerRuns.

(* ===================================================================== *)
(** ** From the planner to the executor *)
(* ===================================================================== *)

Module HandoverFacts.

Import Planner PlannerFacts.
Local Open Scope list_scope.

Lemma nonEmptyArray_truthy (v : option json) :
  nonEmptyArray v = true -> truthyU v = true.
Proof. intros H. apply isArray_truthy, nonEmptyArray_isArray, H. Qed.

(** X22. What the executor makes of a plan that [callPlanner] returned.
    With checkpoints that are a non-empty array the run goes through
    them.  With checkpoints that are absent, or false in a condition, it
    goes through one checkpoint named plan that holds the plan.  In the
    one case left, checkpoints that are true in a condition without being
    a non-empty array, an empty array for one, the run is refused for
    having no checkpoints, although the plan was accepted for its plan
    array. *)
Theorem accepted_plan_handover (parsed out : json) :
  planFromParsed parsed = inr out ->
  (nonEmptyArray (getField out "checkpoints") = true ->
   Handover.checkpoints out = Some (itemsOf (getField out "checkpoints")))
  /\ (truthyU (getField out "checkpoints") = false ->
      exists pl,
        getField out "plan" = Some (JArr pl) /\ pl <> []
        /\ Handover.checkpoints out
           = Some [JObj [("name", JStr "plan");
                         ("action_sequence", JArr pl)]])
  /\ (truthyU (getField out "checkpoints") = true ->
      nonEmptyArray (getField out "checkpoints") = false ->
      Handover.checkpoints out = None
      /\ nonEmptyArray (getField out "plan") = true).
Proof.
  intros H.
  assert (Hhas : (nonEmptyArray (getField out "checkpoints")
                  || nonEmptyArray (getField out "plan"))%bool = true).
  { destruct (normalizeParsedPlanner parsed) as [n|] eqn:Hn;
      [|unfold planFromParsed in H; rewrite Hn in H; discriminate].
    rewrite (planFromParsed_pipeline _ _ Hn) in H. unfold pipeline in H.
    destruct (nonEmptyArray (getField n "checkpoints")) eqn:Ehc;
      destruct (nonEmptyArray (getField n "plan")) eqn:Ehp;
      cbn [negb andb] in H; try discriminate.
    - destruct (validateCheckpoints _ _ 0); [discriminate|].
      destruct (validateActions (itemsOf (getField n "plan")) 0 EmptyString)
        as [e|pl]; [discriminate|].
      injection H as <-. rewrite get_set_other by discriminate.
      rewrite Ehc. reflexivity.
    - destruct (validateCheckpoints _ _ 0); [discriminate|].
      injection H as <-. rewrite Ehc. reflexivity.
    - destruct (validateActions (itemsOf (getField n "plan")) 0 EmptyString)
        as [e|pl] eqn:Ev; [discriminate|].
      injection H as <-.
      pose proof (isArray_items _ (nonEmptyArray_isArray _ Ehp)) as Epl.
      destruct (get_some_object _ _ _ Epl) as [fields ->].
      rewrite get_set_same. unfold nonEmptyArray at 2.
      cbn [isArray itemsOf andb].
      rewrite length_map, (validateActions_length _ _ _ _ Ev).
      apply nonEmptyArray_items in Ehp.
      destruct (itemsOf (getField (JObj fields) "plan")); [congruence|].
      apply orb_true_r. }
  unfold Handover.checkpoints, orU.
  split; [|split].
  - intros Hc. rewrite (nonEmptyArray_truthy _ Hc).
    unfold nonEmptyArray in Hc. apply andb_true_iff in Hc as [H1 H2].
    rewrite H1. cbn [negb orb].
    destruct (Nat.eqb (length (itemsOf (getField out "checkpoints"))) 0);
      [discriminate|reflexivity].
  - intros Hc. rewrite Hc.
    assert (Hp : nonEmptyArray (getField out "plan") = true).
    { destruct (nonEmptyArray (getField out "checkpoints")) eqn:E;
        [apply nonEmptyArray_truthy in E; congruence|exact Hhas]. }
    rewrite (nonEmptyArray_truthy _ Hp).
    pose proof (nonEmptyArray_items _ Hp) as Hitems.
    destruct (getField out "plan") as [[| | | |pl|]|]; try discriminate.
    exists pl. split; [reflexivity|]. split; [exact Hitems|reflexivity].
  - intros Hc Hne. rewrite Hc. rewrite Hne in Hhas. cbn [orb] in Hhas.
    split; [|exact Hhas].
    unfold nonEmptyArray in Hne.
    destruct (isArray (getField out "checkpoints")); cbn [negb orb andb] in *;
      [|reflexivity].
    destruct (Nat.eqb (length (itemsOf (getField out "checkpoints"))) 0);
      [reflexivity|discriminate].
Qed.

(** X23. An answer that the planner accepts and the executor refuses:
    an empty array of checkpoints beside a plan whose actions are all
    valid.  [callPlanner] returns it for its plan, with the empty array of
    checkpoints still in it, and the executor, which looks at the
    checkpoints first, finds none. *)
Theorem accepted_yet_refused (pl pl' : list json) :
  pl <> [] ->
  validateActions (map coerceSelector pl) 0 EmptyString = inr pl' ->
  let answer := JObj [("checkpoints", JArr []); ("plan", JArr pl)] in
  let out := JObj [("checkpoints", JArr []);
                   ("plan", JArr (map coerceSelector pl))] in
  planFromParsed answer = inr out
  /\ Handover.checkpoints out = None.
Proof.
  intros Hne Hv. cbv zeta. split; [|reflexivity].
  assert (Hn : normalizeParsedPlanner
                 (JObj [("checkpoints", JArr []); ("plan", JArr pl)])
               = Some (JObj [("checkpoints", JArr []);
                             ("plan", JArr (map coerceSelector pl))]))
    by reflexivity.
  rewrite (planFromParsed_pipeline _ _ Hn). unfold pipeline.
  cbn [getField lookup String.eqb Ascii.eqb Bool.eqb].
  unfold nonEmptyArray. cbn [isArray itemsOf length Nat.eqb negb andb].
  rewrite length_map.
  destruct pl as [|a pl]; [congruence|].
  cbn [length Nat.eqb negb andb]. rewrite Hv.
  pose proof (validateActions_coerced _ _ _ _ Hv) as E. subst pl'.
  rewrite map_map, (map_ext _ _ coerceSelector_idem). reflexivity.
Qed.

End HandoverFacts.

(* ===================================================================== *)
(** ** The hints of the prompt *)
(* ===================================================================== *)

Module PromptFacts.

Import Prompt.
Local Open Scope list_scope.

Lemma keepHint_true (text : string) :
  keepHint text = true ->
  text <> EmptyString /\ prefix "img" text = false /\ text <> "on".
Proof.
  unfold keepHint. intros H.
  apply andb_true_iff in H as [H H3]. apply andb_true_iff in H as [H1 H2].
  split; [intros ->; discriminate|].
  split; [now apply negb_true_iff in H2|].
  apply negb_true_iff in H3. now apply String.eqb_neq in H3.
Qed.

(** X24. The hints of the prompt.  The texts of the visible elements put
    into the prompt are at most 120 and distinct, the set being built
    after the trimming; each is the trimmed text of one of the elements,
    is not empty, does not start with img and is not the word on.  The
    top texts are at most 40, distinct, trimmed and not empty. *)
Theorem prompt_hints (visible_elements : list VisibleElement)
    (top_texts : list string) :
  let hs := visibleHints visible_elements in
  let ts := topTexts top_texts in
  NoDup hs /\ (length hs <= 120)%nat
  /\ Forall (fun h => h <> EmptyString /\ prefix "img" h = false
                      /\ h <> "on" /\ trim h = h
                      /\ exists e, In e visible_elements /\ h = hintOf e) hs
  /\ NoDup ts /\ (length ts <= 40)%nat
  /\ Forall (fun t => t <> EmptyString /\ trim t = t
                      /\ exists s, In s top_texts /\ t = trim s) ts.
Proof.
  cbv zeta. unfold visibleHints, topTexts.
  split; [apply NoDup_firstn, dedupOnto_NoDup|].
  split; [apply firstn_le_length|].
  split.
  { apply Forall_forall. intros h Hh.
    apply RecoveryFacts.firstn_subset in Hh.
    apply -> RecoveryFacts.setOf_In in Hh.
    apply filter_In in Hh as [Hin Hk].
    apply in_map_iff in Hin as (e & <- & He).
    destruct (keepHint_true _ Hk) as (H1 & H2 & H3).
    repeat split; auto.
    - unfold hintOf. apply JsFacts.trim_clean.
    - eauto. }
  split; [apply NoDup_firstn, dedupOnto_NoDup|].
  split; [apply firstn_le_length|].
  apply Forall_forall. intros t Ht.
  apply RecoveryFacts.firstn_subset in Ht.
  apply -> RecoveryFacts.setOf_In in Ht.
  apply filter_In in Ht as [Hin Hk].
  apply in_map_iff in Hin as (s & <- & Hs).
  split; [intros E; rewrite E in Hk; discriminate|].
  split; [apply JsFacts.trim_clean|eauto].
Qed.

End PromptFacts.

(* ===================================================================== *)
(** ** Fuzzy fallbacks *)
(* ===================================================================== *)

Module JsLengths.

Lemma utf16Length_app (x y : string) :
  utf16Length (x ++ y) = (utf16Length x + utf16Length y)%nat.
Proof.
  induction x as [|c x IH]; [reflexivity|].
  cbn [append utf16Length]. rewrite IH. lia.
Qed.

Lemma rev_length (s : string) : utf16Length (rev s) = utf16Length s.
Proof.
  induction s as [|c s IH]; [reflexivity|].
  change (String c s) with (String c EmptyString ++ s)%string.
  rewrite JsFacts.rev_append, !utf16Length_app, IH.
  unfold rev. cbn [rev_onto]. lia.
Qed.

Lemma trimStart_length (s : string) :
  (utf16Length (trimStart s) <= utf16Length s)%nat.
Proof.
  destruct (JsFacts.trimStart_suffix s) as [pre E].
  rewrite E at 2. rewrite utf16Length_app. lia.
Qed.

Lemma trimStartRev_length (s : string) :
  (utf16Length (trimStartRev s) <= utf16Length s)%nat.
Proof.
  destruct (JsFacts.trimStartRev_suffix s) as [pre E].
  rewrite E at 2. rewrite utf16Length_app. lia.
Qed.

Lemma trim_length (s : string) :
  (utf16Length (trim s) <= utf16Length s)%nat.
Proof.
  unfold trim, trimEnd. rewrite rev_length.
  etransitivity; [apply trimStartRev_length|]. rewrite rev_length.
  apply trimStart_length.
Qed.

Lemma splitWhiteFrom_eq (s cur : string) (inRun : bool) :
  splitWhiteFrom cur inRun s
  = match afterWhite s with
    | Some r =>
        if inRun then splitWhiteFrom cur true r
        else rev cur :: splitWhiteFrom EmptyString true r
    | None =>
        match s with
        | String a r => splitWhiteFrom (String a cur) false r
        | EmptyString => [rev cur]
        end
    end.
Proof.
  destruct s as [|a [|b [|c r]]]; cbn [splitWhiteFrom afterWhite];
    try reflexivity.
  - destruct (isWhite a); reflexivity.
  - destruct (isWhite a); [reflexivity|]. destruct (white2 a b); reflexivity.
  - destruct (isWhite a); [reflexivity|].
    destruct (white2 a b); [reflexivity|].
    destruct (white3 a b c); reflexivity.
Qed.

Lemma splitWhiteFrom_length_upto (n : nat) : forall s cur inRun p,
  (String.length s <= n)%nat ->
  In p (splitWhiteFrom cur inRun s) ->
  (utf16Length p <= utf16Length cur + utf16Length s)%nat.
Proof.
  induction n as [|n IH]; intros s cur inRun p Hn Hp.
  - destruct s; [|cbn in Hn; lia]. destruct Hp as [<- | []].
    rewrite rev_length. lia.
  - rewrite splitWhiteFrom_eq in Hp.
    destruct (afterWhite s) as [r|] eqn:E.
    + destruct (JsFacts.afterWhite_cut s r E) as (w & -> & Hw).
      rewrite JsFacts.length_app in Hn. rewrite utf16Length_app.
      destruct inRun.
      * apply IH in Hp; [lia|lia].
      * destruct Hp as [<- | Hp]; [rewrite rev_length; lia|].
        apply IH in Hp; [|lia]. cbn [utf16Length] in Hp. lia.
    + destruct s as [|a r].
      * destruct Hp as [<- | []]. rewrite rev_length. lia.
      * cbn [String.length] in Hn. apply IH in Hp; [|lia].
        cbn [utf16Length] in *. lia.
Qed.

Lemma splitWhite_length (s p : string) :
  In p (splitWhite s) -> (utf16Length p <= utf16Length s)%nat.
Proof.
  intros H.
  apply (splitWhiteFrom_length_upto (String.length s)) in H; [|lia].
  cbn [utf16Length] in H. exact H.
Qed.

End JsLengths.

Section FallbackProperties.

Local Open Scope list_scope.
Context {W Snap : Type} (B : Browser W Snap).

(** The locator of an element that has a text. *)
Definition hasText (t : string) : string :=
  (":has-text(" ++ dquote ++ t ++ dquote ++ ")")%string.

Lemma stripQuotes_length (s : string) :
  (utf16Length (stripQuotes s) <= utf16Length s)%nat.
Proof.
  induction s as [|c s IH]; [apply le_n|]. cbn [stripQuotes].
  destruct (Nat.eqb (nat_of_ascii c) 34 || Nat.eqb (nat_of_ascii c) 39)%bool;
    cbn [utf16Length]; lia.
Qed.

Lemma fallbackCandidates_In (orig : list string) (hint : option string)
    (c : string) :
  In c (fallbackCandidates orig hint) ->
  c = "button:has-text('Create')" \/ c = "button:has-text('+')"
  \/ (In c orig /\ c <> EmptyString)
  \/ exists t h,
       hint = Some h /\ (2 < utf16Length t)%nat
       /\ (utf16Length t <= utf16Length h)%nat
       /\ (c = hasText t \/ c = ("button" ++ hasText t)%string).
Proof.
  unfold fallbackCandidates. intros H.
  apply in_app_or in H as [H|H].
  - right. right. right. destruct hint as [h|]; [|contradiction].
    destruct (nonBlank h); [|contradiction].
    apply in_app_or in H as [H|H].
    + destruct (Nat.ltb 2 (utf16Length (stripQuotes (trim h)))) eqn:El;
        [|contradiction].
      apply Nat.ltb_lt in El.
      exists (stripQuotes (trim h)), h. split; [reflexivity|].
      split; [exact El|]. split.
      { etransitivity; [apply stripQuotes_length|].
        apply JsLengths.trim_length. }
      destruct H as [<- | [<- | []]]; [now left|now right].
    + apply in_map_iff in H as (p & <- & Hp).
      apply filter_In in Hp as [Hp Hl]. apply Nat.ltb_lt in Hl.
      apply RecoveryFacts.firstn_subset in Hp.
      exists p, h. split; [reflexivity|]. split; [exact Hl|].
      split; [exact (JsLengths.splitWhite_length h p Hp)|now left].
  - apply in_app_or in H as [H|H].
    + destruct H as [<- | [<- | []]]; auto.
    + apply filter_In in H as [Hin Ht]. right. right. left.
      split; [exact Hin|]. intros ->. discriminate.
Qed.

(** X25. The fuzzy fallback.  What [fallbackSelectors] returns is one of
    its two built-in locators, a non-empty selector it was given, or a
    locator by text for a piece of the hint that is more than two UTF-16
    code units long, the measure of [length] in JavaScript: a hint of one
    or two units never becomes a locator.  Without a hint, or with one of
    at most two units, only the built-in locators and the given selectors
    are tried, in that order. *)
Theorem fallback_guard (orig : list string) (hint : option string) (w : W) :
  match fst (fallbackSelectors B orig hint w) with
  | Some c =>
      c = "button:has-text('Create')" \/ c = "button:has-text('+')"
      \/ (In c orig /\ c <> EmptyString)
      \/ exists t h,
           hint = Some h /\ (2 < utf16Length t)%nat
           /\ (utf16Length t <= utf16Length h)%nat
           /\ (c = hasText t \/ c = ("button" ++ hasText t)%string)
  | None => True
  end
  /\ ((forall h, hint = Some h -> (utf16Length h <= 2)%nat) ->
      fallbackCandidates orig hint
      = ["button:has-text('Create')"; "button:has-text('+')"]
        ++ filter truthy orig).
Proof.
  split.
  - unfold fallbackSelectors.
    destruct (trySelectorsSimple B (fallbackCandidates orig hint) 800 w)
      as [[c|] w'] eqn:E; [|exact I].
    cbn [fst]. apply (fallbackCandidates_In orig hint).
    apply (trySelectors_In B _ _ _ _ _ E).
  - intros Hshort. unfold fallbackCandidates.
    destruct hint as [h|]; [|reflexivity].
    destruct (nonBlank h); [|reflexivity].
    specialize (Hshort h eq_refl).
    assert (E1 : Nat.ltb 2 (utf16Length (stripQuotes (trim h))) = false).
    { apply Nat.ltb_ge. etransitivity; [apply stripQuotes_length|].
      etransitivity; [apply JsLengths.trim_length|exact Hshort]. }
    rewrite E1. cbn [app].
    assert (E2 : filter (fun p => Nat.ltb 2 (utf16Length p))
                        (firstn 3 (splitWhite h)) = []).
    { destruct (filter (fun p => Nat.ltb 2 (utf16Length p))
                       (firstn 3 (splitWhite h))) as [|p l] eqn:Ef;
        [reflexivity|].
      assert (Hp : In p (filter (fun p => Nat.ltb 2 (utf16Length p))
                                (firstn 3 (splitWhite h))))
        by (rewrite Ef; now left).
      apply filter_In in Hp as [Hp Hl]. apply Nat.ltb_lt in Hl.
      apply RecoveryFacts.firstn_subset in Hp.
      pose proof (JsLengths.splitWhite_length h p Hp). lia. }
    rewrite E2. reflexivity.
Qed.

End FallbackProperties.

Module HandoverRuns.

Import Sim Scenarios Planner PlannerFacts PlannerRuns.
Local Open Scope list_scope.

(** The executor goes through the checkpoints of a checkpointed answer. *)
Lemma accepted_plan_handover_witness :
  exists out,
    planFromParsed checkpointed = inr out
    /\ Handover.checkpoints out = Some (itemsOf (getField out "checkpoints")).
Proof.
  destruct (planFromParsed checkpointed) as [e|out] eqn:E;
    [vm_compute in E; discriminate|].
  exists out. split; [reflexivity|].
  destruct (HandoverFacts.accepted_plan_handover _ _ E) as (H1 & _).
  apply H1.
  assert (Eo : inr out = planFromParsed checkpointed) by (symmetry; exact E).
  vm_compute in Eo. injection Eo as ->. reflexivity.
Defined.

(** A fill beside an empty array of checkpoints: accepted by the planner,
    refused by the executor. *)
Lemma accepted_yet_refused_witness :
  planFromParsed (JObj [("checkpoints", JArr []);
                        ("plan", JArr [fillByCandidates])])
  = inr (JObj [("checkpoints", JArr []);
               ("plan", JArr [coerceSelector fillByCandidates])])
  /\ Handover.checkpoints
       (JObj [("checkpoints", JArr []);
              ("plan", JArr [coerceSelector fillByCandidates])]) = None.
Proof.
  apply (HandoverFacts.accepted_yet_refused
           [fillByCandidates] [coerceSelector fillByCandidates]).
  - discriminate.
  - vm_compute. reflexivity.
Defined.

End HandoverRuns.

(* ===================================================================== *)
(** ** Properties of the resolution of the application *)
(* ===================================================================== *)

Module AppResolverFacts.

Import Planner AppResolver.
Local Open Scope list_scope.

Lemma prefix_split (p : string) : forall s,
  prefix p s = true -> exists post, s = (p ++ post)%string.
Proof.
  induction p as [|c p IH]; intros s H.
  - exists s. reflexivity.
  - destruct s as [|d s]; [discriminate|]. cbn [prefix] in H.
    destruct (ascii_dec c d) as [<-|]; [|discriminate].
    destruct (IH s H) as [post ->]. exists post. reflexivity.
Qed.

Lemma includes_split (sub : string) : forall s,
  includes sub s = true ->
  exists pre post, s = (pre ++ sub ++ post)%string.
Proof.
  induction s as [|c s IH]; intros H.
  - cbn [includes] in H. rewrite orb_false_r in H.
    destruct (prefix_split _ _ H) as [post E].
    exists EmptyString, post. exact E.
  - cbn [includes] in H. apply orb_true_iff in H as [H|H].
    + destruct (prefix_split _ _ H) as [post E].
      exists EmptyString, post. exact E.
    + destruct (IH H) as (pre & post & ->).
      exists (String c pre), post. reflexivity.
Qed.

(** A string without a capital letter of ASCII. *)
Definition isCapital (c : ascii) : bool :=
  (Nat.leb 65 (nat_of_ascii c) && Nat.leb (nat_of_ascii c) 90)%bool.

Fixpoint noCapital (s : string) : bool :=
  match s with
  | String c r => (negb (isCapital c) && noCapital r)%bool
  | EmptyString => true
  end.

Lemma lowerChar_small (c : ascii) : isCapital (lowerChar c) = false.
Proof.
  destruct c as [b0 b1 b2 b3 b4 b5 b6 b7].
  destruct b0, b1, b2, b3, b4, b5, b6, b7; reflexivity.
Qed.

Lemma noCapital_app (x y : string) :
  noCapital (x ++ y) = (noCapital x && noCapital y)%bool.
Proof.
  induction x as [|c x IH]; [reflexivity|]. cbn [append noCapital].
  rewrite IH. now rewrite andb_assoc.
Qed.

Lemma toLowerCase_small_upto (n : nat) : forall s,
  (String.length s <= n)%nat -> noCapital (toLowerCase s) = true.
Proof.
  induction n as [|n IH]; intros s Hn.
  - destruct s; [reflexivity|cbn in Hn; lia].
  - destruct s as [|a [|b [|c r]]]; cbn [String.length] in Hn;
      [reflexivity| | |].
    + cbn [toLowerCase noCapital]. now rewrite lowerChar_small.
    + change (toLowerCase (String a (String b EmptyString)))
        with (if isDottedI a b then String "i" (dotAbove ++ EmptyString)
              else String (lowerChar a) (toLowerCase (String b EmptyString))).
      destruct (isDottedI a b); [reflexivity|].
      cbn [noCapital]. rewrite lowerChar_small. apply IH. cbn. lia.
    + change (toLowerCase (String a (String b (String c r))))
        with (if isDottedI a b
              then String "i" (dotAbove ++ toLowerCase (String c r))
              else if isKelvin a b c then String "k" (toLowerCase r)
                   else String (lowerChar a)
                               (toLowerCase (String b (String c r)))).
      destruct (isDottedI a b).
      { cbn [noCapital dotAbove append]. apply IH. cbn. lia. }
      destruct (isKelvin a b c).
      { cbn [noCapital]. apply IH. lia. }
      cbn [noCapital]. rewrite lowerChar_small. apply IH. cbn. lia.
Qed.

Lemma toLowerCase_small (s : string) : noCapital (toLowerCase s) = true.
Proof. now apply (toLowerCase_small_upto (String.length s)). Qed.

Lemma lowerAscii_id (s : string) : noCapital s = true -> lowerAscii s = s.
Proof.
  induction s as [|c s IH]; [reflexivity|]. cbn [noCapital lowerAscii].
  intros H. apply andb_true_iff in H as [Hc Hs]. rewrite (IH Hs).
  f_equal. unfold lowerChar. unfold isCapital in Hc.
  apply negb_true_iff in Hc. now rewrite Hc.
Qed.

(** On a text of ASCII the two ways to make letters small agree. *)
Lemma toLowerCase_ascii (s : string) :
  isAscii s = true -> toLowerCase s = lowerAscii s.
Proof.
  unfold isAscii. induction s as [|a s IH]; [reflexivity|].
  cbn [list_ascii_of_string forallb]. intros H.
  apply andb_true_iff in H as [Ha Hs]. apply Nat.ltb_lt in Ha.
  specialize (IH Hs). cbn [lowerAscii]. rewrite <- IH.
  destruct s as [|b [|c r]]; [reflexivity| |].
  - change (toLowerCase (String a (String b EmptyString)))
      with (if isDottedI a b then String "i" (dotAbove ++ EmptyString)
            else String (lowerChar a) (toLowerCase (String b EmptyString))).
    replace (isDottedI a b) with false; [reflexivity|].
    symmetry. unfold isDottedI. apply andb_false_iff. left.
    apply Nat.eqb_neq. lia.
  - change (toLowerCase (String a (String b (String c r))))
      with (if isDottedI a b
            then String "i" (dotAbove ++ toLowerCase (String c r))
            else if isKelvin a b c then String "k" (toLowerCase r)
                 else String (lowerChar a)
                             (toLowerCase (String b (String c r)))).
    replace (isDottedI a b) with false.
    + replace (isKelvin a b c) with false; [reflexivity|].
      symmetry. unfold isKelvin. apply andb_false_iff. left.
      apply andb_false_iff. left. apply Nat.eqb_neq. lia.
    + symmetry. unfold isDottedI. apply andb_false_iff. left.
      apply Nat.eqb_neq. lia.
Qed.

(** A piece of a lower-cased string has no capital letter. *)
Lemma includes_lower (key s : string) :
  isAscii key = true ->
  includes key (toLowerCase s) = true -> toLowerCase key = key.
Proof.
  intros Ha H. destruct (includes_split _ _ H) as (pre & post & E).
  pose proof (toLowerCase_small s) as Hs. rewrite E in Hs.
  rewrite !noCapital_app in Hs.
  apply andb_true_iff in Hs as [_ Hs]. apply andb_true_iff in Hs as [Hk _].
  rewrite (toLowerCase_ascii key Ha). now apply lowerAscii_id.
Qed.

Lemma lookup_skip (key : string) (entry : json)
    (pre post : list (string * json)) :
  ~ In key (map fst pre) ->
  lookup key (pre ++ (key, entry) :: post) = Some entry.
Proof.
  induction pre as [|[k v] pre IH]; intros Hn; cbn.
  - rewrite String.eqb_refl. reflexivity.
  - destruct (String.eqb k key) eqn:E.
    + apply String.eqb_eq in E. subst k. exfalso. apply Hn. now left.
    + apply IH. intros Hin. apply Hn. now right.
Qed.

Lemma ruleMatch_none (lower : string) (registry : list (string * json))
    (keys : list string) :
  (forall k, In k keys -> includes k lower = false) ->
  ruleMatch lower registry keys = None.
Proof.
  induction keys as [|k keys IH]; intros H; [reflexivity|].
  cbn [ruleMatch]. rewrite (H k (or_introl eq_refl)).
  apply IH. intros k' Hk'. apply H. now right.
Qed.

Lemma ruleMatch_first (lower : string) (registry : list (string * json))
    (before : list string) (key : string) (rest : list string) :
  (forall k, In k before -> includes k lower = false) ->
  includes key lower = true ->
  ruleMatch lower registry (before ++ key :: rest)
  = Some (entryInfo key (lookup key registry)).
Proof.
  induction before as [|k before IH]; intros H Hk; cbn [List.app ruleMatch].
  - rewrite Hk. reflexivity.
  - rewrite (H k (or_introl eq_refl)). apply IH; [|exact Hk].
    intros k' Hk'. apply H. now right.
Qed.

Section ResolveFacts.

Variable parse : string -> option json.
Variable toPropertyKey : option json -> string.

(** X26. The rule of the registry.  With keys of ASCII in the registry,
    the first key that the lower-cased instruction contains decides: its
    entry is returned, whatever the model and the person would have
    answered, and neither is asked.  Such a key has no capital letter: a
    key of the registry with a capital letter in it never matches. *)
Theorem registry_rule_first (registry pre post : list (string * json))
    (key : string) (entry : json) (instruction : string)
    (generated : option (option string)) (user : User) :
  (forall k, In k (map fst registry) -> isAscii k = true) ->
  registry = pre ++ (key, entry) :: post ->
  (forall k, In k (map fst pre) ->
             includes k (toLowerCase instruction) = false) ->
  includes key (toLowerCase instruction) = true ->
  resolveAppFromInstruction parse toPropertyKey registry instruction
                            generated user
  = entryInfo key (Some entry)
  /\ toLowerCase key = key.
Proof.
  intros Hascii -> Hpre Hkey. split.
  - unfold resolveAppFromInstruction.
    rewrite map_app. cbn [map fst].
    rewrite (ruleMatch_first _ _ _ _ _ Hpre Hkey).
    rewrite lookup_skip; [reflexivity|].
    intros Hin. specialize (Hpre _ Hin). congruence.
  - apply (includes_lower key instruction); [|exact Hkey].
    apply Hascii. rewrite map_app. apply in_or_app. right. now left.
Qed.

(** X27. No address without the person.  With keys of ASCII in the
    registry, when no key matches and an application is returned, its
    address was typed by the person, and is not empty, or the address
    proposed by the model was confirmed by an answer that starts with the
    letter y, in either case; and an unknown candidate is never
    returned. *)
Theorem no_address_without_consent (registry : list (string * json))
    (instruction : string) (text : option string) (user : User)
    (info : AppInfo) :
  (forall k, In k (map fst registry) -> isAscii k = true) ->
  (forall k, In k (map fst registry) ->
             includes k (toLowerCase instruction) = false) ->
  resolveAppFromInstruction parse toPropertyKey registry instruction
                            (Some text) user
  = Returns (Some info) ->
  (exists u,
      baseUrl info = Some (JStr u) /\ u <> EmptyString
      /\ authPath info = JNull
      /\ (u = trim (unknownUrl user) \/ u = trim (otherUrl user)))
  \/ (prefix "y" (toLowerCase (trim (confirmation user))) = true
      /\ isUnknown (candidateOf parse text) = false
      /\ app info = getField (candidateOf parse text) "app"
      /\ baseUrl info = getField (candidateOf parse text) "base_url").
Proof.
  intros _ Hno. unfold resolveAppFromInstruction.
  rewrite (ruleMatch_none _ _ _ Hno). unfold askUser, askCli.
  set (candidate := candidateOf parse text).
  destruct (negb (truthyJ candidate) || isUnknown candidate)%bool eqn:Ec.
  - destruct (truthy (trim (unknownUrl user))) eqn:Et; cbn [negb];
      [|discriminate].
    intros H. injection H as <-. left. exists (trim (unknownUrl user)).
    cbn. repeat split; auto. intros E. rewrite E in Et. discriminate.
  - apply orb_false_iff in Ec as [_ Eu].
    destruct (prefix "y" (toLowerCase (trim (confirmation user)))) eqn:Ey.
    + intros H. injection H as <-. right. cbn. auto.
    + destruct (truthy (trim (otherUrl user))) eqn:Et; cbn [negb];
        [|discriminate].
      intros H. injection H as <-. left. exists (trim (otherUrl user)).
      cbn. repeat split; auto. intros E. rewrite E in Et. discriminate.
Qed.

End ResolveFacts.

End AppResolverFacts.

Module AppResolverRuns.

Import Planner AppResolver AppResolverFacts.
Local Open Scope list_scope.

(** A registry of two applications. *)
Definition apps : list (string * json) :=
  [("Notion", JObj [("baseUrl", JStr "https://www.notion.so")]);
   ("linear", JObj [("baseUrl", JStr "https://linear.app");
                    ("authPath", JStr "auth/linear.json")])].

(** The person refuses the proposal and types an address. *)
Definition refusing : User :=
  {| unknownUrl := EmptyString; confirmation := " no ";
     otherUrl := " https://example.org " |}.

(** A model that proposes an application. *)
Definition proposal : json :=
  JObj [("app", JStr "asana"); ("base_url", JStr "https://asana.example")].

(** The key with a capital letter is passed over, the second key
    matches. *)
Lemma registry_rule_first_witness :
  resolveAppFromInstruction (fun _ => None) (fun _ => EmptyString) apps
                            "Create a project in Linear and Notion" None
                            refusing
  = Returns (Some {| app := Some (JStr "linear");
                     baseUrl := Some (JStr "https://linear.app");
                     authPath := JStr "auth/linear.json" |}).
Proof.
  destruct (registry_rule_first (fun _ => None) (fun _ => EmptyString) apps
              [("Notion", JObj [("baseUrl", JStr "https://www.notion.so")])]
              [] "linear"
              (JObj [("baseUrl", JStr "https://linear.app");
                     ("authPath", JStr "auth/linear.json")])
              "Create a project in Linear and Notion" None refusing
              ltac:(intros k [<- | [<- | []]]; reflexivity)
              eq_refl
              ltac:(intros k [<- | []]; vm_compute; reflexivity)
              ltac:(vm_compute; reflexivity)) as [H _].
  rewrite H. reflexivity.
Defined.

(** The proposal of the model is refused: the address returned is the one
    the person typed. *)
Lemma no_address_without_consent_witness :
  exists info,
    resolveAppFromInstruction (fun _ => Some proposal) (fun _ => EmptyString)
                              apps "open asana" (Some (Some "{}")) refusing
    = Returns (Some info)
    /\ baseUrl info = Some (JStr "https://example.org").
Proof.
  destruct (resolveAppFromInstruction (fun _ => Some proposal)
              (fun _ => EmptyString) apps "open asana" (Some (Some "{}"))
              refusing) as [|[info|]] eqn:E;
    try (vm_compute in E; discriminate).
  exists info. split; [reflexivity|].
  destruct (no_address_without_consent (fun _ => Some proposal)
              (fun _ => EmptyString) apps "open asana" (Some "{}") refusing
              info
              ltac:(intros k [<- | [<- | []]]; reflexivity)
              ltac:(intros k [<- | [<- | []]]; vm_compute; reflexivity)
              E)
    as [(u & Hu & Hne & _ & [-> | ->])|(Hy & _)].
  - exfalso. apply Hne. reflexivity.
  - exact Hu.
  - vm_compute in Hy. discriminate.
Defined.

End AppResolverRuns.
